(** * wasp: the binary reader and the text lexer, embedded and verified

    The definitions are a shallow embedding of

      - [src/binary/reader-inl.h]: the byte reader, the LEB128 integers,
        counts, strings and vectors, instructions, constant expressions,
        the module header, and the types, imports and items of the
        sections (module [binary]);
      - [src/text/lex.cc] with [src/text/keywords-inl.cc]: the lexer of the
        text format and its generated keyword dispatch (module [text]).

    A [SpanU8] is the list of the bytes from the cursor to the end of the
    buffer.  A function that receives a [SpanU8*] and moves it returns the
    new span next to its result.  The [Errors] object the readers receive
    is the sequence of the calls made on it.  Integers of a C++ type are
    the mathematical integers they denote, the wrap-around of each
    operation written out.

    The file has three parts: the embedding, the notions the properties
    are stated with, and the properties with their proofs (LEB128 integers,
    counts and strings, the module header, constant expressions, then the
    lexer; then further properties of the reader, the readers of the items
    of the sections among them, and of the lexer). *)

From Stdlib Require Import ZArith List Lia Bool String Ascii.
From Stdlib Require Import Strings.Byte.
Import ListNotations.
Open Scope Z_scope.

Set Implicit Arguments.

(* ================================================================== *)
(** * Bytes, spans and fixed-width integers *)

Definition u8 := Byte.byte.
Definition SpanU8 := list u8.

Definition u8_to_Z (b : u8) : Z := Z.of_N (Byte.to_N b).
Arguments u8_to_Z b%_byte.

Definition u8_of_Z (z : Z) : u8 :=
  match Byte.of_N (Z.to_N (z mod 256)) with
  | Some b => b
  | None => x00
  end.

Definition bytes (l : list Z) : SpanU8 := map u8_of_Z l.

Definition size (data : SpanU8) : Z := Z.of_nat (List.length data).

Definition remove_prefix (data : SpanU8) (n : Z) : SpanU8 :=
  skipn (Z.to_nat n) data.

Definition subspan (data : SpanU8) (offset count : Z) : SpanU8 :=
  firstn (Z.to_nat count) (skipn (Z.to_nat offset) data).

(** An integer type of the reader: its width and its signedness.  A value
    of the type is the mathematical integer it denotes. *)
Record IntType := { bits : Z; is_signed : bool }.

Definition U32 := {| bits := 32; is_signed := false |}.
Definition S32 := {| bits := 32; is_signed := true |}.
Definition U64 := {| bits := 64; is_signed := false |}.
Definition S64 := {| bits := 64; is_signed := true |}.

(** Conversion to the unsigned type of [w] bits. *)
Definition wrapU (w : Z) (x : Z) : Z := x mod 2 ^ w.

(** Conversion of an unsigned [w]-bit pattern to the signed type. *)
Definition to_signed (w : Z) (x : Z) : Z :=
  let u := wrapU w x in
  if u <? 2 ^ (w - 1) then u else u - 2 ^ w.

Definition static_cast (T : IntType) (x : Z) : Z :=
  if is_signed T then to_signed (bits T) x else wrapU (bits T) x.

Module binary.

(* ================================================================== *)
(** * Opcodes and instructions *)

(** The enumerators are those [Read<Instr>] names; [Opcode_other] stands
    for any enumerator of the enumeration's declaration (not among the
    sources) that [Read<Instr>] does not name and sends to its [default]
    case. *)
Inductive Opcode : Type :=
| End | Unreachable | Nop | Else | Return | Drop | Select | I32Eqz | I32Eq
| I32Ne | I32LtS | I32LeS | I32LtU | I32LeU | I32GtS | I32GeS | I32GtU
| I32GeU | I64Eqz | I64Eq | I64Ne | I64LtS | I64LeS | I64LtU | I64LeU | I64GtS
| I64GeS | I64GtU | I64GeU | F32Eq | F32Ne | F32Lt | F32Le | F32Gt | F32Ge
| F64Eq | F64Ne | F64Lt | F64Le | F64Gt | F64Ge | I32Clz | I32Ctz | I32Popcnt
| I32Add | I32Sub | I32Mul | I32DivS | I32DivU | I32RemS | I32RemU | I32And
| I32Or | I32Xor | I32Shl | I32ShrS | I32ShrU | I32Rotl | I32Rotr | I64Clz
| I64Ctz | I64Popcnt | I64Add | I64Sub | I64Mul | I64DivS | I64DivU | I64RemS
| I64RemU | I64And | I64Or | I64Xor | I64Shl | I64ShrS | I64ShrU | I64Rotl
| I64Rotr | F32Abs | F32Neg | F32Ceil | F32Floor | F32Trunc | F32Nearest
| F32Sqrt | F32Add | F32Sub | F32Mul | F32Div | F32Min | F32Max | F32Copysign
| F64Abs | F64Neg | F64Ceil | F64Floor | F64Trunc | F64Nearest | F64Sqrt
| F64Add | F64Sub | F64Mul | F64Div | F64Min | F64Max | F64Copysign
| I32WrapI64 | I32TruncSF32 | I32TruncUF32 | I32TruncSF64 | I32TruncUF64
| I64ExtendSI32 | I64ExtendUI32 | I64TruncSF32 | I64TruncUF32 | I64TruncSF64
| I64TruncUF64 | F32ConvertSI32 | F32ConvertUI32 | F32ConvertSI64
| F32ConvertUI64 | F32DemoteF64 | F64ConvertSI32 | F64ConvertUI32
| F64ConvertSI64 | F64ConvertUI64 | F64PromoteF32 | I32ReinterpretF32
| I64ReinterpretF64 | F32ReinterpretI32 | F64ReinterpretI64 | Block | Loop
| If | Br | BrIf | Call | GetLocal | SetLocal | TeeLocal | GetGlobal
| SetGlobal | BrTable | CallIndirect | I32Load | I64Load | F32Load | F64Load
| I32Load8S | I32Load8U | I32Load16S | I32Load16U | I64Load8S | I64Load8U
| I64Load16S | I64Load16U | I64Load32S | I64Load32U | I32Store | I64Store
| F32Store | F64Store | I32Store8 | I32Store16 | I64Store8 | I64Store16
| I64Store32 | MemorySize | MemoryGrow | I32Const | I64Const | F32Const
| F64Const
| Opcode_other (code : u8).

Record MemArg := { align_log2 : Z; offset : Z }.

Record BrTableImmediate := { targets : list Z; default_target : Z }.

Record CallIndirectImmediate := { index : Z; reserved : u8 }.

Section Instr.
(** [BlockType] is declared outside the sources. *)
Variable BlockType : Type.

Inductive Immediate : Type :=
| EmptyImmediate
| Imm_BlockType (type : BlockType)
| Imm_Index (index : Z)
| Imm_BrTable (imm : BrTableImmediate)
| Imm_CallIndirect (imm : CallIndirectImmediate)
| Imm_MemArg (memarg : MemArg)
| Imm_u8 (reserved : u8)
| Imm_s32 (value : Z)
| Imm_s64 (value : Z)
| Imm_f32 (value : SpanU8)
| Imm_f64 (value : SpanU8).

Record Instr := { opcode : Opcode; immediate : Immediate }.
End Instr.

Arguments EmptyImmediate {BlockType}.
Arguments Imm_Index {BlockType}.
Arguments Imm_BrTable {BlockType}.
Arguments Imm_CallIndirect {BlockType}.
Arguments Imm_MemArg {BlockType}.
Arguments Imm_u8 {BlockType}.
Arguments Imm_s32 {BlockType}.
Arguments Imm_s64 {BlockType}.
Arguments Imm_f32 {BlockType}.
Arguments Imm_f64 {BlockType}.

(* ================================================================== *)
(** * The error sink *)

Inductive Message : Type :=
| Msg_UnableToReadU8
| Msg_UnableToReadBytes (N : Z)
| Msg_LastByteSignExtension (desc : string) (zero_ext one_ext byte : Z)
| Msg_LastByteZeroExtension (desc : string) (zero_ext byte : Z)
| Msg_CountLongerThanData (count size : Z)
| Msg_UnableToReadString (len : Z)
| Msg_Unknown (name : string) (val : u8)
| Msg_UnknownOpcode (opcode : Opcode)
| Msg_UnexpectedEndOfConstExpr
| Msg_IllegalInstructionInConstExpr (opcode : Opcode)
| Msg_ExpectedEndInstruction
| Msg_MagicMismatch (expected got : SpanU8)
| Msg_VersionMismatch (expected got : SpanU8).

(** One call on the [Errors] object; [Errors] is the calls made so far,
    the latest first. *)
Inductive ErrorsCall : Type :=
| OnError (pos : SpanU8) (msg : Message)
| PushContext (pos : SpanU8) (desc : string)
| PopContext.

Definition Errors := list ErrorsCall.

Definition is_OnError (c : ErrorsCall) : bool :=
  match c with OnError _ _ => true | _ => false end.

(** The number of errors reported. *)
Definition error_count (errors : Errors) : nat :=
  List.length (filter is_OnError errors).

(* ================================================================== *)
(** * The reader monad: a cursor, the error sink, an optional result *)

Definition Reader (A : Type) : Type :=
  SpanU8 -> Errors -> option A * SpanU8 * Errors.

Definition ret {A} (a : A) : Reader A :=
  fun data errors => (Some a, data, errors).

Definition nullopt {A} : Reader A :=
  fun data errors => (None, data, errors).

Definition bind {A B} (m : Reader A) (k : A -> Reader B) : Reader B :=
  fun data errors =>
    match m data errors with
    | (Some a, data', errors') => k a data' errors'
    | (None, data', errors') => (None, data', errors')
    end.

Notation "'WASP_TRY_READ' x <- c ;; k" := (bind c (fun x => k))
  (at level 61, c at next level, x name, right associativity).
Notation "c ;;; k" := (bind c (fun _ => k))
  (at level 61, right associativity).

Definition errors_OnError (msg : Message) : Reader unit :=
  fun data errors => (Some tt, data, OnError data msg :: errors).

Definition errors_PushContext (desc : string) : Reader unit :=
  fun data errors => (Some tt, data, PushContext data desc :: errors).

Definition errors_PopContext : Reader unit :=
  fun data errors => (Some tt, data, PopContext :: errors).

(** [ErrorsContextGuard guard{errors, *data, desc}]: the context is pushed
    where the guard is declared and popped on every way out of the
    function. *)
Definition ErrorsContextGuard {A} (desc : string) (body : Reader A) : Reader A :=
  fun data errors =>
    match body data (PushContext data desc :: errors) with
    | (r, data', errors') => (r, data', PopContext :: errors')
    end.

(** [WASP_TRY_READ_CONTEXT(var, call, desc)]: on failure the macro returns
    before its [PopContext]. *)
Definition WASP_TRY_READ_CONTEXT {A} (call : Reader A) (desc : string) : Reader A :=
  errors_PushContext desc ;;;
  WASP_TRY_READ var <- call ;;
  errors_PopContext ;;;
  ret var.

(* ================================================================== *)
(** * Bytes *)

Definition Read_u8 : Reader u8 :=
  fun data errors =>
    match data with
    | [] => (None, data, OnError data Msg_UnableToReadU8 :: errors)
    | result :: data' => (Some result, data', errors)
    end.

Definition ReadBytes (N : Z) : Reader SpanU8 :=
  fun data errors =>
    if size data <? N then
      (None, data, OnError data (Msg_UnableToReadBytes N) :: errors)
    else
      (Some (subspan data 0 N), remove_prefix data N, errors).

(* ================================================================== *)
(** * LEB128 integers *)

Definition SignExtend (S : IntType) (x : Z) (N : Z) : Z :=
  let kNumBits := bits S in
  Z.shiftr (static_cast S (wrapU kNumBits (Z.shiftl x (kNumBits - N - 1))))
           (kNumBits - N - 1).

Section ReadVarInt.
Variable T : IntType.
Variable desc : string.

Definition kMaxBytes : Z := (bits T + 6) / 7.
Definition kUsedBitsInLastByte : Z := bits T - 7 * (kMaxBytes - 1).
Definition kMaskBits : Z := kUsedBitsInLastByte - (if is_signed T then 1 else 0).
Definition kMask : Z := Z.land (Z.lnot (Z.shiftl 1 kMaskBits - 1)) 255.
Definition kOnes : Z := Z.land kMask 127.

(** The loop of [ReadVarInt], entered with the counter [i] and the bits
    accumulated in [result].  Each turn reads one byte with [Read<u8>]
    (the match on [data]). *)
Fixpoint ReadVarInt_loop (data : SpanU8) (errors : Errors) (i : Z) (result : Z)
  {struct data} : option Z * SpanU8 * Errors :=
  match data with
  | [] => (None, data, OnError data Msg_UnableToReadU8 :: errors)
  | b :: data' =>
      let byte := u8_to_Z b in
      let shift := i * 7 in
      let result :=
        Z.lor result (wrapU (bits T) (Z.shiftl (Z.land byte 127) shift)) in
      let i := i + 1 in
      if i =? kMaxBytes then
        if (Z.land byte kMask =? 0)
           || (is_signed T && (Z.land byte kMask =? kOnes)) then
          (Some (static_cast T result), data', errors)
        else
          let zero_ext := Z.land (Z.land byte (Z.lnot kMask)) 127 in
          let one_ext := Z.land (Z.lor byte kOnes) 127 in
          if is_signed T then
            (None, data',
             OnError data' (Msg_LastByteSignExtension desc zero_ext one_ext byte)
               :: errors)
          else
            (None, data',
             OnError data' (Msg_LastByteZeroExtension desc zero_ext byte)
               :: errors)
      else if Z.land byte 128 =? 0 then
        (Some (if is_signed T then SignExtend T result (6 + shift) else result),
         data', errors)
      else ReadVarInt_loop data' errors i result
  end.

Definition ReadVarInt : Reader Z :=
  ErrorsContextGuard desc (fun data errors => ReadVarInt_loop data errors 0 0).
End ReadVarInt.

Definition Read_u32 : Reader Z := ReadVarInt U32 "vu32".
Definition ReadIndex : Reader Z := ReadVarInt U32 "index".
Definition Read_s32 : Reader Z := ReadVarInt S32 "vs32".
Definition Read_s64 : Reader Z := ReadVarInt S64 "vs64".
Definition Read_u64 : Reader Z := ReadVarInt U64 "vu64".

Definition Read_f32 : Reader SpanU8 := ReadBytes 4.
Definition Read_f64 : Reader SpanU8 := ReadBytes 8.

(* ================================================================== *)
(** * Counts, strings and vectors *)

Definition ReadCount : Reader Z :=
  WASP_TRY_READ count <- ReadIndex ;;
  fun data errors =>
    if count >? size data then
      (None, data,
       OnError data (Msg_CountLongerThanData count (size data)) :: errors)
    else (Some count, data, errors).

Definition ReadStr (desc : string) : Reader SpanU8 :=
  ErrorsContextGuard desc
    (WASP_TRY_READ len <- ReadCount ;;
     fun data errors =>
       if len >? size data then
         (None, data, OnError data (Msg_UnableToReadString len) :: errors)
       else
         (Some (subspan data 0 len), remove_prefix data len, errors)).

Fixpoint ReadVec_loop {T} (read : Reader T) (n : nat) (result : list T)
  : Reader (list T) :=
  match n with
  | O => ret result
  | S n' =>
      WASP_TRY_READ elt <- read ;;
      ReadVec_loop read n' (result ++ [elt])
  end.

Definition ReadVec {T} (read : Reader T) (desc : string) : Reader (list T) :=
  ErrorsContextGuard desc
    (WASP_TRY_READ len <- ReadCount ;;
     ReadVec_loop read (Z.to_nat len) []).


(* ================================================================== *)
(** * Enumerations read from one byte *)

Section Decode.
Variable BlockType : Type.
(** [encoding::BlockType::Decode] and [encoding::Opcode::Decode] belong to
    [src/binary/encoding.h], which is not among the sources: the readers
    take them as parameters. *)
Variable BlockType_Decode : u8 -> option BlockType.
Variable Opcode_Decode : u8 -> option Opcode.

(** [WASP_TRY_DECODE(out_var, in_var, Type, name)] *)
Definition WASP_TRY_DECODE {A} (decode : u8 -> option A) (in_var : u8)
           (name : string) : Reader A :=
  match decode in_var with
  | Some out_var => ret out_var
  | None => errors_OnError (Msg_Unknown name in_var) ;;; nullopt
  end.

Definition Read_BlockType : Reader BlockType :=
  ErrorsContextGuard "blocktype"
    (WASP_TRY_READ val <- Read_u8 ;;
     WASP_TRY_DECODE BlockType_Decode val "blocktype").

Definition Read_Opcode : Reader Opcode :=
  ErrorsContextGuard "opcode"
    (WASP_TRY_READ val <- Read_u8 ;;
     WASP_TRY_DECODE Opcode_Decode val "opcode").

Definition Read_MemArg : Reader MemArg :=
  WASP_TRY_READ align_log2 <- WASP_TRY_READ_CONTEXT Read_u32 "align log2" ;;
  WASP_TRY_READ offset <- WASP_TRY_READ_CONTEXT Read_u32 "offset" ;;
  ret {| align_log2 := align_log2; offset := offset |}.

(* ================================================================ *)
(** * Instructions *)

Definition Read_Instr : Reader (Instr BlockType) :=
  WASP_TRY_READ opcode <- WASP_TRY_READ_CONTEXT Read_Opcode "opcode" ;;
  match opcode with
  (* No immediates: *)
  | End | Unreachable | Nop | Else | Return | Drop | Select | I32Eqz |
    I32Eq | I32Ne | I32LtS | I32LeS | I32LtU | I32LeU | I32GtS | I32GeS |
    I32GtU | I32GeU | I64Eqz | I64Eq | I64Ne | I64LtS | I64LeS | I64LtU |
    I64LeU | I64GtS | I64GeS | I64GtU | I64GeU | F32Eq | F32Ne | F32Lt |
    F32Le | F32Gt | F32Ge | F64Eq | F64Ne | F64Lt | F64Le | F64Gt | F64Ge |
    I32Clz | I32Ctz | I32Popcnt | I32Add | I32Sub | I32Mul | I32DivS |
    I32DivU | I32RemS | I32RemU | I32And | I32Or | I32Xor | I32Shl |
    I32ShrS | I32ShrU | I32Rotl | I32Rotr | I64Clz | I64Ctz | I64Popcnt |
    I64Add | I64Sub | I64Mul | I64DivS | I64DivU | I64RemS | I64RemU |
    I64And | I64Or | I64Xor | I64Shl | I64ShrS | I64ShrU | I64Rotl |
    I64Rotr | F32Abs | F32Neg | F32Ceil | F32Floor | F32Trunc |
    F32Nearest | F32Sqrt | F32Add | F32Sub | F32Mul | F32Div | F32Min |
    F32Max | F32Copysign | F64Abs | F64Neg | F64Ceil | F64Floor |
    F64Trunc | F64Nearest | F64Sqrt | F64Add | F64Sub | F64Mul | F64Div |
    F64Min | F64Max | F64Copysign | I32WrapI64 | I32TruncSF32 |
    I32TruncUF32 | I32TruncSF64 | I32TruncUF64 | I64ExtendSI32 |
    I64ExtendUI32 | I64TruncSF32 | I64TruncUF32 | I64TruncSF64 |
    I64TruncUF64 | F32ConvertSI32 | F32ConvertUI32 | F32ConvertSI64 |
    F32ConvertUI64 | F32DemoteF64 | F64ConvertSI32 | F64ConvertUI32 |
    F64ConvertSI64 | F64ConvertUI64 | F64PromoteF32 | I32ReinterpretF32 |
    I64ReinterpretF64 | F32ReinterpretI32 | F64ReinterpretI64 =>
      ret {| opcode := opcode; immediate := EmptyImmediate |}

  (* Type immediate. *)
  | Block | Loop | If =>
      WASP_TRY_READ type <- Read_BlockType ;;
      ret {| opcode := opcode; immediate := Imm_BlockType type |}

  (* Index immediate. *)
  | Br | BrIf | Call | GetLocal | SetLocal | TeeLocal | GetGlobal
    | SetGlobal =>
      WASP_TRY_READ index <- ReadIndex ;;
      ret {| opcode := opcode; immediate := Imm_Index index |}

  (* Index* immediates. *)
  | BrTable =>
      WASP_TRY_READ targets <- ReadVec ReadIndex "br_table targets" ;;
      WASP_TRY_READ default_target <-
        WASP_TRY_READ_CONTEXT ReadIndex "br_table default target" ;;
      ret {| opcode := opcode;
             immediate := Imm_BrTable {| targets := targets;
                                         default_target := default_target |} |}

  (* Index, reserved immediates. *)
  | CallIndirect =>
      WASP_TRY_READ index <- ReadIndex ;;
      WASP_TRY_READ reserved <- WASP_TRY_READ_CONTEXT Read_u8 "reserved" ;;
      ret {| opcode := opcode;
             immediate := Imm_CallIndirect {| index := index;
                                              reserved := reserved |} |}

  (* Memarg (alignment, offset) immediates. *)
  | I32Load | I64Load | F32Load | F64Load | I32Load8S | I32Load8U
    | I32Load16S | I32Load16U | I64Load8S | I64Load8U | I64Load16S
    | I64Load16U | I64Load32S | I64Load32U | I32Store | I64Store | F32Store
    | F64Store | I32Store8 | I32Store16 | I64Store8 | I64Store16
    | I64Store32 =>
      WASP_TRY_READ memarg <- Read_MemArg ;;
      ret {| opcode := opcode; immediate := Imm_MemArg memarg |}

  (* Reserved immediates. *)
  | MemorySize | MemoryGrow =>
      WASP_TRY_READ reserved <- WASP_TRY_READ_CONTEXT Read_u8 "reserved" ;;
      ret {| opcode := opcode; immediate := Imm_u8 reserved |}

  (* Const immediates. *)
  | I32Const =>
      WASP_TRY_READ value <- WASP_TRY_READ_CONTEXT Read_s32 "i32 constant" ;;
      ret {| opcode := opcode; immediate := Imm_s32 value |}
  | I64Const =>
      WASP_TRY_READ value <- WASP_TRY_READ_CONTEXT Read_s64 "i64 constant" ;;
      ret {| opcode := opcode; immediate := Imm_s64 value |}
  | F32Const =>
      WASP_TRY_READ value <- WASP_TRY_READ_CONTEXT Read_f32 "f32 constant" ;;
      ret {| opcode := opcode; immediate := Imm_f32 value |}
  | F64Const =>
      WASP_TRY_READ value <- WASP_TRY_READ_CONTEXT Read_f64 "f64 constant" ;;
      ret {| opcode := opcode; immediate := Imm_f64 value |}

  | Opcode_other _ =>
      errors_OnError (Msg_UnknownOpcode opcode) ;;; nullopt
  end.

(* ================================================================ *)
(** * The lazy sequence of instructions *)

(** Modelled from the spec: the class [LazySequenceIteratorBase] of
    [wasp/binary/lazy_sequence.h], which is not among the sources, with its
    members [empty], [clear], [data], [operator*] and the comparison with
    [end()].  [Increment], the constructor and [operator++] are in the
    sources and are embedded as they are written.  An iterator is at the
    end once [clear] has emptied its span, and an iterator built over an
    empty span is at the end from the start. *)
Record LazySequenceIterator := {
  data_ : SpanU8;
  value_ : option (Instr BlockType);
  cleared_ : bool
}.

Definition empty (it : LazySequenceIterator) : bool :=
  match data_ it with [] => true | _ => false end.

Definition clear (it : LazySequenceIterator) : LazySequenceIterator :=
  {| data_ := []; value_ := value_ it; cleared_ := true |}.

Definition is_end (it : LazySequenceIterator) : bool := cleared_ it.

Definition Increment (it : LazySequenceIterator) (errors : Errors)
  : LazySequenceIterator * Errors :=
  if negb (empty it) then
    match Read_Instr (data_ it) errors with
    | (value, data', errors') =>
        let it' := {| data_ := data'; value_ := value;
                      cleared_ := cleared_ it |} in
        (match value with None => clear it' | Some _ => it' end, errors')
    end
  else (clear it, errors).

(** [LazySequenceIterator(Sequence* seq, SpanU8 data)] *)
Definition LazyInstrs_begin (data : SpanU8) (errors : Errors)
  : LazySequenceIterator * Errors :=
  let base := {| data_ := data; value_ := None;
                 cleared_ := match data with [] => true | _ => false end |} in
  if negb (empty base) then Increment base errors else (base, errors).

(* ================================================================ *)
(** * Constant expressions *)

Record ConstExpr := { ConstExpr_data : SpanU8 }.

Definition Read_ConstExpr : Reader ConstExpr :=
  fun data errors =>
    let '(iter, errors) := LazyInstrs_begin data errors in
    (* Read instruction. *)
    if is_end iter then
      (None, data, OnError data Msg_UnexpectedEndOfConstExpr :: errors)
    else
      match value_ iter with
      | None =>
          (* an iterator that is not at the end holds a value *)
          (None, data, OnError data Msg_UnexpectedEndOfConstExpr :: errors)
      | Some instr =>
          let '(iter, errors) := Increment iter errors in
          match opcode instr with
          | I32Const | I64Const | F32Const | F64Const | GetGlobal =>
              (* OK. *)
              (* Instruction must be followed by end. *)
              if is_end iter
                 || match value_ iter with
                    | Some {| opcode := End |} => false
                    | _ => true
                    end then
                (None, data, OnError data Msg_ExpectedEndInstruction :: errors)
              else
                let len := size data - size (data_ iter) in
                (Some {| ConstExpr_data := subspan data 0 len |},
                 remove_prefix data len, errors)
          | _ =>
              (None, data,
               OnError data (Msg_IllegalInstructionInConstExpr (opcode instr))
                 :: errors)
          end
      end.
End Decode.

(** Modelled from the spec: [encoding::Opcode::Decode] of
    [src/binary/encoding.h], which is not among the sources; the byte of
    each opcode is the one of the WebAssembly binary format, to which the
    spec's module layout refers. *)
Definition Opcode_Decode_standard (val : u8) : option Opcode :=
  match u8_to_Z val with
  | 0x00 => Some Unreachable
  | 0x01 => Some Nop
  | 0x02 => Some Block
  | 0x03 => Some Loop
  | 0x04 => Some If
  | 0x05 => Some Else
  | 0x0b => Some End
  | 0x0c => Some Br
  | 0x0d => Some BrIf
  | 0x0e => Some BrTable
  | 0x0f => Some Return
  | 0x10 => Some Call
  | 0x11 => Some CallIndirect
  | 0x1a => Some Drop
  | 0x1b => Some Select
  | 0x20 => Some GetLocal
  | 0x21 => Some SetLocal
  | 0x22 => Some TeeLocal
  | 0x23 => Some GetGlobal
  | 0x24 => Some SetGlobal
  | 0x28 => Some I32Load
  | 0x29 => Some I64Load
  | 0x2a => Some F32Load
  | 0x2b => Some F64Load
  | 0x2c => Some I32Load8S
  | 0x2d => Some I32Load8U
  | 0x2e => Some I32Load16S
  | 0x2f => Some I32Load16U
  | 0x30 => Some I64Load8S
  | 0x31 => Some I64Load8U
  | 0x32 => Some I64Load16S
  | 0x33 => Some I64Load16U
  | 0x34 => Some I64Load32S
  | 0x35 => Some I64Load32U
  | 0x36 => Some I32Store
  | 0x37 => Some I64Store
  | 0x38 => Some F32Store
  | 0x39 => Some F64Store
  | 0x3a => Some I32Store8
  | 0x3b => Some I32Store16
  | 0x3c => Some I64Store8
  | 0x3d => Some I64Store16
  | 0x3e => Some I64Store32
  | 0x3f => Some MemorySize
  | 0x40 => Some MemoryGrow
  | 0x41 => Some I32Const
  | 0x42 => Some I64Const
  | 0x43 => Some F32Const
  | 0x44 => Some F64Const
  | 0x45 => Some I32Eqz
  | 0x46 => Some I32Eq
  | 0x47 => Some I32Ne
  | 0x48 => Some I32LtS
  | 0x49 => Some I32LtU
  | 0x4a => Some I32GtS
  | 0x4b => Some I32GtU
  | 0x4c => Some I32LeS
  | 0x4d => Some I32LeU
  | 0x4e => Some I32GeS
  | 0x4f => Some I32GeU
  | 0x50 => Some I64Eqz
  | 0x51 => Some I64Eq
  | 0x52 => Some I64Ne
  | 0x53 => Some I64LtS
  | 0x54 => Some I64LtU
  | 0x55 => Some I64GtS
  | 0x56 => Some I64GtU
  | 0x57 => Some I64LeS
  | 0x58 => Some I64LeU
  | 0x59 => Some I64GeS
  | 0x5a => Some I64GeU
  | 0x5b => Some F32Eq
  | 0x5c => Some F32Ne
  | 0x5d => Some F32Lt
  | 0x5e => Some F32Gt
  | 0x5f => Some F32Le
  | 0x60 => Some F32Ge
  | 0x61 => Some F64Eq
  | 0x62 => Some F64Ne
  | 0x63 => Some F64Lt
  | 0x64 => Some F64Gt
  | 0x65 => Some F64Le
  | 0x66 => Some F64Ge
  | 0x67 => Some I32Clz
  | 0x68 => Some I32Ctz
  | 0x69 => Some I32Popcnt
  | 0x6a => Some I32Add
  | 0x6b => Some I32Sub
  | 0x6c => Some I32Mul
  | 0x6d => Some I32DivS
  | 0x6e => Some I32DivU
  | 0x6f => Some I32RemS
  | 0x70 => Some I32RemU
  | 0x71 => Some I32And
  | 0x72 => Some I32Or
  | 0x73 => Some I32Xor
  | 0x74 => Some I32Shl
  | 0x75 => Some I32ShrS
  | 0x76 => Some I32ShrU
  | 0x77 => Some I32Rotl
  | 0x78 => Some I32Rotr
  | 0x79 => Some I64Clz
  | 0x7a => Some I64Ctz
  | 0x7b => Some I64Popcnt
  | 0x7c => Some I64Add
  | 0x7d => Some I64Sub
  | 0x7e => Some I64Mul
  | 0x7f => Some I64DivS
  | 0x80 => Some I64DivU
  | 0x81 => Some I64RemS
  | 0x82 => Some I64RemU
  | 0x83 => Some I64And
  | 0x84 => Some I64Or
  | 0x85 => Some I64Xor
  | 0x86 => Some I64Shl
  | 0x87 => Some I64ShrS
  | 0x88 => Some I64ShrU
  | 0x89 => Some I64Rotl
  | 0x8a => Some I64Rotr
  | 0x8b => Some F32Abs
  | 0x8c => Some F32Neg
  | 0x8d => Some F32Ceil
  | 0x8e => Some F32Floor
  | 0x8f => Some F32Trunc
  | 0x90 => Some F32Nearest
  | 0x91 => Some F32Sqrt
  | 0x92 => Some F32Add
  | 0x93 => Some F32Sub
  | 0x94 => Some F32Mul
  | 0x95 => Some F32Div
  | 0x96 => Some F32Min
  | 0x97 => Some F32Max
  | 0x98 => Some F32Copysign
  | 0x99 => Some F64Abs
  | 0x9a => Some F64Neg
  | 0x9b => Some F64Ceil
  | 0x9c => Some F64Floor
  | 0x9d => Some F64Trunc
  | 0x9e => Some F64Nearest
  | 0x9f => Some F64Sqrt
  | 0xa0 => Some F64Add
  | 0xa1 => Some F64Sub
  | 0xa2 => Some F64Mul
  | 0xa3 => Some F64Div
  | 0xa4 => Some F64Min
  | 0xa5 => Some F64Max
  | 0xa6 => Some F64Copysign
  | 0xa7 => Some I32WrapI64
  | 0xa8 => Some I32TruncSF32
  | 0xa9 => Some I32TruncUF32
  | 0xaa => Some I32TruncSF64
  | 0xab => Some I32TruncUF64
  | 0xac => Some I64ExtendSI32
  | 0xad => Some I64ExtendUI32
  | 0xae => Some I64TruncSF32
  | 0xaf => Some I64TruncUF32
  | 0xb0 => Some I64TruncSF64
  | 0xb1 => Some I64TruncUF64
  | 0xb2 => Some F32ConvertSI32
  | 0xb3 => Some F32ConvertUI32
  | 0xb4 => Some F32ConvertSI64
  | 0xb5 => Some F32ConvertUI64
  | 0xb6 => Some F32DemoteF64
  | 0xb7 => Some F64ConvertSI32
  | 0xb8 => Some F64ConvertUI32
  | 0xb9 => Some F64ConvertSI64
  | 0xba => Some F64ConvertUI64
  | 0xbb => Some F64PromoteF32
  | 0xbc => Some I32ReinterpretF32
  | 0xbd => Some I64ReinterpretF64
  | 0xbe => Some F32ReinterpretI32
  | 0xbf => Some F64ReinterpretI64
  | _ => None
  end.

(** Modelled from the spec: the block types of [src/binary/encoding.h],
    which is not among the sources, with the bytes of the WebAssembly
    binary format ([7F] is [i32] in the spec's type-only module). *)
Inductive BlockType_standard : Type :=
| BlockType_I32 | BlockType_I64 | BlockType_F32 | BlockType_F64
| BlockType_Void.

Definition BlockType_Decode_standard (val : u8) : option BlockType_standard :=
  match u8_to_Z val with
  | 0x7f => Some BlockType_I32
  | 0x7e => Some BlockType_I64
  | 0x7d => Some BlockType_F32
  | 0x7c => Some BlockType_F64
  | 0x40 => Some BlockType_Void
  | _ => None
  end.

(* ================================================================== *)
(** * The module header *)

(** Modelled from the spec: [encoding::Magic] and [encoding::Version] of
    [src/binary/encoding.h], which is not among the sources: magic
    [00 61 73 6D], version [01 00 00 00]. *)
Definition encoding_Magic : SpanU8 := bytes [0x00; 0x61; 0x73; 0x6d].
Definition encoding_Version : SpanU8 := bytes [0x01; 0x00; 0x00; 0x00].

Record LazyModule := {
  magic : option SpanU8;
  version : option SpanU8;
  sections : SpanU8
}.

(** What running a piece of code comes to: it completes, or it evaluates
    [*opt] on an [optional] that holds no value, which has no defined
    behaviour. *)
Inductive Outcome (A : Type) : Type :=
| Completed (a : A) (errors : Errors)
| DereferencedNullopt (errors : Errors).

Arguments DereferencedNullopt {A}.

Definition SpanU8_eqb (a b : SpanU8) : bool :=
  if list_eq_dec Byte.byte_eq_dec a b then true else false.

(** [opt != value] for an [optional]: an empty optional differs from every
    value. *)
Definition optional_ne (opt : option SpanU8) (v : SpanU8) : bool :=
  match opt with
  | Some x => negb (SpanU8_eqb x v)
  | None => true
  end.

Definition LazyModule_ctor (data : SpanU8) (errors : Errors)
  : Outcome LazyModule :=
  let '(magic, data, errors) := ReadBytes 4 data errors in
  let '(version, data, errors) := ReadBytes 4 data errors in
  let this := {| magic := magic; version := version; sections := data |} in
  let kMagic := encoding_Magic in
  let kVersion := encoding_Version in
  let after_magic : Outcome unit :=
    if optional_ne magic kMagic then
      match magic with
      | Some got =>
          Completed tt (OnError data (Msg_MagicMismatch kMagic got) :: errors)
      | None => DereferencedNullopt errors
      end
    else Completed tt errors in
  match after_magic with
  | DereferencedNullopt errors => DereferencedNullopt errors
  | Completed _ errors =>
      if optional_ne version kVersion then
        match version with
        | Some got =>
            Completed this
              (OnError data (Msg_VersionMismatch kVersion got) :: errors)
        | None => DereferencedNullopt errors
        end
      else Completed this errors
  end.

(* ================================================================== *)
(** * Types, imports and the items of the sections *)

(** The enumerators of [ExternalKind] are those the [switch] of
    [Read(Tag<Import<>>)] names. *)
Inductive ExternalKind : Type :=
| ExternalKind_Func | ExternalKind_Table | ExternalKind_Memory
| ExternalKind_Global.

(** The structures the readers build are declared in [wasp/binary/types.h],
    which is not among the sources; each record has the members its reader
    gives to the constructor, in that order. *)
Record Limits := { Limits_min : Z; Limits_max : option Z }.

Record MemoryType := { MemoryType_limits : Limits }.

Record Func := { Func_type_index : Z }.

Record Memory := { Memory_memory_type : MemoryType }.

Record Start := { Start_func_index : Z }.

Record ElementSegment := {
  ElementSegment_table_index : Z;
  ElementSegment_offset : ConstExpr;
  ElementSegment_init : list Z
}.

Record DataSegment := {
  DataSegment_memory_index : Z;
  DataSegment_offset : ConstExpr;
  DataSegment_init : SpanU8
}.

(** [Export<>] *)
Record Export_ := {
  Export_kind : ExternalKind;
  Export_name : SpanU8;
  Export_index : Z
}.

Section Items.
Variable BlockType : Type.
Variable BlockType_Decode : u8 -> option BlockType.
Variable Opcode_Decode : u8 -> option Opcode.
(** [ValType], [ElemType] and [Mutability] and the [Decode] functions of
    [src/binary/encoding.h] are not among the sources: the readers take
    them as parameters. *)
Variable ValType : Type.
Variable ElemType : Type.
Variable Mutability : Type.
Variable ValType_Decode : u8 -> option ValType.
Variable ElemType_Decode : u8 -> option ElemType.
Variable ExternalKind_Decode : u8 -> option ExternalKind.
Variable Mutability_Decode : u8 -> option Mutability.

Record LocalDecl := { LocalDecl_count : Z; LocalDecl_type : ValType }.

Record FuncType := {
  FuncType_param_types : list ValType;
  FuncType_result_types : list ValType
}.

Record TableType := { TableType_limits : Limits; TableType_elemtype : ElemType }.

Record GlobalType := { GlobalType_valtype : ValType; GlobalType_mut : Mutability }.

Inductive ImportDesc : Type :=
| Import_Func (type_index : Z)
| Import_Table (table_type : TableType)
| Import_Memory (memory_type : MemoryType)
| Import_Global (global_type : GlobalType).

(** [Import<>] *)
Record Import_ := {
  Import_module : SpanU8;
  Import_name : SpanU8;
  Import_desc : ImportDesc
}.

Record Table := { Table_table_type : TableType }.

(** [Global<>] *)
Record Global_ := { Global_global_type : GlobalType; Global_init_expr : ConstExpr }.

Record Code := { Code_local_decls : list LocalDecl; Code_body : SpanU8 }.

Definition Read_ValType : Reader ValType :=
  ErrorsContextGuard "valtype"
    (WASP_TRY_READ val <- Read_u8 ;;
     WASP_TRY_DECODE ValType_Decode val "valtype").

Definition Read_ElemType : Reader ElemType :=
  ErrorsContextGuard "elemtype"
    (WASP_TRY_READ val <- Read_u8 ;;
     WASP_TRY_DECODE ElemType_Decode val "elemtype").

Definition Read_ExternalKind : Reader ExternalKind :=
  ErrorsContextGuard "external kind"
    (WASP_TRY_READ val <- Read_u8 ;;
     WASP_TRY_DECODE ExternalKind_Decode val "external kind").

Definition Read_Mutability : Reader Mutability :=
  ErrorsContextGuard "mutability"
    (WASP_TRY_READ val <- Read_u8 ;;
     WASP_TRY_DECODE Mutability_Decode val "mutability").

Definition Read_Limits : Reader Limits :=
  ErrorsContextGuard "limits"
    (let kFlags_HasMax := 1 in
     WASP_TRY_READ flags <- WASP_TRY_READ_CONTEXT Read_u32 "flags" ;;
     WASP_TRY_READ min <- WASP_TRY_READ_CONTEXT Read_u32 "min" ;;
     if negb (Z.land flags kFlags_HasMax =? 0) then
       WASP_TRY_READ max <- WASP_TRY_READ_CONTEXT Read_u32 "max" ;;
       ret {| Limits_min := min; Limits_max := Some max |}
     else
       ret {| Limits_min := min; Limits_max := None |}).

Definition Read_LocalDecl : Reader LocalDecl :=
  ErrorsContextGuard "local decl"
    (WASP_TRY_READ count <- WASP_TRY_READ_CONTEXT ReadIndex "count" ;;
     WASP_TRY_READ type <- WASP_TRY_READ_CONTEXT Read_ValType "type" ;;
     ret {| LocalDecl_count := count; LocalDecl_type := type |}).

Definition Read_FuncType : Reader FuncType :=
  ErrorsContextGuard "func type"
    (WASP_TRY_READ param_types <- ReadVec Read_ValType "param types" ;;
     WASP_TRY_READ result_types <- ReadVec Read_ValType "result types" ;;
     ret {| FuncType_param_types := param_types;
            FuncType_result_types := result_types |}).

Definition Read_TableType : Reader TableType :=
  ErrorsContextGuard "table type"
    (WASP_TRY_READ elemtype <- Read_ElemType ;;
     WASP_TRY_READ limits <- Read_Limits ;;
     ret {| TableType_limits := limits; TableType_elemtype := elemtype |}).

Definition Read_MemoryType : Reader MemoryType :=
  ErrorsContextGuard "memory type"
    (WASP_TRY_READ limits <- Read_Limits ;;
     ret {| MemoryType_limits := limits |}).

Definition Read_GlobalType : Reader GlobalType :=
  ErrorsContextGuard "global type"
    (WASP_TRY_READ type <- Read_ValType ;;
     WASP_TRY_READ mut <- Read_Mutability ;;
     ret {| GlobalType_valtype := type; GlobalType_mut := mut |}).

Definition Read_Import : Reader Import_ :=
  ErrorsContextGuard "import"
    (WASP_TRY_READ module <- ReadStr "module name" ;;
     WASP_TRY_READ name <- ReadStr "field name" ;;
     WASP_TRY_READ kind <- Read_ExternalKind ;;
     match kind with
     | ExternalKind_Func =>
         WASP_TRY_READ type_index <- ReadIndex ;;
         ret {| Import_module := module; Import_name := name;
                Import_desc := Import_Func type_index |}
     | ExternalKind_Table =>
         WASP_TRY_READ table_type <- Read_TableType ;;
         ret {| Import_module := module; Import_name := name;
                Import_desc := Import_Table table_type |}
     | ExternalKind_Memory =>
         WASP_TRY_READ memory_type <- Read_MemoryType ;;
         ret {| Import_module := module; Import_name := name;
                Import_desc := Import_Memory memory_type |}
     | ExternalKind_Global =>
         WASP_TRY_READ global_type <- Read_GlobalType ;;
         ret {| Import_module := module; Import_name := name;
                Import_desc := Import_Global global_type |}
     end).

Definition Read_Func : Reader Func :=
  ErrorsContextGuard "func"
    (WASP_TRY_READ type_index <- ReadIndex ;;
     ret {| Func_type_index := type_index |}).

Definition Read_Table : Reader Table :=
  ErrorsContextGuard "table"
    (WASP_TRY_READ table_type <- Read_TableType ;;
     ret {| Table_table_type := table_type |}).

Definition Read_Memory : Reader Memory :=
  ErrorsContextGuard "memory"
    (WASP_TRY_READ memory_type <- Read_MemoryType ;;
     ret {| Memory_memory_type := memory_type |}).

Definition Read_Global : Reader Global_ :=
  ErrorsContextGuard "global"
    (WASP_TRY_READ global_type <- Read_GlobalType ;;
     WASP_TRY_READ init_expr <- Read_ConstExpr BlockType_Decode Opcode_Decode ;;
     ret {| Global_global_type := global_type;
            Global_init_expr := init_expr |}).

Definition Read_Export : Reader Export_ :=
  ErrorsContextGuard "export"
    (WASP_TRY_READ name <- ReadStr "name" ;;
     WASP_TRY_READ kind <- Read_ExternalKind ;;
     WASP_TRY_READ index <- ReadIndex ;;
     ret {| Export_kind := kind; Export_name := name; Export_index := index |}).

Definition Read_Start : Reader Start :=
  ErrorsContextGuard "start"
    (WASP_TRY_READ index <- ReadIndex ;;
     ret {| Start_func_index := index |}).

Definition Read_ElementSegment : Reader ElementSegment :=
  ErrorsContextGuard "element segment"
    (WASP_TRY_READ table_index <- WASP_TRY_READ_CONTEXT ReadIndex "table index" ;;
     WASP_TRY_READ offset <-
       WASP_TRY_READ_CONTEXT (Read_ConstExpr BlockType_Decode Opcode_Decode)
                             "offset" ;;
     WASP_TRY_READ init <- ReadVec ReadIndex "initializers" ;;
     ret {| ElementSegment_table_index := table_index;
            ElementSegment_offset := offset;
            ElementSegment_init := init |}).

(** [ReadVec<LocalDecl>(&body, ...)] reads from the span [body], a local
    variable of the function: the cursor [data] stays where [ReadBytes]
    has left it, and what the vector leaves of [body] is the expression. *)
Definition Read_Code : Reader Code :=
  ErrorsContextGuard "code"
    (WASP_TRY_READ body_size <- ReadCount ;;
     WASP_TRY_READ body <- ReadBytes body_size ;;
     fun data errors =>
       match ReadVec Read_LocalDecl "local decls" body errors with
       | (Some local_decls, body, errors) =>
           (Some {| Code_local_decls := local_decls; Code_body := body |},
            data, errors)
       | (None, _, errors) => (None, data, errors)
       end).

Definition Read_DataSegment : Reader DataSegment :=
  ErrorsContextGuard "data segment"
    (WASP_TRY_READ memory_index <-
       WASP_TRY_READ_CONTEXT ReadIndex "memory index" ;;
     WASP_TRY_READ offset <-
       WASP_TRY_READ_CONTEXT (Read_ConstExpr BlockType_Decode Opcode_Decode)
                             "offset" ;;
     WASP_TRY_READ len <- ReadCount ;;
     WASP_TRY_READ init <- ReadBytes len ;;
     ret {| DataSegment_memory_index := memory_index;
            DataSegment_offset := offset;
            DataSegment_init := init |}).
End Items.

(* ================================================================== *)
(** * Lazy sections *)

(** [LazySection(SpanU8 data, Errors& errors)]: the count, then the lazy
    sequence over what follows it.  The class is declared in
    [wasp/binary/lazy_section.h], which is not among the sources; its two
    members are initialised in the order the constructor writes them. *)
Record LazySection := {
  LazySection_count : option Z;
  LazySection_sequence : SpanU8
}.

Definition LazySection_ctor (data : SpanU8) (errors : Errors)
  : LazySection * Errors :=
  let '(count, data, errors) := ReadCount data errors in
  ({| LazySection_count := count; LazySection_sequence := data |}, errors).

End binary.

Module text.

(* ================================================================== *)
(** * Tokens *)

(** The token types [TokenType::X] are written [T_X]. *)
Inductive TokenType : Type :=
| T_Reserved | T_LparAnn | T_InvalidBlockComment | T_BlockComment | T_Id
| T_InvalidLineComment | T_LineComment | T_Float | T_InvalidText | T_Text
| T_Whitespace | T_BareInstr | T_ValueType | T_Eof | T_Lpar | T_Rpar
| T_InvalidChar | T_Int | T_Nat | T_BlockInstr | T_VarInstr | T_MemoryInstr
| T_F32ConstInstr | T_I32ConstInstr | T_SimdConstInstr | T_F32X4
| T_SimdLaneInstr | T_I32X4 | T_F64ConstInstr | T_I64ConstInstr | T_F64X2
| T_I64X2 | T_I16X8 | T_BrOnExnInstr | T_BrTableInstr | T_Start | T_Shared
| T_Table | T_TableInitInstr | T_TableCopyInstr | T_Local | T_Declare | T_End
| T_Module | T_Then | T_Elem | T_Item | T_Event | T_RefAny | T_RefFuncInstr
| T_RefNullInstr | T_RefHost | T_Offset | T_OffsetEqNat | T_Register
| T_AlignEqNat | T_CallIndirectInstr | T_SelectInstr | T_Memory
| T_NanArithmetic | T_NanCanonical | T_Binary | T_Func | T_Global | T_Quote
| T_Import | T_Export | T_Type | T_Param | T_Else | T_Result | T_AssertTrap
| T_AssertInvalid | T_AssertUnlinkable | T_AssertMalformed | T_AssertReturn
| T_AssertExhaustion | T_Get | T_Mut | T_Data | T_Catch | T_Invoke | T_I8X16
| T_SimdShuffleInstr.

Inductive Opcode : Type :=
| If | Br | F32Eq | I32Eq | F32Ge | F32Gt | F32Le | F32Lt | F32Ne | I32Ne
| I32Or | I32GeS | I32LeS | I32GtS | I32LtS | I32GeU | I32LeU | I32GtU
| I32LtU | F32Load | I32Load | I32WrapI64 | I32Load16S | I32Load16U
| I32Load8S | I32Load8U | F32Nearest | F32Sub | I32Sub | F32Add | I32Add
| I32And | F32Neg | F32Ceil | I32ReinterpretF32 | F32ReinterpretI32 | I32Shl
| F32Mul | I32Mul | I32RemS | F32DemoteF64 | I32RemU | F32Min | F32Const
| I32Const | F32ConvertI32S | F32ConvertI32U | F32ConvertI64S | F32ConvertI64U
| F32Store | I32Store | F32Floor | I32Store16 | I32Store8 | I32AtomicLoad
| I32AtomicWait | I32AtomicRmw8XchgU | I32AtomicRmw8AddU
| I32AtomicRmw8CmpxchgU | I32AtomicRmw8AndU | I32AtomicRmw8XorU
| I32AtomicRmw8OrU | I32AtomicRmw8SubU | I32AtomicLoad16U
| I32AtomicRmw16XchgU | I32AtomicRmw16AddU | I32AtomicRmw16CmpxchgU
| I32AtomicRmw16AndU | I32AtomicRmw16XorU | I32AtomicRmw16OrU
| I32AtomicRmw16SubU | I32AtomicLoad8U | I32AtomicRmwAdd | I32AtomicRmwAnd
| I32AtomicRmwCmpxchg | I32AtomicStore | I32AtomicStore16 | I32AtomicStore8
| I32AtomicRmwOr | I32AtomicRmwSub | I32AtomicRmwXor | I32AtomicRmwXchg
| I32Popcnt | F32Copysign | I32Xor | I32ShrS | I32ShrU | F32Sqrt | F32Abs
| I32Extend8S | I32Extend16S | I32Rotl | I32Rotr | F32Trunc | I32TruncF32S
| I32TruncF32U | I32TruncF64S | I32TruncF64U | I32TruncSatF32S
| I32TruncSatF64S | I32TruncSatF32U | I32TruncSatF64U | F32Div | I32DivS
| I32DivU | F32Max | I32Clz | I32Eqz | I32Ctz | V128And | V128Andnot
| V128BitSelect | V128Const | V128Load | V128Not | V128Or | V128Store
| V128Xor | F32X4Eq | F32X4Ge | F32X4Gt | F32X4Le | F32X4Lt | F32X4Ne
| F32X4Sub | F32X4Add | F32X4Neg | F32X4Mul | F32X4Splat | F32X4Min
| F32X4ConvertI32X4S | F32X4ConvertI32X4U | F32X4ReplaceLane | F32X4Sqrt
| F32X4Abs | F32X4ExtractLane | F32X4Div | F32X4Max | I32X4Ne | I32X4Eq
| I32X4GeS | I32X4LeS | I32X4GtS | I32X4LtS | I32X4GeU | I32X4LeU | I32X4GtU
| I32X4LtU | I32X4Load16X4S | I32X4Load16X4U | I32X4Sub | I32X4Add
| I32X4WidenLowI16X8S | I32X4WidenLowI16X8U | I32X4WidenHighI16X8S
| I32X4WidenHighI16X8U | I32X4Neg | I32X4Shl | I32X4AllTrue | I32X4Splat
| I32X4Mul | I32X4MinS | I32X4MinU | I32X4ReplaceLane | I32X4ShrS | I32X4ShrU
| I32X4ExtractLane | I32X4TruncSatF32X4S | I32X4TruncSatF32X4U | I32X4MaxS
| I32X4MaxU | I32X4AnyTrue | V32X4LoadSplat | F64Eq | I64Eq | F64Ge | F64Gt
| F64Le | F64Lt | F64Ne | I64Ne | I64Or | I64GeS | I64LeS | I64GtS | I64LtS
| I64GeU | I64LeU | I64GtU | I64LtU | F64Load | I64Load | I64Load16S
| I64Load16U | I64Load32S | I64Load32U | I64Load8S | I64Load8U | F64Nearest
| F64Sub | I64Sub | F64Add | I64Add | I64And | F64Neg | F64Ceil
| I64ReinterpretF64 | F64ReinterpretI64 | I64Shl | F64Mul | I64Mul | I64RemS
| I64RemU | F64Min | F64Const | I64Const | F64ConvertI32S | F64ConvertI32U
| F64ConvertI64S | F64ConvertI64U | F64Store | I64Store | F64Floor
| I64Store16 | I64Store32 | I64Store8 | I64AtomicLoad | I64AtomicWait
| I64AtomicRmw8XchgU | I64AtomicRmw8AddU | I64AtomicRmw8CmpxchgU
| I64AtomicRmw8AndU | I64AtomicRmw8XorU | I64AtomicRmw8OrU | I64AtomicRmw8SubU
| I64AtomicLoad16U | I64AtomicRmw32XchgU | I64AtomicRmw32AddU
| I64AtomicRmw32CmpxchgU | I64AtomicRmw32AndU | I64AtomicRmw32XorU
| I64AtomicRmw32OrU | I64AtomicRmw32SubU | I64AtomicLoad32U
| I64AtomicRmw16XchgU | I64AtomicRmw16AddU | I64AtomicRmw16CmpxchgU
| I64AtomicRmw16AndU | I64AtomicRmw16XorU | I64AtomicRmw16OrU
| I64AtomicRmw16SubU | I64AtomicLoad8U | I64AtomicRmwAdd | I64AtomicRmwAnd
| I64AtomicRmwCmpxchg | I64AtomicStore | I64AtomicStore16 | I64AtomicStore32
| I64AtomicStore8 | I64AtomicRmwOr | I64AtomicRmwSub | I64AtomicRmwXor
| I64AtomicRmwXchg | F64PromoteF32 | I64Popcnt | F64Copysign | I64Xor
| I64ShrS | I64ShrU | F64Sqrt | F64Abs | I64Extend32S | I64Extend16S
| I64Extend8S | I64ExtendI32S | I64ExtendI32U | I64Rotl | I64Rotr | F64Trunc
| I64TruncF32S | I64TruncF32U | I64TruncF64S | I64TruncF64U | I64TruncSatF32S
| I64TruncSatF64S | I64TruncSatF32U | I64TruncSatF64U | F64Div | I64DivS
| I64DivU | F64Max | I64Clz | I64Eqz | I64Ctz | F64X2Eq | F64X2Ge | F64X2Gt
| F64X2Le | F64X2Lt | F64X2Ne | F64X2Sub | F64X2Add | F64X2Neg | F64X2Mul
| F64X2Splat | F64X2Min | F64X2ReplaceLane | F64X2Sqrt | F64X2Abs
| F64X2ExtractLane | F64X2Div | F64X2Max | I64X2Load32X2S | I64X2Load32X2U
| I64X2Sub | I64X2Add | I64X2Neg | I64X2Shl | I64X2Splat | I64X2Mul
| I64X2ReplaceLane | I64X2ShrS | I64X2ShrU | I64X2ExtractLane | V64X2LoadSplat
| I16X8NarrowI32X4S | I16X8NarrowI32X4U | I16X8MaxS | I16X8MaxU | I16X8Add
| I16X8AddSaturateS | I16X8AddSaturateU | I16X8Ne | I16X8GeS | I16X8LeS
| I16X8GeU | I16X8LeU | I16X8Neg | I16X8ReplaceLane | I16X8Shl | I16X8ShrS
| I16X8ShrU | I16X8WidenLowI8X16S | I16X8WidenLowI8X16U | I16X8WidenHighI8X16S
| I16X8WidenHighI8X16U | I16X8MinS | I16X8MinU | I16X8AllTrue | I16X8AnyTrue
| V16X8LoadSplat | I16X8Load8X8S | I16X8Load8X8U | I16X8Splat | I16X8Eq
| I16X8GtS | I16X8LtS | I16X8GtU | I16X8LtU | I16X8Sub | I16X8Mul
| I16X8SubSaturateS | I16X8SubSaturateU | I16X8AvgrU | I16X8ExtractLaneS
| I16X8ExtractLaneU | BrIf | BrOnExn | BrTable | TableGet | TableSet
| TableSize | TableFill | TableInit | TableGrow | TableCopy | LocalGet
| LocalSet | LocalTee | End | ElemDrop | RefFunc | RefNull | RefIsNull | Call
| CallIndirect | Select | MemorySize | MemoryFill | MemoryInit | MemoryGrow
| MemoryCopy | Loop | Drop | GlobalGet | GlobalSet | AtomicNotify | Block
| Nop | Unreachable | Throw | Else | DataDrop | Catch | Rethrow | Return
| ReturnCall | ReturnCallIndirect | I8X16Ne | I8X16Eq | I8X16GeS | I8X16LeS
| I8X16GtS | I8X16LtS | I8X16GeU | I8X16LeU | I8X16GtU | I8X16LtU
| V8X16LoadSplat | I8X16Sub | I8X16SubSaturateS | I8X16SubSaturateU | I8X16Add
| I8X16AddSaturateS | I8X16AddSaturateU | I8X16Neg | I8X16AvgrU | V8X16Swizzle
| I8X16Shl | I8X16AllTrue | I8X16Splat | I8X16MinS | I8X16MinU
| I8X16ReplaceLane | I8X16NarrowI16X8S | I8X16NarrowI16X8U | I8X16ShrS
| I8X16ShrU | I8X16ExtractLaneS | I8X16ExtractLaneU | V8X16Shuffle | I8X16MaxS
| I8X16MaxU | I8X16AnyTrue | Try.

Inductive ValueType : Type :=
| F32 | I32 | V128 | F64 | I64 | Nullref | Funcref | Exnref | Anyref.

Inductive Feature : Type :=
| Threads | SignExtension | SaturatingFloatToInt | Simd | Exceptions
| ReferenceTypes | BulkMemory | TailCall.

Module Sign.
Inductive t : Type := None | Plus | Minus.
End Sign.

Module HasUnderscores.
Inductive t : Type := No | Yes.
End HasUnderscores.

Module LiteralKind.
Inductive t : Type := Infinity | Nan.
End LiteralKind.

(** A [LiteralInfo] is written as the call that makes it:
    [LiteralInfo::Number(sign, underscores)] and so on, [OfKind lk] for
    [LiteralInfo{lk}]. *)
Module LiteralInfo.
Inductive t : Type :=
| HexNat (underscores : HasUnderscores.t)
| Nat (underscores : HasUnderscores.t)
| Number (sign : Sign.t) (underscores : HasUnderscores.t)
| HexNumber (sign : Sign.t) (underscores : HasUnderscores.t)
| Infinity (sign : Sign.t)
| Nan (sign : Sign.t)
| NanPayload (sign : Sign.t) (underscores : HasUnderscores.t)
| OfKind (kind : LiteralKind.t).
End LiteralInfo.

(** [Features{f}]: the set of the feature bits of [f]. *)
Definition Features := list Feature.

Record OpcodeInfo := { opcode : Opcode; features : Features }.

(** A [Location] is the span of the bytes of the token. *)
Definition Location := SpanU8.

Record Text := { text : Location; byte_size : Z }.

Inductive Immediate : Type :=
| monostate
| Imm_OpcodeInfo (info : OpcodeInfo)
| Imm_ValueType (vt : ValueType)
| Imm_LiteralInfo (info : LiteralInfo.t)
| Imm_Text (t : Text).

Record Token := { loc : Location; type : TokenType; immediate : Immediate }.

(* ================================================================== *)
(** * Character classes *)

(** [MatchGuard::loc()]: from the span at the guard's construction to the
    current span. *)
Definition MatchGuard_loc (orig data : SpanU8) : Location :=
  firstn (List.length orig - List.length data) orig.

Module CharClass.
Definition Reserved : Z := 1.
Definition Keyword : Z := 2.
Definition HexDigit : Z := 4.
Definition Digit : Z := 8.
End CharClass.

Definition kCharClasses : list Z := [
      0;  0;  0; 0; 0; 0; 0; 0; 0; 0; 0; 0;  0;  0;  0;  0;  0;  0;  0;
      0;  0;  0; 0; 0; 0; 0; 0; 0; 0; 0; 0;  0;  0;  0;  1;  0;  1;  1;
      1;  1;  1; 0; 0; 1; 1; 0; 1; 1; 1; 13; 13; 13; 13; 13; 13; 13; 13;
      13; 13; 1; 0; 1; 1; 1; 1; 1; 5; 5; 5;  5;  5;  5;  1;  1;  1;  1;
      1;  1;  1; 1; 1; 1; 1; 1; 1; 1; 1; 1;  1;  1;  1;  1;  0;  1;  0;
      1;  1;  1; 7; 7; 7; 7; 7; 7; 3; 3; 3;  3;  3;  3;  3;  3;  3;  3;
      3;  3;  3; 3; 3; 3; 3; 3; 3; 3; 0; 1;  0;  1
  ].

(** The array has 257 entries; those the initializer leaves out are 0. *)
Definition IsCharClass (c : Z) (bit : Z) : bool :=
  negb (Z.land (nth (Z.to_nat (c + 1)) kCharClasses 0) bit =? 0).

Definition IsDigit (c : Z) : bool := IsCharClass c CharClass.Digit.
Definition IsHexDigit (c : Z) : bool := IsCharClass c CharClass.HexDigit.
Definition IsReserved (c : Z) : bool := IsCharClass c CharClass.Reserved.

(* ================================================================== *)
(** * Reading characters *)

Definition PeekChar (data : SpanU8) (offset : nat) : Z :=
  match nth_error data offset with
  | Some c => u8_to_Z c
  | Datatypes.None => -1
  end.

Definition SkipChar (data : SpanU8) : SpanU8 := tl data.

Fixpoint ReadReservedChars_loop (data : SpanU8) (count : Z) : Z * SpanU8 :=
  if IsReserved (PeekChar data 0) then
    match data with
    | _ :: data' => ReadReservedChars_loop data' (count + 1)
    | [] => (count, data)
    end
  else (count, data).

Definition ReadReservedChars (data : SpanU8) : Z * SpanU8 :=
  ReadReservedChars_loop data 0.

Definition NoTrailingReservedChars (data : SpanU8) : bool * SpanU8 :=
  let '(count, data) := ReadReservedChars data in (count =? 0, data).

Definition ReadChar (data : SpanU8) : Z * SpanU8 :=
  let result := PeekChar data 0 in
  if negb (result =? -1) then (result, SkipChar data) else (result, data).

Definition MatchChar (data : SpanU8) (c : u8) : bool * SpanU8 :=
  if PeekChar data 0 =? u8_to_Z c then (true, SkipChar data) else (false, data).
Arguments MatchChar data c%_byte.

Definition MatchSign (data : SpanU8) : Sign.t * SpanU8 :=
  let '(plus, data) := MatchChar data "+" in
  if plus then (Sign.Plus, data)
  else
    let '(minus, data) := MatchChar data "-" in
    if minus then (Sign.Minus, data) else (Sign.None, data).

Fixpoint MatchString_loop (orig data : SpanU8) (sv : list u8) : bool * SpanU8 :=
  match sv with
  | [] => (true, data)
  | c :: sv' =>
      let '(matched, data) := MatchChar data c in
      if matched then MatchString_loop orig data sv' else (false, orig)
  end.

Definition MatchString (data : SpanU8) (sv : string) : bool * SpanU8 :=
  MatchString_loop data data (list_byte_of_string sv).

(** The loop of [MatchNum] (with [IsDigit]) and of [MatchHexNum] (with
    [IsHexDigit]): the two functions differ in this test only. *)
Fixpoint MatchNum_loop (is_digit : Z -> bool) (data : SpanU8) (ok : bool)
         (has_underscores : HasUnderscores.t)
  : SpanU8 * bool * HasUnderscores.t :=
  if is_digit (PeekChar data 0) then
    match data with
    | _ :: data1 =>
        if PeekChar data1 0 =? u8_to_Z "_" then
          match data1 with
          | _ :: data2 => MatchNum_loop is_digit data2 false HasUnderscores.Yes
          | [] => (data1, false, HasUnderscores.Yes)
          end
        else MatchNum_loop is_digit data1 true has_underscores
    | [] => (data, ok, has_underscores)
    end
  else (data, ok, has_underscores).

Definition MatchNum_with (is_digit : Z -> bool) (data : SpanU8)
           (has_underscores : HasUnderscores.t)
  : bool * SpanU8 * HasUnderscores.t :=
  let '(data', ok, has_underscores) :=
    MatchNum_loop is_digit data false has_underscores in
  (ok, if ok then data' else data, has_underscores).

Definition MatchNum := MatchNum_with IsDigit.
Definition MatchHexNum := MatchNum_with IsHexDigit.

(* ================================================================== *)
(** * The lexers of one token *)

Definition mkToken (loc : Location) (type : TokenType) : Token :=
  {| loc := loc; type := type; immediate := monostate |}.

Fixpoint LexReserved_loop (data : SpanU8) : SpanU8 :=
  if IsReserved (PeekChar data 0) then
    match data with
    | _ :: data' => LexReserved_loop data'
    | [] => data
    end
  else data.

Definition LexReserved (data : SpanU8) : Token * SpanU8 :=
  let orig := data in
  let data := LexReserved_loop data in
  (mkToken (MatchGuard_loc orig data) T_Reserved, data).

Definition LexAnnotation (data : SpanU8) : Token * SpanU8 :=
  let orig := data in
  let '(_, data) := ReadReservedChars data in
  (mkToken (MatchGuard_loc orig data) T_LparAnn, data).

Fixpoint LexBlockComment_loop (orig data : SpanU8) (nesting : Z)
  : Token * SpanU8 :=
  match data with
  | [] => (mkToken (MatchGuard_loc orig data) T_InvalidBlockComment, data)
  | c :: data1 =>
      if u8_to_Z c =? u8_to_Z ";" then
        if PeekChar data1 0 =? u8_to_Z ")" then
          match data1 with
          | _ :: data2 =>
              let nesting := nesting - 1 in
              if nesting =? 0 then
                (mkToken (MatchGuard_loc orig data2) T_BlockComment, data2)
              else LexBlockComment_loop orig data2 nesting
          | [] => (mkToken (MatchGuard_loc orig data1) T_InvalidBlockComment, data1)
          end
        else LexBlockComment_loop orig data1 nesting
      else if u8_to_Z c =? u8_to_Z "(" then
        if PeekChar data1 0 =? u8_to_Z ";" then
          match data1 with
          | _ :: data2 => LexBlockComment_loop orig data2 (nesting + 1)
          | [] => (mkToken (MatchGuard_loc orig data1) T_InvalidBlockComment, data1)
          end
        else LexBlockComment_loop orig data1 nesting
      else LexBlockComment_loop orig data1 nesting
  end.

Definition LexBlockComment (data : SpanU8) : Token * SpanU8 :=
  LexBlockComment_loop data data 0.

Definition LexId (data : SpanU8) : Token * SpanU8 :=
  let orig := data in
  let data := SkipChar data in
  let '(none, data) := NoTrailingReservedChars data in
  if none then (mkToken (MatchGuard_loc orig data) T_Reserved, data)
  else (mkToken (MatchGuard_loc orig data) T_Id, data).

Fixpoint LexLineComment_loop (orig data : SpanU8) : Token * SpanU8 :=
  match data with
  | [] => (mkToken (MatchGuard_loc orig data) T_InvalidLineComment, data)
  | c :: data1 =>
      if u8_to_Z c =? 10 then
        (mkToken (MatchGuard_loc orig data1) T_LineComment, data1)
      else LexLineComment_loop orig data1
  end.

Definition LexLineComment (data : SpanU8) : Token * SpanU8 :=
  LexLineComment_loop data data.

Definition mkTokenImm (loc : Location) (type : TokenType) (imm : Immediate)
  : Token :=
  {| loc := loc; type := type; immediate := imm |}.

Definition LexNameEqNum (data : SpanU8) (sv : string) (tt_ : TokenType)
  : Token * SpanU8 :=
  let orig := data in
  let '(m, data) := MatchString data sv in
  if m then
    let underscores := HasUnderscores.No in
    let '(hex, data) := MatchString data "0x" in
    if hex then
      let '(num, data, underscores) := MatchHexNum data underscores in
      let '(ok, data) :=
        if num then NoTrailingReservedChars data else (false, data) in
      if ok then
        (mkTokenImm (MatchGuard_loc orig data) tt_
                    (Imm_LiteralInfo (LiteralInfo.HexNat underscores)), data)
      else LexReserved orig
    else
      let '(num, data, underscores) := MatchNum data underscores in
      let '(ok, data) :=
        if num then NoTrailingReservedChars data else (false, data) in
      if ok then
        (mkTokenImm (MatchGuard_loc orig data) tt_
                    (Imm_LiteralInfo (LiteralInfo.Nat underscores)), data)
      else LexReserved orig
  else LexReserved orig.

Definition LexInf (data : SpanU8) : Token * SpanU8 :=
  let orig := data in
  let '(sign, data) := MatchSign data in
  let '(m, data) := MatchString data "inf" in
  let '(ok, data) := if m then NoTrailingReservedChars data else (false, data) in
  if ok then
    (mkTokenImm (MatchGuard_loc orig data) T_Float
                (Imm_LiteralInfo (LiteralInfo.Infinity sign)), data)
  else LexReserved data.

Definition LexNan (data : SpanU8) : Token * SpanU8 :=
  let orig := data in
  let '(sign, data) := MatchSign data in
  let '(m, data) := MatchString data "nan" in
  if m then
    let '(colon, data) := MatchChar data ":" in
    if colon then
      let underscores := HasUnderscores.No in
      let '(hex, data) := MatchString data "0x" in
      let '(num, data, underscores) :=
        if hex then MatchHexNum data underscores
        else (false, data, underscores) in
      let '(ok, data) :=
        if num then NoTrailingReservedChars data else (false, data) in
      if ok then
        (mkTokenImm (MatchGuard_loc orig data) T_Float
                    (Imm_LiteralInfo (LiteralInfo.NanPayload sign underscores)),
         data)
      else LexReserved data
    else
      let '(ok, data) := NoTrailingReservedChars data in
      if ok then
        (mkTokenImm (MatchGuard_loc orig data) T_Float
                    (Imm_LiteralInfo (LiteralInfo.Nan sign)), data)
      else LexReserved data
  else LexReserved data.

(** [MatchChar(data, a) || MatchChar(data, b)] *)
Definition MatchChar_either (data : SpanU8) (a b : u8) : bool * SpanU8 :=
  let '(m, data) := MatchChar data a in
  if m then (true, data) else MatchChar data b.
Arguments MatchChar_either data (a b)%_byte.

(** The part of [LexNumber] and of [LexHexNumber] that follows [MatchSign]
    and, for [LexHexNumber], [MatchString(data, "0x")]; [exp_lower] and
    [exp_upper] are the two letters of the exponent.  [None] stands for
    [return LexReserved(guard.Reset())]. *)
Definition LexNumber_body (is_digit : Z -> bool) (exp_lower exp_upper : u8)
           (data : SpanU8) (tt_ : TokenType) (underscores : HasUnderscores.t)
  : option (SpanU8 * TokenType * HasUnderscores.t) :=
  let '(num, data, underscores) := MatchNum_with is_digit data underscores in
  if num then
    let '(dot, data) := MatchChar data "." in
    let after_dot :=
      if dot then
        if is_digit (PeekChar data 0) then
          let '(frac, data, underscores) :=
            MatchNum_with is_digit data underscores in
          if negb frac then Datatypes.None
          else Some (data, T_Float, underscores)
        else Some (data, T_Float, underscores)
      else Some (data, tt_, underscores) in
    match after_dot with
    | Datatypes.None => Datatypes.None
    | Some (data, tt_, underscores) =>
        let '(e, data) := MatchChar_either data exp_lower exp_upper in
        let after_exp :=
          if e then
            let '(_, data) := MatchSign data in
            let '(exp, data, underscores) := MatchNum data underscores in
            if negb exp then Datatypes.None
            else Some (data, T_Float, underscores)
          else Some (data, tt_, underscores) in
        match after_exp with
        | Datatypes.None => Datatypes.None
        | Some (data, tt_, underscores) =>
            let '(ok, data) := NoTrailingReservedChars data in
            if ok then Some (data, tt_, underscores) else Datatypes.None
        end
    end
  else Datatypes.None.
Arguments LexNumber_body is_digit (exp_lower exp_upper)%_byte data tt_ underscores.

Definition LexNumber (data : SpanU8) (tt_ : TokenType) : Token * SpanU8 :=
  let orig := data in
  let '(sign, data) := MatchSign data in
  let underscores := HasUnderscores.No in
  match LexNumber_body IsDigit "e" "E" data tt_ underscores with
  | Some (data, tt_, underscores) =>
      (mkTokenImm (MatchGuard_loc orig data) tt_
                  (Imm_LiteralInfo (LiteralInfo.Number sign underscores)), data)
  | Datatypes.None => LexReserved orig
  end.

Definition LexHexNumber (data : SpanU8) (tt_ : TokenType) : Token * SpanU8 :=
  let orig := data in
  let '(sign, data) := MatchSign data in
  let underscores := HasUnderscores.No in
  let '(_, data) := MatchString data "0x" in
  match LexNumber_body IsHexDigit "p" "P" data tt_ underscores with
  | Some (data, tt_, underscores) =>
      (mkTokenImm (MatchGuard_loc orig data) tt_
                  (Imm_LiteralInfo (LiteralInfo.HexNumber sign underscores)),
       data)
  | Datatypes.None => LexReserved orig
  end.

Definition is_one_of (c : Z) (chars : string) : bool :=
  existsb (fun x => c =? u8_to_Z x) (list_byte_of_string chars).

(** The loop of [LexText] ([x22] is the double quote): the span, [has_error] and [byte_size] when
    [in_string] becomes false. *)
Fixpoint LexText_loop (data : SpanU8) (has_error : bool) (byte_size : Z)
  : SpanU8 * bool * Z :=
  match data with
  | [] => (data, true, byte_size)
  | c :: data1 =>
      if u8_to_Z c =? 10 then LexText_loop data1 true byte_size
      else if u8_to_Z c =? u8_to_Z x22 then (data1, has_error, byte_size)
      else if u8_to_Z c =? u8_to_Z "\" then
        match data1 with
        | [] => LexText_loop data1 true byte_size
        | e :: data2 =>
            if is_one_of (u8_to_Z e) "tnr'\" || (u8_to_Z e =? u8_to_Z x22) then
              (* Valid escape. *)
              LexText_loop data2 has_error (wrapU 32 (byte_size + 1))
            else if is_one_of (u8_to_Z e) "0123456789abcdefABCDEF" then
              (* Hex byte escape. *)
              if IsHexDigit (PeekChar data2 0) then
                match data2 with
                | _ :: data3 =>
                    LexText_loop data3 has_error (wrapU 32 (byte_size + 1))
                | [] => LexText_loop data2 true byte_size
                end
              else LexText_loop data2 true byte_size
            else LexText_loop data2 true byte_size
        end
      else LexText_loop data1 has_error (wrapU 32 (byte_size + 1))
  end.

Definition LexText (data : SpanU8) : Token * SpanU8 :=
  let orig := data in
  let '(_, data) := MatchChar data x22 in
  let '(data, has_error, byte_size) := LexText_loop data false 0 in
  let loc := MatchGuard_loc orig data in
  if has_error then (mkToken loc T_InvalidText, data)
  else
    (mkTokenImm loc T_Text (Imm_Text {| text := loc; byte_size := byte_size |}),
     data).

Fixpoint LexWhitespace_loop (orig data : SpanU8) : Token * SpanU8 :=
  if is_one_of (PeekChar data 0) " " || (PeekChar data 0 =? 9)
     || (PeekChar data 0 =? 13) || (PeekChar data 0 =? 10) then
    match data with
    | _ :: data' => LexWhitespace_loop orig data'
    | [] => (mkToken (MatchGuard_loc orig data) T_Whitespace, data)
    end
  else (mkToken (MatchGuard_loc orig data) T_Whitespace, data).

Definition LexWhitespace (data : SpanU8) : Token * SpanU8 :=
  LexWhitespace_loop data data.

(** The six overloads of [LexKeyword] have one body and differ in the token
    they build. *)
Definition LexKeyword_with (data : SpanU8) (sv : string) (tt_ : TokenType)
           (imm : Immediate) : Token * SpanU8 :=
  let orig := data in
  let '(m, data) := MatchString data sv in
  let '(ok, data) := if m then NoTrailingReservedChars data else (false, data) in
  if ok then (mkTokenImm (MatchGuard_loc orig data) tt_ imm, data)
  else LexReserved orig.

(* ================================================================== *)
(** * The keyword dispatch of [keywords-inl.cc] *)

(** What a [case] of the dispatch returns. *)
Inductive KeywordCall : Type :=
| LexKeyword_tt (sv : string) (tt_ : TokenType)
| LexKeyword_o (sv : string) (o : Opcode) (f : Features)
| LexKeyword_tt_o (sv : string) (tt_ : TokenType) (o : Opcode) (f : Features)
| LexKeyword_vt (sv : string) (vt : ValueType)
| LexKeyword_lk (sv : string) (tt_ : TokenType) (lk : LiteralKind.t)
| LexNameEqNum_call (sv : string) (tt_ : TokenType)
| LexNan_call.

Definition run_KeywordCall (call : KeywordCall) (data : SpanU8)
  : Token * SpanU8 :=
  match call with
  | LexKeyword_tt sv tt_ => LexKeyword_with data sv tt_ monostate
  | LexKeyword_o sv o f =>
      LexKeyword_with data sv T_BareInstr
        (Imm_OpcodeInfo {| opcode := o; features := f |})
  | LexKeyword_tt_o sv tt_ o f =>
      LexKeyword_with data sv tt_
        (Imm_OpcodeInfo {| opcode := o; features := f |})
  | LexKeyword_vt sv vt => LexKeyword_with data sv T_ValueType (Imm_ValueType vt)
  | LexKeyword_lk sv tt_ lk =>
      LexKeyword_with data sv tt_ (Imm_LiteralInfo (LiteralInfo.OfKind lk))
  | LexNameEqNum_call sv tt_ => LexNameEqNum data sv tt_
  | LexNan_call => LexNan data
  end.

(** The statements of the dispatch: [switch (PeekChar(data, offset)) {...}]
    with its [case] and [default] labels, each followed by a [return], by a
    [break], or by a nested [switch] and then a [break]. *)
Inductive Body : Type :=
| switch (offset : nat) (arms : list Arm)
| return_ (call : KeywordCall)
| break_
with Arm : Type :=
| case (c : u8) (body : Body)
| default (body : Body).
Arguments case c%_byte body.

(** The call the dispatch returns, or [None] when control leaves the
    outermost [switch] without a [return]. *)
Fixpoint dispatch (body : Body) (data : SpanU8) {struct body}
  : option KeywordCall :=
  match body with
  | return_ call => Some call
  | break_ => Datatypes.None
  | switch offset arms =>
      let c := PeekChar data offset in
      let fix on_case (arms : list Arm) : option (option KeywordCall) :=
        match arms with
        | [] => Datatypes.None
        | case label body :: arms' =>
            if c =? u8_to_Z label then Some (dispatch body data)
            else on_case arms'
        | default _ :: arms' => on_case arms'
        end in
      let fix on_default (arms : list Arm) : option KeywordCall :=
        match arms with
        | [] => Datatypes.None
        | default body :: _ => dispatch body data
        | case _ _ :: arms' => on_default arms'
        end in
      match on_case arms with
      | Some result => result
      | Datatypes.None => on_default arms
      end
  end.

Definition keywords : Body :=
  switch 2 [
    default (switch 1 [
      case "f" (return_ (LexKeyword_tt_o "if" T_BlockInstr If []));
      case "r" (return_ (LexKeyword_tt_o "br" T_VarInstr Br []));
      default break_
    ]);
    case "2" (switch 3 [
      default (switch 0 [
        case "f" (return_ (LexKeyword_vt "f32" F32));
        case "i" (return_ (LexKeyword_vt "i32" I32));
        default break_
      ]);
      case "." (switch 6 [
        default (switch 4 [
          case "e" (switch 0 [
            case "f" (return_ (LexKeyword_o "f32.eq" F32Eq []));
            case "i" (return_ (LexKeyword_o "i32.eq" I32Eq []));
            default break_
          ]);
          case "g" (switch 5 [
            case "e" (return_ (LexKeyword_o "f32.ge" F32Ge []));
            case "t" (return_ (LexKeyword_o "f32.gt" F32Gt []));
            default break_
          ]);
          case "l" (switch 5 [
            case "e" (return_ (LexKeyword_o "f32.le" F32Le []));
            case "t" (return_ (LexKeyword_o "f32.lt" F32Lt []));
            default break_
          ]);
          case "n" (switch 0 [
            case "f" (return_ (LexKeyword_o "f32.ne" F32Ne []));
            case "i" (return_ (LexKeyword_o "i32.ne" I32Ne []));
            default break_
          ]);
          case "o" (return_ (LexKeyword_o "i32.or" I32Or []));
          default break_
        ]);
        case "_" (switch 7 [
          case "s" (switch 5 [
            case "e" (switch 4 [
              case "g" (return_ (LexKeyword_o "i32.ge_s" I32GeS []));
              case "l" (return_ (LexKeyword_o "i32.le_s" I32LeS []));
              default break_
            ]);
            case "t" (switch 4 [
              case "g" (return_ (LexKeyword_o "i32.gt_s" I32GtS []));
              case "l" (return_ (LexKeyword_o "i32.lt_s" I32LtS []));
              default break_
            ]);
            default break_
          ]);
          case "u" (switch 5 [
            case "e" (switch 4 [
              case "g" (return_ (LexKeyword_o "i32.ge_u" I32GeU []));
              case "l" (return_ (LexKeyword_o "i32.le_u" I32LeU []));
              default break_
            ]);
            case "t" (switch 4 [
              case "g" (return_ (LexKeyword_o "i32.gt_u" I32GtU []));
              case "l" (return_ (LexKeyword_o "i32.lt_u" I32LtU []));
              default break_
            ]);
            default break_
          ]);
          default break_
        ]);
        case "a" (switch 8 [
          default (switch 0 [
            case "f" (return_ (LexKeyword_tt_o "f32.load" T_MemoryInstr F32Load []));
            case "i" (return_ (LexKeyword_tt_o "i32.load" T_MemoryInstr I32Load []));
            default break_
          ]);
          case "/" (return_ (LexKeyword_o "i32.wrap/i64" I32WrapI64 []));
          case "1" (switch 11 [
            case "s" (return_ (LexKeyword_tt_o "i32.load16_s" T_MemoryInstr I32Load16S []));
            case "u" (return_ (LexKeyword_tt_o "i32.load16_u" T_MemoryInstr I32Load16U []));
            default break_
          ]);
          case "8" (switch 10 [
            case "s" (return_ (LexKeyword_tt_o "i32.load8_s" T_MemoryInstr I32Load8S []));
            case "u" (return_ (LexKeyword_tt_o "i32.load8_u" T_MemoryInstr I32Load8U []));
            default break_
          ]);
          case "_" (return_ (LexKeyword_o "i32.wrap_i64" I32WrapI64 []));
          case "e" (return_ (LexKeyword_o "f32.nearest" F32Nearest []))
        ]);
        case "b" (switch 0 [
          case "f" (return_ (LexKeyword_o "f32.sub" F32Sub []));
          case "i" (return_ (LexKeyword_o "i32.sub" I32Sub []));
          default break_
        ]);
        case "d" (switch 5 [
          case "d" (switch 0 [
            case "f" (return_ (LexKeyword_o "f32.add" F32Add []));
            case "i" (return_ (LexKeyword_o "i32.add" I32Add []));
            default break_
          ]);
          case "n" (return_ (LexKeyword_o "i32.and" I32And []));
          default break_
        ]);
        case "g" (return_ (LexKeyword_o "f32.neg" F32Neg []));
        case "i" (switch 8 [
          default (return_ (LexKeyword_o "f32.ceil" F32Ceil []));
          case "t" (switch 16 [
            case "f" (switch 15 [
              case "/" (return_ (LexKeyword_o "i32.reinterpret/f32" I32ReinterpretF32 []));
              case "_" (return_ (LexKeyword_o "i32.reinterpret_f32" I32ReinterpretF32 []));
              default break_
            ]);
            case "i" (switch 15 [
              case "/" (return_ (LexKeyword_o "f32.reinterpret/i32" F32ReinterpretI32 []));
              case "_" (return_ (LexKeyword_o "f32.reinterpret_i32" F32ReinterpretI32 []));
              default break_
            ]);
            default break_
          ])
        ]);
        case "l" (switch 5 [
          case "h" (return_ (LexKeyword_o "i32.shl" I32Shl []));
          case "u" (switch 0 [
            case "f" (return_ (LexKeyword_o "f32.mul" F32Mul []));
            case "i" (return_ (LexKeyword_o "i32.mul" I32Mul []));
            default break_
          ]);
          default break_
        ]);
        case "m" (switch 8 [
          case "s" (return_ (LexKeyword_o "i32.rem_s" I32RemS []));
          case "t" (switch 10 [
            case "/" (return_ (LexKeyword_o "f32.demote/f64" F32DemoteF64 []));
            case "_" (return_ (LexKeyword_o "f32.demote_f64" F32DemoteF64 []));
            default break_
          ]);
          case "u" (return_ (LexKeyword_o "i32.rem_u" I32RemU []));
          default break_
        ]);
        case "n" (switch 7 [
          default (return_ (LexKeyword_o "f32.min" F32Min []));
          case "s" (switch 0 [
            case "f" (return_ (LexKeyword_tt_o "f32.const" T_F32ConstInstr F32Const []));
            case "i" (return_ (LexKeyword_tt_o "i32.const" T_I32ConstInstr I32Const []));
            default break_
          ]);
          case "v" (switch 16 [
            case "2" (switch 12 [
              case "s" (return_ (LexKeyword_o "f32.convert_s/i32" F32ConvertI32S []));
              case "u" (return_ (LexKeyword_o "f32.convert_u/i32" F32ConvertI32U []));
              default break_
            ]);
            case "4" (switch 12 [
              case "s" (return_ (LexKeyword_o "f32.convert_s/i64" F32ConvertI64S []));
              case "u" (return_ (LexKeyword_o "f32.convert_u/i64" F32ConvertI64U []));
              default break_
            ]);
            case "s" (switch 14 [
              case "2" (return_ (LexKeyword_o "f32.convert_i32_s" F32ConvertI32S []));
              case "4" (return_ (LexKeyword_o "f32.convert_i64_s" F32ConvertI64S []));
              default break_
            ]);
            case "u" (switch 14 [
              case "2" (return_ (LexKeyword_o "f32.convert_i32_u" F32ConvertI32U []));
              case "4" (return_ (LexKeyword_o "f32.convert_i64_u" F32ConvertI64U []));
              default break_
            ]);
            default break_
          ])
        ]);
        case "o" (switch 9 [
          default (switch 8 [
            case "e" (switch 0 [
              case "f" (return_ (LexKeyword_tt_o "f32.store" T_MemoryInstr F32Store []));
              case "i" (return_ (LexKeyword_tt_o "i32.store" T_MemoryInstr I32Store []));
              default break_
            ]);
            case "r" (return_ (LexKeyword_o "f32.floor" F32Floor []));
            default break_
          ]);
          case "1" (return_ (LexKeyword_tt_o "i32.store16" T_MemoryInstr I32Store16 []));
          case "8" (return_ (LexKeyword_tt_o "i32.store8" T_MemoryInstr I32Store8 []));
          case "c" (switch 15 [
            default (switch 14 [
              case "d" (return_ (LexKeyword_tt_o "i32.atomic.load" T_MemoryInstr I32AtomicLoad [Threads]));
              case "t" (return_ (LexKeyword_tt_o "i32.atomic.wait" T_MemoryInstr I32AtomicWait [Threads]));
              default break_
            ]);
            case "." (switch 17 [
              case "c" (return_ (LexKeyword_tt_o "i32.atomic.rmw8.xchg_u" T_MemoryInstr I32AtomicRmw8XchgU [Threads]));
              case "d" (return_ (LexKeyword_tt_o "i32.atomic.rmw8.add_u" T_MemoryInstr I32AtomicRmw8AddU [Threads]));
              case "m" (return_ (LexKeyword_tt_o "i32.atomic.rmw8.cmpxchg_u" T_MemoryInstr I32AtomicRmw8CmpxchgU [Threads]));
              case "n" (return_ (LexKeyword_tt_o "i32.atomic.rmw8.and_u" T_MemoryInstr I32AtomicRmw8AndU [Threads]));
              case "o" (return_ (LexKeyword_tt_o "i32.atomic.rmw8.xor_u" T_MemoryInstr I32AtomicRmw8XorU [Threads]));
              case "r" (return_ (LexKeyword_tt_o "i32.atomic.rmw8.or_u" T_MemoryInstr I32AtomicRmw8OrU [Threads]));
              case "u" (return_ (LexKeyword_tt_o "i32.atomic.rmw8.sub_u" T_MemoryInstr I32AtomicRmw8SubU [Threads]));
              default break_
            ]);
            case "1" (return_ (LexKeyword_tt_o "i32.atomic.load16_u" T_MemoryInstr I32AtomicLoad16U [Threads]));
            case "6" (switch 18 [
              case "c" (return_ (LexKeyword_tt_o "i32.atomic.rmw16.xchg_u" T_MemoryInstr I32AtomicRmw16XchgU [Threads]));
              case "d" (return_ (LexKeyword_tt_o "i32.atomic.rmw16.add_u" T_MemoryInstr I32AtomicRmw16AddU [Threads]));
              case "m" (return_ (LexKeyword_tt_o "i32.atomic.rmw16.cmpxchg_u" T_MemoryInstr I32AtomicRmw16CmpxchgU [Threads]));
              case "n" (return_ (LexKeyword_tt_o "i32.atomic.rmw16.and_u" T_MemoryInstr I32AtomicRmw16AndU [Threads]));
              case "o" (return_ (LexKeyword_tt_o "i32.atomic.rmw16.xor_u" T_MemoryInstr I32AtomicRmw16XorU [Threads]));
              case "r" (return_ (LexKeyword_tt_o "i32.atomic.rmw16.or_u" T_MemoryInstr I32AtomicRmw16OrU [Threads]));
              case "u" (return_ (LexKeyword_tt_o "i32.atomic.rmw16.sub_u" T_MemoryInstr I32AtomicRmw16SubU [Threads]));
              default break_
            ]);
            case "8" (return_ (LexKeyword_tt_o "i32.atomic.load8_u" T_MemoryInstr I32AtomicLoad8U [Threads]));
            case "a" (switch 16 [
              case "d" (return_ (LexKeyword_tt_o "i32.atomic.rmw.add" T_MemoryInstr I32AtomicRmwAdd [Threads]));
              case "n" (return_ (LexKeyword_tt_o "i32.atomic.rmw.and" T_MemoryInstr I32AtomicRmwAnd [Threads]));
              default break_
            ]);
            case "c" (return_ (LexKeyword_tt_o "i32.atomic.rmw.cmpxchg" T_MemoryInstr I32AtomicRmwCmpxchg [Threads]));
            case "e" (switch 16 [
              default (return_ (LexKeyword_tt_o "i32.atomic.store" T_MemoryInstr I32AtomicStore [Threads]));
              case "1" (return_ (LexKeyword_tt_o "i32.atomic.store16" T_MemoryInstr I32AtomicStore16 [Threads]));
              case "8" (return_ (LexKeyword_tt_o "i32.atomic.store8" T_MemoryInstr I32AtomicStore8 [Threads]))
            ]);
            case "o" (return_ (LexKeyword_tt_o "i32.atomic.rmw.or" T_MemoryInstr I32AtomicRmwOr [Threads]));
            case "s" (return_ (LexKeyword_tt_o "i32.atomic.rmw.sub" T_MemoryInstr I32AtomicRmwSub [Threads]));
            case "x" (switch 18 [
              default (return_ (LexKeyword_tt_o "i32.atomic.rmw.xor" T_MemoryInstr I32AtomicRmwXor [Threads]));
              case "g" (return_ (LexKeyword_tt_o "i32.atomic.rmw.xchg" T_MemoryInstr I32AtomicRmwXchg [Threads]))
            ])
          ])
        ]);
        case "p" (switch 10 [
          default (return_ (LexKeyword_o "i32.popcnt" I32Popcnt []));
          case "g" (return_ (LexKeyword_o "f32.copysign" F32Copysign []))
        ]);
        case "r" (switch 7 [
          default (return_ (LexKeyword_o "i32.xor" I32Xor []));
          case "_" (switch 8 [
            case "s" (return_ (LexKeyword_o "i32.shr_s" I32ShrS []));
            case "u" (return_ (LexKeyword_o "i32.shr_u" I32ShrU []));
            default break_
          ]);
          case "t" (return_ (LexKeyword_o "f32.sqrt" F32Sqrt []))
        ]);
        case "s" (return_ (LexKeyword_o "f32.abs" F32Abs []));
        case "t" (switch 7 [
          case "e" (switch 13 [
            default (return_ (LexKeyword_o "i32.extend8_s" I32Extend8S [SignExtension]));
            case "s" (return_ (LexKeyword_o "i32.extend16_s" I32Extend16S [SignExtension]))
          ]);
          case "l" (return_ (LexKeyword_o "i32.rotl" I32Rotl []));
          case "r" (return_ (LexKeyword_o "i32.rotr" I32Rotr []));
          default break_
        ]);
        case "u" (switch 9 [
          default (return_ (LexKeyword_o "f32.trunc" F32Trunc []));
          case "_" (switch 14 [
            case "2" (switch 10 [
              case "s" (return_ (LexKeyword_o "i32.trunc_s/f32" I32TruncF32S []));
              case "u" (return_ (LexKeyword_o "i32.trunc_u/f32" I32TruncF32U []));
              default break_
            ]);
            case "4" (switch 10 [
              case "s" (return_ (LexKeyword_o "i32.trunc_s/f64" I32TruncF64S []));
              case "u" (return_ (LexKeyword_o "i32.trunc_u/f64" I32TruncF64U []));
              default break_
            ]);
            case "f" (switch 18 [
              case "s" (switch 16 [
                case "2" (return_ (LexKeyword_o "i32.trunc_sat_f32_s" I32TruncSatF32S [SaturatingFloatToInt]));
                case "4" (return_ (LexKeyword_o "i32.trunc_sat_f64_s" I32TruncSatF64S [SaturatingFloatToInt]));
                default break_
              ]);
              case "u" (switch 16 [
                case "2" (return_ (LexKeyword_o "i32.trunc_sat_f32_u" I32TruncSatF32U [SaturatingFloatToInt]));
                case "4" (return_ (LexKeyword_o "i32.trunc_sat_f64_u" I32TruncSatF64U [SaturatingFloatToInt]));
                default break_
              ]);
              default break_
            ]);
            case "s" (switch 12 [
              case "2" (return_ (LexKeyword_o "i32.trunc_f32_s" I32TruncF32S []));
              case "4" (return_ (LexKeyword_o "i32.trunc_f64_s" I32TruncF64S []));
              default break_
            ]);
            case "t" (switch 18 [
              case "2" (switch 10 [
                case "s" (return_ (LexKeyword_o "i32.trunc_s:sat/f32" I32TruncSatF32S [SaturatingFloatToInt]));
                case "u" (return_ (LexKeyword_o "i32.trunc_u:sat/f32" I32TruncSatF32U [SaturatingFloatToInt]));
                default break_
              ]);
              case "4" (switch 10 [
                case "s" (return_ (LexKeyword_o "i32.trunc_s:sat/f64" I32TruncSatF64S [SaturatingFloatToInt]));
                case "u" (return_ (LexKeyword_o "i32.trunc_u:sat/f64" I32TruncSatF64U [SaturatingFloatToInt]));
                default break_
              ]);
              default break_
            ]);
            case "u" (switch 12 [
              case "2" (return_ (LexKeyword_o "i32.trunc_f32_u" I32TruncF32U []));
              case "4" (return_ (LexKeyword_o "i32.trunc_f64_u" I32TruncF64U []));
              default break_
            ]);
            default break_
          ])
        ]);
        case "v" (switch 7 [
          default (return_ (LexKeyword_o "f32.div" F32Div []));
          case "_" (switch 8 [
            case "s" (return_ (LexKeyword_o "i32.div_s" I32DivS []));
            case "u" (return_ (LexKeyword_o "i32.div_u" I32DivU []));
            default break_
          ])
        ]);
        case "x" (return_ (LexKeyword_o "f32.max" F32Max []));
        case "z" (switch 5 [
          case "l" (return_ (LexKeyword_o "i32.clz" I32Clz []));
          case "q" (return_ (LexKeyword_o "i32.eqz" I32Eqz []));
          case "t" (return_ (LexKeyword_o "i32.ctz" I32Ctz []));
          default break_
        ])
      ]);
      case "8" (switch 4 [
        default (return_ (LexKeyword_vt "v128" V128));
        case "." (switch 5 [
          case "a" (switch 8 [
            default (return_ (LexKeyword_o "v128.and" V128And [Simd]));
            case "n" (return_ (LexKeyword_o "v128.andnot" V128Andnot [Simd]))
          ]);
          case "b" (return_ (LexKeyword_o "v128.bitselect" V128BitSelect [Simd]));
          case "c" (return_ (LexKeyword_tt_o "v128.const" T_SimdConstInstr V128Const [Simd]));
          case "l" (return_ (LexKeyword_tt_o "v128.load" T_MemoryInstr V128Load [Simd]));
          case "n" (return_ (LexKeyword_o "v128.not" V128Not [Simd]));
          case "o" (return_ (LexKeyword_o "v128.or" V128Or [Simd]));
          case "s" (return_ (LexKeyword_tt_o "v128.store" T_MemoryInstr V128Store [Simd]));
          case "x" (return_ (LexKeyword_o "v128.xor" V128Xor [Simd]));
          default break_
        ])
      ]);
      case "x" (switch 0 [
        case "f" (switch 5 [
          default (return_ (LexKeyword_tt "f32x4" T_F32X4));
          case "." (switch 8 [
            default (switch 6 [
              case "e" (return_ (LexKeyword_o "f32x4.eq" F32X4Eq [Simd]));
              case "g" (switch 7 [
                case "e" (return_ (LexKeyword_o "f32x4.ge" F32X4Ge [Simd]));
                case "t" (return_ (LexKeyword_o "f32x4.gt" F32X4Gt [Simd]));
                default break_
              ]);
              case "l" (switch 7 [
                case "e" (return_ (LexKeyword_o "f32x4.le" F32X4Le [Simd]));
                case "t" (return_ (LexKeyword_o "f32x4.lt" F32X4Lt [Simd]));
                default break_
              ]);
              case "n" (return_ (LexKeyword_o "f32x4.ne" F32X4Ne [Simd]));
              default break_
            ]);
            case "b" (return_ (LexKeyword_o "f32x4.sub" F32X4Sub [Simd]));
            case "d" (return_ (LexKeyword_o "f32x4.add" F32X4Add [Simd]));
            case "g" (return_ (LexKeyword_o "f32x4.neg" F32X4Neg [Simd]));
            case "l" (switch 9 [
              default (return_ (LexKeyword_o "f32x4.mul" F32X4Mul [Simd]));
              case "a" (return_ (LexKeyword_o "f32x4.splat" F32X4Splat [Simd]))
            ]);
            case "n" (switch 9 [
              default (return_ (LexKeyword_o "f32x4.min" F32X4Min [Simd]));
              case "v" (switch 20 [
                case "s" (return_ (LexKeyword_o "f32x4.convert_i32x4_s" F32X4ConvertI32X4S [Simd]));
                case "u" (return_ (LexKeyword_o "f32x4.convert_i32x4_u" F32X4ConvertI32X4U [Simd]));
                default break_
              ])
            ]);
            case "p" (return_ (LexKeyword_tt_o "f32x4.replace_lane" T_SimdLaneInstr F32X4ReplaceLane [Simd]));
            case "r" (return_ (LexKeyword_o "f32x4.sqrt" F32X4Sqrt [Simd]));
            case "s" (return_ (LexKeyword_o "f32x4.abs" F32X4Abs [Simd]));
            case "t" (return_ (LexKeyword_tt_o "f32x4.extract_lane" T_SimdLaneInstr F32X4ExtractLane [Simd]));
            case "v" (return_ (LexKeyword_o "f32x4.div" F32X4Div [Simd]));
            case "x" (return_ (LexKeyword_o "f32x4.max" F32X4Max [Simd]))
          ])
        ]);
        case "i" (switch 5 [
          default (return_ (LexKeyword_tt "i32x4" T_I32X4));
          case "." (switch 8 [
            default (switch 7 [
              case "e" (return_ (LexKeyword_o "i32x4.ne" I32X4Ne [Simd]));
              case "q" (return_ (LexKeyword_o "i32x4.eq" I32X4Eq [Simd]));
              default break_
            ]);
            case "_" (switch 9 [
              case "s" (switch 7 [
                case "e" (switch 6 [
                  case "g" (return_ (LexKeyword_o "i32x4.ge_s" I32X4GeS [Simd]));
                  case "l" (return_ (LexKeyword_o "i32x4.le_s" I32X4LeS [Simd]));
                  default break_
                ]);
                case "t" (switch 6 [
                  case "g" (return_ (LexKeyword_o "i32x4.gt_s" I32X4GtS [Simd]));
                  case "l" (return_ (LexKeyword_o "i32x4.lt_s" I32X4LtS [Simd]));
                  default break_
                ]);
                default break_
              ]);
              case "u" (switch 7 [
                case "e" (switch 6 [
                  case "g" (return_ (LexKeyword_o "i32x4.ge_u" I32X4GeU [Simd]));
                  case "l" (return_ (LexKeyword_o "i32x4.le_u" I32X4LeU [Simd]));
                  default break_
                ]);
                case "t" (switch 6 [
                  case "g" (return_ (LexKeyword_o "i32x4.gt_u" I32X4GtU [Simd]));
                  case "l" (return_ (LexKeyword_o "i32x4.lt_u" I32X4LtU [Simd]));
                  default break_
                ]);
                default break_
              ]);
              default break_
            ]);
            case "a" (switch 15 [
              case "s" (return_ (LexKeyword_tt_o "i32x4.load16x4_s" T_MemoryInstr I32X4Load16X4S [Simd]));
              case "u" (return_ (LexKeyword_tt_o "i32x4.load16x4_u" T_MemoryInstr I32X4Load16X4U [Simd]));
              default break_
            ]);
            case "b" (return_ (LexKeyword_o "i32x4.sub" I32X4Sub [Simd]));
            case "d" (switch 9 [
              default (return_ (LexKeyword_o "i32x4.add" I32X4Add [Simd]));
              case "e" (switch 23 [
                default (switch 22 [
                  case "s" (return_ (LexKeyword_o "i32x4.widen_low_i16x8_s" I32X4WidenLowI16X8S [Simd]));
                  case "u" (return_ (LexKeyword_o "i32x4.widen_low_i16x8_u" I32X4WidenLowI16X8U [Simd]));
                  default break_
                ]);
                case "s" (return_ (LexKeyword_o "i32x4.widen_high_i16x8_s" I32X4WidenHighI16X8S [Simd]));
                case "u" (return_ (LexKeyword_o "i32x4.widen_high_i16x8_u" I32X4WidenHighI16X8U [Simd]))
              ])
            ]);
            case "g" (return_ (LexKeyword_o "i32x4.neg" I32X4Neg [Simd]));
            case "l" (switch 7 [
              case "h" (return_ (LexKeyword_o "i32x4.shl" I32X4Shl [Simd]));
              case "l" (return_ (LexKeyword_o "i32x4.all_true" I32X4AllTrue [Simd]));
              case "p" (return_ (LexKeyword_o "i32x4.splat" I32X4Splat [Simd]));
              case "u" (return_ (LexKeyword_o "i32x4.mul" I32X4Mul [Simd]));
              default break_
            ]);
            case "n" (switch 10 [
              case "s" (return_ (LexKeyword_o "i32x4.min_s" I32X4MinS [Simd]));
              case "u" (return_ (LexKeyword_o "i32x4.min_u" I32X4MinU [Simd]));
              default break_
            ]);
            case "p" (return_ (LexKeyword_tt_o "i32x4.replace_lane" T_SimdLaneInstr I32X4ReplaceLane [Simd]));
            case "r" (switch 10 [
              case "s" (return_ (LexKeyword_o "i32x4.shr_s" I32X4ShrS [Simd]));
              case "u" (return_ (LexKeyword_o "i32x4.shr_u" I32X4ShrU [Simd]));
              default break_
            ]);
            case "t" (return_ (LexKeyword_tt_o "i32x4.extract_lane" T_SimdLaneInstr I32X4ExtractLane [Simd]));
            case "u" (switch 22 [
              case "s" (return_ (LexKeyword_o "i32x4.trunc_sat_f32x4_s" I32X4TruncSatF32X4S [Simd]));
              case "u" (return_ (LexKeyword_o "i32x4.trunc_sat_f32x4_u" I32X4TruncSatF32X4U [Simd]));
              default break_
            ]);
            case "x" (switch 10 [
              case "s" (return_ (LexKeyword_o "i32x4.max_s" I32X4MaxS [Simd]));
              case "u" (return_ (LexKeyword_o "i32x4.max_u" I32X4MaxU [Simd]));
              default break_
            ]);
            case "y" (return_ (LexKeyword_o "i32x4.any_true" I32X4AnyTrue [Simd]))
          ])
        ]);
        case "v" (return_ (LexKeyword_tt_o "v32x4.load_splat" T_MemoryInstr V32X4LoadSplat [Simd]));
        default break_
      ])
    ]);
    case "4" (switch 3 [
      default (switch 0 [
        case "f" (return_ (LexKeyword_vt "f64" F64));
        case "i" (return_ (LexKeyword_vt "i64" I64));
        default break_
      ]);
      case "." (switch 6 [
        default (switch 4 [
          case "e" (switch 0 [
            case "f" (return_ (LexKeyword_o "f64.eq" F64Eq []));
            case "i" (return_ (LexKeyword_o "i64.eq" I64Eq []));
            default break_
          ]);
          case "g" (switch 5 [
            case "e" (return_ (LexKeyword_o "f64.ge" F64Ge []));
            case "t" (return_ (LexKeyword_o "f64.gt" F64Gt []));
            default break_
          ]);
          case "l" (switch 5 [
            case "e" (return_ (LexKeyword_o "f64.le" F64Le []));
            case "t" (return_ (LexKeyword_o "f64.lt" F64Lt []));
            default break_
          ]);
          case "n" (switch 0 [
            case "f" (return_ (LexKeyword_o "f64.ne" F64Ne []));
            case "i" (return_ (LexKeyword_o "i64.ne" I64Ne []));
            default break_
          ]);
          case "o" (return_ (LexKeyword_o "i64.or" I64Or []));
          default break_
        ]);
        case "_" (switch 7 [
          case "s" (switch 5 [
            case "e" (switch 4 [
              case "g" (return_ (LexKeyword_o "i64.ge_s" I64GeS []));
              case "l" (return_ (LexKeyword_o "i64.le_s" I64LeS []));
              default break_
            ]);
            case "t" (switch 4 [
              case "g" (return_ (LexKeyword_o "i64.gt_s" I64GtS []));
              case "l" (return_ (LexKeyword_o "i64.lt_s" I64LtS []));
              default break_
            ]);
            default break_
          ]);
          case "u" (switch 5 [
            case "e" (switch 4 [
              case "g" (return_ (LexKeyword_o "i64.ge_u" I64GeU []));
              case "l" (return_ (LexKeyword_o "i64.le_u" I64LeU []));
              default break_
            ]);
            case "t" (switch 4 [
              case "g" (return_ (LexKeyword_o "i64.gt_u" I64GtU []));
              case "l" (return_ (LexKeyword_o "i64.lt_u" I64LtU []));
              default break_
            ]);
            default break_
          ]);
          default break_
        ]);
        case "a" (switch 8 [
          default (switch 0 [
            case "f" (return_ (LexKeyword_tt_o "f64.load" T_MemoryInstr F64Load []));
            case "i" (return_ (LexKeyword_tt_o "i64.load" T_MemoryInstr I64Load []));
            default break_
          ]);
          case "1" (switch 11 [
            case "s" (return_ (LexKeyword_tt_o "i64.load16_s" T_MemoryInstr I64Load16S []));
            case "u" (return_ (LexKeyword_tt_o "i64.load16_u" T_MemoryInstr I64Load16U []));
            default break_
          ]);
          case "3" (switch 11 [
            case "s" (return_ (LexKeyword_tt_o "i64.load32_s" T_MemoryInstr I64Load32S []));
            case "u" (return_ (LexKeyword_tt_o "i64.load32_u" T_MemoryInstr I64Load32U []));
            default break_
          ]);
          case "8" (switch 10 [
            case "s" (return_ (LexKeyword_tt_o "i64.load8_s" T_MemoryInstr I64Load8S []));
            case "u" (return_ (LexKeyword_tt_o "i64.load8_u" T_MemoryInstr I64Load8U []));
            default break_
          ]);
          case "e" (return_ (LexKeyword_o "f64.nearest" F64Nearest []))
        ]);
        case "b" (switch 0 [
          case "f" (return_ (LexKeyword_o "f64.sub" F64Sub []));
          case "i" (return_ (LexKeyword_o "i64.sub" I64Sub []));
          default break_
        ]);
        case "d" (switch 5 [
          case "d" (switch 0 [
            case "f" (return_ (LexKeyword_o "f64.add" F64Add []));
            case "i" (return_ (LexKeyword_o "i64.add" I64Add []));
            default break_
          ]);
          case "n" (return_ (LexKeyword_o "i64.and" I64And []));
          default break_
        ]);
        case "g" (return_ (LexKeyword_o "f64.neg" F64Neg []));
        case "i" (switch 8 [
          default (return_ (LexKeyword_o "f64.ceil" F64Ceil []));
          case "t" (switch 16 [
            case "f" (switch 15 [
              case "/" (return_ (LexKeyword_o "i64.reinterpret/f64" I64ReinterpretF64 []));
              case "_" (return_ (LexKeyword_o "i64.reinterpret_f64" I64ReinterpretF64 []));
              default break_
            ]);
            case "i" (switch 15 [
              case "/" (return_ (LexKeyword_o "f64.reinterpret/i64" F64ReinterpretI64 []));
              case "_" (return_ (LexKeyword_o "f64.reinterpret_i64" F64ReinterpretI64 []));
              default break_
            ]);
            default break_
          ])
        ]);
        case "l" (switch 5 [
          case "h" (return_ (LexKeyword_o "i64.shl" I64Shl []));
          case "u" (switch 0 [
            case "f" (return_ (LexKeyword_o "f64.mul" F64Mul []));
            case "i" (return_ (LexKeyword_o "i64.mul" I64Mul []));
            default break_
          ]);
          default break_
        ]);
        case "m" (switch 8 [
          case "s" (return_ (LexKeyword_o "i64.rem_s" I64RemS []));
          case "u" (return_ (LexKeyword_o "i64.rem_u" I64RemU []));
          default break_
        ]);
        case "n" (switch 7 [
          default (return_ (LexKeyword_o "f64.min" F64Min []));
          case "s" (switch 0 [
            case "f" (return_ (LexKeyword_tt_o "f64.const" T_F64ConstInstr F64Const []));
            case "i" (return_ (LexKeyword_tt_o "i64.const" T_I64ConstInstr I64Const []));
            default break_
          ]);
          case "v" (switch 16 [
            case "2" (switch 12 [
              case "s" (return_ (LexKeyword_o "f64.convert_s/i32" F64ConvertI32S []));
              case "u" (return_ (LexKeyword_o "f64.convert_u/i32" F64ConvertI32U []));
              default break_
            ]);
            case "4" (switch 12 [
              case "s" (return_ (LexKeyword_o "f64.convert_s/i64" F64ConvertI64S []));
              case "u" (return_ (LexKeyword_o "f64.convert_u/i64" F64ConvertI64U []));
              default break_
            ]);
            case "s" (switch 14 [
              case "2" (return_ (LexKeyword_o "f64.convert_i32_s" F64ConvertI32S []));
              case "4" (return_ (LexKeyword_o "f64.convert_i64_s" F64ConvertI64S []));
              default break_
            ]);
            case "u" (switch 14 [
              case "2" (return_ (LexKeyword_o "f64.convert_i32_u" F64ConvertI32U []));
              case "4" (return_ (LexKeyword_o "f64.convert_i64_u" F64ConvertI64U []));
              default break_
            ]);
            default break_
          ])
        ]);
        case "o" (switch 9 [
          default (switch 8 [
            case "e" (switch 0 [
              case "f" (return_ (LexKeyword_tt_o "f64.store" T_MemoryInstr F64Store []));
              case "i" (return_ (LexKeyword_tt_o "i64.store" T_MemoryInstr I64Store []));
              default break_
            ]);
            case "r" (return_ (LexKeyword_o "f64.floor" F64Floor []));
            default break_
          ]);
          case "1" (return_ (LexKeyword_tt_o "i64.store16" T_MemoryInstr I64Store16 []));
          case "3" (return_ (LexKeyword_tt_o "i64.store32" T_MemoryInstr I64Store32 []));
          case "8" (return_ (LexKeyword_tt_o "i64.store8" T_MemoryInstr I64Store8 []));
          case "c" (switch 15 [
            default (switch 14 [
              case "d" (return_ (LexKeyword_tt_o "i64.atomic.load" T_MemoryInstr I64AtomicLoad [Threads]));
              case "t" (return_ (LexKeyword_tt_o "i64.atomic.wait" T_MemoryInstr I64AtomicWait [Threads]));
              default break_
            ]);
            case "." (switch 17 [
              case "c" (return_ (LexKeyword_tt_o "i64.atomic.rmw8.xchg_u" T_MemoryInstr I64AtomicRmw8XchgU [Threads]));
              case "d" (return_ (LexKeyword_tt_o "i64.atomic.rmw8.add_u" T_MemoryInstr I64AtomicRmw8AddU [Threads]));
              case "m" (return_ (LexKeyword_tt_o "i64.atomic.rmw8.cmpxchg_u" T_MemoryInstr I64AtomicRmw8CmpxchgU [Threads]));
              case "n" (return_ (LexKeyword_tt_o "i64.atomic.rmw8.and_u" T_MemoryInstr I64AtomicRmw8AndU [Threads]));
              case "o" (return_ (LexKeyword_tt_o "i64.atomic.rmw8.xor_u" T_MemoryInstr I64AtomicRmw8XorU [Threads]));
              case "r" (return_ (LexKeyword_tt_o "i64.atomic.rmw8.or_u" T_MemoryInstr I64AtomicRmw8OrU [Threads]));
              case "u" (return_ (LexKeyword_tt_o "i64.atomic.rmw8.sub_u" T_MemoryInstr I64AtomicRmw8SubU [Threads]));
              default break_
            ]);
            case "1" (return_ (LexKeyword_tt_o "i64.atomic.load16_u" T_MemoryInstr I64AtomicLoad16U [Threads]));
            case "2" (switch 18 [
              case "c" (return_ (LexKeyword_tt_o "i64.atomic.rmw32.xchg_u" T_MemoryInstr I64AtomicRmw32XchgU [Threads]));
              case "d" (return_ (LexKeyword_tt_o "i64.atomic.rmw32.add_u" T_MemoryInstr I64AtomicRmw32AddU [Threads]));
              case "m" (return_ (LexKeyword_tt_o "i64.atomic.rmw32.cmpxchg_u" T_MemoryInstr I64AtomicRmw32CmpxchgU [Threads]));
              case "n" (return_ (LexKeyword_tt_o "i64.atomic.rmw32.and_u" T_MemoryInstr I64AtomicRmw32AndU [Threads]));
              case "o" (return_ (LexKeyword_tt_o "i64.atomic.rmw32.xor_u" T_MemoryInstr I64AtomicRmw32XorU [Threads]));
              case "r" (return_ (LexKeyword_tt_o "i64.atomic.rmw32.or_u" T_MemoryInstr I64AtomicRmw32OrU [Threads]));
              case "u" (return_ (LexKeyword_tt_o "i64.atomic.rmw32.sub_u" T_MemoryInstr I64AtomicRmw32SubU [Threads]));
              default break_
            ]);
            case "3" (return_ (LexKeyword_tt_o "i64.atomic.load32_u" T_MemoryInstr I64AtomicLoad32U [Threads]));
            case "6" (switch 18 [
              case "c" (return_ (LexKeyword_tt_o "i64.atomic.rmw16.xchg_u" T_MemoryInstr I64AtomicRmw16XchgU [Threads]));
              case "d" (return_ (LexKeyword_tt_o "i64.atomic.rmw16.add_u" T_MemoryInstr I64AtomicRmw16AddU [Threads]));
              case "m" (return_ (LexKeyword_tt_o "i64.atomic.rmw16.cmpxchg_u" T_MemoryInstr I64AtomicRmw16CmpxchgU [Threads]));
              case "n" (return_ (LexKeyword_tt_o "i64.atomic.rmw16.and_u" T_MemoryInstr I64AtomicRmw16AndU [Threads]));
              case "o" (return_ (LexKeyword_tt_o "i64.atomic.rmw16.xor_u" T_MemoryInstr I64AtomicRmw16XorU [Threads]));
              case "r" (return_ (LexKeyword_tt_o "i64.atomic.rmw16.or_u" T_MemoryInstr I64AtomicRmw16OrU [Threads]));
              case "u" (return_ (LexKeyword_tt_o "i64.atomic.rmw16.sub_u" T_MemoryInstr I64AtomicRmw16SubU [Threads]));
              default break_
            ]);
            case "8" (return_ (LexKeyword_tt_o "i64.atomic.load8_u" T_MemoryInstr I64AtomicLoad8U [Threads]));
            case "a" (switch 16 [
              case "d" (return_ (LexKeyword_tt_o "i64.atomic.rmw.add" T_MemoryInstr I64AtomicRmwAdd [Threads]));
              case "n" (return_ (LexKeyword_tt_o "i64.atomic.rmw.and" T_MemoryInstr I64AtomicRmwAnd [Threads]));
              default break_
            ]);
            case "c" (return_ (LexKeyword_tt_o "i64.atomic.rmw.cmpxchg" T_MemoryInstr I64AtomicRmwCmpxchg [Threads]));
            case "e" (switch 16 [
              default (return_ (LexKeyword_tt_o "i64.atomic.store" T_MemoryInstr I64AtomicStore [Threads]));
              case "1" (return_ (LexKeyword_tt_o "i64.atomic.store16" T_MemoryInstr I64AtomicStore16 [Threads]));
              case "3" (return_ (LexKeyword_tt_o "i64.atomic.store32" T_MemoryInstr I64AtomicStore32 [Threads]));
              case "8" (return_ (LexKeyword_tt_o "i64.atomic.store8" T_MemoryInstr I64AtomicStore8 [Threads]))
            ]);
            case "o" (return_ (LexKeyword_tt_o "i64.atomic.rmw.or" T_MemoryInstr I64AtomicRmwOr [Threads]));
            case "s" (return_ (LexKeyword_tt_o "i64.atomic.rmw.sub" T_MemoryInstr I64AtomicRmwSub [Threads]));
            case "x" (switch 18 [
              default (return_ (LexKeyword_tt_o "i64.atomic.rmw.xor" T_MemoryInstr I64AtomicRmwXor [Threads]));
              case "g" (return_ (LexKeyword_tt_o "i64.atomic.rmw.xchg" T_MemoryInstr I64AtomicRmwXchg [Threads]))
            ])
          ]);
          case "t" (switch 11 [
            case "/" (return_ (LexKeyword_o "f64.promote/f32" F64PromoteF32 []));
            case "_" (return_ (LexKeyword_o "f64.promote_f32" F64PromoteF32 []));
            default break_
          ])
        ]);
        case "p" (switch 10 [
          default (return_ (LexKeyword_o "i64.popcnt" I64Popcnt []));
          case "g" (return_ (LexKeyword_o "f64.copysign" F64Copysign []))
        ]);
        case "r" (switch 7 [
          default (return_ (LexKeyword_o "i64.xor" I64Xor []));
          case "_" (switch 8 [
            case "s" (return_ (LexKeyword_o "i64.shr_s" I64ShrS []));
            case "u" (return_ (LexKeyword_o "i64.shr_u" I64ShrU []));
            default break_
          ]);
          case "t" (return_ (LexKeyword_o "f64.sqrt" F64Sqrt []))
        ]);
        case "s" (return_ (LexKeyword_o "f64.abs" F64Abs []));
        case "t" (switch 7 [
          case "e" (switch 11 [
            case "2" (return_ (LexKeyword_o "i64.extend32_s" I64Extend32S [SignExtension]));
            case "6" (return_ (LexKeyword_o "i64.extend16_s" I64Extend16S [SignExtension]));
            case "_" (return_ (LexKeyword_o "i64.extend8_s" I64Extend8S [SignExtension]));
            case "i" (switch 15 [
              case "s" (return_ (LexKeyword_o "i64.extend_i32_s" I64ExtendI32S []));
              case "u" (return_ (LexKeyword_o "i64.extend_i32_u" I64ExtendI32U []));
              default break_
            ]);
            case "s" (return_ (LexKeyword_o "i64.extend_s/i32" I64ExtendI32S []));
            case "u" (return_ (LexKeyword_o "i64.extend_u/i32" I64ExtendI32U []));
            default break_
          ]);
          case "l" (return_ (LexKeyword_o "i64.rotl" I64Rotl []));
          case "r" (return_ (LexKeyword_o "i64.rotr" I64Rotr []));
          default break_
        ]);
        case "u" (switch 9 [
          default (return_ (LexKeyword_o "f64.trunc" F64Trunc []));
          case "_" (switch 14 [
            case "2" (switch 10 [
              case "s" (return_ (LexKeyword_o "i64.trunc_s/f32" I64TruncF32S []));
              case "u" (return_ (LexKeyword_o "i64.trunc_u/f32" I64TruncF32U []));
              default break_
            ]);
            case "4" (switch 10 [
              case "s" (return_ (LexKeyword_o "i64.trunc_s/f64" I64TruncF64S []));
              case "u" (return_ (LexKeyword_o "i64.trunc_u/f64" I64TruncF64U []));
              default break_
            ]);
            case "f" (switch 18 [
              case "s" (switch 16 [
                case "2" (return_ (LexKeyword_o "i64.trunc_sat_f32_s" I64TruncSatF32S [SaturatingFloatToInt]));
                case "4" (return_ (LexKeyword_o "i64.trunc_sat_f64_s" I64TruncSatF64S [SaturatingFloatToInt]));
                default break_
              ]);
              case "u" (switch 16 [
                case "2" (return_ (LexKeyword_o "i64.trunc_sat_f32_u" I64TruncSatF32U [SaturatingFloatToInt]));
                case "4" (return_ (LexKeyword_o "i64.trunc_sat_f64_u" I64TruncSatF64U [SaturatingFloatToInt]));
                default break_
              ]);
              default break_
            ]);
            case "s" (switch 12 [
              case "2" (return_ (LexKeyword_o "i64.trunc_f32_s" I64TruncF32S []));
              case "4" (return_ (LexKeyword_o "i64.trunc_f64_s" I64TruncF64S []));
              default break_
            ]);
            case "t" (switch 18 [
              case "2" (switch 10 [
                case "s" (return_ (LexKeyword_o "i64.trunc_s:sat/f32" I64TruncSatF32S [SaturatingFloatToInt]));
                case "u" (return_ (LexKeyword_o "i64.trunc_u:sat/f32" I64TruncSatF32U [SaturatingFloatToInt]));
                default break_
              ]);
              case "4" (switch 10 [
                case "s" (return_ (LexKeyword_o "i64.trunc_s:sat/f64" I64TruncSatF64S [SaturatingFloatToInt]));
                case "u" (return_ (LexKeyword_o "i64.trunc_u:sat/f64" I64TruncSatF64U [SaturatingFloatToInt]));
                default break_
              ]);
              default break_
            ]);
            case "u" (switch 12 [
              case "2" (return_ (LexKeyword_o "i64.trunc_f32_u" I64TruncF32U []));
              case "4" (return_ (LexKeyword_o "i64.trunc_f64_u" I64TruncF64U []));
              default break_
            ]);
            default break_
          ])
        ]);
        case "v" (switch 7 [
          default (return_ (LexKeyword_o "f64.div" F64Div []));
          case "_" (switch 8 [
            case "s" (return_ (LexKeyword_o "i64.div_s" I64DivS []));
            case "u" (return_ (LexKeyword_o "i64.div_u" I64DivU []));
            default break_
          ])
        ]);
        case "x" (return_ (LexKeyword_o "f64.max" F64Max []));
        case "z" (switch 5 [
          case "l" (return_ (LexKeyword_o "i64.clz" I64Clz []));
          case "q" (return_ (LexKeyword_o "i64.eqz" I64Eqz []));
          case "t" (return_ (LexKeyword_o "i64.ctz" I64Ctz []));
          default break_
        ])
      ]);
      case "x" (switch 0 [
        case "f" (switch 5 [
          default (return_ (LexKeyword_tt "f64x2" T_F64X2));
          case "." (switch 8 [
            default (switch 6 [
              case "e" (return_ (LexKeyword_o "f64x2.eq" F64X2Eq [Simd]));
              case "g" (switch 7 [
                case "e" (return_ (LexKeyword_o "f64x2.ge" F64X2Ge [Simd]));
                case "t" (return_ (LexKeyword_o "f64x2.gt" F64X2Gt [Simd]));
                default break_
              ]);
              case "l" (switch 7 [
                case "e" (return_ (LexKeyword_o "f64x2.le" F64X2Le [Simd]));
                case "t" (return_ (LexKeyword_o "f64x2.lt" F64X2Lt [Simd]));
                default break_
              ]);
              case "n" (return_ (LexKeyword_o "f64x2.ne" F64X2Ne [Simd]));
              default break_
            ]);
            case "b" (return_ (LexKeyword_o "f64x2.sub" F64X2Sub [Simd]));
            case "d" (return_ (LexKeyword_o "f64x2.add" F64X2Add [Simd]));
            case "g" (return_ (LexKeyword_o "f64x2.neg" F64X2Neg [Simd]));
            case "l" (switch 9 [
              default (return_ (LexKeyword_o "f64x2.mul" F64X2Mul [Simd]));
              case "a" (return_ (LexKeyword_o "f64x2.splat" F64X2Splat [Simd]))
            ]);
            case "n" (return_ (LexKeyword_o "f64x2.min" F64X2Min [Simd]));
            case "p" (return_ (LexKeyword_tt_o "f64x2.replace_lane" T_SimdLaneInstr F64X2ReplaceLane [Simd]));
            case "r" (return_ (LexKeyword_o "f64x2.sqrt" F64X2Sqrt [Simd]));
            case "s" (return_ (LexKeyword_o "f64x2.abs" F64X2Abs [Simd]));
            case "t" (return_ (LexKeyword_tt_o "f64x2.extract_lane" T_SimdLaneInstr F64X2ExtractLane [Simd]));
            case "v" (return_ (LexKeyword_o "f64x2.div" F64X2Div [Simd]));
            case "x" (return_ (LexKeyword_o "f64x2.max" F64X2Max [Simd]))
          ])
        ]);
        case "i" (switch 5 [
          default (return_ (LexKeyword_tt "i64x2" T_I64X2));
          case "." (switch 8 [
            case "a" (switch 15 [
              case "s" (return_ (LexKeyword_tt_o "i64x2.load32x2_s" T_MemoryInstr I64X2Load32X2S [Simd]));
              case "u" (return_ (LexKeyword_tt_o "i64x2.load32x2_u" T_MemoryInstr I64X2Load32X2U [Simd]));
              default break_
            ]);
            case "b" (return_ (LexKeyword_o "i64x2.sub" I64X2Sub [Simd]));
            case "d" (return_ (LexKeyword_o "i64x2.add" I64X2Add [Simd]));
            case "g" (return_ (LexKeyword_o "i64x2.neg" I64X2Neg [Simd]));
            case "l" (switch 7 [
              case "h" (return_ (LexKeyword_o "i64x2.shl" I64X2Shl [Simd]));
              case "p" (return_ (LexKeyword_o "i64x2.splat" I64X2Splat [Simd]));
              case "u" (return_ (LexKeyword_o "i64x2.mul" I64X2Mul [Simd]));
              default break_
            ]);
            case "p" (return_ (LexKeyword_tt_o "i64x2.replace_lane" T_SimdLaneInstr I64X2ReplaceLane [Simd]));
            case "r" (switch 10 [
              case "s" (return_ (LexKeyword_o "i64x2.shr_s" I64X2ShrS [Simd]));
              case "u" (return_ (LexKeyword_o "i64x2.shr_u" I64X2ShrU [Simd]));
              default break_
            ]);
            case "t" (return_ (LexKeyword_tt_o "i64x2.extract_lane" T_SimdLaneInstr I64X2ExtractLane [Simd]));
            default break_
          ])
        ]);
        case "v" (return_ (LexKeyword_tt_o "v64x2.load_splat" T_MemoryInstr V64X2LoadSplat [Simd]));
        default break_
      ])
    ]);
    case "6" (switch 5 [
      default (return_ (LexKeyword_tt "i16x8" T_I16X8));
      case "." (switch 7 [
        case "a" (switch 10 [
          case "o" (switch 19 [
            case "s" (return_ (LexKeyword_o "i16x8.narrow_i32x4_s" I16X8NarrowI32X4S [Simd]));
            case "u" (return_ (LexKeyword_o "i16x8.narrow_i32x4_u" I16X8NarrowI32X4U [Simd]));
            default break_
          ]);
          case "s" (return_ (LexKeyword_o "i16x8.max_s" I16X8MaxS [Simd]));
          case "u" (return_ (LexKeyword_o "i16x8.max_u" I16X8MaxU [Simd]));
          default break_
        ]);
        case "d" (switch 9 [
          default (return_ (LexKeyword_o "i16x8.add" I16X8Add [Simd]));
          case "_" (switch 19 [
            case "s" (return_ (LexKeyword_o "i16x8.add_saturate_s" I16X8AddSaturateS [Simd]));
            case "u" (return_ (LexKeyword_o "i16x8.add_saturate_u" I16X8AddSaturateU [Simd]));
            default break_
          ])
        ]);
        case "e" (switch 8 [
          default (return_ (LexKeyword_o "i16x8.ne" I16X8Ne [Simd]));
          case "_" (switch 9 [
            case "s" (switch 6 [
              case "g" (return_ (LexKeyword_o "i16x8.ge_s" I16X8GeS [Simd]));
              case "l" (return_ (LexKeyword_o "i16x8.le_s" I16X8LeS [Simd]));
              default break_
            ]);
            case "u" (switch 6 [
              case "g" (return_ (LexKeyword_o "i16x8.ge_u" I16X8GeU [Simd]));
              case "l" (return_ (LexKeyword_o "i16x8.le_u" I16X8LeU [Simd]));
              default break_
            ]);
            default break_
          ]);
          case "g" (return_ (LexKeyword_o "i16x8.neg" I16X8Neg [Simd]));
          case "p" (return_ (LexKeyword_tt_o "i16x8.replace_lane" T_SimdLaneInstr I16X8ReplaceLane [Simd]))
        ]);
        case "h" (switch 9 [
          default (return_ (LexKeyword_o "i16x8.shl" I16X8Shl [Simd]));
          case "_" (switch 10 [
            case "s" (return_ (LexKeyword_o "i16x8.shr_s" I16X8ShrS [Simd]));
            case "u" (return_ (LexKeyword_o "i16x8.shr_u" I16X8ShrU [Simd]));
            default break_
          ])
        ]);
        case "i" (switch 10 [
          case "n" (switch 23 [
            default (switch 22 [
              case "s" (return_ (LexKeyword_o "i16x8.widen_low_i8x16_s" I16X8WidenLowI8X16S [Simd]));
              case "u" (return_ (LexKeyword_o "i16x8.widen_low_i8x16_u" I16X8WidenLowI8X16U [Simd]));
              default break_
            ]);
            case "s" (return_ (LexKeyword_o "i16x8.widen_high_i8x16_s" I16X8WidenHighI8X16S [Simd]));
            case "u" (return_ (LexKeyword_o "i16x8.widen_high_i8x16_u" I16X8WidenHighI8X16U [Simd]))
          ]);
          case "s" (return_ (LexKeyword_o "i16x8.min_s" I16X8MinS [Simd]));
          case "u" (return_ (LexKeyword_o "i16x8.min_u" I16X8MinU [Simd]));
          default break_
        ]);
        case "l" (return_ (LexKeyword_o "i16x8.all_true" I16X8AllTrue [Simd]));
        case "n" (return_ (LexKeyword_o "i16x8.any_true" I16X8AnyTrue [Simd]));
        case "o" (switch 14 [
          case "a" (return_ (LexKeyword_tt_o "v16x8.load_splat" T_MemoryInstr V16X8LoadSplat [Simd]));
          case "s" (return_ (LexKeyword_tt_o "i16x8.load8x8_s" T_MemoryInstr I16X8Load8X8S [Simd]));
          case "u" (return_ (LexKeyword_tt_o "i16x8.load8x8_u" T_MemoryInstr I16X8Load8X8U [Simd]));
          default break_
        ]);
        case "p" (return_ (LexKeyword_o "i16x8.splat" I16X8Splat [Simd]));
        case "q" (return_ (LexKeyword_o "i16x8.eq" I16X8Eq [Simd]));
        case "t" (switch 9 [
          case "s" (switch 6 [
            case "g" (return_ (LexKeyword_o "i16x8.gt_s" I16X8GtS [Simd]));
            case "l" (return_ (LexKeyword_o "i16x8.lt_s" I16X8LtS [Simd]));
            default break_
          ]);
          case "u" (switch 6 [
            case "g" (return_ (LexKeyword_o "i16x8.gt_u" I16X8GtU [Simd]));
            case "l" (return_ (LexKeyword_o "i16x8.lt_u" I16X8LtU [Simd]));
            default break_
          ]);
          default break_
        ]);
        case "u" (switch 9 [
          default (switch 8 [
            case "b" (return_ (LexKeyword_o "i16x8.sub" I16X8Sub [Simd]));
            case "l" (return_ (LexKeyword_o "i16x8.mul" I16X8Mul [Simd]));
            default break_
          ]);
          case "_" (switch 19 [
            case "s" (return_ (LexKeyword_o "i16x8.sub_saturate_s" I16X8SubSaturateS [Simd]));
            case "u" (return_ (LexKeyword_o "i16x8.sub_saturate_u" I16X8SubSaturateU [Simd]));
            default break_
          ])
        ]);
        case "v" (return_ (LexKeyword_o "i16x8.avgr_u" I16X8AvgrU [Simd]));
        case "x" (switch 19 [
          case "s" (return_ (LexKeyword_tt_o "i16x8.extract_lane_s" T_SimdLaneInstr I16X8ExtractLaneS [Simd]));
          case "u" (return_ (LexKeyword_tt_o "i16x8.extract_lane_u" T_SimdLaneInstr I16X8ExtractLaneU [Simd]));
          default break_
        ]);
        default break_
      ])
    ]);
    case "_" (switch 5 [
      default (return_ (LexKeyword_tt_o "br_if" T_VarInstr BrIf []));
      case "_" (return_ (LexKeyword_tt_o "br_on_exn" T_BrOnExnInstr BrOnExn [Exceptions]));
      case "b" (return_ (LexKeyword_tt_o "br_table" T_BrTableInstr BrTable []))
    ]);
    case "a" (switch 5 [
      default (return_ (LexKeyword_tt "start" T_Start));
      case "d" (return_ (LexKeyword_tt "shared" T_Shared))
    ]);
    case "b" (switch 5 [
      default (return_ (LexKeyword_tt "table" T_Table));
      case "." (switch 9 [
        default (switch 6 [
          case "g" (return_ (LexKeyword_tt_o "table.get" T_VarInstr TableGet [ReferenceTypes]));
          case "s" (return_ (LexKeyword_tt_o "table.set" T_VarInstr TableSet [ReferenceTypes]));
          default break_
        ]);
        case "e" (return_ (LexKeyword_tt_o "table.size" T_VarInstr TableSize [ReferenceTypes]));
        case "l" (return_ (LexKeyword_tt_o "table.fill" T_VarInstr TableFill [ReferenceTypes]));
        case "t" (return_ (LexKeyword_tt_o "table.init" T_TableInitInstr TableInit [BulkMemory]));
        case "w" (return_ (LexKeyword_tt_o "table.grow" T_VarInstr TableGrow [ReferenceTypes]));
        case "y" (return_ (LexKeyword_tt_o "table.copy" T_TableCopyInstr TableCopy [BulkMemory]))
      ])
    ]);
    case "c" (switch 5 [
      default (return_ (LexKeyword_tt "local" T_Local));
      case "." (switch 6 [
        case "g" (return_ (LexKeyword_tt_o "local.get" T_VarInstr LocalGet []));
        case "s" (return_ (LexKeyword_tt_o "local.set" T_VarInstr LocalSet []));
        case "t" (return_ (LexKeyword_tt_o "local.tee" T_VarInstr LocalTee []));
        default break_
      ]);
      case "r" (return_ (LexKeyword_tt "declare" T_Declare))
    ]);
    case "d" (switch 3 [
      default (return_ (LexKeyword_tt_o "end" T_End End []));
      case "u" (return_ (LexKeyword_tt "module" T_Module))
    ]);
    case "e" (switch 1 [
      case "e" (return_ (LexKeyword_tt_o "tee_local" T_VarInstr LocalTee []));
      case "h" (return_ (LexKeyword_tt "then" T_Then));
      case "l" (switch 4 [
        default (return_ (LexKeyword_tt "elem" T_Elem));
        case "." (return_ (LexKeyword_tt_o "elem.drop" T_VarInstr ElemDrop [BulkMemory]))
      ]);
      case "t" (return_ (LexKeyword_tt "item" T_Item));
      case "v" (return_ (LexKeyword_tt "event" T_Event));
      default break_
    ]);
    case "f" (switch 3 [
      default (return_ (LexKeyword_lk "inf" T_Float LiteralKind.Infinity));
      case "." (switch 7 [
        default (return_ (LexKeyword_tt "ref.any" T_RefAny));
        case "c" (return_ (LexKeyword_tt_o "ref.func" T_RefFuncInstr RefFunc [ReferenceTypes]));
        case "l" (return_ (LexKeyword_tt_o "ref.null" T_RefNullInstr RefNull [ReferenceTypes]));
        case "n" (return_ (LexKeyword_o "ref.is_null" RefIsNull [ReferenceTypes]));
        case "t" (return_ (LexKeyword_tt "ref.host" T_RefHost))
      ]);
      case "s" (switch 6 [
        default (return_ (LexKeyword_tt "offset" T_Offset));
        case "=" (return_ (LexNameEqNum_call "offset=" T_OffsetEqNat))
      ])
    ]);
    case "g" (return_ (LexKeyword_tt "register" T_Register));
    case "i" (return_ (LexNameEqNum_call "align=" T_AlignEqNat));
    case "l" (switch 4 [
      default (return_ (LexKeyword_tt_o "call" T_VarInstr Call []));
      case "_" (return_ (LexKeyword_tt_o "call_indirect" T_CallIndirectInstr CallIndirect []));
      case "c" (return_ (LexKeyword_tt_o "select" T_SelectInstr Select []));
      case "r" (return_ (LexKeyword_vt "nullref" Nullref))
    ]);
    case "m" (switch 6 [
      default (return_ (LexKeyword_tt "memory" T_Memory));
      case "." (switch 10 [
        case "e" (return_ (LexKeyword_o "memory.size" MemorySize []));
        case "l" (return_ (LexKeyword_o "memory.fill" MemoryFill [BulkMemory]));
        case "t" (return_ (LexKeyword_tt_o "memory.init" T_VarInstr MemoryInit [BulkMemory]));
        case "w" (return_ (LexKeyword_o "memory.grow" MemoryGrow []));
        case "y" (return_ (LexKeyword_o "memory.copy" MemoryCopy [BulkMemory]));
        default break_
      ])
    ]);
    case "n" (switch 3 [
      default (return_ (LexKeyword_lk "nan" T_Float LiteralKind.Nan));
      case ":" (switch 6 [
        default (return_ (LexNan_call));
        case "i" (return_ (LexKeyword_tt "nan:arithmetic" T_NanArithmetic));
        case "n" (return_ (LexKeyword_tt "nan:canonical" T_NanCanonical))
      ]);
      case "a" (return_ (LexKeyword_tt "binary" T_Binary));
      case "c" (switch 4 [
        default (return_ (LexKeyword_tt "func" T_Func));
        case "r" (return_ (LexKeyword_vt "funcref" Funcref))
      ]);
      case "r" (return_ (LexKeyword_vt "exnref" Exnref))
    ]);
    case "o" (switch 4 [
      default (switch 1 [
        case "o" (return_ (LexKeyword_tt_o "loop" T_BlockInstr Loop []));
        case "r" (return_ (LexKeyword_o "drop" Drop []));
        default break_
      ]);
      case "_" (return_ (LexKeyword_o "grow_memory" MemoryGrow []));
      case "a" (switch 6 [
        default (return_ (LexKeyword_tt "global" T_Global));
        case "." (switch 7 [
          case "g" (return_ (LexKeyword_tt_o "global.get" T_VarInstr GlobalGet []));
          case "s" (return_ (LexKeyword_tt_o "global.set" T_VarInstr GlobalSet []));
          default break_
        ])
      ]);
      case "e" (return_ (LexKeyword_tt "quote" T_Quote));
      case "i" (return_ (LexKeyword_tt_o "atomic.notify" T_MemoryInstr AtomicNotify [Threads]));
      case "k" (return_ (LexKeyword_tt_o "block" T_BlockInstr Block []))
    ]);
    case "p" (switch 1 [
      case "m" (return_ (LexKeyword_tt "import" T_Import));
      case "o" (return_ (LexKeyword_o "nop" Nop []));
      case "x" (return_ (LexKeyword_tt "export" T_Export));
      case "y" (return_ (LexKeyword_tt "type" T_Type));
      default break_
    ]);
    case "r" (switch 4 [
      case "a" (return_ (LexKeyword_o "unreachable" Unreachable []));
      case "e" (return_ (LexKeyword_o "current_memory" MemorySize []));
      case "m" (return_ (LexKeyword_tt "param" T_Param));
      case "w" (return_ (LexKeyword_tt_o "throw" T_VarInstr Throw [Exceptions]));
      default break_
    ]);
    case "s" (switch 4 [
      default (return_ (LexKeyword_tt_o "else" T_Else Else []));
      case "l" (return_ (LexKeyword_tt "result" T_Result));
      case "r" (switch 11 [
        default (return_ (LexKeyword_tt "assert_trap" T_AssertTrap));
        case "l" (return_ (LexKeyword_tt "assert_invalid" T_AssertInvalid));
        case "n" (return_ (LexKeyword_tt "assert_unlinkable" T_AssertUnlinkable));
        case "o" (return_ (LexKeyword_tt "assert_malformed" T_AssertMalformed));
        case "r" (return_ (LexKeyword_tt "assert_return" T_AssertReturn));
        case "u" (return_ (LexKeyword_tt "assert_exhaustion" T_AssertExhaustion))
      ])
    ]);
    case "t" (switch 3 [
      default (switch 1 [
        case "e" (return_ (LexKeyword_tt "get" T_Get));
        case "u" (return_ (LexKeyword_tt "mut" T_Mut));
        default break_
      ]);
      case "_" (switch 9 [
        default (switch 0 [
          case "g" (return_ (LexKeyword_tt_o "get_local" T_VarInstr LocalGet []));
          case "s" (return_ (LexKeyword_tt_o "set_local" T_VarInstr LocalSet []));
          default break_
        ]);
        case "l" (switch 0 [
          case "g" (return_ (LexKeyword_tt_o "get_global" T_VarInstr GlobalGet []));
          case "s" (return_ (LexKeyword_tt_o "set_global" T_VarInstr GlobalSet []));
          default break_
        ])
      ]);
      case "a" (switch 4 [
        default (return_ (LexKeyword_tt "data" T_Data));
        case "." (return_ (LexKeyword_tt_o "data.drop" T_VarInstr DataDrop [BulkMemory]))
      ]);
      case "c" (return_ (LexKeyword_tt_o "catch" T_Catch Catch []));
      case "h" (return_ (LexKeyword_o "rethrow" Rethrow [Exceptions]));
      case "u" (switch 6 [
        default (return_ (LexKeyword_o "return" Return []));
        case "_" (switch 11 [
          default (return_ (LexKeyword_tt_o "return_call" T_VarInstr ReturnCall [TailCall]));
          case "_" (return_ (LexKeyword_tt_o "return_call_indirect" T_CallIndirectInstr ReturnCallIndirect [TailCall]))
        ])
      ])
    ]);
    case "v" (return_ (LexKeyword_tt "invoke" T_Invoke));
    case "x" (switch 5 [
      default (return_ (LexKeyword_tt "i8x16" T_I8X16));
      case "." (switch 8 [
        default (switch 7 [
          case "e" (return_ (LexKeyword_o "i8x16.ne" I8X16Ne [Simd]));
          case "q" (return_ (LexKeyword_o "i8x16.eq" I8X16Eq [Simd]));
          default break_
        ]);
        case "_" (switch 9 [
          case "s" (switch 7 [
            case "e" (switch 6 [
              case "g" (return_ (LexKeyword_o "i8x16.ge_s" I8X16GeS [Simd]));
              case "l" (return_ (LexKeyword_o "i8x16.le_s" I8X16LeS [Simd]));
              default break_
            ]);
            case "t" (switch 6 [
              case "g" (return_ (LexKeyword_o "i8x16.gt_s" I8X16GtS [Simd]));
              case "l" (return_ (LexKeyword_o "i8x16.lt_s" I8X16LtS [Simd]));
              default break_
            ]);
            default break_
          ]);
          case "u" (switch 7 [
            case "e" (switch 6 [
              case "g" (return_ (LexKeyword_o "i8x16.ge_u" I8X16GeU [Simd]));
              case "l" (return_ (LexKeyword_o "i8x16.le_u" I8X16LeU [Simd]));
              default break_
            ]);
            case "t" (switch 6 [
              case "g" (return_ (LexKeyword_o "i8x16.gt_u" I8X16GtU [Simd]));
              case "l" (return_ (LexKeyword_o "i8x16.lt_u" I8X16LtU [Simd]));
              default break_
            ]);
            default break_
          ]);
          default break_
        ]);
        case "a" (return_ (LexKeyword_tt_o "v8x16.load_splat" T_MemoryInstr V8X16LoadSplat [Simd]));
        case "b" (switch 9 [
          default (return_ (LexKeyword_o "i8x16.sub" I8X16Sub [Simd]));
          case "_" (switch 19 [
            case "s" (return_ (LexKeyword_o "i8x16.sub_saturate_s" I8X16SubSaturateS [Simd]));
            case "u" (return_ (LexKeyword_o "i8x16.sub_saturate_u" I8X16SubSaturateU [Simd]));
            default break_
          ])
        ]);
        case "d" (switch 9 [
          default (return_ (LexKeyword_o "i8x16.add" I8X16Add [Simd]));
          case "_" (switch 19 [
            case "s" (return_ (LexKeyword_o "i8x16.add_saturate_s" I8X16AddSaturateS [Simd]));
            case "u" (return_ (LexKeyword_o "i8x16.add_saturate_u" I8X16AddSaturateU [Simd]));
            default break_
          ])
        ]);
        case "g" (switch 9 [
          default (return_ (LexKeyword_o "i8x16.neg" I8X16Neg [Simd]));
          case "r" (return_ (LexKeyword_o "i8x16.avgr_u" I8X16AvgrU [Simd]))
        ]);
        case "i" (return_ (LexKeyword_o "v8x16.swizzle" V8X16Swizzle [Simd]));
        case "l" (switch 9 [
          default (return_ (LexKeyword_o "i8x16.shl" I8X16Shl [Simd]));
          case "_" (return_ (LexKeyword_o "i8x16.all_true" I8X16AllTrue [Simd]));
          case "a" (return_ (LexKeyword_o "i8x16.splat" I8X16Splat [Simd]))
        ]);
        case "n" (switch 10 [
          case "s" (return_ (LexKeyword_o "i8x16.min_s" I8X16MinS [Simd]));
          case "u" (return_ (LexKeyword_o "i8x16.min_u" I8X16MinU [Simd]));
          default break_
        ]);
        case "p" (return_ (LexKeyword_tt_o "i8x16.replace_lane" T_SimdLaneInstr I8X16ReplaceLane [Simd]));
        case "r" (switch 10 [
          case "o" (switch 19 [
            case "s" (return_ (LexKeyword_o "i8x16.narrow_i16x8_s" I8X16NarrowI16X8S [Simd]));
            case "u" (return_ (LexKeyword_o "i8x16.narrow_i16x8_u" I8X16NarrowI16X8U [Simd]));
            default break_
          ]);
          case "s" (return_ (LexKeyword_o "i8x16.shr_s" I8X16ShrS [Simd]));
          case "u" (return_ (LexKeyword_o "i8x16.shr_u" I8X16ShrU [Simd]));
          default break_
        ]);
        case "t" (switch 19 [
          case "s" (return_ (LexKeyword_tt_o "i8x16.extract_lane_s" T_SimdLaneInstr I8X16ExtractLaneS [Simd]));
          case "u" (return_ (LexKeyword_tt_o "i8x16.extract_lane_u" T_SimdLaneInstr I8X16ExtractLaneU [Simd]));
          default break_
        ]);
        case "u" (return_ (LexKeyword_tt_o "v8x16.shuffle" T_SimdShuffleInstr V8X16Shuffle [Simd]));
        case "x" (switch 10 [
          case "s" (return_ (LexKeyword_o "i8x16.max_s" I8X16MaxS [Simd]));
          case "u" (return_ (LexKeyword_o "i8x16.max_u" I8X16MaxU [Simd]));
          default break_
        ]);
        case "y" (return_ (LexKeyword_o "i8x16.any_true" I8X16AnyTrue [Simd]))
      ])
    ]);
    case "y" (switch 3 [
      default (return_ (LexKeyword_tt_o "try" T_BlockInstr Try [Exceptions]));
      case "f" (return_ (LexKeyword_vt "anyfunc" Funcref));
      case "r" (return_ (LexKeyword_vt "anyref" Anyref))
    ])
  ].

(* ================================================================== *)
(** * [Lex] *)

Definition Lex (data : SpanU8) : Token * SpanU8 :=
  let orig := data in
  let c := PeekChar data 0 in
  if c =? -1 then (mkToken data T_Eof, data)
  else if c =? u8_to_Z "(" then
    let '(m, data) := MatchString data "(;" in
    if m then LexBlockComment orig
    else
      let '(m, data) := MatchString data "(@" in
      if m then LexAnnotation orig
      else
        let data := SkipChar data in
        (mkToken (MatchGuard_loc orig data) T_Lpar, data)
  else if c =? u8_to_Z ")" then
    let data := SkipChar data in
    (mkToken (MatchGuard_loc orig data) T_Rpar, data)
  else if c =? u8_to_Z ";" then
    let '(m, data) := MatchString data ";;" in
    if m then LexLineComment orig
    else
      let data := SkipChar data in
      (mkToken (MatchGuard_loc orig data) T_InvalidChar, data)
  else if (c =? u8_to_Z " ") || (c =? 9) || (c =? 13) || (c =? 10) then
    LexWhitespace data
  else if c =? u8_to_Z x22 then LexText orig
  else if (c =? u8_to_Z "+") || (c =? u8_to_Z "-") then
    let c1 := PeekChar data 1 in
    if c1 =? u8_to_Z "i" then LexInf orig
    else if c1 =? u8_to_Z "n" then LexNan orig
    else if c1 =? u8_to_Z "0" then
      let data := SkipChar data in
      let '(m, data) := MatchString data "0x" in
      if m then LexHexNumber orig T_Int else LexNumber orig T_Int
    else if is_one_of c1 "123456789" then LexNumber orig T_Int
    else LexReserved orig
  else if c =? u8_to_Z "0" then
    let '(m, data) := MatchString data "0x" in
    if m then LexHexNumber orig T_Nat else LexNumber data T_Nat
  else if is_one_of c "123456789" then LexNumber data T_Nat
  else if c =? u8_to_Z "$" then LexId data
  else
    match dispatch keywords data with
    | Some call => run_KeywordCall call data
    | Datatypes.None =>
        if IsReserved (PeekChar data 0) then LexReserved data
        else
          let data := SkipChar data in
          (mkToken (MatchGuard_loc orig data) T_InvalidChar, data)
    end.

(** [LexNoWhitespace]: the loop [while (true)] asks [Lex] for tokens until
    one is no comment and no whitespace.  [fuel] bounds the number of
    turns; [None] stands for a loop that has not returned within them. *)
Fixpoint LexNoWhitespace_loop (fuel : nat) (data : SpanU8)
  : option (Token * SpanU8) :=
  match fuel with
  | O => Datatypes.None
  | S fuel' =>
      let '(token, data) := Lex data in
      match type token with
      | T_BlockComment | T_LineComment | T_Whitespace =>
          LexNoWhitespace_loop fuel' data
      | _ => Some (token, data)
      end
  end.

End text.

(* ================================================================== *)
(** * Notions the properties are stated with *)

(** The continuation bit of a byte of a LEB128 integer. *)
Definition continuation (b : u8) : bool := Z.testbit (u8_to_Z b) 7.

(** The integer whose base-128 digits, the least significant first, are the
    payloads (the low seven bits) of the bytes. *)
Fixpoint leb_payload (l : list u8) : Z :=
  match l with
  | [] => 0
  | b :: l' => Z.lor (Z.land (u8_to_Z b) 127) (Z.shiftl (leb_payload l') 7)
  end.

(** The value in two's complement of the [n] low bits [v]. *)
Definition sign_extend_from (n : Z) (v : Z) : Z :=
  if Z.testbit v (n - 1) then v - 2 ^ n else v.

(** The number of bytes as the claim on the last byte counts them: the
    least integer that is not below the fraction (W + 6) / 7, where the
    code has the quotient [kMaxBytes] of the integer division. *)
Definition claimed_max_bytes (T : IntType) : Z := - ((- (bits T + 6)) / 7).

(** The number of payload bits the last of the [kMaxBytes] bytes may
    carry. *)
Definition last_payload_bits (T : IntType) : Z :=
  bits T - 7 * (binary.kMaxBytes T - 1).

Definition bits_from_to (lo hi : Z) : list Z :=
  map (fun k => lo + Z.of_nat k) (seq 0 (Z.to_nat (hi - lo))).

(** The last byte as the format wants it.  Unsigned: every bit above the
    payload, the continuation bit among them, is 0.  Signed: the
    continuation bit is 0 and the bits between the payload and the
    continuation bit repeat the last payload bit, the sign. *)
Definition last_byte_extends (T : IntType) (b : u8) : bool :=
  let n := last_payload_bits T in
  let x := u8_to_Z b in
  if is_signed T then
    negb (Z.testbit x 7)
    && forallb (fun j => Bool.eqb (Z.testbit x j) (Z.testbit x (n - 1)))
               (bits_from_to n 7)
  else forallb (fun j => negb (Z.testbit x j)) (bits_from_to n 8).

(** The same byte with its continuation bit set. *)
Definition with_continuation (b : u8) : u8 := u8_of_Z (Z.lor (u8_to_Z b) 128).

(** The opcodes [Read(Tag<ConstExpr<>>)] lets through its [switch]. *)
Definition const_expr_opcode (o : binary.Opcode) : bool :=
  match o with
  | binary.I32Const | binary.I64Const | binary.F32Const | binary.F64Const
  | binary.GetGlobal => true
  | _ => false
  end.

(** The two instructions of a constant expression: an instruction whose
    opcode the [switch] lets through, then [end]; [d2] and [e2] are the span
    and the error sink after the [end]. *)
Definition const_expr_shape {BlockType : Type}
           (BlockType_Decode : u8 -> option BlockType)
           (Opcode_Decode : u8 -> option binary.Opcode)
           (data : SpanU8) (errors : binary.Errors)
           (d2 : SpanU8) (e2 : binary.Errors) : Prop :=
  exists instr d1 e1 instr2,
    binary.Read_Instr BlockType_Decode Opcode_Decode data errors
    = (Some instr, d1, e1)
    /\ const_expr_opcode (binary.opcode instr) = true
    /\ binary.Read_Instr BlockType_Decode Opcode_Decode d1 e1
       = (Some instr2, d2, e2)
    /\ binary.opcode instr2 = binary.End.

(** The token types of the failure paths of the lexer. *)
Definition is_invalid (tt_ : text.TokenType) : bool :=
  match tt_ with
  | text.T_InvalidChar | text.T_InvalidText | text.T_InvalidLineComment
  | text.T_InvalidBlockComment => true
  | _ => false
  end.

(** The token types of numbers. *)
Definition is_number (tt_ : text.TokenType) : bool :=
  match tt_ with
  | text.T_Nat | text.T_Int | text.T_Float => true
  | _ => false
  end.

(** [rest] is what is left of [data] after some bytes have been consumed. *)
Definition suffix (rest data : SpanU8) : Prop :=
  exists consumed, data = consumed ++ rest.

(** Every underscore of the text stands between two digits, [is_digit]
    telling what a digit is. *)
Definition underscores_between_digits (is_digit : Z -> bool) (l : list u8)
  : Prop :=
  forall i,
    nth_error l i = Some "_"%byte ->
    exists a b,
      (1 <= i)%nat
      /\ nth_error l (i - 1) = Some a /\ is_digit (u8_to_Z a) = true
      /\ nth_error l (i + 1) = Some b /\ is_digit (u8_to_Z b) = true.

(** The digits of the literal of a token: hexadecimal for the literals
    written with [0x], decimal for the others. *)
Definition digit_test_of (tok : text.Token) : Z -> bool :=
  match text.immediate tok with
  | text.Imm_LiteralInfo (text.LiteralInfo.HexNumber _ _)
  | text.Imm_LiteralInfo (text.LiteralInfo.HexNat _)
  | text.Imm_LiteralInfo (text.LiteralInfo.NanPayload _ _) => text.IsHexDigit
  | _ => text.IsDigit
  end.

(** A run of digits with single underscores between digits, as [MatchNum]
    and [MatchHexNum] consume it. *)
Inductive digit_run (is_digit : Z -> bool) : list u8 -> Prop :=
| digit_run_one (d : u8) :
    is_digit (u8_to_Z d) = true -> digit_run is_digit [d]
| digit_run_cons (d : u8) (l : list u8) :
    is_digit (u8_to_Z d) = true -> digit_run is_digit l ->
    digit_run is_digit (d :: l)
| digit_run_underscore (d : u8) (l : list u8) :
    is_digit (u8_to_Z d) = true -> digit_run is_digit l ->
    digit_run is_digit (d :: "_"%byte :: l).

(** A property of every call the keyword dispatch can return. *)
Fixpoint all_calls (P : text.KeywordCall -> bool) (body : text.Body) : bool :=
  match body with
  | text.switch _ arms =>
      (fix all_arms (arms : list text.Arm) : bool :=
         match arms with
         | [] => true
         | text.case _ body :: arms' => all_calls P body && all_arms arms'
         | text.default body :: arms' => all_calls P body && all_arms arms'
         end) arms
  | text.return_ call => P call
  | text.break_ => true
  end.

(** The token type a call of the dispatch gives when its keyword
    matches. *)
Definition call_type (call : text.KeywordCall) : text.TokenType :=
  match call with
  | text.LexKeyword_tt _ tt_ => tt_
  | text.LexKeyword_o _ _ _ => text.T_BareInstr
  | text.LexKeyword_tt_o _ tt_ _ _ => tt_
  | text.LexKeyword_vt _ _ => text.T_ValueType
  | text.LexKeyword_lk _ tt_ _ => tt_
  | text.LexNameEqNum_call _ tt_ => tt_
  | text.LexNan_call => text.T_Float
  end.

Definition call_keyword (call : text.KeywordCall) : string :=
  match call with
  | text.LexKeyword_tt sv _ => sv
  | text.LexKeyword_o sv _ _ => sv
  | text.LexKeyword_tt_o sv _ _ _ => sv
  | text.LexKeyword_vt sv _ => sv
  | text.LexKeyword_lk sv _ _ => sv
  | text.LexNameEqNum_call sv _ => sv
  | text.LexNan_call => "nan"
  end.

Definition is_Eof (tt_ : text.TokenType) : bool :=
  match tt_ with text.T_Eof => true | _ => false end.

Definition has_underscore (l : list u8) : bool :=
  existsb (fun c => u8_to_Z c =? u8_to_Z "_") l.

(** What the proofs need of a call of the dispatch: its token type is not
    one of the failure paths nor [Eof]; its keyword is not empty; a keyword
    that gives a number token has no underscore; [LexNameEqNum] is not asked
    for a number token. *)
Definition call_ok (call : text.KeywordCall) : bool :=
  negb (is_invalid (call_type call))
  && negb (is_Eof (call_type call))
  && negb (call_keyword call =? "")%string
  && match call with
     | text.LexNan_call => true
     | text.LexNameEqNum_call _ tt_ => negb (is_number tt_)
     | _ =>
         negb (is_number (call_type call))
         || negb (has_underscore (list_byte_of_string (call_keyword call)))
     end.

(** What [Lex] owes for its result [r] on [data]: the span left is a suffix
    of [data], the token is not [Eof], and a token of a failure path has
    consumed at least one byte. *)
Definition lex_result_ok (data : SpanU8) (r : text.Token * SpanU8) : Prop :=
  suffix (snd r) data
  /\ is_Eof (text.type (fst r)) = false
  /\ (is_invalid (text.type (fst r)) = true ->
      (List.length (snd r) < List.length data)%nat).

(** What a number token owes: its location is the text consumed, every
    underscore of it stands between two digits, and no reserved character
    (so no underscore, no digit) follows it. *)
Definition number_token_ok (data : SpanU8) (r : text.Token * SpanU8) : Prop :=
  is_number (text.type (fst r)) = true ->
  data = text.loc (fst r) ++ snd r
  /\ underscores_between_digits (digit_test_of (fst r)) (text.loc (fst r))
  /\ text.IsReserved (text.PeekChar (snd r) 0) = false.

(** [rest] is [data] less a consumed text in which every underscore stands
    between two digits. *)
Definition consumed_ok (is_digit : Z -> bool) (data rest : SpanU8) : Prop :=
  exists consumed,
    data = consumed ++ rest /\ underscores_between_digits is_digit consumed.

(** A token has consumed at least one byte, unless it is a [Reserved] or
    an [LparAnn] token. *)
Definition progress_ok (data : SpanU8) (r : text.Token * SpanU8) : Prop :=
  (List.length (snd r) < List.length data)%nat
  \/ text.type (fst r) = text.T_Reserved
  \/ text.type (fst r) = text.T_LparAnn.

Definition token_ok (data : SpanU8) (r : text.Token * SpanU8) : Prop :=
  lex_result_ok data r /\ number_token_ok data r /\ progress_ok data r.

(** The first characters [Lex] handles before the keyword dispatch. *)
Definition lexed_before_keywords (c : u8) : bool :=
  text.is_one_of (u8_to_Z c) "();+-0123456789$"
  || (u8_to_Z c =? u8_to_Z " ") || (u8_to_Z c =? 9) || (u8_to_Z c =? 13)
  || (u8_to_Z c =? 10) || (u8_to_Z c =? u8_to_Z x22).

(** The report "Unable to read string of length" of [ReadStr]. *)
Definition is_string_error (c : binary.ErrorsCall) : bool :=
  match c with
  | binary.OnError _ (binary.Msg_UnableToReadString _) => true
  | _ => false
  end.

(** The calls [errors'] holds beyond [errors] do not report
    "Unable to read string of length". *)
Definition no_string_error_since (errors errors' : binary.Errors) : Prop :=
  exists new,
    errors' = new ++ errors
    /\ forallb (fun c => negb (is_string_error c)) new = true.

(** What is left after a reader has run is a suffix of what it was given. *)
Definition advances {A : Type} (m : binary.Reader A) : Prop :=
  forall data errors, exists pre, data = pre ++ snd (fst (m data errors)).

(** The dispatch, given the keyword of a call alone, returns a call with
    that keyword. *)
Definition dispatches_own_keyword (call : text.KeywordCall) : bool :=
  match text.dispatch text.keywords (list_byte_of_string (call_keyword call))
  with
  | Some call' => (call_keyword call' =? call_keyword call)%string
  | None => false
  end.

(* ================================================================== *)
(** * Notions of the further properties of the reader *)

(** The bytes [pre ++ [b]] are an encoding [ReadVarInt] accepts for [T]:
    every byte of [pre] carries the continuation bit, and [b] is either a
    byte before the last possible one without the continuation bit, or the
    last possible byte, extending the value as the format wants. *)
Definition leb_encoding (T : IntType) (pre : list u8) (b : u8) : bool :=
  forallb continuation pre
  && (if Z.of_nat (List.length pre) + 1 =? binary.kMaxBytes T
      then last_byte_extends T b
      else (Z.of_nat (List.length pre) + 1 <? binary.kMaxBytes T)
           && negb (continuation b)).

(** The integer the bytes of an encoding stand for: their payload, read in
    two's complement over all its bits for a signed type. *)
Definition leb_value (T : IntType) (l : list u8) : Z :=
  if is_signed T
  then sign_extend_from (7 * Z.of_nat (List.length l)) (leb_payload l)
  else leb_payload l.

(** The values of the integer type [T]. *)
Definition in_range (T : IntType) (v : Z) : Prop :=
  if is_signed T then - 2 ^ (bits T - 1) <= v < 2 ^ (bits T - 1)
  else 0 <= v < 2 ^ bits T.

(** The number of contexts pushed on the error sink and not yet popped. *)
Fixpoint context_depth (errors : binary.Errors) : Z :=
  match errors with
  | [] => 0
  | binary.PushContext _ _ :: errors' => context_depth errors' + 1
  | binary.PopContext :: errors' => context_depth errors' - 1
  | binary.OnError _ _ :: errors' => context_depth errors'
  end.

(** What the readers embedded here keep to.  The cursor moves forward
    only, and the calls made on the error sink are added to those it held.
    A reader that returns a value has reported no error and leaves as
    many contexts open as it found; a reader that returns [nullopt] has
    reported at least one error and leaves no fewer contexts open than it
    found. *)
Definition well_behaved {A : Type} (m : binary.Reader A) : Prop :=
  forall data errors,
    suffix (snd (fst (m data errors))) data
    /\ (exists new, snd (m data errors) = new ++ errors)
    /\ match fst (fst (m data errors)) with
       | Some _ =>
           binary.error_count (snd (m data errors))
           = binary.error_count errors
           /\ context_depth (snd (m data errors)) = context_depth errors
       | None =>
           (binary.error_count errors
            < binary.error_count (snd (m data errors)))%nat
           /\ context_depth errors <= context_depth (snd (m data errors))
       end.

(** The error sink after more calls, with no fewer errors reported and
    no fewer contexts open. *)
Definition grew (errors errors' : binary.Errors) : Prop :=
  (exists new, errors' = new ++ errors)
  /\ (binary.error_count errors <= binary.error_count errors')%nat
  /\ context_depth errors <= context_depth errors'.

(* ================================================================== *)
(** * Notions of the further properties of the lexer *)

(** The calls the keyword dispatch holds, in the order of the file. *)
Fixpoint calls_of (body : text.Body) : list text.KeywordCall :=
  match body with
  | text.switch _ arms =>
      (fix calls_of_arms (arms : list text.Arm) : list text.KeywordCall :=
         match arms with
         | [] => []
         | text.case _ body :: arms' => calls_of body ++ calls_of_arms arms'
         | text.default body :: arms' => calls_of body ++ calls_of_arms arms'
         end) arms
  | text.return_ call => [call]
  | text.break_ => []
  end.

(** The calls of [LexKeyword], in any of its overloads. *)
Definition is_LexKeyword (call : text.KeywordCall) : bool :=
  match call with
  | text.LexNameEqNum_call _ _ | text.LexNan_call => false
  | _ => true
  end.

(** The immediate of the token a call of [LexKeyword] builds. *)
Definition call_immediate (call : text.KeywordCall) : text.Immediate :=
  match call with
  | text.LexKeyword_tt _ _ => text.monostate
  | text.LexKeyword_o _ o f =>
      text.Imm_OpcodeInfo {| text.opcode := o; text.features := f |}
  | text.LexKeyword_tt_o _ _ o f =>
      text.Imm_OpcodeInfo {| text.opcode := o; text.features := f |}
  | text.LexKeyword_vt _ vt => text.Imm_ValueType vt
  | text.LexKeyword_lk _ _ lk =>
      text.Imm_LiteralInfo (text.LiteralInfo.OfKind lk)
  | text.LexNameEqNum_call _ _ | text.LexNan_call => text.monostate
  end.

(** The dispatch on a text of which only the beginning [sv] is known, and
    that no reserved character follows it.  A [switch] on a character of
    [sv] goes as [dispatch] does; a [switch] on the character behind [sv]
    takes the [default] when every [case] label is a reserved character;
    any other [switch] gives [None]: the result is not known. *)
Fixpoint dispatch_on_keyword (body : text.Body) (sv : list u8) {struct body}
  : option (option text.KeywordCall) :=
  match body with
  | text.return_ call => Some (Some call)
  | text.break_ => Some None
  | text.switch offset arms =>
      let fix labels_reserved (arms : list text.Arm) : bool :=
        match arms with
        | [] => true
        | text.case label _ :: arms' =>
            text.IsReserved (u8_to_Z label) && labels_reserved arms'
        | text.default _ :: arms' => labels_reserved arms'
        end in
      let fix on_case (c : Z) (arms : list text.Arm)
        : option (option (option text.KeywordCall)) :=
        match arms with
        | [] => None
        | text.case label body :: arms' =>
            if c =? u8_to_Z label then Some (dispatch_on_keyword body sv)
            else on_case c arms'
        | text.default _ :: arms' => on_case c arms'
        end in
      let fix on_default (arms : list text.Arm)
        : option (option text.KeywordCall) :=
        match arms with
        | [] => Some None
        | text.default body :: _ => dispatch_on_keyword body sv
        | text.case _ _ :: arms' => on_default arms'
        end in
      match nth_error sv offset with
      | Some c =>
          match on_case (u8_to_Z c) arms with
          | Some r => r
          | None => on_default arms
          end
      | None =>
          if (offset =? List.length sv)%nat && labels_reserved arms
          then on_default arms
          else None
      end
  end.

(** The first character of a keyword is one [Lex] sends to the dispatch. *)
Definition starts_in_dispatch (sv : list u8) : bool :=
  match sv with
  | c :: _ => negb (lexed_before_keywords c)
  | [] => false
  end.

Definition is_Reserved_type (tt_ : text.TokenType) : bool :=
  match tt_ with text.T_Reserved => true | _ => false end.

(** The token types of words: every type but the parentheses, the
    comments, the whitespace, the quoted text and the invalid
    character. *)
Definition is_word (tt_ : text.TokenType) : bool :=
  match tt_ with
  | text.T_Lpar | text.T_Rpar | text.T_BlockComment | text.T_LineComment
  | text.T_Whitespace | text.T_Text | text.T_InvalidChar | text.T_InvalidText
  | text.T_InvalidBlockComment | text.T_InvalidLineComment => false
  | _ => true
  end.

Definition all_reserved (l : list u8) : bool :=
  forallb (fun c => text.IsReserved (u8_to_Z c)) l.

(** The shape of the result [r] of a lexer on [data].  The location of the
    token and the span left are the end of [data], and all of it unless
    the token is [Reserved].  A word is followed by no reserved character.
    The location of a [Reserved] token holds reserved characters only. *)
Definition token_shape (data : SpanU8) (r : text.Token * SpanU8) : Prop :=
  (exists skipped,
      data = skipped ++ text.loc (fst r) ++ snd r
      /\ (is_Reserved_type (text.type (fst r)) = false -> skipped = []))
  /\ (is_word (text.type (fst r)) = true ->
      text.IsReserved (text.PeekChar (snd r) 0) = false)
  /\ (is_Reserved_type (text.type (fst r)) = true ->
      all_reserved (text.loc (fst r)) = true).

(** No call of the dispatch asks for a [Reserved] token. *)
Definition call_not_Reserved (call : text.KeywordCall) : bool :=
  negb (is_Reserved_type (call_type call)).

(** The token types [LexNoWhitespace] skips. *)
Definition is_trivia (tt_ : text.TokenType) : bool :=
  match tt_ with
  | text.T_BlockComment | text.T_LineComment | text.T_Whitespace => true
  | _ => false
  end.

(** The predicates of the Python script quoted in [IsCharClass], from
    which the comment says the table was generated. *)
Definition Range (c lo hi : Z) : bool := (lo <=? c) && (c <=? hi).

Definition lower (c : Z) : Z :=
  if Range c (u8_to_Z "A") (u8_to_Z "Z") then c + 32 else c.

Definition script_IsDigit (c : Z) : bool :=
  Range c (u8_to_Z "0") (u8_to_Z "9").

Definition script_IsHexDigit (c : Z) : bool :=
  script_IsDigit c || Range (lower c) (u8_to_Z "a") (u8_to_Z "f").

Definition script_IsKeyword (c : Z) : bool :=
  Range c (u8_to_Z "a") (u8_to_Z "z").

Definition script_IsReserved (c : Z) : bool :=
  Range c (u8_to_Z "!") (u8_to_Z "~")
  && negb (text.is_one_of c "(),;[]{}" || (c =? u8_to_Z x22)).

Definition as_generated (c : Z) : bool :=
  Bool.eqb (text.IsDigit c) (script_IsDigit c)
  && Bool.eqb (text.IsHexDigit c) (script_IsHexDigit c)
  && Bool.eqb (text.IsCharClass c text.CharClass.Keyword) (script_IsKeyword c)
  && Bool.eqb (text.IsReserved c) (script_IsReserved c).

(** The characters [Lex] sends to [LexWhitespace]. *)
Definition is_whitespace (c : Z) : bool :=
  (c =? u8_to_Z " ") || (c =? 9) || (c =? 13) || (c =? 10).

(** The characters of a quoted text that stand for themselves: no line
    feed, no double quote, no backslash. *)
Definition is_plain_text (c : Z) : bool :=
  negb ((c =? 10) || (c =? u8_to_Z x22) || (c =? u8_to_Z "\")).

Definition underscores_of (l : list u8) : text.HasUnderscores.t :=
  if has_underscore l then text.HasUnderscores.Yes else text.HasUnderscores.No.

(** The text of a sign. *)
Definition sign_text (sign : text.Sign.t) : list u8 :=
  match sign with
  | text.Sign.None => []
  | text.Sign.Plus => ["+"%byte]
  | text.Sign.Minus => ["-"%byte]
  end.

(** The type of the token of a decimal integer: [Nat] without a sign,
    [Int] with one. *)
Definition integer_type (sign : text.Sign.t) : text.TokenType :=
  match sign with
  | text.Sign.None => text.T_Nat
  | _ => text.T_Int
  end.

Unset Implicit Arguments.

(* ================================================================== *)
(** * Bytes *)

Lemma u8_to_Z_range (b : u8) : 0 <= u8_to_Z b < 256.
Proof.
  unfold u8_to_Z. pose proof (Byte.to_N_bounded b). lia.
Qed.

Lemma u8_of_to_Z (b : u8) : u8_of_Z (u8_to_Z b) = b.
Proof.
  unfold u8_of_Z, u8_to_Z.
  pose proof (Byte.to_N_bounded b).
  rewrite Z.mod_small by lia.
  rewrite N2Z.id, Byte.of_to_N. reflexivity.
Qed.

Lemma u8_to_of_Z (z : Z) : 0 <= z < 256 -> u8_to_Z (u8_of_Z z) = z.
Proof.
  intros Hz. unfold u8_of_Z, u8_to_Z.
  rewrite Z.mod_small by lia.
  destruct (Byte.of_N (Z.to_N z)) as [b|] eqn:E.
  - apply Byte.to_of_N in E. rewrite E. lia.
  - apply Byte.of_N_None_iff in E. lia.
Qed.

Lemma continuation_land (b : u8) :
  (Z.land (u8_to_Z b) 128 =? 0) = negb (continuation b).
Proof. destruct b; reflexivity. Qed.

Lemma payload_range (b : u8) : 0 <= Z.land (u8_to_Z b) 127 < 128.
Proof.
  pose proof (u8_to_Z_range b).
  change 127 with (Z.ones 7). rewrite Z.land_ones by lia.
  apply Z.mod_pos_bound. lia.
Qed.

(* ================================================================== *)
(** * The loop of [ReadVarInt] *)

Import binary.

Lemma leb_payload_nonneg (l : list u8) : 0 <= leb_payload l.
Proof.
  induction l as [|b l IH]; cbn [leb_payload]; [lia|].
  pose proof (payload_range b).
  apply Z.lor_nonneg. split; [lia|]. rewrite Z.shiftl_nonneg. exact IH.
Qed.

Lemma lor_lt_pow2 (a b n : Z) :
  0 <= n -> 0 <= a < 2 ^ n -> 0 <= b < 2 ^ n -> 0 <= Z.lor a b < 2 ^ n.
Proof.
  intros Hn Ha Hb. split.
  - apply Z.lor_nonneg. lia.
  - destruct (Z.eq_dec (Z.lor a b) 0) as [E|E].
    + rewrite E. apply Z.pow_pos_nonneg; lia.
    + assert (0 < Z.lor a b) by (pose proof (proj2 (Z.lor_nonneg a b)); lia).
      apply Z.log2_lt_pow2; [lia|].
      rewrite Z.log2_lor by lia.
      destruct (Z.eq_dec a 0) as [Ea|Ea]; destruct (Z.eq_dec b 0) as [Eb|Eb]; subst.
      * simpl in E. lia.
      * rewrite Z.max_r by (simpl; apply Z.log2_nonneg).
        apply Z.log2_lt_pow2; lia.
      * rewrite Z.max_l by (simpl; apply Z.log2_nonneg).
        apply Z.log2_lt_pow2; lia.
      * apply Z.max_lub_lt; apply Z.log2_lt_pow2; lia.
Qed.

Lemma leb_payload_bound (l : list u8) :
  leb_payload l < 2 ^ (7 * Z.of_nat (List.length l)).
Proof.
  induction l as [|b l IH].
  - simpl. lia.
  - cbn [leb_payload List.length].
    pose proof (payload_range b) as Hb.
    pose proof (leb_payload_nonneg l) as Hl.
    set (n := Z.of_nat (List.length l)) in *.
    replace (7 * Z.of_nat (S (List.length l))) with (7 * n + 7) by lia.
    assert (Hs : 0 <= Z.shiftl (leb_payload l) 7 < 2 ^ (7 * n + 7)).
    { rewrite Z.shiftl_mul_pow2 by lia. rewrite Z.pow_add_r by lia. nia. }
    assert (Hp : 0 <= Z.land (u8_to_Z b) 127 < 2 ^ (7 * n + 7)).
    { split; [lia|]. apply Z.lt_le_trans with (2 ^ 7); [simpl; lia|].
      apply Z.pow_le_mono_r; lia. }
    apply lor_lt_pow2; lia.
Qed.

Lemma wrapU_small (w x : Z) : 0 <= x < 2 ^ w -> wrapU w x = x.
Proof. intros H. unfold wrapU. apply Z.mod_small. exact H. Qed.

Lemma payload_shift_fits (T : IntType) (b : u8) (i : Z) :
  0 <= i -> 7 * i + 7 <= bits T ->
  wrapU (bits T) (Z.shiftl (Z.land (u8_to_Z b) 127) (i * 7))
  = Z.shiftl (Z.land (u8_to_Z b) 127) (i * 7).
Proof.
  intros Hi Hw. apply wrapU_small.
  pose proof (payload_range b) as Hb.
  rewrite Z.shiftl_mul_pow2 by lia.
  split; [apply Z.mul_nonneg_nonneg; [lia | apply Z.pow_nonneg; lia]|].
  apply Z.lt_le_trans with (2 ^ 7 * 2 ^ (i * 7)).
  - apply Z.mul_lt_mono_pos_r; [apply Z.pow_pos_nonneg; lia | simpl; lia].
  - rewrite <- Z.pow_add_r by lia. apply Z.pow_le_mono_r; lia.
Qed.

(** Over a run of bytes that carry the continuation bit and stay below
    [kMaxBytes], the loop accumulates their payloads. *)
Lemma ReadVarInt_loop_continuation (T : IntType) (desc : string)
      (pre : list u8) :
  forall (data' : SpanU8) (errors : Errors) (i result : Z),
    0 <= i ->
    forallb continuation pre = true ->
    i + Z.of_nat (List.length pre) < kMaxBytes T ->
    7 * (i + Z.of_nat (List.length pre)) <= bits T ->
    ReadVarInt_loop T desc (pre ++ data') errors i result
    = ReadVarInt_loop T desc data' errors (i + Z.of_nat (List.length pre))
        (Z.lor result (Z.shiftl (leb_payload pre) (i * 7))).
Proof.
  induction pre as [|b pre IH]; intros data' errors i result Hi Hc Hk Hw.
  - simpl. rewrite Z.shiftl_0_l, Z.lor_0_r, Z.add_0_r. reflexivity.
  - cbn [List.length forallb] in *. apply andb_prop in Hc as [Hb Hc].
    rewrite Nat2Z.inj_succ in Hk, Hw.
    cbn [app ReadVarInt_loop].
    assert (Hne : (i + 1 =? kMaxBytes T) = false) by (apply Z.eqb_neq; lia).
    rewrite Hne, continuation_land, Hb. cbn [negb].
    rewrite (IH data' errors (i + 1) _ ltac:(lia) Hc ltac:(lia) ltac:(lia)).
    rewrite payload_shift_fits by lia.
    f_equal; [lia|].
    cbn [leb_payload].
    rewrite <- Z.lor_assoc. f_equal.
    rewrite Z.shiftl_lor. f_equal.
    rewrite Z.shiftl_shiftl by lia. f_equal. lia.
Qed.

(** A byte below [kMaxBytes] without the continuation bit ends the read. *)
Lemma ReadVarInt_loop_short (T : IntType) (desc : string) (b : u8)
      (rest : SpanU8) (errors : Errors) (i result : Z) :
  i + 1 <> kMaxBytes T ->
  continuation b = false ->
  ReadVarInt_loop T desc (b :: rest) errors i result
  = (Some (let result :=
             Z.lor result
               (wrapU (bits T) (Z.shiftl (Z.land (u8_to_Z b) 127) (i * 7))) in
           if is_signed T then SignExtend T result (6 + i * 7) else result),
     rest, errors).
Proof.
  intros Hne Hb. cbn [ReadVarInt_loop].
  apply Z.eqb_neq in Hne. rewrite Hne, continuation_land, Hb. reflexivity.
Qed.

Lemma kMask_test_spec (T : IntType) (b : u8) :
  In T [U32; S32; U64; S64] ->
  (Z.land (u8_to_Z b) (kMask T) =? 0)
  || (is_signed T && (Z.land (u8_to_Z b) (kMask T) =? kOnes T))
  = last_byte_extends T b.
Proof.
  intros HT. simpl in HT.
  destruct HT as [<-|[<-|[<-|[<-|[]]]]]; destruct b; vm_compute; reflexivity.
Qed.

(** The byte number [kMaxBytes] decides the read. *)
Lemma ReadVarInt_loop_last (T : IntType) (desc : string) (b : u8)
      (rest : SpanU8) (errors : Errors) (i result : Z) :
  In T [U32; S32; U64; S64] ->
  i + 1 = kMaxBytes T ->
  ReadVarInt_loop T desc (b :: rest) errors i result
  = if last_byte_extends T b then
      (Some (static_cast T
               (Z.lor result
                  (wrapU (bits T)
                         (Z.shiftl (Z.land (u8_to_Z b) 127) (i * 7))))),
       rest, errors)
    else
      (None, rest,
       OnError rest
         (let zero_ext :=
            Z.land (Z.land (u8_to_Z b) (Z.lnot (kMask T))) 127 in
          let one_ext := Z.land (Z.lor (u8_to_Z b) (kOnes T)) 127 in
          if is_signed T
          then Msg_LastByteSignExtension desc zero_ext one_ext (u8_to_Z b)
          else Msg_LastByteZeroExtension desc zero_ext (u8_to_Z b))
         :: errors).
Proof.
  intros HT Hi. cbn [ReadVarInt_loop].
  rewrite (proj2 (Z.eqb_eq _ _) Hi).
  rewrite kMask_test_spec by exact HT.
  destruct (last_byte_extends T b); [reflexivity|].
  destruct (is_signed T); reflexivity.
Qed.

Lemma leb_payload_app (l1 l2 : list u8) :
  leb_payload (l1 ++ l2)
  = Z.lor (leb_payload l1)
          (Z.shiftl (leb_payload l2) (Z.of_nat (List.length l1) * 7)).
Proof.
  induction l1 as [|b l1 IH].
  - cbn [app leb_payload List.length]. rewrite Z.shiftl_0_r. reflexivity.
  - cbn [app leb_payload List.length]. rewrite IH.
    rewrite <- Z.lor_assoc. f_equal.
    rewrite Z.shiftl_lor. f_equal.
    rewrite Z.shiftl_shiftl by lia. f_equal. lia.
Qed.

Lemma leb_payload_single (b : u8) : leb_payload [b] = Z.land (u8_to_Z b) 127.
Proof. cbn [leb_payload]. rewrite Z.shiftl_0_l, Z.lor_0_r. reflexivity. Qed.

Lemma testbit_top (n x : Z) :
  0 < n -> 0 <= x < 2 ^ n -> Z.testbit x (n - 1) = negb (x <? 2 ^ (n - 1)).
Proof.
  intros Hn Hx.
  assert (Hp : 2 ^ n = 2 * 2 ^ (n - 1)).
  { replace n with (1 + (n - 1)) at 1 by lia. rewrite Z.pow_add_r by lia.
    reflexivity. }
  assert (Hpos : 0 < 2 ^ (n - 1)) by (apply Z.pow_pos_nonneg; lia).
  rewrite Z.testbit_eqb by lia.
  destruct (Z.ltb_spec x (2 ^ (n - 1))) as [Hlt|Hge]; cbn [negb].
  - rewrite Z.div_small by lia. reflexivity.
  - assert (E : x / 2 ^ (n - 1) = 1).
    { symmetry. apply Z.div_unique with (r := x - 2 ^ (n - 1)); lia. }
    rewrite E. reflexivity.
Qed.

(** [SignExtend] computes the two's complement value of the low [N + 1]
    bits. *)
Lemma SignExtend_spec (T : IntType) (x n : Z) :
  is_signed T = true ->
  0 < n <= bits T ->
  0 <= x < 2 ^ n ->
  SignExtend T x (n - 1) = sign_extend_from n x.
Proof.
  intros Hs Hn Hx.
  unfold SignExtend, sign_extend_from, static_cast, to_signed. rewrite Hs.
  set (W := bits T) in *.
  replace (W - (n - 1) - 1) with (W - n) by lia.
  set (s := W - n).
  assert (Hs0 : 0 <= s) by (unfold s; lia).
  assert (H2s : 0 < 2 ^ s) by (apply Z.pow_pos_nonneg; lia).
  assert (HW : 2 ^ W = 2 ^ n * 2 ^ s).
  { rewrite <- Z.pow_add_r by lia. f_equal. unfold s. lia. }
  assert (HW1 : 2 ^ (W - 1) = 2 ^ (n - 1) * 2 ^ s).
  { rewrite <- Z.pow_add_r by lia. f_equal. unfold s. lia. }
  rewrite Z.shiftl_mul_pow2 by lia.
  assert (Hfit : 0 <= x * 2 ^ s < 2 ^ W) by (rewrite HW; nia).
  rewrite !(@wrapU_small W (x * 2 ^ s) Hfit).
  rewrite testbit_top by lia.
  rewrite Z.shiftr_div_pow2 by lia.
  destruct (Z.ltb_spec x (2 ^ (n - 1))) as [Hlt|Hge]; cbn [negb].
  - assert (Hc : (x * 2 ^ s <? 2 ^ (W - 1)) = true).
    { apply Z.ltb_lt. rewrite HW1. nia. }
    rewrite Hc. apply Z.div_mul. lia.
  - assert (Hc : (x * 2 ^ s <? 2 ^ (W - 1)) = false).
    { apply Z.ltb_ge. rewrite HW1. nia. }
    rewrite Hc. rewrite HW.
    replace (x * 2 ^ s - 2 ^ n * 2 ^ s) with ((x - 2 ^ n) * 2 ^ s) by ring.
    apply Z.div_mul. lia.
Qed.

Lemma ReadVarInt_unfold (T : IntType) (desc : string) (data : SpanU8)
      (errors : Errors) :
  ReadVarInt T desc data errors
  = match ReadVarInt_loop T desc data (PushContext data desc :: errors) 0 0 with
    | (r, data', errors') => (r, data', PopContext :: errors')
    end.
Proof. reflexivity. Qed.

Lemma kMaxBytes_values :
  kMaxBytes U32 = 5 /\ kMaxBytes S32 = 5 /\ kMaxBytes U64 = 10
  /\ kMaxBytes S64 = 10.
Proof. repeat split; reflexivity. Qed.

Lemma kMaxBytes_bits (T : IntType) :
  In T [U32; S32; U64; S64] ->
  7 * (kMaxBytes T - 1) < bits T /\ 1 <= kMaxBytes T.
Proof.
  intros HT. simpl in HT.
  destruct HT as [<-|[<-|[<-|[<-|[]]]]]; vm_compute; split; congruence.
Qed.

(* ================================================================== *)
(** * The claims on LEB128 integers *)

(** C1, the claim as it is worded.  It counts K = ceil((W + 6) / 7) bytes:
    6 for 32 bits, one more than the code's [kMaxBytes], and 10 for 64 bits,
    as the code.  Five bytes with the continuation bit followed by the byte
    [00], on which no bit is set, are K - 1 continuation bytes and a K-th
    byte that extends the value for the claim.  The read fails all the same,
    unsigned and signed: it refuses the fifth byte, reports the error
    there and never reads the sixth. *)
Lemma ReadVarInt_32_sixth_byte_never_read :
  (claimed_max_bytes U32 = 6 /\ claimed_max_bytes S32 = 6
   /\ kMaxBytes U32 = 5 /\ kMaxBytes S32 = 5
   /\ claimed_max_bytes U64 = kMaxBytes U64
   /\ claimed_max_bytes S64 = kMaxBytes S64)
  /\ Z.of_nat (List.length (bytes [0x80; 0x80; 0x80; 0x80; 0x80]))
     = claimed_max_bytes U32 - 1
  /\ forallb continuation (bytes [0x80; 0x80; 0x80; 0x80; 0x80]) = true
  /\ ReadVarInt U32 "vu32" (bytes [0x80; 0x80; 0x80; 0x80; 0x80; 0x00]) []
     = (None, bytes [0x00],
        [PopContext;
         OnError (bytes [0x00]) (Msg_LastByteZeroExtension "vu32" 0 128);
         PushContext (bytes [0x80; 0x80; 0x80; 0x80; 0x80; 0x00]) "vu32"])
  /\ ReadVarInt S32 "vs32" (bytes [0x80; 0x80; 0x80; 0x80; 0x80; 0x00]) []
     = (None, bytes [0x00],
        [PopContext;
         OnError (bytes [0x00]) (Msg_LastByteSignExtension "vs32" 0 120 128);
         PushContext (bytes [0x80; 0x80; 0x80; 0x80; 0x80; 0x00]) "vs32"]).
Proof. repeat split; reflexivity. Qed.

(** C1.  For the four integer types (32 and 64 bits, unsigned and signed),
    when [kMaxBytes - 1] bytes with the continuation bit have been read
    ([kMaxBytes] is [(W + 6) / 7] in integer division: 5 bytes for 32 bits,
    10 for 64), the read succeeds exactly when byte number [kMaxBytes]
    extends the value as the format wants it ([last_byte_extends]): it then
    returns a value and reports nothing; otherwise it returns no value and
    reports an error.  A continuation bit on that byte always makes the read
    fail. *)
Theorem ReadVarInt_last_byte_decides (T : IntType) (desc : string)
        (pre : list u8) (b : u8) (rest : SpanU8) (errors : Errors) :
  In T [U32; S32; U64; S64] ->
  Z.of_nat (List.length pre) = kMaxBytes T - 1 ->
  forallb continuation pre = true ->
  (last_byte_extends T b = true ->
   exists v,
     ReadVarInt T desc (pre ++ b :: rest) errors
     = (Some v, rest,
        PopContext :: PushContext (pre ++ b :: rest) desc :: errors))
  /\ (last_byte_extends T b = false ->
      exists msg,
        ReadVarInt T desc (pre ++ b :: rest) errors
        = (None, rest,
           PopContext :: OnError rest msg
             :: PushContext (pre ++ b :: rest) desc :: errors))
  /\ (continuation b = true ->
      fst (fst (ReadVarInt T desc (pre ++ b :: rest) errors)) = None).
Proof.
  intros HT Hlen Hc.
  pose proof (kMaxBytes_bits T HT) as [Hbits Hk].
  assert (Hrun :
    ReadVarInt T desc (pre ++ b :: rest) errors
    = match ReadVarInt_loop T desc (b :: rest)
              (PushContext (pre ++ b :: rest) desc :: errors)
              (0 + Z.of_nat (List.length pre))
              (Z.lor 0 (Z.shiftl (leb_payload pre) (0 * 7))) with
      | (r, data', errors') => (r, data', PopContext :: errors')
      end).
  { rewrite ReadVarInt_unfold.
    rewrite ReadVarInt_loop_continuation by (try assumption; lia).
    reflexivity. }
  rewrite Hrun.
  rewrite ReadVarInt_loop_last by (try assumption; lia).
  assert (Hcont : continuation b = true -> last_byte_extends T b = false).
  { clear - HT. simpl in HT.
    destruct HT as [<-|[<-|[<-|[<-|[]]]]]; destruct b; vm_compute; congruence. }
  destruct (last_byte_extends T b) eqn:E.
  - split; [|split].
    + intros _. eexists. reflexivity.
    + discriminate.
    + intros Hb. apply Hcont in Hb. discriminate.
  - split; [|split].
    + discriminate.
    + intros _. eexists. reflexivity.
    + reflexivity.
Qed.

Lemma ReadVarInt_last_byte_decides_witness :
  exists v,
    ReadVarInt U32 "vu32" (bytes [0x8f; 0x80; 0x80; 0x80; 0x0f]) []
    = (Some v, [],
       [PopContext; PushContext (bytes [0x8f; 0x80; 0x80; 0x80; 0x0f]) "vu32"]).
Proof.
  apply (proj1 (ReadVarInt_last_byte_decides U32 "vu32"
                  (bytes [0x8f; 0x80; 0x80; 0x80]) (u8_of_Z 0x0f) [] []
                  (or_introl eq_refl) eq_refl eq_refl)).
  reflexivity.
Defined.




(** C2, the claim as it is worded: the code accepts [85 80 80 80 00] as
    the 32-bit unsigned integer 5 and reports no error. *)
Lemma Read_u32_overlong_5_accepted :
  Read_u32 (bytes [0x85; 0x80; 0x80; 0x80; 0x00]) []
  = (Some 5, [],
     [PopContext; PushContext (bytes [0x85; 0x80; 0x80; 0x80; 0x00]) "vu32"])
  /\ error_count
       (snd (Read_u32 (bytes [0x85; 0x80; 0x80; 0x80; 0x00]) [])) = 0%nat.
Proof. split; reflexivity. Qed.

Lemma leb_payload_repeat_x80 (m : nat) : leb_payload (repeat x80 m) = 0.
Proof.
  induction m as [|m IH]; [reflexivity|].
  cbn [repeat leb_payload]. rewrite IH. reflexivity.
Qed.

Lemma forallb_continuation_repeat_x80 (m : nat) :
  forallb continuation (repeat x80 m) = true.
Proof. induction m as [|m IH]; [reflexivity|]. cbn [repeat forallb]. rewrite IH. reflexivity. Qed.

Lemma with_continuation_spec (b : u8) :
  continuation (with_continuation b) = true
  /\ Z.land (u8_to_Z (with_continuation b)) 127 = Z.land (u8_to_Z b) 127.
Proof. destruct b; split; reflexivity. Qed.

Lemma leb_payload_padded (pre : list u8) (b : u8) (m : nat) :
  leb_payload (pre ++ with_continuation b :: repeat x80 m)
  = leb_payload (pre ++ [b]).
Proof.
  rewrite !leb_payload_app. f_equal. f_equal.
  cbn [leb_payload]. rewrite leb_payload_repeat_x80.
  rewrite (proj2 (with_continuation_spec b)). reflexivity.
Qed.

(** C2, amended.  A 32-bit unsigned integer written with more bytes than it
    needs, the added bytes carrying a zero payload, is read as the same
    value as long as the encoding has at most [kMaxBytes = 5] bytes: the
    read succeeds, consumes the whole encoding and reports no error.  So
    [85 80 80 80 00] is read as 5. *)
Theorem Read_u32_zero_padded_accepted (pre : list u8) (b : u8) (m : nat)
        (rest : SpanU8) (errors : Errors) :
  forallb continuation pre = true ->
  continuation b = false ->
  Z.of_nat (List.length pre) + Z.of_nat m + 2 <= 5 ->
  Read_u32 (pre ++ b :: rest) errors
  = (Some (leb_payload (pre ++ [b])), rest,
     PopContext :: PushContext (pre ++ b :: rest) "vu32" :: errors)
  /\ Read_u32 (pre ++ with_continuation b :: repeat x80 m ++ x00 :: rest)
              errors
     = (Some (leb_payload (pre ++ [b])), rest,
        PopContext
          :: PushContext
               (pre ++ with_continuation b :: repeat x80 m ++ x00 :: rest)
               "vu32"
          :: errors).
Proof.
  intros Hc Hb Hlen.
  assert (HK : kMaxBytes U32 = 5) by reflexivity.
  split.
  - unfold Read_u32. rewrite ReadVarInt_unfold.
    rewrite ReadVarInt_loop_continuation
      by (try assumption; rewrite ?HK; cbn [bits U32]; lia).
    rewrite ReadVarInt_loop_short by (try assumption; rewrite HK; lia).
    cbn [is_signed U32]. cbv zeta.
    rewrite payload_shift_fits by (cbn [bits U32]; lia).
    rewrite Z.shiftl_0_r, Z.lor_0_l.
    rewrite leb_payload_app, leb_payload_single.
    replace (0 + Z.of_nat (List.length pre)) with (Z.of_nat (List.length pre))
      by lia.
    reflexivity.
  - set (pre' := pre ++ with_continuation b :: repeat x80 m).
    assert (Hdata :
      pre ++ with_continuation b :: repeat x80 m ++ x00 :: rest
      = pre' ++ x00 :: rest).
    { unfold pre'. rewrite <- app_assoc. reflexivity. }
    rewrite Hdata.
    assert (Hlen' : Z.of_nat (List.length pre')
                    = Z.of_nat (List.length pre) + 1 + Z.of_nat m).
    { unfold pre'. rewrite length_app. cbn [List.length].
      rewrite repeat_length. lia. }
    assert (Hc' : forallb continuation pre' = true).
    { unfold pre'. rewrite forallb_app, Hc. cbn [forallb andb].
      rewrite (proj1 (with_continuation_spec b)).
      apply forallb_continuation_repeat_x80. }
    assert (Hpay : leb_payload pre' = leb_payload (pre ++ [b])).
    { apply leb_payload_padded. }
    assert (Hbound : 0 <= leb_payload pre' < 2 ^ 32).
    { split; [apply leb_payload_nonneg|].
      pose proof (leb_payload_bound pre') as Hbd.
      apply Z.lt_le_trans with (1 := Hbd).
      apply Z.pow_le_mono_r; lia. }
    unfold Read_u32. rewrite ReadVarInt_unfold.
    rewrite ReadVarInt_loop_continuation
      by (try assumption; rewrite ?HK; cbn [bits U32]; lia).
    rewrite Z.shiftl_0_r, Z.lor_0_l.
    destruct (Z.eq_dec (0 + Z.of_nat (List.length pre') + 1) 5) as [E|E].
    + rewrite ReadVarInt_loop_last
        by (rewrite ?HK; simpl; tauto || lia).
      change (last_byte_extends U32 x00) with true. cbv iota.
      change (Z.land (u8_to_Z x00) 127) with 0.
      rewrite Z.shiftl_0_l.
      change (wrapU (bits U32) 0) with 0. rewrite Z.lor_0_r.
      unfold static_cast. cbn [is_signed U32 bits].
      rewrite wrapU_small by exact Hbound.
      rewrite Hpay. reflexivity.
    + rewrite ReadVarInt_loop_short by (rewrite ?HK; lia || reflexivity).
      cbn [is_signed U32]. cbv zeta.
      change (Z.land (u8_to_Z x00) 127) with 0.
      rewrite Z.shiftl_0_l.
      change (wrapU (bits U32) 0) with 0. rewrite Z.lor_0_r.
      rewrite Hpay. reflexivity.
Qed.

Lemma Read_u32_zero_padded_accepted_witness :
  Read_u32 (bytes [0x85; 0x80; 0x80; 0x80; 0x00]) []
  = (Some 5, [],
     [PopContext; PushContext (bytes [0x85; 0x80; 0x80; 0x80; 0x00]) "vu32"]).
Proof.
  exact (proj2 (Read_u32_zero_padded_accepted [] (u8_of_Z 0x05) 3 [] []
                  eq_refl eq_refl ltac:(vm_compute; congruence))).
Defined.

(* ================================================================== *)
(** * Counts and strings *)

Lemma no_string_error_since_refl (errors : Errors) :
  no_string_error_since errors errors.
Proof. exists []. split; reflexivity. Qed.

Lemma no_string_error_since_cons (c : ErrorsCall) (errors errors' : Errors) :
  is_string_error c = false ->
  no_string_error_since errors errors' ->
  no_string_error_since errors (c :: errors').
Proof.
  intros Hc (new & -> & Hnew). exists (c :: new). split; [reflexivity|].
  cbn [forallb]. rewrite Hc, Hnew. reflexivity.
Qed.

Lemma no_string_error_since_trans (e1 e2 e3 : Errors) :
  no_string_error_since e1 e2 -> no_string_error_since e2 e3 ->
  no_string_error_since e1 e3.
Proof.
  intros (n1 & -> & H1) (n2 & -> & H2). exists (n2 ++ n1).
  split; [apply app_assoc|]. rewrite forallb_app, H1, H2. reflexivity.
Qed.

Lemma ReadVarInt_loop_no_string_error (T : IntType) (desc : string)
      (data : SpanU8) :
  forall (errors : Errors) (i result : Z),
    no_string_error_since errors
      (snd (ReadVarInt_loop T desc data errors i result)).
Proof.
  induction data as [|b data IH]; intros errors i result.
  - cbn [ReadVarInt_loop snd].
    apply no_string_error_since_cons; [reflexivity|].
    apply no_string_error_since_refl.
  - cbn [ReadVarInt_loop].
    repeat match goal with
           | |- context [if ?c then _ else _] => destruct c
           end;
      cbn [snd];
      try apply IH;
      try (apply no_string_error_since_cons; [reflexivity|]);
      apply no_string_error_since_refl.
Qed.

Lemma ReadVarInt_no_string_error (T : IntType) (desc : string)
      (data : SpanU8) (errors : Errors) :
  no_string_error_since errors (snd (ReadVarInt T desc data errors)).
Proof.
  rewrite ReadVarInt_unfold.
  pose proof (ReadVarInt_loop_no_string_error T desc data
                (PushContext data desc :: errors) 0 0) as H.
  destruct (ReadVarInt_loop T desc data (PushContext data desc :: errors) 0 0)
    as [[r data'] errors'].
  cbn [snd] in *.
  apply no_string_error_since_cons; [reflexivity|].
  eapply no_string_error_since_trans; [|exact H].
  apply no_string_error_since_cons; [reflexivity|].
  apply no_string_error_since_refl.
Qed.

Lemma ReadCount_spec (data : SpanU8) (errors : Errors) :
  match ReadCount data errors with
  | (Some count, data', errors') =>
      count <= size data' /\ no_string_error_since errors errors'
  | (None, _, errors') => no_string_error_since errors errors'
  end.
Proof.
  unfold ReadCount, bind, ReadIndex.
  pose proof (ReadVarInt_no_string_error U32 "index" data errors) as H.
  destruct (ReadVarInt U32 "index" data errors) as [[[count|] data'] errors'];
    cbn [snd] in H; [|exact H].
  destruct (Z.gtb_spec count (size data')) as [Hgt|Hle].
  - apply no_string_error_since_cons; [reflexivity | exact H].
  - split; [lia | exact H].
Qed.

(** C9.  When [ReadCount] succeeds, the length it returns is at most the
    number of bytes left, so the test [len > data->size()] of [ReadStr] is
    never true: no call of [ReadStr] reports "Unable to read string of
    length". *)
Theorem ReadStr_length_check_unreachable (desc : string) (data : SpanU8)
        (errors : Errors) :
  (forall len data' errors',
      ReadCount data errors = (Some len, data', errors') ->
      len <= size data')
  /\ (forall pos len,
         In (OnError pos (Msg_UnableToReadString len))
            (snd (ReadStr desc data errors)) ->
         In (OnError pos (Msg_UnableToReadString len)) errors).
Proof.
  split.
  - intros len data' errors' E.
    pose proof (ReadCount_spec data errors) as H. rewrite E in H.
    tauto.
  - intros pos len Hin.
    assert (Hsince : no_string_error_since errors
                       (snd (ReadStr desc data errors))).
    { unfold ReadStr, ErrorsContextGuard, bind.
      pose proof (ReadCount_spec data (PushContext data desc :: errors)) as H.
      destruct (ReadCount data (PushContext data desc :: errors))
        as [[[count|] data'] errors'].
      - destruct H as [Hle H].
        destruct (Z.gtb_spec count (size data')) as [Hgt|_]; [lia|].
        cbn [snd].
        apply no_string_error_since_cons; [reflexivity|].
        eapply no_string_error_since_trans; [|exact H].
        apply no_string_error_since_cons; [reflexivity|].
        apply no_string_error_since_refl.
      - cbn [snd].
        apply no_string_error_since_cons; [reflexivity|].
        eapply no_string_error_since_trans; [|exact H].
        apply no_string_error_since_cons; [reflexivity|].
        apply no_string_error_since_refl. }
    destruct Hsince as (new & E & Hnew). rewrite E in Hin.
    apply in_app_or in Hin as [Hin|Hin]; [|exact Hin].
    rewrite forallb_forall in Hnew. apply Hnew in Hin. discriminate.
Qed.

Lemma ReadStr_length_check_unreachable_witness :
  2 <= size (bytes [0x61; 0x62; 0x63]).
Proof.
  exact (proj1 (ReadStr_length_check_unreachable "name"
                  (bytes [0x02; 0x61; 0x62; 0x63]) [])
               2 (bytes [0x61; 0x62; 0x63])
               [PopContext; PushContext (bytes [0x02; 0x61; 0x62; 0x63]) "index"]
               eq_refl).
Defined.

(* ================================================================== *)
(** * The module header *)

(** C8, at the input that fails: on the empty slice neither the magic nor
    the version can be read, and the constructor evaluates [*magic] on the
    empty optional. *)
Lemma LazyModule_ctor_empty_dereferences_nullopt :
  LazyModule_ctor [] []
  = DereferencedNullopt
      [OnError [] (Msg_UnableToReadBytes 4); OnError [] (Msg_UnableToReadBytes 4)].
Proof. reflexivity. Qed.

(** On every slice shorter than 8 bytes the constructor evaluates [*magic]
    or [*version] on an empty optional. *)
Lemma LazyModule_ctor_short_dereferences_nullopt (data : SpanU8)
      (errors : Errors) :
  size data < 8 ->
  exists errors', LazyModule_ctor data errors = DereferencedNullopt errors'.
Proof.
  intros Hlen.
  destruct (Z.ltb_spec (size data) 4) as [H4|H4].
  - apply Z.ltb_lt in H4.
    unfold LazyModule_ctor, ReadBytes. rewrite H4. cbv beta iota zeta.
    rewrite H4. cbn [optional_ne]. eexists. reflexivity.
  - assert (Hrest : (size (remove_prefix data 4) <? 4) = true).
    { apply Z.ltb_lt. unfold size, remove_prefix in *. rewrite length_skipn.
      change (Z.to_nat 4) with 4%nat. lia. }
    apply Z.ltb_ge in H4.
    unfold LazyModule_ctor, ReadBytes. rewrite H4. cbv beta iota zeta.
    rewrite Hrest.
    destruct (optional_ne (Some (subspan data 0 4)) encoding_Magic);
      cbn [optional_ne]; eexists; reflexivity.
Qed.

(** From 8 bytes on, the constructor completes. *)
Lemma LazyModule_ctor_long_completes (data : SpanU8) (errors : Errors) :
  8 <= size data ->
  exists m errors', LazyModule_ctor data errors = Completed m errors'.
Proof.
  intros Hlen.
  assert (H4 : (size data <? 4) = false) by (apply Z.ltb_ge; lia).
  assert (Hrest : (size (remove_prefix data 4) <? 4) = false).
  { apply Z.ltb_ge. unfold size, remove_prefix in *. rewrite length_skipn.
    change (Z.to_nat 4) with 4%nat. lia. }
  unfold LazyModule_ctor, ReadBytes. rewrite H4. cbv beta iota zeta.
  rewrite Hrest.
  destruct (optional_ne (Some (subspan data 0 4)) encoding_Magic);
    destruct (optional_ne (Some (subspan (remove_prefix data 4) 0 4))
                          encoding_Version);
    do 2 eexists; reflexivity.
Qed.

(* ================================================================== *)
(** * Readers only move the cursor forward *)

Lemma advances_ret {A : Type} (a : A) : advances (ret a).
Proof. intros data errors. exists []. reflexivity. Qed.

Lemma advances_nullopt {A : Type} : advances (@nullopt A).
Proof. intros data errors. exists []. reflexivity. Qed.

Lemma advances_bind {A B : Type} (m : Reader A) (k : A -> Reader B) :
  advances m -> (forall a, advances (k a)) -> advances (bind m k).
Proof.
  intros Hm Hk data errors. unfold bind.
  destruct (Hm data errors) as [pre Hpre].
  destruct (m data errors) as [[[a|] data'] errors']; cbn [fst snd] in *.
  - destruct (Hk a data' errors') as [pre' Hpre'].
    exists (pre ++ pre'). rewrite <- app_assoc, <- Hpre'. exact Hpre.
  - exists pre. exact Hpre.
Qed.

Lemma advances_errors_OnError (msg : Message) : advances (errors_OnError msg).
Proof. intros data errors. exists []. reflexivity. Qed.

Lemma advances_errors_PushContext (desc : string) :
  advances (errors_PushContext desc).
Proof. intros data errors. exists []. reflexivity. Qed.

Lemma advances_errors_PopContext : advances errors_PopContext.
Proof. intros data errors. exists []. reflexivity. Qed.

Lemma advances_ErrorsContextGuard {A : Type} (desc : string) (m : Reader A) :
  advances m -> advances (ErrorsContextGuard desc m).
Proof.
  intros Hm data errors. unfold ErrorsContextGuard.
  destruct (Hm data (PushContext data desc :: errors)) as [pre Hpre].
  destruct (m data (PushContext data desc :: errors)) as [[r data'] errors'].
  exists pre. exact Hpre.
Qed.

Lemma advances_WASP_TRY_READ_CONTEXT {A : Type} (m : Reader A)
      (desc : string) :
  advances m -> advances (WASP_TRY_READ_CONTEXT m desc).
Proof.
  intros Hm. unfold WASP_TRY_READ_CONTEXT.
  apply advances_bind; [apply advances_errors_PushContext|]. intros _.
  apply advances_bind; [exact Hm|]. intros a.
  apply advances_bind; [apply advances_errors_PopContext|]. intros _.
  apply advances_ret.
Qed.

Lemma advances_Read_u8 : advances Read_u8.
Proof.
  intros [|b data] errors; [exists []|exists [b]]; reflexivity.
Qed.

Lemma advances_ReadBytes (N : Z) : advances (ReadBytes N).
Proof.
  intros data errors. unfold ReadBytes.
  destruct (size data <? N); cbn [fst snd].
  - exists []. reflexivity.
  - exists (firstn (Z.to_nat N) data). unfold remove_prefix.
    symmetry. apply firstn_skipn.
Qed.

Lemma advances_ReadVarInt_loop (T : IntType) (desc : string) (data : SpanU8) :
  forall errors i result,
    exists pre,
      data = pre ++ snd (fst (ReadVarInt_loop T desc data errors i result)).
Proof.
  induction data as [|b data IH]; intros errors i result.
  - exists []. reflexivity.
  - cbn [ReadVarInt_loop].
    repeat match goal with
           | |- context [if ?c then _ else _] => destruct c
           end;
      cbn [fst snd];
      try (exists [b]; reflexivity).
    destruct (IH errors (i + 1)
                 (Z.lor result
                    (wrapU (bits T)
                           (Z.shiftl (Z.land (u8_to_Z b) 127) (i * 7)))))
      as [pre Hpre].
    exists (b :: pre). cbn [app]. f_equal. exact Hpre.
Qed.

Lemma advances_ReadVarInt (T : IntType) (desc : string) :
  advances (ReadVarInt T desc).
Proof.
  intros data errors. rewrite ReadVarInt_unfold.
  destruct (advances_ReadVarInt_loop T desc data
              (PushContext data desc :: errors) 0 0) as [pre Hpre].
  destruct (ReadVarInt_loop T desc data (PushContext data desc :: errors) 0 0)
    as [[r data'] errors'].
  exists pre. exact Hpre.
Qed.

Lemma advances_ReadCount : advances ReadCount.
Proof.
  unfold ReadCount. apply advances_bind; [apply advances_ReadVarInt|].
  intros count data errors.
  destruct (count >? size data); exists []; reflexivity.
Qed.

Lemma advances_ReadVec_loop {T : Type} (read : Reader T) (n : nat) :
  advances read -> forall result, advances (ReadVec_loop read n result).
Proof.
  intros Hread. induction n as [|n IH]; intros result; cbn [ReadVec_loop].
  - apply advances_ret.
  - apply advances_bind; [exact Hread|]. intros elt. apply IH.
Qed.

Lemma advances_ReadVec {T : Type} (read : Reader T) (desc : string) :
  advances read -> advances (ReadVec read desc).
Proof.
  intros Hread. unfold ReadVec. apply advances_ErrorsContextGuard.
  apply advances_bind; [apply advances_ReadCount|]. intros len.
  apply advances_ReadVec_loop. exact Hread.
Qed.

Section DecodeProofs.
Variable BlockType : Type.
Variable BlockType_Decode : u8 -> option BlockType.
Variable Opcode_Decode : u8 -> option Opcode.

Lemma advances_WASP_TRY_DECODE {A : Type} (decode : u8 -> option A)
      (in_var : u8) (name : string) :
  advances (WASP_TRY_DECODE decode in_var name).
Proof.
  unfold WASP_TRY_DECODE. destruct (decode in_var).
  - apply advances_ret.
  - apply advances_bind; [apply advances_errors_OnError|]. intros _.
    apply advances_nullopt.
Qed.

Lemma advances_Read_BlockType : advances (Read_BlockType BlockType_Decode).
Proof.
  unfold Read_BlockType. apply advances_ErrorsContextGuard.
  apply advances_bind; [apply advances_Read_u8|]. intros val.
  apply advances_WASP_TRY_DECODE.
Qed.

Lemma advances_Read_Opcode : advances (Read_Opcode Opcode_Decode).
Proof.
  unfold Read_Opcode. apply advances_ErrorsContextGuard.
  apply advances_bind; [apply advances_Read_u8|]. intros val.
  apply advances_WASP_TRY_DECODE.
Qed.

Lemma advances_Read_MemArg : advances Read_MemArg.
Proof.
  unfold Read_MemArg.
  apply advances_bind;
    [apply advances_WASP_TRY_READ_CONTEXT, advances_ReadVarInt|]. intros a.
  apply advances_bind;
    [apply advances_WASP_TRY_READ_CONTEXT, advances_ReadVarInt|]. intros o.
  apply advances_ret.
Qed.

Ltac advances_step :=
  first
    [ apply advances_ret
    | apply advances_nullopt
    | apply advances_errors_OnError
    | apply advances_WASP_TRY_READ_CONTEXT
    | apply advances_ReadVarInt
    | apply advances_ReadVec
    | apply advances_Read_u8
    | apply advances_ReadBytes
    | apply advances_Read_MemArg
    | apply advances_Read_BlockType
    | apply advances_Read_Opcode
    | (apply advances_bind; [|intro]) ].

Lemma advances_Read_Instr :
  advances (Read_Instr BlockType_Decode Opcode_Decode).
Proof.
  unfold Read_Instr.
  apply advances_bind;
    [apply advances_WASP_TRY_READ_CONTEXT, advances_Read_Opcode|].
  intros opcode.
  destruct opcode; unfold ReadIndex, Read_s32, Read_s64, Read_f32, Read_f64;
    repeat advances_step.
Qed.

Lemma Read_Instr_nil (errors : Errors) :
  fst (fst (Read_Instr BlockType_Decode Opcode_Decode [] errors)) = None.
Proof. reflexivity. Qed.

End DecodeProofs.

Section ConstExprProofs.
Variable BlockType : Type.
Variable BlockType_Decode : u8 -> option BlockType.
Variable Opcode_Decode : u8 -> option Opcode.

Lemma Read_Instr_some_nonempty (data : SpanU8) (errors : Errors)
      (instr : Instr BlockType) (d1 : SpanU8) (e1 : Errors) :
  Read_Instr BlockType_Decode Opcode_Decode data errors = (Some instr, d1, e1) -> data <> [].
Proof.
  intros E ->.
  pose proof (Read_Instr_nil BlockType BlockType_Decode Opcode_Decode errors) as H.
  rewrite E in H. discriminate.
Qed.

Lemma span_split (consumed d2 : SpanU8) :
  subspan (consumed ++ d2) 0 (size (consumed ++ d2) - size d2) = consumed
  /\ remove_prefix (consumed ++ d2) (size (consumed ++ d2) - size d2) = d2.
Proof.
  unfold subspan, remove_prefix, size. rewrite length_app.
  replace (Z.to_nat (Z.of_nat (List.length consumed + List.length d2)
                     - Z.of_nat (List.length d2)))
    with (List.length consumed) by lia.
  change (Z.to_nat 0) with 0%nat. cbn [skipn].
  split.
  - rewrite firstn_app, Nat.sub_diag, firstn_all. cbn [firstn].
    apply app_nil_r.
  - rewrite skipn_app, Nat.sub_diag, skipn_all. reflexivity.
Qed.

Lemma Read_ConstExpr_accepted (data : SpanU8) (errors : Errors)
      (d2 : SpanU8) (e2 : Errors) :
  const_expr_shape BlockType_Decode Opcode_Decode data errors d2 e2 ->
  exists consumed,
    data = consumed ++ d2
    /\ Read_ConstExpr BlockType_Decode Opcode_Decode data errors
       = (Some {| ConstExpr_data := consumed |}, d2, e2).
Proof.
  intros (instr & d1 & e1 & instr2 & E1 & Hop & E2 & Hend).
  pose proof (Read_Instr_some_nonempty _ _ _ _ _ E1) as Hne.
  pose proof (Read_Instr_some_nonempty _ _ _ _ _ E2) as Hne1.
  destruct (advances_Read_Instr BlockType BlockType_Decode Opcode_Decode data errors)
    as [p1 Hp1].
  destruct (advances_Read_Instr BlockType BlockType_Decode Opcode_Decode d1 e1)
    as [p2 Hp2].
  rewrite E1 in Hp1. rewrite E2 in Hp2. cbn [fst snd] in Hp1, Hp2.
  exists (p1 ++ p2). split; [rewrite <- app_assoc, <- Hp2; exact Hp1|].
  assert (Hdata : data = (p1 ++ p2) ++ d2)
    by (rewrite <- app_assoc, <- Hp2; exact Hp1).
  destruct data as [|b data]; [congruence|].
  destruct d1 as [|b1 d1]; [congruence|].
  unfold Read_ConstExpr, LazyInstrs_begin, Increment, empty, is_end.
  cbn [data_ value_ cleared_ negb]. rewrite E1.
  cbn [data_ value_ cleared_ negb clear]. rewrite E2.
  cbn [data_ value_ cleared_ negb clear].
  destruct instr2 as [op2 imm2]. cbn [opcode] in Hend. subst op2.
  destruct (span_split (p1 ++ p2) d2) as [Hsub Hrem].
  rewrite <- Hdata in Hsub, Hrem.
  destruct (opcode instr); try discriminate Hop;
    cbn [orb]; cbv zeta; rewrite Hsub, Hrem; reflexivity.
Qed.

Lemma Read_ConstExpr_rejected (data : SpanU8) (errors : Errors) :
  (forall d2 e2, ~ const_expr_shape BlockType_Decode Opcode_Decode data errors d2 e2) ->
  exists msg errors',
    Read_ConstExpr BlockType_Decode Opcode_Decode data errors = (None, data, OnError data msg :: errors').
Proof.
  intros Hno.
  destruct data as [|b data]; [do 2 eexists; reflexivity|].
  unfold Read_ConstExpr, LazyInstrs_begin, Increment, empty, is_end.
  cbn [data_ value_ cleared_ negb].
  destruct (Read_Instr BlockType_Decode Opcode_Decode (b :: data) errors) as [[[instr|] d1] e1] eqn:E1;
    cbn [data_ value_ cleared_ negb clear];
    [|do 2 eexists; reflexivity].
  destruct d1 as [|b1 d1].
  - cbn [data_ value_ cleared_ negb clear].
    destruct (opcode instr); cbn [orb]; do 2 eexists; reflexivity.
  - destruct (Read_Instr BlockType_Decode Opcode_Decode (b1 :: d1) e1) as [[[instr2|] d2] e2] eqn:E2;
      cbn [data_ value_ cleared_ negb clear].
    + destruct instr2 as [op2 imm2].
      destruct (const_expr_opcode (opcode instr)) eqn:Hop.
      * destruct (opcode instr) eqn:Eop; try discriminate Hop;
          (destruct op2; cbn [orb]; try (do 2 eexists; reflexivity));
          exfalso; apply (Hno d2 e2);
          exists instr, (b1 :: d1), e1, {| opcode := End; immediate := imm2 |};
          rewrite Eop; repeat split; assumption.
      * destruct (opcode instr); try discriminate Hop;
          do 2 eexists; reflexivity.
    + destruct (opcode instr); cbn [orb]; do 2 eexists; reflexivity.
Qed.

End ConstExprProofs.

(** C3, the claim as it is worded: a constant expression made of
    [ref.null func] and [end] ([D0 70 0B]), or of [ref.func 0] and [end]
    ([D2 00 0B]), is refused. *)
Lemma Read_ConstExpr_refuses_ref_null_and_ref_func :
  fst (fst (Read_ConstExpr BlockType_Decode_standard Opcode_Decode_standard
              (bytes [0xd0; 0x70; 0x0b]) [])) = None
  /\ fst (fst (Read_ConstExpr BlockType_Decode_standard Opcode_Decode_standard
                 (bytes [0xd2; 0x00; 0x0b]) [])) = None.
Proof. split; reflexivity. Qed.

(** C3, amended.  Whatever the encoding of the opcodes and of the block
    types, reading a constant expression succeeds exactly when the first
    instruction read has one of the opcodes [i32.const], [i64.const],
    [f32.const], [f64.const], [global.get] and the instruction read next is
    [end]; the expression is then the bytes of the two instructions and the
    cursor is left after them.  In every other case the read returns no
    value, leaves the cursor where it was and reports an error. *)
Theorem Read_ConstExpr_accepts_iff (BlockType : Type)
        (BlockType_Decode : u8 -> option BlockType)
        (Opcode_Decode : u8 -> option Opcode)
        (data : SpanU8) (errors : Errors) :
  (forall d2 e2,
      const_expr_shape BlockType_Decode Opcode_Decode data errors d2 e2 ->
      exists consumed,
        data = consumed ++ d2
        /\ Read_ConstExpr BlockType_Decode Opcode_Decode data errors
           = (Some {| ConstExpr_data := consumed |}, d2, e2))
  /\ ((forall d2 e2,
          ~ const_expr_shape BlockType_Decode Opcode_Decode data errors d2 e2) ->
      exists msg errors',
        Read_ConstExpr BlockType_Decode Opcode_Decode data errors
        = (None, data, OnError data msg :: errors')).
Proof.
  split.
  - intros d2 e2. apply Read_ConstExpr_accepted.
  - apply Read_ConstExpr_rejected.
Qed.

Lemma Read_ConstExpr_accepts_iff_witness :
  exists errors' consumed,
    bytes [0x41; 0x2a; 0x0b; 0x01] = consumed ++ bytes [0x01]
    /\ Read_ConstExpr BlockType_Decode_standard Opcode_Decode_standard
         (bytes [0x41; 0x2a; 0x0b; 0x01]) []
       = (Some {| ConstExpr_data := consumed |}, bytes [0x01], errors').
Proof.
  eexists.
  apply (proj1 (Read_ConstExpr_accepts_iff BlockType_standard
                  BlockType_Decode_standard Opcode_Decode_standard
                  (bytes [0x41; 0x2a; 0x0b; 0x01]) [])).
  unfold const_expr_shape. do 4 eexists.
  split; [reflexivity|]. split; [reflexivity|]. split; reflexivity.
Defined.

(* ================================================================== *)
(** * The lexer: spans and characters *)

Import text.

Lemma suffix_refl (data : SpanU8) : suffix data data.
Proof. exists []. reflexivity. Qed.

Lemma suffix_trans (a b c : SpanU8) : suffix a b -> suffix b c -> suffix a c.
Proof.
  intros [p1 ->] [p2 ->]. exists (p2 ++ p1). apply app_assoc.
Qed.

Lemma suffix_cons (c : u8) (data : SpanU8) : suffix data (c :: data).
Proof. exists [c]. reflexivity. Qed.

Lemma suffix_cons_r (c : u8) (rest data : SpanU8) :
  suffix rest data -> suffix rest (c :: data).
Proof. intros H. eapply suffix_trans; [exact H | apply suffix_cons]. Qed.

Lemma suffix_length (rest data : SpanU8) :
  suffix rest data -> (List.length rest <= List.length data)%nat.
Proof. intros [p ->]. rewrite length_app. lia. Qed.

Lemma suffix_SkipChar (data : SpanU8) : suffix (SkipChar data) data.
Proof. destruct data; [apply suffix_refl | apply suffix_cons]. Qed.

Lemma MatchGuard_loc_app (consumed rest : SpanU8) :
  MatchGuard_loc (consumed ++ rest) rest = consumed.
Proof.
  unfold MatchGuard_loc. rewrite length_app.
  replace (List.length consumed + List.length rest - List.length rest)%nat
    with (List.length consumed) by lia.
  rewrite firstn_app, Nat.sub_diag, firstn_all. cbn [firstn]. apply app_nil_r.
Qed.

Lemma u8_to_Z_inj (a b : u8) : u8_to_Z a = u8_to_Z b -> a = b.
Proof.
  intros H. rewrite <- (u8_of_to_Z a), <- (u8_of_to_Z b), H. reflexivity.
Qed.

Lemma PeekChar_cons (c : u8) (data : SpanU8) :
  PeekChar (c :: data) 0 = u8_to_Z c.
Proof. reflexivity. Qed.

Lemma PeekChar_nil : PeekChar [] 0 = -1.
Proof. reflexivity. Qed.

Lemma PeekChar_eq_char (data : SpanU8) (c : u8) :
  (PeekChar data 0 =? u8_to_Z c) = true ->
  exists data', data = c :: data'.
Proof.
  intros H. apply Z.eqb_eq in H. destruct data as [|c' data'].
  - rewrite PeekChar_nil in H. pose proof (u8_to_Z_range c). lia.
  - rewrite PeekChar_cons in H. apply u8_to_Z_inj in H. subst c'.
    exists data'. reflexivity.
Qed.

Lemma IsCharClass_eof (bit : Z) : IsCharClass (-1) bit = false.
Proof. reflexivity. Qed.

Lemma MatchChar_spec (data : SpanU8) (c : u8) :
  match MatchChar data c with
  | (true, data') => data = c :: data'
  | (false, data') => data' = data
  end.
Proof.
  unfold MatchChar.
  destruct (PeekChar data 0 =? u8_to_Z c) eqn:E; [|reflexivity].
  apply PeekChar_eq_char in E as [data' ->]. reflexivity.
Qed.

Lemma MatchChar_cons (c : u8) (data : SpanU8) :
  MatchChar (c :: data) c = (true, data).
Proof. unfold MatchChar. rewrite PeekChar_cons, Z.eqb_refl. reflexivity. Qed.

Lemma MatchString_loop_spec (orig : SpanU8) (sv : list u8) :
  forall data,
    match MatchString_loop orig data sv with
    | (true, data') => data = sv ++ data'
    | (false, data') => data' = orig
    end.
Proof.
  induction sv as [|c sv IH]; intros data; cbn [MatchString_loop].
  - reflexivity.
  - pose proof (MatchChar_spec data c) as Hc.
    destruct (MatchChar data c) as [[|] data1]; [|reflexivity].
    specialize (IH data1).
    destruct (MatchString_loop orig data1 sv) as [[|] data2]; [|exact IH].
    subst. reflexivity.
Qed.

Lemma MatchString_spec (data : SpanU8) (sv : string) :
  match MatchString data sv with
  | (true, data') => data = list_byte_of_string sv ++ data'
  | (false, data') => data' = data
  end.
Proof. apply MatchString_loop_spec. Qed.

Lemma MatchString_loop_app (orig : SpanU8) (sv : list u8) (rest : SpanU8) :
  MatchString_loop orig (sv ++ rest) sv = (true, rest).
Proof.
  induction sv as [|c sv IH]; cbn [MatchString_loop app]; [reflexivity|].
  rewrite MatchChar_cons. exact IH.
Qed.

Lemma MatchString_app (sv : string) (rest : SpanU8) :
  MatchString (list_byte_of_string sv ++ rest) sv = (true, rest).
Proof. apply MatchString_loop_app. Qed.

Lemma MatchSign_spec (data : SpanU8) :
  match MatchSign data with
  | (sign, data') =>
      exists pre, data = pre ++ data' /\ has_underscore pre = false
                  /\ (List.length pre <= 1)%nat
  end.
Proof.
  unfold MatchSign.
  pose proof (MatchChar_spec data "+"%byte) as Hp.
  destruct (MatchChar data "+") as [[|] d1].
  - exists ["+"%byte]. subst. repeat split. cbn. lia.
  - subst d1. pose proof (MatchChar_spec data "-"%byte) as Hm.
    destruct (MatchChar data "-") as [[|] d2].
    + exists ["-"%byte]. subst. repeat split. cbn. lia.
    + subst d2. exists []. repeat split. cbn. lia.
Qed.

Lemma ReadReservedChars_loop_spec (data : SpanU8) :
  forall count,
    match ReadReservedChars_loop data count with
    | (count', data') =>
        suffix data' data /\ count <= count'
        /\ IsReserved (PeekChar data' 0) = false
        /\ (count' = count -> data' = data)
    end.
Proof.
  induction data as [|c data IH]; intros count.
  - cbn. repeat split; [apply suffix_refl | lia].
  - cbn [ReadReservedChars_loop].
    destruct (IsReserved (PeekChar (c :: data) 0)) eqn:E.
    + specialize (IH (count + 1)).
      destruct (ReadReservedChars_loop data (count + 1)) as [count' data'].
      destruct IH as (Hs & Hc & Hr & _).
      repeat split; [apply suffix_cons_r; exact Hs | lia | exact Hr | lia].
    + repeat split; [apply suffix_refl | lia | exact E].
Qed.

Lemma NoTrailingReservedChars_spec (data : SpanU8) :
  match NoTrailingReservedChars data with
  | (ok, data') =>
      suffix data' data
      /\ IsReserved (PeekChar data' 0) = false
      /\ (ok = true -> data' = data)
  end.
Proof.
  unfold NoTrailingReservedChars, ReadReservedChars.
  pose proof (ReadReservedChars_loop_spec data 0) as H.
  destruct (ReadReservedChars_loop data 0) as [count data'].
  destruct H as (Hs & _ & Hr & He).
  repeat split; [exact Hs | exact Hr |].
  intros Hok. apply Z.eqb_eq in Hok. auto.
Qed.

Lemma NoTrailingReservedChars_none (data : SpanU8) :
  IsReserved (PeekChar data 0) = false ->
  NoTrailingReservedChars data = (true, data).
Proof.
  intros H. unfold NoTrailingReservedChars, ReadReservedChars.
  destruct data as [|c data]; [reflexivity|].
  cbn [ReadReservedChars_loop]. rewrite H. reflexivity.
Qed.

Lemma LexReserved_loop_suffix (data : SpanU8) :
  suffix (LexReserved_loop data) data.
Proof.
  induction data as [|c data IH]; [apply suffix_refl|].
  cbn [LexReserved_loop].
  destruct (IsReserved (PeekChar (c :: data) 0)).
  - apply suffix_cons_r. exact IH.
  - apply suffix_refl.
Qed.

Lemma LexReserved_loop_progress (c : u8) (data : SpanU8) :
  IsReserved (u8_to_Z c) = true ->
  suffix (LexReserved_loop (c :: data)) data.
Proof.
  intros H. cbn [LexReserved_loop]. rewrite PeekChar_cons, H.
  apply LexReserved_loop_suffix.
Qed.

(* ================================================================== *)
(** * The lexers of one token: what is left, which token *)

Lemma span_strong_ind (P : SpanU8 -> Prop) :
  (forall data,
      (forall d, (List.length d < List.length data)%nat -> P d) -> P data) ->
  forall data, P data.
Proof.
  intros H data.
  assert (Hn : forall n d, (List.length d < n)%nat -> P d).
  { induction n as [|n IH]; intros d Hd; [lia|].
    apply H. intros d' Hd'. apply IH. lia. }
  apply (Hn (S (List.length data))). lia.
Qed.

Lemma lex_result_ok_plain (data : SpanU8) (tok : Token) (rest : SpanU8) :
  suffix rest data ->
  is_Eof (type tok) = false ->
  is_invalid (type tok) = false ->
  lex_result_ok data (tok, rest).
Proof.
  intros Hs He Hi. repeat split; [exact Hs | exact He |].
  cbn [fst]. rewrite Hi. discriminate.
Qed.

Lemma LexReserved_ok (data : SpanU8) : lex_result_ok data (LexReserved data).
Proof.
  unfold LexReserved. apply lex_result_ok_plain; try reflexivity.
  apply LexReserved_loop_suffix.
Qed.

Lemma LexReserved_type (data : SpanU8) :
  type (fst (LexReserved data)) = T_Reserved.
Proof. reflexivity. Qed.

Lemma LexAnnotation_ok (data : SpanU8) :
  lex_result_ok data (LexAnnotation data).
Proof.
  unfold LexAnnotation, ReadReservedChars.
  pose proof (ReadReservedChars_loop_spec data 0) as H.
  destruct (ReadReservedChars_loop data 0) as [count data'].
  apply lex_result_ok_plain; try reflexivity. tauto.
Qed.

Lemma LexBlockComment_loop_spec (orig : SpanU8) :
  forall data nesting,
    let r := LexBlockComment_loop orig data nesting in
    suffix (snd r) data
    /\ (type (fst r) = T_BlockComment
        \/ (type (fst r) = T_InvalidBlockComment /\ snd r = [])).
Proof.
  intros data. induction data as [data IH] using span_strong_ind.
  intros nesting. destruct data as [|c data1].
  - cbn. split; [apply suffix_refl|]. right. split; reflexivity.
  - cbn [LexBlockComment_loop].
    assert (IH1 : forall n,
               let r := LexBlockComment_loop orig data1 n in
               suffix (snd r) (c :: data1)
               /\ (type (fst r) = T_BlockComment
                   \/ (type (fst r) = T_InvalidBlockComment /\ snd r = []))).
    { intros n. destruct (IH data1 ltac:(cbn; lia) n) as [Hs Ht].
      split; [apply suffix_cons_r; exact Hs | exact Ht]. }
    assert (IH2 : forall c1 data2 n,
               data1 = c1 :: data2 ->
               let r := LexBlockComment_loop orig data2 n in
               suffix (snd r) (c :: data1)
               /\ (type (fst r) = T_BlockComment
                   \/ (type (fst r) = T_InvalidBlockComment /\ snd r = []))).
    { intros c1 data2 n ->. destruct (IH data2 ltac:(cbn; lia) n) as [Hs Ht].
      split; [do 2 apply suffix_cons_r; exact Hs | exact Ht]. }
    destruct (u8_to_Z c =? u8_to_Z ";").
    + destruct (PeekChar data1 0 =? u8_to_Z ")"); [|apply IH1].
      destruct data1 as [|c1 data2].
      * cbn. split; [apply suffix_cons|]. right. split; reflexivity.
      * destruct (nesting - 1 =? 0); [|eapply IH2; reflexivity].
        cbn. split; [do 2 apply suffix_cons_r; apply suffix_refl|].
        left. reflexivity.
    + destruct (u8_to_Z c =? u8_to_Z "("); [|apply IH1].
      destruct (PeekChar data1 0 =? u8_to_Z ";"); [|apply IH1].
      destruct data1 as [|c1 data2].
      * cbn. split; [apply suffix_cons|]. right. split; reflexivity.
      * eapply IH2. reflexivity.
Qed.

Lemma lex_result_ok_of_types (data : SpanU8) (r : Token * SpanU8)
      (good bad : TokenType) :
  data <> [] ->
  suffix (snd r) data ->
  is_Eof good = false -> is_invalid good = false -> is_Eof bad = false ->
  (type (fst r) = good \/ (type (fst r) = bad /\ snd r = [])) ->
  lex_result_ok data r.
Proof.
  intros Hne Hs Hg1 Hg2 Hb [Ht|[Ht Hr]]; repeat split; try exact Hs;
    rewrite Ht; try assumption.
  - rewrite Hg2. discriminate.
  - intros _. rewrite Hr. destruct data; [congruence | cbn; lia].
Qed.

Lemma LexBlockComment_ok (data : SpanU8) :
  data <> [] -> lex_result_ok data (LexBlockComment data).
Proof.
  intros Hne. unfold LexBlockComment.
  destruct (LexBlockComment_loop_spec data data 0) as [Hs Ht].
  eapply lex_result_ok_of_types; try eassumption; reflexivity.
Qed.

Lemma LexBlockComment_not_number (data : SpanU8) :
  is_number (type (fst (LexBlockComment data))) = false.
Proof.
  unfold LexBlockComment.
  destruct (LexBlockComment_loop_spec data data 0) as [_ [Ht|[Ht _]]];
    rewrite Ht; reflexivity.
Qed.

Lemma LexLineComment_loop_spec (orig : SpanU8) (data : SpanU8) :
  let r := LexLineComment_loop orig data in
  suffix (snd r) data
  /\ (type (fst r) = T_LineComment
      \/ (type (fst r) = T_InvalidLineComment /\ snd r = [])).
Proof.
  induction data as [|c data IH].
  - cbn. split; [apply suffix_refl|]. right. split; reflexivity.
  - cbn [LexLineComment_loop]. destruct (u8_to_Z c =? 10).
    + cbn. split; [apply suffix_cons|]. left. reflexivity.
    + destruct IH as [Hs Ht]. split; [apply suffix_cons_r; exact Hs | exact Ht].
Qed.

Lemma LexLineComment_ok (data : SpanU8) :
  data <> [] -> lex_result_ok data (LexLineComment data).
Proof.
  intros Hne. unfold LexLineComment.
  destruct (LexLineComment_loop_spec data data) as [Hs Ht].
  eapply lex_result_ok_of_types; try eassumption; reflexivity.
Qed.

Lemma LexLineComment_not_number (data : SpanU8) :
  is_number (type (fst (LexLineComment data))) = false.
Proof.
  unfold LexLineComment.
  destruct (LexLineComment_loop_spec data data) as [_ [Ht|[Ht _]]];
    rewrite Ht; reflexivity.
Qed.

Lemma LexId_ok (data : SpanU8) : lex_result_ok data (LexId data).
Proof.
  unfold LexId.
  pose proof (NoTrailingReservedChars_spec (SkipChar data)) as H.
  destruct (NoTrailingReservedChars (SkipChar data)) as [none data'].
  destruct H as (Hs & _ & _).
  assert (Hs' : suffix data' data)
    by (eapply suffix_trans; [exact Hs | apply suffix_SkipChar]).
  destruct none; apply lex_result_ok_plain; try reflexivity; exact Hs'.
Qed.

Lemma LexId_not_number (data : SpanU8) :
  is_number (type (fst (LexId data))) = false.
Proof.
  unfold LexId.
  destruct (NoTrailingReservedChars (SkipChar data)) as [[|] data'];
    reflexivity.
Qed.

Lemma LexText_loop_progress (data : SpanU8) :
  forall has_error byte_size,
    let r := LexText_loop data has_error byte_size in
    suffix (fst (fst r)) data
    /\ (data <> [] ->
        (List.length (fst (fst r)) < List.length data)%nat).
Proof.
  induction data as [data IH] using span_strong_ind.
  intros has_error byte_size. destruct data as [|c data1].
  - cbn. split; [apply suffix_refl | congruence].
  - assert (IH1 : forall e s,
               let r := LexText_loop data1 e s in
               suffix (fst (fst r)) (c :: data1)
               /\ (c :: data1 <> [] ->
                   (List.length (fst (fst r)) < List.length (c :: data1))%nat)).
    { intros e s. destruct (IH data1 ltac:(cbn; lia) e s) as [Hs _].
      split; [apply suffix_cons_r; exact Hs|].
      intros _. apply suffix_length in Hs. cbn [List.length]. lia. }
    assert (IH2 : forall c1 data2 e s,
               data1 = c1 :: data2 ->
               let r := LexText_loop data2 e s in
               suffix (fst (fst r)) (c :: data1)
               /\ (c :: data1 <> [] ->
                   (List.length (fst (fst r)) < List.length (c :: data1))%nat)).
    { intros c1 data2 e s ->. destruct (IH data2 ltac:(cbn; lia) e s) as [Hs _].
      split; [do 2 apply suffix_cons_r; exact Hs|].
      intros _. apply suffix_length in Hs. cbn [List.length]. lia. }
    assert (IH3 : forall c1 c2 data3 e s,
               data1 = c1 :: c2 :: data3 ->
               let r := LexText_loop data3 e s in
               suffix (fst (fst r)) (c :: data1)
               /\ (c :: data1 <> [] ->
                   (List.length (fst (fst r)) < List.length (c :: data1))%nat)).
    { intros c1 c2 data3 e s ->.
      destruct (IH data3 ltac:(cbn; lia) e s) as [Hs _].
      split; [do 3 apply suffix_cons_r; exact Hs|].
      intros _. apply suffix_length in Hs. cbn [List.length]. lia. }
    cbn [LexText_loop].
    destruct (u8_to_Z c =? 10); [apply IH1|].
    destruct (u8_to_Z c =? u8_to_Z x22).
    { cbn. split; [apply suffix_cons | intros _; lia]. }
    destruct (u8_to_Z c =? u8_to_Z "\"); [|apply IH1].
    destruct data1 as [|e data2]; [apply IH1|].
    destruct (is_one_of (u8_to_Z e) "tnr'\" || (u8_to_Z e =? u8_to_Z x22));
      [eapply IH2; reflexivity|].
    destruct (is_one_of (u8_to_Z e) "0123456789abcdefABCDEF");
      [|eapply IH2; reflexivity].
    destruct (IsHexDigit (PeekChar data2 0)); [|eapply IH2; reflexivity].
    destruct data2 as [|h data3]; [eapply IH2; reflexivity|].
    eapply IH3. reflexivity.
Qed.

Lemma LexText_ok (data : SpanU8) :
  data <> [] -> lex_result_ok data (LexText data).
Proof.
  intros Hne. unfold LexText.
  pose proof (MatchChar_spec data x22) as Hq.
  destruct (MatchChar data x22) as [q data1].
  pose proof (LexText_loop_progress data1 false 0) as Hl.
  destruct (LexText_loop data1 false 0) as [[data2 has_error] byte_size].
  cbn [fst snd] in Hl. destruct Hl as [Hs Hp].
  assert (Hlt : (List.length data2 < List.length data)%nat).
  { destruct q.
    - subst data. apply suffix_length in Hs. cbn [List.length]. lia.
    - subst data1. apply Hp. exact Hne. }
  assert (Hs' : suffix data2 data).
  { destruct q.
    - subst data. apply suffix_cons_r. exact Hs.
    - subst data1. exact Hs. }
  destruct has_error; repeat split; try exact Hs'; try reflexivity.
  - intros _. exact Hlt.
  - intros _. exact Hlt.
Qed.

Lemma LexText_not_number (data : SpanU8) :
  is_number (type (fst (LexText data))) = false.
Proof.
  unfold LexText.
  destruct (MatchChar data x22) as [q data1].
  destruct (LexText_loop data1 false 0) as [[data2 [|]] byte_size];
    reflexivity.
Qed.

Lemma LexWhitespace_loop_spec (orig data : SpanU8) :
  let r := LexWhitespace_loop orig data in
  suffix (snd r) data /\ type (fst r) = T_Whitespace.
Proof.
  induction data as [|c data IH].
  - cbn. split; [apply suffix_refl | reflexivity].
  - cbn [LexWhitespace_loop].
    destruct (is_one_of (PeekChar (c :: data) 0) " "
              || (PeekChar (c :: data) 0 =? 9)
              || (PeekChar (c :: data) 0 =? 13)
              || (PeekChar (c :: data) 0 =? 10)).
    + destruct IH as [Hs Ht]. split; [apply suffix_cons_r; exact Hs | exact Ht].
    + cbn. split; [apply suffix_refl | reflexivity].
Qed.

Lemma LexWhitespace_ok (data : SpanU8) :
  lex_result_ok data (LexWhitespace data).
Proof.
  unfold LexWhitespace.
  destruct (LexWhitespace_loop_spec data data) as [Hs Ht].
  destruct (LexWhitespace_loop data data) as [tok rest]. cbn [fst snd] in *.
  apply lex_result_ok_plain; [exact Hs | rewrite Ht; reflexivity..].
Qed.

Lemma LexWhitespace_not_number (data : SpanU8) :
  is_number (type (fst (LexWhitespace data))) = false.
Proof.
  unfold LexWhitespace.
  destruct (LexWhitespace_loop_spec data data) as [_ Ht]. rewrite Ht.
  reflexivity.
Qed.

(* ================================================================== *)
(** * Which tokens consume nothing *)

Lemma suffix_tail_shorter (c : u8) (rest data : SpanU8) :
  suffix rest data -> (List.length rest < List.length (c :: data))%nat.
Proof. intros H. apply suffix_length in H. cbn [List.length]. lia. Qed.

Lemma LexBlockComment_progress (c : u8) (data1 : SpanU8) :
  (List.length (snd (LexBlockComment (c :: data1)))
   < List.length (c :: data1))%nat.
Proof.
  unfold LexBlockComment. cbn [LexBlockComment_loop].
  pose proof (fun n =>
                proj1 (LexBlockComment_loop_spec (c :: data1) data1 n)) as H1.
  destruct (u8_to_Z c =? u8_to_Z ";").
  - destruct (PeekChar data1 0 =? u8_to_Z ")");
      [|apply suffix_tail_shorter, H1].
    destruct data1 as [|c1 data2]; [cbn; lia|].
    destruct (0 - 1 =? 0); [cbn; lia|].
    apply suffix_tail_shorter, suffix_cons_r.
    apply (LexBlockComment_loop_spec (c :: c1 :: data2) data2 (0 - 1)).
  - destruct (u8_to_Z c =? u8_to_Z "("); [|apply suffix_tail_shorter, H1].
    destruct (PeekChar data1 0 =? u8_to_Z ";");
      [|apply suffix_tail_shorter, H1].
    destruct data1 as [|c1 data2]; [cbn; lia|].
    apply suffix_tail_shorter, suffix_cons_r.
    apply (LexBlockComment_loop_spec (c :: c1 :: data2) data2 (0 + 1)).
Qed.

Lemma LexLineComment_progress (c : u8) (data1 : SpanU8) :
  (List.length (snd (LexLineComment (c :: data1)))
   < List.length (c :: data1))%nat.
Proof.
  unfold LexLineComment. cbn [LexLineComment_loop].
  destruct (u8_to_Z c =? 10); [cbn; lia|].
  apply suffix_tail_shorter.
  apply (LexLineComment_loop_spec (c :: data1) data1).
Qed.

Lemma LexText_progress (c : u8) (data1 : SpanU8) :
  (List.length (snd (LexText (c :: data1))) < List.length (c :: data1))%nat.
Proof.
  assert (Hne : c :: data1 <> []) by congruence.
  destruct (LexText_ok (c :: data1) Hne) as (Hs & _ & Hi).
  unfold LexText in *.
  pose proof (MatchChar_spec (c :: data1) x22) as Hq.
  destruct (MatchChar (c :: data1) x22) as [q d1].
  pose proof (LexText_loop_progress d1 false 0) as Hl.
  destruct (LexText_loop d1 false 0) as [[d2 has_error] byte_size].
  cbn [fst snd] in Hl. destruct Hl as [Hs2 Hp].
  assert (Hlt : (List.length d2 < List.length (c :: data1))%nat).
  { destruct q.
    - injection Hq as -> ->. apply suffix_tail_shorter. exact Hs2.
    - subst d1. apply Hp. exact Hne. }
  destruct has_error; exact Hlt.
Qed.

Lemma LexWhitespace_progress (c : u8) (data1 : SpanU8) :
  (u8_to_Z c =? u8_to_Z " ") || (u8_to_Z c =? 9) || (u8_to_Z c =? 13)
  || (u8_to_Z c =? 10) = true ->
  (List.length (snd (LexWhitespace (c :: data1)))
   < List.length (c :: data1))%nat.
Proof.
  intros H. unfold LexWhitespace. cbn [LexWhitespace_loop].
  rewrite PeekChar_cons.
  change (is_one_of (u8_to_Z c) " ")
    with ((u8_to_Z c =? u8_to_Z " ") || false).
  rewrite orb_false_r, H. apply suffix_tail_shorter.
  apply (LexWhitespace_loop_spec (c :: data1) data1).
Qed.

Lemma LexId_progress (c : u8) (data1 : SpanU8) :
  (List.length (snd (LexId (c :: data1))) < List.length (c :: data1))%nat.
Proof.
  unfold LexId. cbn [SkipChar tl].
  pose proof (NoTrailingReservedChars_spec data1) as H.
  destruct (NoTrailingReservedChars data1) as [none d].
  destruct H as (Hs & _ & _).
  destruct none; apply suffix_tail_shorter; exact Hs.
Qed.

(* ================================================================== *)
(** * Underscores in numbers *)

Lemma ubd_nil (P : Z -> bool) : underscores_between_digits P [].
Proof. intros i H. destruct i; discriminate. Qed.

Lemma ubd_app (P : Z -> bool) (l1 l2 : list u8) :
  underscores_between_digits P l1 ->
  underscores_between_digits P l2 ->
  underscores_between_digits P (l1 ++ l2).
Proof.
  intros H1 H2 i Hi.
  destruct (Nat.lt_ge_cases i (List.length l1)) as [Hlt|Hge].
  - rewrite nth_error_app1 in Hi by exact Hlt.
    destruct (H1 i Hi) as (a & b & Hpos & Ha & Pa & Hb & Pb).
    exists a, b. repeat split; try assumption.
    + rewrite nth_error_app1 by lia. exact Ha.
    + rewrite nth_error_app1; [exact Hb|].
      apply nth_error_Some. rewrite Hb. discriminate.
  - rewrite nth_error_app2 in Hi by exact Hge.
    destruct (H2 _ Hi) as (a & b & Hpos & Ha & Pa & Hb & Pb).
    exists a, b. repeat split; try assumption.
    + lia.
    + rewrite nth_error_app2 by lia.
      replace (i - 1 - List.length l1)%nat with (i - List.length l1 - 1)%nat
        by lia.
      exact Ha.
    + rewrite nth_error_app2 by lia.
      replace (i + 1 - List.length l1)%nat with (i - List.length l1 + 1)%nat
        by lia.
      exact Hb.
Qed.

Lemma ubd_no_underscore (P : Z -> bool) (l : list u8) :
  has_underscore l = false -> underscores_between_digits P l.
Proof.
  intros H i Hi. exfalso.
  apply nth_error_In in Hi.
  unfold has_underscore in H.
  assert (E : existsb (fun c => u8_to_Z c =? u8_to_Z "_") l = true).
  { apply existsb_exists. exists "_"%byte. split; [exact Hi | reflexivity]. }
  congruence.
Qed.

Lemma ubd_weaken (P Q : Z -> bool) (l : list u8) :
  (forall c, P c = true -> Q c = true) ->
  underscores_between_digits P l -> underscores_between_digits Q l.
Proof.
  intros HPQ H i Hi. destruct (H i Hi) as (a & b & Hpos & Ha & Pa & Hb & Pb).
  exists a, b. repeat split; auto.
Qed.

Lemma digit_run_head (P : Z -> bool) (l : list u8) :
  digit_run P l -> exists h t, l = h :: t /\ P (u8_to_Z h) = true.
Proof. intros H. destruct H; eauto. Qed.

Lemma digit_not_underscore (P : Z -> bool) (d : u8) :
  P (u8_to_Z "_") = false -> P (u8_to_Z d) = true ->
  has_underscore [d] = false.
Proof.
  intros Hu Hd. unfold has_underscore. cbn [existsb]. rewrite orb_false_r.
  apply Z.eqb_neq. intros E. rewrite E in Hd. congruence.
Qed.

Lemma ubd_shift (P : Z -> bool) (c : u8) (l : list u8) (i : nat) :
  (exists a b,
      (1 <= i)%nat
      /\ nth_error l (i - 1) = Some a /\ P (u8_to_Z a) = true
      /\ nth_error l (i + 1) = Some b /\ P (u8_to_Z b) = true) ->
  exists a b,
    (1 <= S i)%nat
    /\ nth_error (c :: l) (S i - 1) = Some a /\ P (u8_to_Z a) = true
    /\ nth_error (c :: l) (S i + 1) = Some b /\ P (u8_to_Z b) = true.
Proof.
  intros (a & b & Hpos & Ha & Pa & Hb & Pb). exists a, b.
  split; [lia|]. split; [|split; [exact Pa|split; [exact Hb | exact Pb]]].
  destruct i as [|i]; [lia|].
  cbn [Nat.sub nth_error] in *. rewrite Nat.sub_0_r in Ha. exact Ha.
Qed.

Lemma ubd_digit_run (P : Z -> bool) (l : list u8) :
  P (u8_to_Z "_") = false ->
  digit_run P l -> underscores_between_digits P l.
Proof.
  intros Hu H. induction H as [d Hd | d l Hd Hl IH | d l Hd Hl IH].
  - apply ubd_no_underscore. eapply digit_not_underscore; eassumption.
  - apply (ubd_app P [d] l); [|exact IH].
    apply ubd_no_underscore. eapply digit_not_underscore; eassumption.
  - pose proof (digit_not_underscore P d Hu Hd) as Hnd.
    intros [|[|i]] Hi; cbn [nth_error] in Hi.
    + exfalso. injection Hi as ->. discriminate Hnd.
    + destruct (digit_run_head P l Hl) as (h & t & -> & Ph).
      exists d, h. split; [lia|]. repeat split; assumption.
    + apply ubd_shift, ubd_shift. apply IH. exact Hi.
Qed.

Lemma consumed_ok_refl (P : Z -> bool) (data : SpanU8) :
  consumed_ok P data data.
Proof. exists []. split; [reflexivity | apply ubd_nil]. Qed.

Lemma consumed_ok_trans (P : Z -> bool) (a b c : SpanU8) :
  consumed_ok P a b -> consumed_ok P b c -> consumed_ok P a c.
Proof.
  intros (p1 & -> & H1) (p2 & -> & H2). exists (p1 ++ p2).
  split; [apply app_assoc | apply ubd_app; assumption].
Qed.

Lemma consumed_ok_plain (P : Z -> bool) (pre rest : SpanU8) :
  has_underscore pre = false -> consumed_ok P (pre ++ rest) rest.
Proof.
  intros H. exists pre. split; [reflexivity | apply ubd_no_underscore; exact H].
Qed.

Lemma consumed_ok_suffix (P : Z -> bool) (data rest : SpanU8) :
  consumed_ok P data rest -> suffix rest data.
Proof. intros (p & -> & _). exists p. reflexivity. Qed.

Lemma consumed_ok_weaken (P Q : Z -> bool) (data rest : SpanU8) :
  (forall c, P c = true -> Q c = true) ->
  consumed_ok P data rest -> consumed_ok Q data rest.
Proof.
  intros HPQ (p & -> & H). exists p. split; [reflexivity|].
  eapply ubd_weaken; eassumption.
Qed.

Lemma kCharClasses_digit_hex (t : Z) :
  In t (0 :: kCharClasses) ->
  negb (Z.land t CharClass.Digit =? 0) = true ->
  negb (Z.land t CharClass.HexDigit =? 0) = true.
Proof.
  revert t.
  apply (proj1 (Forall_forall
                  (fun t => negb (Z.land t CharClass.Digit =? 0) = true ->
                            negb (Z.land t CharClass.HexDigit =? 0) = true)
                  (0 :: kCharClasses))).
  unfold kCharClasses.
  repeat (constructor; [vm_compute; intros; congruence|]). constructor.
Qed.

Lemma IsDigit_IsHexDigit (c : Z) : IsDigit c = true -> IsHexDigit c = true.
Proof.
  unfold IsDigit, IsHexDigit, IsCharClass.
  apply kCharClasses_digit_hex.
  destruct (nth_in_or_default (Z.to_nat (c + 1)) kCharClasses 0) as [H|H].
  - right. exact H.
  - left. symmetry. exact H.
Qed.

Lemma underscore_not_digit :
  IsDigit (u8_to_Z "_") = false /\ IsHexDigit (u8_to_Z "_") = false.
Proof. split; reflexivity. Qed.

Lemma MatchNum_loop_spec (P : Z -> bool) :
  forall data ok hu,
    match MatchNum_loop P data ok hu with
    | (data', ok', _) =>
        exists pre,
          data = pre ++ data'
          /\ (ok' = true -> (pre = [] /\ ok = true) \/ digit_run P pre)
    end.
Proof.
  intros data. induction data as [data IH] using span_strong_ind.
  intros ok hu. destruct data as [|c data1].
  - cbn [MatchNum_loop]. destruct (P (PeekChar [] 0));
      (exists []; split; [reflexivity | intros ->; left; split; reflexivity]).
  - cbn [MatchNum_loop]. rewrite PeekChar_cons.
    destruct (P (u8_to_Z c)) eqn:Pc.
    + destruct (PeekChar data1 0 =? u8_to_Z "_") eqn:Eu.
      * apply PeekChar_eq_char in Eu as [data2 ->].
        specialize (IH data2 ltac:(cbn; lia) false HasUnderscores.Yes).
        destruct (MatchNum_loop P data2 false HasUnderscores.Yes)
          as [[data' ok'] hu'].
        destruct IH as (pre & -> & Hpre).
        exists (c :: "_"%byte :: pre). split; [reflexivity|].
        intros Hok. right. destruct (Hpre Hok) as [[_ Hf]|Hrun];
          [discriminate|].
        apply digit_run_underscore; assumption.
      * specialize (IH data1 ltac:(cbn; lia) true hu).
        destruct (MatchNum_loop P data1 true hu) as [[data' ok'] hu'].
        destruct IH as (pre & -> & Hpre).
        exists (c :: pre). split; [reflexivity|].
        intros Hok. right. destruct (Hpre Hok) as [[-> _]|Hrun].
        -- apply digit_run_one. exact Pc.
        -- apply digit_run_cons; assumption.
    + exists []. split; [reflexivity|]. intros ->. left. split; reflexivity.
Qed.

Lemma consumed_ok_length (P : Z -> bool) (data rest : SpanU8) :
  consumed_ok P data rest -> (List.length rest <= List.length data)%nat.
Proof. intros H. apply suffix_length. eapply consumed_ok_suffix. exact H. Qed.

Lemma MatchNum_with_spec (P : Z -> bool) (data : SpanU8)
      (hu : HasUnderscores.t) :
  P (u8_to_Z "_") = false ->
  match MatchNum_with P data hu with
  | (true, data', _) =>
      consumed_ok P data data'
      /\ (List.length data' < List.length data)%nat
  | (false, data', _) => data' = data
  end.
Proof.
  intros Hu. unfold MatchNum_with.
  pose proof (MatchNum_loop_spec P data false hu) as H.
  destruct (MatchNum_loop P data false hu) as [[data' ok] hu'].
  destruct H as (pre & -> & Hpre). destruct ok; [|reflexivity].
  destruct (Hpre eq_refl) as [[_ Hf]|Hrun]; [discriminate|].
  split.
  - exists pre. split; [reflexivity|]. apply ubd_digit_run; assumption.
  - destruct (digit_run_head P pre Hrun) as (h & t & -> & _).
    rewrite length_app. cbn [List.length]. lia.
Qed.

Lemma MatchChar_consumed_ok (P : Z -> bool) (data : SpanU8) (c : u8) :
  has_underscore [c] = false ->
  consumed_ok P data (snd (MatchChar data c)).
Proof.
  intros Hc. pose proof (MatchChar_spec data c) as H.
  destruct (MatchChar data c) as [[|] data']; cbn [snd]; subst.
  - apply (consumed_ok_plain P [c]). exact Hc.
  - apply consumed_ok_refl.
Qed.

Lemma MatchChar_either_consumed_ok (P : Z -> bool) (data : SpanU8)
      (a b : u8) :
  has_underscore [a] = false -> has_underscore [b] = false ->
  consumed_ok P data (snd (MatchChar_either data a b)).
Proof.
  intros Ha Hb. unfold MatchChar_either.
  pose proof (MatchChar_consumed_ok P data a Ha) as H1.
  pose proof (MatchChar_spec data a) as Hs.
  destruct (MatchChar data a) as [[|] d1]; cbn [snd] in *; [exact H1|].
  subst d1. apply MatchChar_consumed_ok. exact Hb.
Qed.

Lemma MatchSign_consumed_ok (P : Z -> bool) (data : SpanU8) :
  consumed_ok P data (snd (MatchSign data)).
Proof.
  pose proof (MatchSign_spec data) as H.
  destruct (MatchSign data) as [sign data'].
  destruct H as (pre & -> & Hpre & _). apply consumed_ok_plain. exact Hpre.
Qed.

Lemma MatchString_consumed_ok (P : Z -> bool) (data : SpanU8) (sv : string) :
  has_underscore (list_byte_of_string sv) = false ->
  consumed_ok P data (snd (MatchString data sv)).
Proof.
  intros Hsv. pose proof (MatchString_spec data sv) as H.
  destruct (MatchString data sv) as [[|] data']; cbn [snd]; subst.
  - apply consumed_ok_plain. exact Hsv.
  - apply consumed_ok_refl.
Qed.

(* ================================================================== *)
(** * The lexers of numbers and keywords *)

Lemma token_ok_not_number (data : SpanU8) (r : Token * SpanU8) :
  lex_result_ok data r -> is_number (type (fst r)) = false ->
  progress_ok data r -> token_ok data r.
Proof.
  intros H Hn Hp. split; [exact H|]. split; [|exact Hp].
  unfold number_token_ok. rewrite Hn. discriminate.
Qed.

Lemma LexReserved_token_ok (orig data : SpanU8) :
  suffix data orig -> token_ok orig (LexReserved data).
Proof.
  intros Hs.
  apply token_ok_not_number; [|reflexivity | right; left; reflexivity].
  destruct (LexReserved_ok data) as (H1 & H2 & H3).
  split; [eapply suffix_trans; eassumption|]. split; [exact H2|].
  rewrite LexReserved_type. discriminate.
Qed.

Lemma success_token_ok (P : Z -> bool) (orig data' : SpanU8)
      (tt_ : TokenType) (imm : Immediate) :
  suffix data' orig ->
  (List.length data' < List.length orig)%nat ->
  IsReserved (PeekChar data' 0) = false ->
  is_invalid tt_ = false ->
  is_Eof tt_ = false ->
  (is_number tt_ = true ->
   consumed_ok P orig data'
   /\ forall c, P c = true ->
                digit_test_of (mkTokenImm [] tt_ imm) c = true) ->
  token_ok orig (mkTokenImm (MatchGuard_loc orig data') tt_ imm, data').
Proof.
  intros Hs Hlt Hr Hi He Hn. split; [|split; [|left; exact Hlt]].
  - apply lex_result_ok_plain; assumption.
  - intros Hnum. cbn [fst snd type loc mkTokenImm] in *.
    destruct (Hn Hnum) as [(pre & -> & Hpre) Hd].
    rewrite MatchGuard_loc_app. split; [reflexivity|]. split; [|exact Hr].
    eapply ubd_weaken; [|exact Hpre]. exact Hd.
Qed.

Lemma list_byte_of_string_nonempty (sv : string) :
  (sv =? "")%string = false -> list_byte_of_string sv <> [].
Proof. destruct sv; [discriminate|]. intros _. discriminate. Qed.

Lemma app_shorter (pre rest : SpanU8) :
  pre <> [] -> (List.length rest < List.length (pre ++ rest))%nat.
Proof.
  intros H. rewrite length_app. destruct pre; [congruence|].
  cbn [List.length]. lia.
Qed.

Lemma LexKeyword_with_token_ok (data : SpanU8) (sv : string)
      (tt_ : TokenType) (imm : Immediate) :
  is_invalid tt_ = false ->
  is_Eof tt_ = false ->
  (sv =? "")%string = false ->
  (is_number tt_ = true -> has_underscore (list_byte_of_string sv) = false) ->
  token_ok data (LexKeyword_with data sv tt_ imm).
Proof.
  intros Hi He Hsv Hn. unfold LexKeyword_with.
  pose proof (MatchString_spec data sv) as Hm.
  destruct (MatchString data sv) as [[|] d1];
    [|apply LexReserved_token_ok, suffix_refl].
  pose proof (NoTrailingReservedChars_spec d1) as Ht.
  destruct (NoTrailingReservedChars d1) as [[|] d2];
    [|apply LexReserved_token_ok, suffix_refl].
  destruct Ht as (_ & Hr & Heq). specialize (Heq eq_refl). subst d2.
  apply (success_token_ok (fun _ => false)); try assumption.
  - exists (list_byte_of_string sv). exact Hm.
  - subst data. apply app_shorter, list_byte_of_string_nonempty, Hsv.
  - intros Hnum. split; [|discriminate].
    subst data. apply consumed_ok_plain. auto.
Qed.

Lemma LexKeyword_with_match (sv : string) (rest : SpanU8)
      (tt_ : TokenType) (imm : Immediate) :
  IsReserved (PeekChar rest 0) = false ->
  LexKeyword_with (list_byte_of_string sv ++ rest) sv tt_ imm
  = (mkTokenImm (list_byte_of_string sv) tt_ imm, rest).
Proof.
  intros Hr. unfold LexKeyword_with.
  rewrite MatchString_app, NoTrailingReservedChars_none by exact Hr.
  rewrite MatchGuard_loc_app. reflexivity.
Qed.

Lemma LexNameEqNum_token_ok (data : SpanU8) (sv : string) (tt_ : TokenType) :
  is_invalid tt_ = false ->
  is_Eof tt_ = false ->
  is_number tt_ = false ->
  token_ok data (LexNameEqNum data sv tt_).
Proof.
  intros Hi He Hn. unfold LexNameEqNum.
  pose proof (MatchString_spec data sv) as Hm.
  destruct (MatchString data sv) as [[|] d1];
    [|apply LexReserved_token_ok, suffix_refl].
  assert (Hs1 : suffix d1 data) by (eexists; exact Hm).
  pose proof (MatchString_spec d1 "0x") as Hx.
  destruct (MatchString d1 "0x") as [[|] d2].
  - assert (Hs2 : suffix d2 data)
      by (eapply suffix_trans; [eexists; exact Hx | exact Hs1]).
    pose proof (MatchNum_with_spec IsHexDigit d2 HasUnderscores.No
                  (proj2 underscore_not_digit)) as Hnum.
    unfold MatchHexNum.
    destruct (MatchNum_with IsHexDigit d2 HasUnderscores.No)
      as [[[|] d3] u];
      [|apply LexReserved_token_ok, suffix_refl].
    destruct Hnum as [Hnum Hlt].
    pose proof (NoTrailingReservedChars_spec d3) as Ht.
    destruct (NoTrailingReservedChars d3) as [[|] d4];
      [|apply LexReserved_token_ok, suffix_refl].
    destruct Ht as (Hs4 & Hr & _).
    assert (Hs : suffix d4 data).
    { eapply suffix_trans; [exact Hs4|].
      eapply suffix_trans; [eapply consumed_ok_suffix; exact Hnum | exact Hs2]. }
    apply token_ok_not_number; [|exact Hn|].
    + apply lex_result_ok_plain; assumption.
    + left. cbn [snd]. apply suffix_length in Hs4, Hs2. lia.
  - subst d2.
    pose proof (MatchNum_with_spec IsDigit d1 HasUnderscores.No
                  (proj1 underscore_not_digit)) as Hnum.
    unfold MatchNum.
    destruct (MatchNum_with IsDigit d1 HasUnderscores.No) as [[[|] d3] u];
      [|apply LexReserved_token_ok, suffix_refl].
    destruct Hnum as [Hnum Hlt].
    pose proof (NoTrailingReservedChars_spec d3) as Ht.
    destruct (NoTrailingReservedChars d3) as [[|] d4];
      [|apply LexReserved_token_ok, suffix_refl].
    destruct Ht as (Hs4 & Hr & _).
    assert (Hs : suffix d4 data).
    { eapply suffix_trans; [exact Hs4|].
      eapply suffix_trans; [eapply consumed_ok_suffix; exact Hnum | exact Hs1]. }
    apply token_ok_not_number; [|exact Hn|].
    + apply lex_result_ok_plain; assumption.
    + left. cbn [snd]. apply suffix_length in Hs4, Hs1. lia.
Qed.

Lemma MatchString_shorter (data : SpanU8) (sv : string) (d : SpanU8) :
  (sv =? "")%string = false ->
  MatchString data sv = (true, d) ->
  (List.length d < List.length data)%nat.
Proof.
  intros Hsv E. pose proof (MatchString_spec data sv) as H. rewrite E in H.
  subst data. apply app_shorter, list_byte_of_string_nonempty, Hsv.
Qed.

Lemma LexInf_token_ok (data : SpanU8) : token_ok data (LexInf data).
Proof.
  unfold LexInf.
  pose proof (MatchSign_consumed_ok IsDigit data) as Hsign.
  destruct (MatchSign data) as [sign d1]. cbn [snd] in Hsign.
  pose proof (MatchString_consumed_ok IsDigit d1 "inf" eq_refl) as Hinf.
  pose proof (MatchString_shorter d1 "inf") as Hlt.
  destruct (MatchString d1 "inf") as [m d2]. cbn [snd] in Hinf.
  pose proof (consumed_ok_trans _ _ _ _ Hsign Hinf) as H2.
  destruct m; [|apply LexReserved_token_ok; eapply consumed_ok_suffix; exact H2].
  specialize (Hlt d2 eq_refl eq_refl).
  pose proof (NoTrailingReservedChars_spec d2) as Ht.
  destruct (NoTrailingReservedChars d2) as [[|] d3].
  - destruct Ht as (_ & Hr & Heq). specialize (Heq eq_refl). subst d3.
    apply (success_token_ok IsDigit); try reflexivity; try assumption.
    + eapply consumed_ok_suffix; exact H2.
    + apply consumed_ok_length in Hsign. lia.
    + intros _. split; [exact H2 | auto].
  - destruct Ht as (Hs3 & _ & _). apply LexReserved_token_ok.
    eapply suffix_trans; [exact Hs3 | eapply consumed_ok_suffix; exact H2].
Qed.

Lemma LexNan_token_ok (data : SpanU8) : token_ok data (LexNan data).
Proof.
  unfold LexNan.
  pose proof (fun P => MatchSign_consumed_ok P data) as Hsign.
  destruct (MatchSign data) as [sign d1]. cbn [snd] in Hsign.
  pose proof (fun P => MatchString_consumed_ok P d1 "nan" eq_refl) as Hnan.
  pose proof (MatchString_shorter d1 "nan") as Hlt.
  destruct (MatchString d1 "nan") as [m d2]. cbn [snd] in Hnan.
  pose proof (fun P => consumed_ok_trans P _ _ _ (Hsign P) (Hnan P)) as H2.
  destruct m;
    [|apply LexReserved_token_ok; eapply consumed_ok_suffix; exact (H2 IsDigit)].
  specialize (Hlt d2 eq_refl eq_refl).
  assert (Hlt2 : (List.length d2 < List.length data)%nat).
  { pose proof (consumed_ok_length _ _ _ (Hsign IsDigit)). lia. }
  pose proof (fun P => MatchChar_consumed_ok P d2 ":"%byte eq_refl) as Hcolon.
  destruct (MatchChar d2 ":") as [colon d3]. cbn [snd] in Hcolon.
  pose proof (fun P => consumed_ok_trans P _ _ _ (H2 P) (Hcolon P)) as H3.
  assert (Hlt3 : (List.length d3 < List.length data)%nat).
  { pose proof (consumed_ok_length _ _ _ (Hcolon IsDigit)). lia. }
  destruct colon.
  - pose proof (MatchString_consumed_ok IsHexDigit d3 "0x" eq_refl) as Hx.
    destruct (MatchString d3 "0x") as [hex d4]. cbn [snd] in Hx.
    pose proof (consumed_ok_trans _ _ _ _ (H3 IsHexDigit) Hx) as H4.
    destruct hex;
      [|apply LexReserved_token_ok; eapply consumed_ok_suffix; exact H4].
    pose proof (MatchNum_with_spec IsHexDigit d4 HasUnderscores.No
                  (proj2 underscore_not_digit)) as Hnum.
    unfold MatchHexNum.
    destruct (MatchNum_with IsHexDigit d4 HasUnderscores.No)
      as [[[|] d5] u].
    + destruct Hnum as [Hnum _].
      pose proof (consumed_ok_trans _ _ _ _ H4 Hnum) as H5.
      pose proof (NoTrailingReservedChars_spec d5) as Ht.
      destruct (NoTrailingReservedChars d5) as [[|] d6].
      * destruct Ht as (_ & Hr & Heq). specialize (Heq eq_refl). subst d6.
        apply (success_token_ok IsHexDigit); try reflexivity; try assumption.
        -- eapply consumed_ok_suffix; exact H5.
        -- pose proof (consumed_ok_length _ _ _ Hx).
           pose proof (consumed_ok_length _ _ _ Hnum). lia.
        -- intros _. split; [exact H5 | auto].
      * destruct Ht as (Hs6 & _ & _). apply LexReserved_token_ok.
        eapply suffix_trans; [exact Hs6 | eapply consumed_ok_suffix; exact H5].
    + subst d5. apply LexReserved_token_ok.
      eapply consumed_ok_suffix; exact H4.
  - pose proof (NoTrailingReservedChars_spec d3) as Ht.
    destruct (NoTrailingReservedChars d3) as [[|] d4].
    + destruct Ht as (_ & Hr & Heq). specialize (Heq eq_refl). subst d4.
      apply (success_token_ok IsDigit); try reflexivity; try assumption.
      * eapply consumed_ok_suffix; exact (H3 IsDigit).
      * intros _. split; [exact (H3 IsDigit) | auto].
    + destruct Ht as (Hs4 & _ & _). apply LexReserved_token_ok.
      eapply suffix_trans;
        [exact Hs4 | eapply consumed_ok_suffix; exact (H3 IsDigit)].
Qed.

Lemma LexNumber_body_spec (P : Z -> bool) (el eu : u8) (data : SpanU8)
      (tt_ : TokenType) (hu : HasUnderscores.t) :
  P (u8_to_Z "_") = false ->
  (forall c, IsDigit c = true -> P c = true) ->
  has_underscore [el] = false -> has_underscore [eu] = false ->
  match LexNumber_body P el eu data tt_ hu with
  | Some (data', tt', _) =>
      consumed_ok P data data'
      /\ (List.length data' < List.length data)%nat
      /\ IsReserved (PeekChar data' 0) = false
      /\ (tt' = tt_ \/ tt' = T_Float)
  | None => True
  end.
Proof.
  intros Hu HD Hel Heu. unfold LexNumber_body.
  pose proof (MatchNum_with_spec P data hu Hu) as H1.
  destruct (MatchNum_with P data hu) as [[[|] d1] u1]; [|exact I].
  destruct H1 as [H1 Hlt1].
  pose proof (MatchChar_consumed_ok P d1 "."%byte eq_refl) as Hdot.
  destruct (MatchChar d1 ".") as [dot d2]. cbn [snd] in Hdot.
  pose proof (consumed_ok_trans _ _ _ _ H1 Hdot) as H2.
  cbv zeta.
  match goal with
  | |- match match ?x with Some _ => _ | None => _ end with _ => _ end =>
      set (after_dot := x)
  end.
  assert (Had : match after_dot with
                | Some (d3, tt3, _) =>
                    consumed_ok P data d3 /\ (tt3 = tt_ \/ tt3 = T_Float)
                    /\ (List.length d3 <= List.length d1)%nat
                | None => True
                end).
  { pose proof (consumed_ok_length _ _ _ Hdot) as Hle2.
    unfold after_dot.
    destruct dot; [|split; [exact H2 | split; [left; reflexivity | exact Hle2]]].
    destruct (P (PeekChar d2 0));
      [|split; [exact H2 | split; [right; reflexivity | exact Hle2]]].
    pose proof (MatchNum_with_spec P d2 u1 Hu) as Hf.
    destruct (MatchNum_with P d2 u1) as [[[|] d3] u3]; cbn [negb]; [|exact I].
    destruct Hf as [Hf Hlt3].
    split; [exact (consumed_ok_trans _ _ _ _ H2 Hf)|].
    split; [right; reflexivity | lia]. }
  clearbody after_dot.
  destruct after_dot as [[[d3 tt3] u3]|]; [|exact I].
  destruct Had as (H3 & Htt3 & Hle3).
  pose proof (MatchChar_either_consumed_ok P d3 el eu Hel Heu) as He.
  destruct (MatchChar_either d3 el eu) as [e d4]. cbn [snd] in He.
  pose proof (consumed_ok_trans _ _ _ _ H3 He) as H4.
  match goal with
  | |- match match ?x with Some _ => _ | None => _ end with _ => _ end =>
      set (after_exp := x)
  end.
  assert (Hae : match after_exp with
                | Some (d5, tt5, _) =>
                    consumed_ok P data d5 /\ (tt5 = tt_ \/ tt5 = T_Float)
                    /\ (List.length d5 <= List.length d1)%nat
                | None => True
                end).
  { pose proof (consumed_ok_length _ _ _ He) as Hle4.
    unfold after_exp.
    destruct e; [|split; [exact H4 | split; [exact Htt3 | lia]]].
    pose proof (MatchSign_consumed_ok P d4) as Hs.
    destruct (MatchSign d4) as [sign d5]. cbn [snd] in Hs.
    pose proof (MatchNum_with_spec IsDigit d5 u3 (proj1 underscore_not_digit))
      as Hx.
    unfold MatchNum.
    destruct (MatchNum_with IsDigit d5 u3) as [[[|] d6] u6]; cbn [negb];
      [|exact I].
    destruct Hx as [Hx Hlt6].
    pose proof (consumed_ok_length _ _ _ Hs) as Hle5.
    split; [|split; [right; reflexivity | lia]].
    eapply consumed_ok_trans; [exact H4|].
    eapply consumed_ok_trans; [exact Hs|].
    eapply consumed_ok_weaken; [exact HD | exact Hx]. }
  clearbody after_exp.
  destruct after_exp as [[[d5 tt5] u5]|]; [|exact I].
  destruct Hae as (H5 & Htt5 & Hle5).
  pose proof (NoTrailingReservedChars_spec d5) as Ht.
  destruct (NoTrailingReservedChars d5) as [[|] d6]; [|exact I].
  destruct Ht as (_ & Hr & Heq). specialize (Heq eq_refl). subst d6.
  split; [exact H5|]. split; [lia|]. split; [exact Hr | exact Htt5].
Qed.

Lemma LexNumber_token_ok (data : SpanU8) (tt_ : TokenType) :
  is_invalid tt_ = false -> is_Eof tt_ = false ->
  token_ok data (LexNumber data tt_).
Proof.
  intros Hi He. unfold LexNumber.
  pose proof (MatchSign_consumed_ok IsDigit data) as Hsign.
  destruct (MatchSign data) as [sign d1]. cbn [snd] in Hsign.
  pose proof (LexNumber_body_spec IsDigit "e"%byte "E"%byte d1 tt_
                HasUnderscores.No (proj1 underscore_not_digit)
                (fun c H => H) eq_refl eq_refl) as Hb.
  destruct (LexNumber_body IsDigit "e" "E" d1 tt_ HasUnderscores.No)
    as [[[d2 tt2] u2]|];
    [|apply LexReserved_token_ok, suffix_refl].
  destruct Hb as (Hc & Hlt & Hr & Htt).
  pose proof (consumed_ok_trans _ _ _ _ Hsign Hc) as H2.
  apply (success_token_ok IsDigit); try assumption.
  - eapply consumed_ok_suffix; exact H2.
  - apply consumed_ok_length in Hsign. lia.
  - destruct Htt as [->| ->]; [exact Hi | reflexivity].
  - destruct Htt as [->| ->]; [exact He | reflexivity].
  - intros _. split; [exact H2 | auto].
Qed.

Lemma LexHexNumber_token_ok (data : SpanU8) (tt_ : TokenType) :
  is_invalid tt_ = false -> is_Eof tt_ = false ->
  token_ok data (LexHexNumber data tt_).
Proof.
  intros Hi He. unfold LexHexNumber.
  pose proof (MatchSign_consumed_ok IsHexDigit data) as Hsign.
  destruct (MatchSign data) as [sign d1]. cbn [snd] in Hsign.
  pose proof (MatchString_consumed_ok IsHexDigit d1 "0x" eq_refl) as Hx.
  destruct (MatchString d1 "0x") as [m d2]. cbn [snd] in Hx.
  pose proof (LexNumber_body_spec IsHexDigit "p"%byte "P"%byte d2 tt_
                HasUnderscores.No (proj2 underscore_not_digit)
                IsDigit_IsHexDigit eq_refl eq_refl) as Hb.
  destruct (LexNumber_body IsHexDigit "p" "P" d2 tt_ HasUnderscores.No)
    as [[[d3 tt3] u3]|];
    [|apply LexReserved_token_ok, suffix_refl].
  destruct Hb as (Hc & Hlt & Hr & Htt).
  pose proof (consumed_ok_trans _ _ _ _ Hsign
                (consumed_ok_trans _ _ _ _ Hx Hc)) as H3.
  apply (success_token_ok IsHexDigit); try assumption.
  - eapply consumed_ok_suffix; exact H3.
  - apply consumed_ok_length in Hsign, Hx. lia.
  - destruct Htt as [->| ->]; [exact Hi | reflexivity].
  - destruct Htt as [->| ->]; [exact He | reflexivity].
  - intros _. split; [exact H3 | auto].
Qed.

(* ================================================================== *)
(** * The keyword dispatch *)

Lemma dispatch_all_calls (P : KeywordCall -> bool) (data : SpanU8) :
  forall body call,
    all_calls P body = true ->
    dispatch body data = Some call ->
    P call = true.
Proof.
  fix IH 1. intros body call Hall Hd.
  destruct body as [offset arms | call' | ].
  - cbn [dispatch] in Hd. cbn [all_calls] in Hall.
    set (c := PeekChar data offset) in *.
    revert Hall Hd. generalize c. clear c.
    assert (Hcase : forall c arms' r,
               (fix all_arms (arms : list Arm) : bool :=
                  match arms with
                  | [] => true
                  | case _ body :: arms' => all_calls P body && all_arms arms'
                  | default body :: arms' => all_calls P body && all_arms arms'
                  end) arms' = true ->
               (fix on_case (arms : list Arm) : option (option KeywordCall) :=
                  match arms with
                  | [] => None
                  | case label body :: arms' =>
                      if c =? u8_to_Z label then Some (dispatch body data)
                      else on_case arms'
                  | default _ :: arms' => on_case arms'
                  end) arms' = Some r ->
               r = Some call -> P call = true).
    { intros c. induction arms' as [|[l b|b] arms' IHa]; intros r Ha Hc Hr.
      - discriminate.
      - apply andb_prop in Ha as [Hb Ha].
        destruct (c =? u8_to_Z l).
        + injection Hc as <-. apply (IH b call Hb Hr).
        + apply (IHa r Ha Hc Hr).
      - apply andb_prop in Ha as [Hb Ha]. apply (IHa r Ha Hc Hr). }
    assert (Hdef : forall arms',
               (fix all_arms (arms : list Arm) : bool :=
                  match arms with
                  | [] => true
                  | case _ body :: arms' => all_calls P body && all_arms arms'
                  | default body :: arms' => all_calls P body && all_arms arms'
                  end) arms' = true ->
               (fix on_default (arms : list Arm) : option KeywordCall :=
                  match arms with
                  | [] => None
                  | default body :: _ => dispatch body data
                  | case _ _ :: arms' => on_default arms'
                  end) arms' = Some call -> P call = true).
    { induction arms' as [|[l b|b] arms' IHa]; intros Ha Hc.
      - discriminate.
      - apply andb_prop in Ha as [Hb Ha]. apply (IHa Ha Hc).
      - apply andb_prop in Ha as [Hb Ha]. apply (IH b call Hb Hc). }
    intros c Hall Hd.
    destruct ((fix on_case (arms : list Arm) : option (option KeywordCall) :=
                 match arms with
                 | [] => None
                 | case label body :: arms' =>
                     if c =? u8_to_Z label then Some (dispatch body data)
                     else on_case arms'
                 | default _ :: arms' => on_case arms'
                 end) arms) as [r|] eqn:E.
    + apply (Hcase c arms r Hall E Hd).
    + apply (Hdef arms Hall Hd).
  - cbn in *. injection Hd as <-. exact Hall.
  - discriminate.
Qed.

Lemma keywords_call_ok : all_calls call_ok keywords = true.
Proof. vm_compute. reflexivity. Qed.

(** Each of the 542 calls of the dispatch is reached by its own keyword. *)
Lemma keywords_dispatch_own_keyword :
  all_calls dispatches_own_keyword keywords = true.
Proof. vm_compute. reflexivity. Qed.

Lemma run_KeywordCall_token_ok (call : KeywordCall) (data : SpanU8) :
  call_ok call = true -> token_ok data (run_KeywordCall call data).
Proof.
  intros Hok. unfold call_ok in Hok.
  apply andb_prop in Hok as [Hok Hnum]. apply andb_prop in Hok as [Hok Hsv].
  apply andb_prop in Hok as [Hi He].
  apply negb_true_iff in Hi, He, Hsv.
  destruct call; cbn [run_KeywordCall call_type call_keyword] in *.
  - apply LexKeyword_with_token_ok; try assumption.
    intros Hn. rewrite Hn in Hnum. cbn in Hnum. apply negb_true_iff. exact Hnum.
  - apply LexKeyword_with_token_ok; try reflexivity; try assumption.
    discriminate.
  - apply LexKeyword_with_token_ok; try assumption.
    intros Hn. rewrite Hn in Hnum. cbn in Hnum. apply negb_true_iff. exact Hnum.
  - apply LexKeyword_with_token_ok; try reflexivity; try assumption.
    discriminate.
  - apply LexKeyword_with_token_ok; try assumption.
    intros Hn. rewrite Hn in Hnum. cbn in Hnum. apply negb_true_iff. exact Hnum.
  - apply LexNameEqNum_token_ok; try assumption.
    apply negb_true_iff. exact Hnum.
  - apply LexNan_token_ok.
Qed.

(* ================================================================== *)
(** * [Lex] *)

Lemma skip_token_ok (c : u8) (data : SpanU8) (tt_ : TokenType) :
  is_Eof tt_ = false -> is_number tt_ = false ->
  token_ok (c :: data)
           (mkToken (MatchGuard_loc (c :: data) (SkipChar (c :: data))) tt_,
            SkipChar (c :: data)).
Proof.
  intros He Hn. apply token_ok_not_number; [|exact Hn | left; cbn; lia].
  split; [apply suffix_cons|]. split; [exact He|].
  intros _. cbn. lia.
Qed.

Lemma LexAnnotation_not_number (data : SpanU8) :
  is_number (type (fst (LexAnnotation data))) = false.
Proof.
  unfold LexAnnotation. destruct (ReadReservedChars data). reflexivity.
Qed.

Lemma LexAnnotation_type (data : SpanU8) :
  type (fst (LexAnnotation data)) = T_LparAnn.
Proof.
  unfold LexAnnotation. destruct (ReadReservedChars data). reflexivity.
Qed.

Lemma MatchString_false (data : SpanU8) (sv : string) (d : SpanU8) :
  MatchString data sv = (false, d) -> d = data.
Proof.
  intros E. pose proof (MatchString_spec data sv) as H. rewrite E in H.
  exact H.
Qed.

Lemma Lex_token_ok (data : SpanU8) : data <> [] -> token_ok data (Lex data).
Proof.
  intros Hne. destruct data as [|c data1]; [congruence|].
  unfold Lex. rewrite PeekChar_cons.
  destruct (u8_to_Z c =? -1) eqn:E.
  { apply Z.eqb_eq in E. pose proof (u8_to_Z_range c). lia. }
  clear E.
  destruct (u8_to_Z c =? u8_to_Z "(").
  { destruct (MatchString (c :: data1) "(;") as [[|] d] eqn:E1.
    - apply token_ok_not_number;
        [apply LexBlockComment_ok; exact Hne | apply LexBlockComment_not_number
        | left; apply LexBlockComment_progress].
    - apply MatchString_false in E1. subst d.
      destruct (MatchString (c :: data1) "(@") as [[|] d] eqn:E2.
      + apply token_ok_not_number;
          [apply LexAnnotation_ok | apply LexAnnotation_not_number
          | right; right; apply LexAnnotation_type].
      + apply MatchString_false in E2. subst d.
        apply skip_token_ok; reflexivity. }
  destruct (u8_to_Z c =? u8_to_Z ")").
  { apply skip_token_ok; reflexivity. }
  destruct (u8_to_Z c =? u8_to_Z ";").
  { destruct (MatchString (c :: data1) ";;") as [[|] d] eqn:E1.
    - apply token_ok_not_number;
        [apply LexLineComment_ok; exact Hne | apply LexLineComment_not_number
        | left; apply LexLineComment_progress].
    - apply MatchString_false in E1. subst d.
      apply skip_token_ok; reflexivity. }
  destruct ((u8_to_Z c =? u8_to_Z " ") || (u8_to_Z c =? 9)
            || (u8_to_Z c =? 13) || (u8_to_Z c =? 10)) eqn:Ews.
  { apply token_ok_not_number;
      [apply LexWhitespace_ok | apply LexWhitespace_not_number
      | left; apply LexWhitespace_progress; exact Ews]. }
  destruct (u8_to_Z c =? u8_to_Z x22).
  { apply token_ok_not_number;
      [apply LexText_ok; exact Hne | apply LexText_not_number
      | left; apply LexText_progress]. }
  destruct ((u8_to_Z c =? u8_to_Z "+") || (u8_to_Z c =? u8_to_Z "-")).
  { destruct (PeekChar (c :: data1) 1 =? u8_to_Z "i");
      [apply LexInf_token_ok|].
    destruct (PeekChar (c :: data1) 1 =? u8_to_Z "n");
      [apply LexNan_token_ok|].
    destruct (PeekChar (c :: data1) 1 =? u8_to_Z "0").
    { destruct (MatchString (SkipChar (c :: data1)) "0x") as [[|] d];
        [apply LexHexNumber_token_ok | apply LexNumber_token_ok];
        reflexivity. }
    destruct (is_one_of (PeekChar (c :: data1) 1) "123456789");
      [apply LexNumber_token_ok; reflexivity|].
    apply LexReserved_token_ok, suffix_refl. }
  destruct (u8_to_Z c =? u8_to_Z "0").
  { destruct (MatchString (c :: data1) "0x") as [[|] d] eqn:E1.
    - apply LexHexNumber_token_ok; reflexivity.
    - apply MatchString_false in E1. subst d.
      apply LexNumber_token_ok; reflexivity. }
  destruct (is_one_of (u8_to_Z c) "123456789");
    [apply LexNumber_token_ok; reflexivity|].
  destruct (u8_to_Z c =? u8_to_Z "$").
  { apply token_ok_not_number;
      [apply LexId_ok | apply LexId_not_number | left; apply LexId_progress]. }
  destruct (dispatch keywords (c :: data1)) as [call|] eqn:Ed.
  - apply run_KeywordCall_token_ok.
    apply (dispatch_all_calls call_ok (c :: data1) keywords call
             keywords_call_ok Ed).
  - destruct (IsReserved (u8_to_Z c)).
    + apply LexReserved_token_ok, suffix_refl.
    + apply skip_token_ok; reflexivity.
Qed.

Lemma Lex_nil : Lex [] = (mkToken [] T_Eof, []).
Proof. reflexivity. Qed.

(* ================================================================== *)
(** * The claims on the lexer *)

(** [Lex] is a total function: on every byte slice it returns a token and
    the span it leaves, a suffix of the slice.  On a slice that is not
    empty the token is not [Eof], and a token of a failure path
    ([InvalidChar], [InvalidText], [InvalidLineComment],
    [InvalidBlockComment]) has consumed at least one byte.  (Every loop of
    the lexer is a structural recursion on the span: each turn consumes
    input.) *)
Lemma Lex_total_progress (data : SpanU8) :
  exists tok consumed rest,
    Lex data = (tok, rest)
    /\ data = consumed ++ rest
    /\ (data <> [] ->
        is_Eof (type tok) = false
        /\ (is_invalid (type tok) = false
            \/ (is_invalid (type tok) = true
                /\ (1 <= List.length consumed)%nat))).
Proof.
  destruct data as [|c data1].
  - exists (mkToken [] T_Eof), [], []. split; [reflexivity|].
    split; [reflexivity | congruence].
  - assert (Hne : c :: data1 <> []) by congruence.
    destruct (Lex_token_ok (c :: data1) Hne) as [(Hs & He & Hi) _].
    destruct (Lex (c :: data1)) as [tok rest]. cbn [fst snd] in *.
    destruct Hs as [consumed Hc].
    exists tok, consumed, rest. split; [reflexivity|]. split; [exact Hc|].
    intros _. split; [exact He|].
    destruct (is_invalid (type tok)); [right | left; reflexivity].
    split; [reflexivity|].
    specialize (Hi eq_refl). rewrite Hc, length_app in Hi. lia.
Qed.

(** A token that has consumed nothing of a slice that is not empty is a
    [Reserved] or an [LparAnn] token: every other token [Lex] returns has
    consumed at least one byte. *)
Lemma Lex_progress (data : SpanU8) (tok : Token) (rest : SpanU8) :
  data <> [] ->
  Lex data = (tok, rest) ->
  (List.length rest < List.length data)%nat
  \/ type tok = T_Reserved \/ type tok = T_LparAnn.
Proof.
  intros Hne E. destruct (Lex_token_ok data Hne) as (_ & _ & H).
  rewrite E in H. exact H.
Qed.





Lemma lexed_before_keywords_false (c : u8) :
  lexed_before_keywords c = false ->
  ((u8_to_Z c =? -1) = false
   /\ (u8_to_Z c =? u8_to_Z "(") = false
   /\ (u8_to_Z c =? u8_to_Z ")") = false
   /\ (u8_to_Z c =? u8_to_Z ";") = false)
  /\ ((u8_to_Z c =? u8_to_Z " ") = false
      /\ (u8_to_Z c =? 9) = false
      /\ (u8_to_Z c =? 13) = false
      /\ (u8_to_Z c =? 10) = false)
  /\ ((u8_to_Z c =? u8_to_Z x22) = false
      /\ (u8_to_Z c =? u8_to_Z "+") = false
      /\ (u8_to_Z c =? u8_to_Z "-") = false
      /\ (u8_to_Z c =? u8_to_Z "0") = false)
  /\ (is_one_of (u8_to_Z c) "123456789" = false
      /\ (u8_to_Z c =? u8_to_Z "$") = false).
Proof.
  destruct c; vm_compute; intros H; try discriminate H;
    repeat split; reflexivity.
Qed.

Lemma Lex_keywords (c : u8) (data1 : SpanU8) :
  lexed_before_keywords c = false ->
  Lex (c :: data1)
  = match dispatch keywords (c :: data1) with
    | Some call => run_KeywordCall call (c :: data1)
    | None =>
        if IsReserved (PeekChar (c :: data1) 0) then LexReserved (c :: data1)
        else
          (mkToken (MatchGuard_loc (c :: data1) (SkipChar (c :: data1)))
                   T_InvalidChar,
           SkipChar (c :: data1))
    end.
Proof.
  intros H.
  destruct (lexed_before_keywords_false c H)
    as ((H1 & H2 & H3 & H4) & (H5 & H6 & H7 & H8)
        & (H9 & H10 & H11 & H12) & (H13 & H14)).
  unfold Lex. cbv zeta. rewrite !(PeekChar_cons c data1).
  rewrite H1, H2, H3, H4, H5, H6, H7, H8, H9, H10, H11, H12, H13, H14.
  reflexivity.
Qed.

(** C7.  Followed by no reserved character, [i32.trunc_s/f32] and
    [i32.trunc_f32_s] are both lexed as a [BareInstr] token with the
    opcode [I32TruncF32S]; the two tokens differ in their location only. *)
Theorem Lex_i32_trunc_f32_s_spellings (rest : SpanU8) :
  IsReserved (PeekChar rest 0) = false ->
  Lex (list_byte_of_string "i32.trunc_s/f32" ++ rest)
  = (mkTokenImm (list_byte_of_string "i32.trunc_s/f32") T_BareInstr
       (Imm_OpcodeInfo {| opcode := I32TruncF32S; features := [] |}),
     rest)
  /\ Lex (list_byte_of_string "i32.trunc_f32_s" ++ rest)
     = (mkTokenImm (list_byte_of_string "i32.trunc_f32_s") T_BareInstr
          (Imm_OpcodeInfo {| opcode := I32TruncF32S; features := [] |}),
        rest).
Proof.
  intros Hr. split.
  - assert (Hd : dispatch keywords
                   (list_byte_of_string "i32.trunc_s/f32" ++ rest)
                 = Some (LexKeyword_o "i32.trunc_s/f32" I32TruncF32S []))
      by (vm_compute; reflexivity).
    change (list_byte_of_string "i32.trunc_s/f32" ++ rest)
      with ("i"%byte :: (list_byte_of_string "32.trunc_s/f32" ++ rest)) at 1.
    rewrite Lex_keywords by reflexivity.
    change ("i"%byte :: (list_byte_of_string "32.trunc_s/f32" ++ rest))
      with (list_byte_of_string "i32.trunc_s/f32" ++ rest).
    rewrite Hd. cbn [run_KeywordCall].
    apply LexKeyword_with_match. exact Hr.
  - assert (Hd : dispatch keywords
                   (list_byte_of_string "i32.trunc_f32_s" ++ rest)
                 = Some (LexKeyword_o "i32.trunc_f32_s" I32TruncF32S []))
      by (vm_compute; reflexivity).
    change (list_byte_of_string "i32.trunc_f32_s" ++ rest)
      with ("i"%byte :: (list_byte_of_string "32.trunc_f32_s" ++ rest)) at 1.
    rewrite Lex_keywords by reflexivity.
    change ("i"%byte :: (list_byte_of_string "32.trunc_f32_s" ++ rest))
      with (list_byte_of_string "i32.trunc_f32_s" ++ rest).
    rewrite Hd. cbn [run_KeywordCall].
    apply LexKeyword_with_match. exact Hr.
Qed.

Lemma Lex_i32_trunc_f32_s_spellings_witness :
  Lex (list_byte_of_string "i32.trunc_s/f32" ++ list_byte_of_string " x")
  = (mkTokenImm (list_byte_of_string "i32.trunc_s/f32") T_BareInstr
       (Imm_OpcodeInfo {| opcode := I32TruncF32S; features := [] |}),
     list_byte_of_string " x")
  /\ Lex (list_byte_of_string "i32.trunc_f32_s" ++ list_byte_of_string " x")
     = (mkTokenImm (list_byte_of_string "i32.trunc_f32_s") T_BareInstr
          (Imm_OpcodeInfo {| opcode := I32TruncF32S; features := [] |}),
        list_byte_of_string " x").
Proof.
  exact (Lex_i32_trunc_f32_s_spellings (list_byte_of_string " x") eq_refl).
Defined.

(** C5, at the input that fails.  On [+inf3] the token [Lex] returns is a
    [Reserved] token whose location is empty (the span behind the text,
    which [LexInf] has consumed whole); [Lex] on that empty location gives
    [Eof], another kind of token. *)
Lemma Lex_plus_inf3_location_relexes_to_Eof :
  Lex (list_byte_of_string "+inf3") = (mkToken [] T_Reserved, [])
  /\ type (fst (Lex (loc (fst (Lex (list_byte_of_string "+inf3")))))) = T_Eof.
Proof. split; reflexivity. Qed.

(** The same on the failure path of [LexNan], and by contrast the
    failure path of [LexNumber], which resets the span first. *)
Lemma Lex_failure_paths_of_signed_literals :
  Lex (list_byte_of_string "-nan:0x") = (mkToken [] T_Reserved, [])
  /\ Lex (list_byte_of_string "+1x")
     = (mkToken (list_byte_of_string "+1x") T_Reserved, []).
Proof. split; reflexivity. Qed.

(** C4.  [Lex] does not make progress on every slice.  On [[f] the keyword
    dispatch calls [LexKeyword] for [if], a keyword the text does not start
    with, and the failure path of [LexKeyword],
    [LexReserved(guard.Reset())], reads no character, [[] not being a
    reserved one: the token is a [Reserved] token of no byte and the cursor
    has not moved.  On [(@x] [LexAnnotation] reads reserved characters from
    [(], which is not one: the token is an [LparAnn] token of no byte and
    the cursor has not moved.  The paths beside these two consume: [[] alone
    is an [InvalidChar] token of one byte (the end of [Lex] tests
    [IsReserved] before it calls [LexReserved], and skips the character
    otherwise), [(x] gives an [Lpar] token of one byte, and on a slice that
    is not empty every token that is neither [Reserved] nor [LparAnn] has
    consumed at least one byte. *)
Theorem Lex_zero_width_tokens :
  (Lex (list_byte_of_string "[f")
   = (mkToken [] T_Reserved, list_byte_of_string "[f")
   /\ Lex (list_byte_of_string "(@x")
      = (mkToken [] T_LparAnn, list_byte_of_string "(@x"))
  /\ (Lex (list_byte_of_string "[")
      = (mkToken (list_byte_of_string "[") T_InvalidChar, [])
      /\ Lex (list_byte_of_string "(x")
         = (mkToken (list_byte_of_string "(") T_Lpar, list_byte_of_string "x"))
  /\ (forall (data : SpanU8) (tok : Token) (rest : SpanU8),
        data <> [] ->
        Lex data = (tok, rest) ->
        type tok <> T_Reserved ->
        type tok <> T_LparAnn ->
        (List.length rest < List.length data)%nat).
Proof.
  split; [split; reflexivity|].
  split; [split; reflexivity|].
  intros data tok rest Hne E Hr Ha.
  destruct (Lex_progress data tok rest Hne E) as [H|[H|H]];
    [exact H | contradiction | contradiction].
Qed.

(* ================================================================== *)
(** * Further properties of the byte reader *)

Import binary.

Lemma size_app (a b : SpanU8) : size (a ++ b) = size a + size b.
Proof. unfold size. rewrite length_app. lia. Qed.

Lemma ReadBytes_app (pre rest : SpanU8) (errors : Errors) :
  ReadBytes (size pre) (pre ++ rest) errors = (Some pre, rest, errors).
Proof.
  unfold ReadBytes. rewrite size_app.
  assert (H : (size pre + size rest <? size pre) = false).
  { apply Z.ltb_ge. unfold size. lia. }
  rewrite H. unfold subspan, remove_prefix, size. rewrite Nat2Z.id.
  cbn [Z.to_nat skipn].
  rewrite firstn_app, firstn_all, Nat.sub_diag, app_nil_r.
  rewrite skipn_app, skipn_all, Nat.sub_diag. reflexivity.
Qed.

Lemma ReadBytes_short (N : Z) (data : SpanU8) (errors : Errors) :
  size data < N ->
  ReadBytes N data errors
  = (None, data, OnError data (Msg_UnableToReadBytes N) :: errors).
Proof.
  intros H. unfold ReadBytes. apply Z.ltb_lt in H. rewrite H. reflexivity.
Qed.

Lemma ReadBytes_enough (N : Z) (data : SpanU8) (errors : Errors) :
  0 <= N <= size data ->
  exists pre rest,
    data = pre ++ rest /\ size pre = N
    /\ ReadBytes N data errors = (Some pre, rest, errors).
Proof.
  intros H.
  exists (firstn (Z.to_nat N) data), (skipn (Z.to_nat N) data).
  assert (Hs : size (firstn (Z.to_nat N) data) = N).
  { unfold size in *. rewrite length_firstn. lia. }
  split; [symmetry; apply firstn_skipn|]. split; [exact Hs|].
  rewrite <- (firstn_skipn (Z.to_nat N) data) at 1.
  rewrite <- Hs at 1. apply ReadBytes_app.
Qed.

(** X1.  [ReadBytes] cuts the span in two.  With [N] bytes or more it returns
    the first [N] and leaves the others, reporting nothing; with fewer it
    returns [nullopt], reports one error and leaves the span as it was. *)
Theorem ReadBytes_splits (N : Z) (data : SpanU8) (errors : Errors) :
  0 <= N ->
  (N <= size data ->
   exists pre rest,
     data = pre ++ rest /\ size pre = N
     /\ ReadBytes N data errors = (Some pre, rest, errors))
  /\ (size data < N ->
      ReadBytes N data errors
      = (None, data, OnError data (Msg_UnableToReadBytes N) :: errors)).
Proof.
  intros H0. split.
  - intros H. apply ReadBytes_enough. lia.
  - apply ReadBytes_short.
Qed.

Lemma ReadBytes_splits_witness :
  (3 <= size (bytes [1; 2; 3; 4]) ->
   exists pre rest,
     bytes [1; 2; 3; 4] = pre ++ rest /\ size pre = 3
     /\ ReadBytes 3 (bytes [1; 2; 3; 4]) [] = (Some pre, rest, []))
  /\ (size (bytes [1; 2; 3; 4]) < 3 ->
      ReadBytes 3 (bytes [1; 2; 3; 4]) []
      = (None, bytes [1; 2; 3; 4],
         [OnError (bytes [1; 2; 3; 4]) (Msg_UnableToReadBytes 3)])).
Proof. apply (ReadBytes_splits 3 (bytes [1; 2; 3; 4]) []). lia. Defined.

(* ================================================================== *)
(** * LEB128 integers: the encodings accepted and their values *)

Lemma testbit_above (a s n : Z) :
  0 <= a < 2 ^ s -> s <= n -> Z.testbit a n = false.
Proof.
  intros Ha Hn.
  destruct (Z.eq_dec a 0) as [->|Hne]; [apply Z.testbit_0_l|].
  apply Z.bits_above_log2; [lia|].
  apply Z.lt_le_trans with s; [|exact Hn].
  apply Z.log2_lt_pow2; lia.
Qed.

Lemma lor_disjoint (a b s : Z) :
  0 <= s -> 0 <= a < 2 ^ s -> Z.lor a (Z.shiftl b s) = a + b * 2 ^ s.
Proof.
  intros Hs Ha.
  assert (Hl : Z.land a (Z.shiftl b s) = 0).
  { apply Z.bits_inj'. intros n Hn. rewrite Z.land_spec, Z.bits_0.
    destruct (Z.lt_ge_cases n s) as [Hlt|Hge].
    - rewrite Z.shiftl_spec_low by exact Hlt. apply andb_false_r.
    - rewrite (testbit_above a s n Ha Hge). reflexivity. }
  rewrite <- Z.lxor_lor by exact Hl.
  rewrite <- Z.add_nocarry_lxor by exact Hl.
  rewrite Z.shiftl_mul_pow2 by exact Hs. reflexivity.
Qed.

Lemma wrapU_shiftl (W s p : Z) :
  0 <= s <= W ->
  wrapU W (Z.shiftl p s) = Z.shiftl (p mod 2 ^ (W - s)) s.
Proof.
  intros H. unfold wrapU. rewrite !Z.shiftl_mul_pow2 by lia.
  replace (2 ^ W) with (2 ^ (W - s) * 2 ^ s)
    by (rewrite <- Z.pow_add_r by lia; f_equal; lia).
  apply Z.mul_mod_distr_r.
  - apply Z.pow_nonzero; lia.
  - apply Z.pow_nonzero; lia.
Qed.

(** The payload of a last byte the format accepts. *)
Lemma last_byte_extends_payload (T : IntType) (b : u8) :
  In T [U32; S32; U64; S64] ->
  last_byte_extends T b = true ->
  let p := Z.land (u8_to_Z b) 127 in
  let h := 2 ^ (last_payload_bits T - 1) in
  if is_signed T then 0 <= p < h \/ 128 - h <= p < 128
  else 0 <= p < 2 * h.
Proof.
  intros HT. simpl in HT.
  destruct HT as [<-|[<-|[<-|[<-|[]]]]]; destruct b; vm_compute;
    intros H; try discriminate H; clear H;
    try (split; [intros E; discriminate E | reflexivity]);
    try (left; split; [intros E; discriminate E | reflexivity]);
    (right; split; [intros E; discriminate E | reflexivity]).
Qed.

(** The value [ReadVarInt] returns at the last possible byte, [A] being
    the payload of the bytes before it. *)
Lemma last_byte_value (T : IntType) (A : Z) (b : u8) :
  In T [U32; S32; U64; S64] ->
  last_byte_extends T b = true ->
  0 <= A < 2 ^ (7 * (kMaxBytes T - 1)) ->
  let s := 7 * (kMaxBytes T - 1) in
  let P := Z.lor A (Z.shiftl (Z.land (u8_to_Z b) 127) s) in
  static_cast T (Z.lor A (wrapU (bits T) (Z.shiftl (Z.land (u8_to_Z b) 127) s)))
  = (if is_signed T then sign_extend_from (7 * kMaxBytes T) P else P)
  /\ 0 <= P < 2 ^ (7 * kMaxBytes T).
Proof.
  intros HT Hb HA s P.
  pose proof (last_byte_extends_payload T b HT Hb) as Hp.
  pose proof (payload_range b) as Hr.
  cbv zeta in Hp. unfold P, s.
  set (p := Z.land (u8_to_Z b) 127) in *.
  simpl in HT.
  destruct HT as [<-|[<-|[<-|[<-|[]]]]].
  - (* u32 *)
    change (kMaxBytes U32) with 5 in *. change (bits U32) with 32.
    change (is_signed U32) with false in *. cbv iota in Hp.
    change (2 * 2 ^ (last_payload_bits U32 - 1)) with 16 in Hp.
    change (7 * (5 - 1)) with 28 in *. change (7 * 5) with 35.
    change (2 ^ 28) with 268435456 in HA. change (2 ^ 35) with 34359738368.
    rewrite wrapU_shiftl by lia. change (2 ^ (32 - 28)) with 16.
    rewrite Z.mod_small by lia.
    rewrite lor_disjoint by (change (2 ^ 28) with 268435456; lia).
    change (2 ^ 28) with 268435456.
    unfold static_cast. cbn [is_signed U32 bits]. unfold wrapU.
    change (2 ^ 32) with 4294967296.
    rewrite Z.mod_small by lia. split; [reflexivity | lia].
  - (* s32 *)
    change (kMaxBytes S32) with 5 in *. change (bits S32) with 32.
    change (is_signed S32) with true in *. cbv iota in Hp.
    change (2 ^ (last_payload_bits S32 - 1)) with 8 in Hp.
    change (7 * (5 - 1)) with 28 in *. change (7 * 5) with 35.
    change (2 ^ 28) with 268435456 in HA. change (2 ^ 35) with 34359738368.
    rewrite wrapU_shiftl by lia. change (2 ^ (32 - 28)) with 16.
    rewrite !lor_disjoint by (change (2 ^ 28) with 268435456; lia).
    change (2 ^ 28) with 268435456.
    unfold static_cast, to_signed, sign_extend_from, wrapU.
    cbn [is_signed S32 bits].
    rewrite (testbit_top 35) by (change (2 ^ 35) with 34359738368; lia).
    change (2 ^ 32) with 4294967296. change (2 ^ (32 - 1)) with 2147483648.
    change (2 ^ (35 - 1)) with 17179869184. change (2 ^ 35) with 34359738368.
    destruct Hp as [Hp|Hp].
    + rewrite (Z.mod_small p 16) by lia.
      rewrite Z.mod_small by lia.
      assert (H1 : (A + p * 268435456 <? 2147483648) = true)
        by (apply Z.ltb_lt; lia).
      assert (H2 : (A + p * 268435456 <? 17179869184) = true)
        by (apply Z.ltb_lt; lia).
      rewrite H1, H2. cbn [negb]. split; [reflexivity | lia].
    + assert (Hm : p mod 16 = p - 112).
      { symmetry. apply (Z.mod_unique p 16 7 (p - 112)); lia. }
      rewrite Hm. rewrite Z.mod_small by lia.
      assert (H1 : (A + (p - 112) * 268435456 <? 2147483648) = false)
        by (apply Z.ltb_ge; lia).
      assert (H2 : (A + p * 268435456 <? 17179869184) = false)
        by (apply Z.ltb_ge; lia).
      rewrite H1, H2. cbn [negb]. split; lia.
  - (* u64 *)
    change (kMaxBytes U64) with 10 in *. change (bits U64) with 64.
    change (is_signed U64) with false in *. cbv iota in Hp.
    change (2 * 2 ^ (last_payload_bits U64 - 1)) with 2 in Hp.
    change (7 * (10 - 1)) with 63 in *. change (7 * 10) with 70.
    change (2 ^ 63) with 9223372036854775808 in HA.
    change (2 ^ 70) with 1180591620717411303424.
    rewrite wrapU_shiftl by lia. change (2 ^ (64 - 63)) with 2.
    rewrite Z.mod_small by lia.
    rewrite lor_disjoint by (change (2 ^ 63) with 9223372036854775808; lia).
    change (2 ^ 63) with 9223372036854775808.
    unfold static_cast. cbn [is_signed U64 bits]. unfold wrapU.
    change (2 ^ 64) with 18446744073709551616.
    rewrite Z.mod_small by lia. split; [reflexivity | lia].
  - (* s64 *)
    change (kMaxBytes S64) with 10 in *. change (bits S64) with 64.
    change (is_signed S64) with true in *. cbv iota in Hp.
    change (2 ^ (last_payload_bits S64 - 1)) with 1 in Hp.
    change (7 * (10 - 1)) with 63 in *. change (7 * 10) with 70.
    change (2 ^ 63) with 9223372036854775808 in HA.
    change (2 ^ 70) with 1180591620717411303424.
    rewrite wrapU_shiftl by lia. change (2 ^ (64 - 63)) with 2.
    rewrite !lor_disjoint by (change (2 ^ 63) with 9223372036854775808; lia).
    change (2 ^ 63) with 9223372036854775808.
    unfold static_cast, to_signed, sign_extend_from, wrapU.
    cbn [is_signed S64 bits].
    rewrite (testbit_top 70)
      by (change (2 ^ 70) with 1180591620717411303424; lia).
    change (2 ^ 64) with 18446744073709551616.
    change (2 ^ (64 - 1)) with 9223372036854775808.
    change (2 ^ (70 - 1)) with 590295810358705651712.
    change (2 ^ 70) with 1180591620717411303424.
    destruct Hp as [Hp|Hp].
    + rewrite (Z.mod_small p 2) by lia.
      rewrite Z.mod_small by lia.
      assert (H1 : (A + p * 9223372036854775808 <? 9223372036854775808) = true)
        by (apply Z.ltb_lt; lia).
      assert (H2 : (A + p * 9223372036854775808 <? 590295810358705651712)
                   = true)
        by (apply Z.ltb_lt; lia).
      rewrite H1, H2. cbn [negb]. split; [reflexivity | lia].
    + assert (Hm : p mod 2 = p - 126).
      { symmetry. apply (Z.mod_unique p 2 63 (p - 126)); lia. }
      rewrite Hm. rewrite Z.mod_small by lia.
      assert (H1 : (A + (p - 126) * 9223372036854775808
                    <? 9223372036854775808) = false)
        by (apply Z.ltb_ge; lia).
      assert (H2 : (A + p * 9223372036854775808 <? 590295810358705651712)
                   = false)
        by (apply Z.ltb_ge; lia).
      rewrite H1, H2. cbn [negb]. split; lia.
Qed.

Lemma leb_encoding_inv (T : IntType) (pre : list u8) (b : u8) :
  leb_encoding T pre b = true ->
  forallb continuation pre = true
  /\ (Z.of_nat (List.length pre) + 1 = kMaxBytes T
      /\ last_byte_extends T b = true
      \/ Z.of_nat (List.length pre) + 1 < kMaxBytes T
         /\ continuation b = false).
Proof.
  unfold leb_encoding. intros H. apply andb_prop in H as [Hc H].
  split; [exact Hc|].
  destruct (Z.eqb_spec (Z.of_nat (List.length pre) + 1) (kMaxBytes T)) as [E|E].
  - left. split; assumption.
  - right. apply andb_prop in H as [H1 H2]. apply Z.ltb_lt in H1.
    apply negb_true_iff in H2. split; assumption.
Qed.

Lemma leb_payload_snoc (pre : list u8) (b : u8) :
  leb_payload (pre ++ [b])
  = Z.lor (leb_payload pre)
          (Z.shiftl (Z.land (u8_to_Z b) 127) (Z.of_nat (List.length pre) * 7)).
Proof. rewrite leb_payload_app, leb_payload_single. reflexivity. Qed.

(** The loop over the bytes of an encoding returns their value. *)
Lemma ReadVarInt_loop_of_encoding (T : IntType) (desc : string)
      (pre : list u8) (b : u8) (rest : SpanU8) (errors : Errors) :
  In T [U32; S32; U64; S64] ->
  leb_encoding T pre b = true ->
  ReadVarInt_loop T desc (pre ++ b :: rest) errors 0 0
  = (Some (leb_value T (pre ++ [b])), rest, errors).
Proof.
  intros HT He.
  destruct (leb_encoding_inv T pre b He) as [Hc Hcase].
  pose proof (kMaxBytes_bits T HT) as [Hbits Hk].
  set (i := Z.of_nat (List.length pre)) in *.
  assert (Hi : 0 <= i) by (unfold i; lia).
  assert (Hlen : 7 * Z.of_nat (List.length (pre ++ [b])) = 7 * (i + 1)).
  { rewrite length_app. cbn [List.length]. unfold i. lia. }
  assert (HA : 0 <= leb_payload pre < 2 ^ (7 * i)).
  { split; [apply leb_payload_nonneg | apply leb_payload_bound]. }
  rewrite ReadVarInt_loop_continuation by (try assumption; fold i; lia).
  fold i. replace (0 + i) with i by lia.
  change (0 * 7) with 0. rewrite Z.shiftl_0_r, Z.lor_0_l.
  unfold leb_value. rewrite Hlen, leb_payload_snoc. fold i.
  destruct Hcase as [[Hlast Hb]|[Hshort Hb]].
  - rewrite ReadVarInt_loop_last by assumption. rewrite Hb.
    assert (Hi' : i = kMaxBytes T - 1) by lia.
    assert (HA' : 0 <= leb_payload pre < 2 ^ (7 * (kMaxBytes T - 1)))
      by (rewrite <- Hi'; exact HA).
    destruct (last_byte_value T (leb_payload pre) b HT Hb HA') as [Hv _].
    cbv zeta in Hv.
    replace (i * 7) with (7 * (kMaxBytes T - 1)) by lia.
    replace (7 * (i + 1)) with (7 * kMaxBytes T) by lia.
    rewrite Hv. reflexivity.
  - rewrite ReadVarInt_loop_short by (try assumption; lia).
    cbv zeta. rewrite payload_shift_fits by lia.
    destruct (is_signed T) eqn:Hs; [|reflexivity].
    replace (6 + i * 7) with (7 * (i + 1) - 1) by lia.
    rewrite SignExtend_spec; [reflexivity | exact Hs | lia |].
    rewrite <- leb_payload_snoc.
    split; [apply leb_payload_nonneg|].
    rewrite <- Hlen. apply leb_payload_bound.
Qed.

Lemma ReadVarInt_of_encoding (T : IntType) (desc : string)
      (pre : list u8) (b : u8) (rest : SpanU8) (errors : Errors) :
  In T [U32; S32; U64; S64] ->
  leb_encoding T pre b = true ->
  ReadVarInt T desc (pre ++ b :: rest) errors
  = (Some (leb_value T (pre ++ [b])), rest,
     PopContext :: PushContext (pre ++ b :: rest) desc :: errors).
Proof.
  intros HT He. rewrite ReadVarInt_unfold.
  rewrite ReadVarInt_loop_of_encoding by assumption. reflexivity.
Qed.

(** What the loop has read when it returns a value. *)
Lemma ReadVarInt_loop_success_inv (T : IntType) (desc : string)
      (data : SpanU8) :
  In T [U32; S32; U64; S64] ->
  forall (errors : Errors) (i result v : Z) (rest : SpanU8) (errors' : Errors),
    0 <= i < kMaxBytes T ->
    ReadVarInt_loop T desc data errors i result = (Some v, rest, errors') ->
    exists pre b,
      data = pre ++ b :: rest
      /\ forallb continuation pre = true
      /\ errors' = errors
      /\ (i + Z.of_nat (List.length pre) + 1 = kMaxBytes T
          /\ last_byte_extends T b = true
          \/ i + Z.of_nat (List.length pre) + 1 < kMaxBytes T
             /\ continuation b = false).
Proof.
  intros HT.
  induction data as [|c data IH]; intros errors i result v rest errors' Hi H.
  - discriminate H.
  - destruct (Z.eq_dec (i + 1) (kMaxBytes T)) as [E|E].
    + rewrite ReadVarInt_loop_last in H by assumption.
      destruct (last_byte_extends T c) eqn:Hc; [|discriminate H].
      injection H as _ <- <-.
      exists [], c. cbn [app forallb List.length].
      repeat split. left. split; [lia | exact Hc].
    + cbn [ReadVarInt_loop] in H.
      rewrite (proj2 (Z.eqb_neq _ _) E), continuation_land in H.
      destruct (continuation c) eqn:Hc; cbn [negb] in H.
      * destruct (IH errors (i + 1) _ v rest errors' ltac:(lia) H)
          as (pre & b & -> & Hpre & He & Hcase).
        exists (c :: pre), b. cbn [app forallb List.length].
        rewrite Hc, Hpre, Nat2Z.inj_succ.
        repeat split; [exact He|].
        destruct Hcase as [[H1 H2]|[H1 H2]];
          [left | right]; (split; [lia | exact H2]).
      * injection H as _ <- <-.
        exists [], c. cbn [app forallb List.length].
        repeat split. right. split; [lia | exact Hc].
Qed.

Lemma ReadVarInt_success_inv (T : IntType) (desc : string) (data : SpanU8)
      (errors : Errors) (v : Z) (rest : SpanU8) (errors' : Errors) :
  In T [U32; S32; U64; S64] ->
  ReadVarInt T desc data errors = (Some v, rest, errors') ->
  exists pre b,
    data = pre ++ b :: rest
    /\ leb_encoding T pre b = true
    /\ v = leb_value T (pre ++ [b])
    /\ errors' = PopContext :: PushContext data desc :: errors.
Proof.
  intros HT H. rewrite ReadVarInt_unfold in H.
  destruct (ReadVarInt_loop T desc data (PushContext data desc :: errors) 0 0)
    as [[r d] e] eqn:Hl.
  injection H as -> -> <-.
  pose proof (kMaxBytes_bits T HT) as [_ Hk].
  destruct (ReadVarInt_loop_success_inv T desc data HT _ 0 0 v rest e
              ltac:(lia) Hl)
    as (pre & b & Hd & Hpre & He & Hcase).
  assert (Henc : leb_encoding T pre b = true).
  { unfold leb_encoding. rewrite Hpre. cbn [andb].
    destruct Hcase as [[H1 H2]|[H1 H2]].
    - rewrite (proj2 (Z.eqb_eq _ _)) by lia. exact H2.
    - rewrite (proj2 (Z.eqb_neq _ _)) by lia.
      rewrite (proj2 (Z.ltb_lt _ _)) by lia. rewrite H2. reflexivity. }
  exists pre, b. split; [exact Hd|]. split; [exact Henc|].
  subst data. rewrite ReadVarInt_loop_of_encoding in Hl by assumption.
  injection Hl as <- <-. split; reflexivity.
Qed.

(** The value of an encoding is a value of the type. *)
Lemma leb_value_in_range (T : IntType) (pre : list u8) (b : u8) :
  In T [U32; S32; U64; S64] ->
  leb_encoding T pre b = true ->
  in_range T (leb_value T (pre ++ [b])).
Proof.
  intros HT He.
  destruct (leb_encoding_inv T pre b He) as [Hc Hcase].
  pose proof (kMaxBytes_bits T HT) as [Hbits Hk].
  set (i := Z.of_nat (List.length pre)) in *.
  assert (Hlen : 7 * Z.of_nat (List.length (pre ++ [b])) = 7 * (i + 1)).
  { rewrite length_app. cbn [List.length]. unfold i. lia. }
  assert (HA : 0 <= leb_payload pre < 2 ^ (7 * i)).
  { split; [apply leb_payload_nonneg | apply leb_payload_bound]. }
  assert (HP : 0 <= leb_payload (pre ++ [b]) < 2 ^ (7 * (i + 1))).
  { split; [apply leb_payload_nonneg|].
    rewrite <- Hlen. apply leb_payload_bound. }
  destruct Hcase as [[Hlast Hb]|[Hshort Hb]].
  - (* the last possible byte: the value is a [static_cast] *)
    assert (Hi' : i = kMaxBytes T - 1) by lia.
    assert (HA' : 0 <= leb_payload pre < 2 ^ (7 * (kMaxBytes T - 1)))
      by (rewrite <- Hi'; exact HA).
    destruct (last_byte_value T (leb_payload pre) b HT Hb HA') as [Hv _].
    cbv zeta in Hv.
    unfold leb_value. rewrite Hlen, leb_payload_snoc. fold i.
    replace (i * 7) with (7 * (kMaxBytes T - 1)) by lia.
    replace (7 * (i + 1)) with (7 * kMaxBytes T) by lia.
    rewrite <- Hv.
    assert (H2 : 0 < 2 ^ bits T) by (apply Z.pow_pos_nonneg; lia).
    assert (H3 : 2 ^ bits T = 2 * 2 ^ (bits T - 1)).
    { rewrite <- Z.pow_succ_r by lia. f_equal. lia. }
    unfold in_range, static_cast, to_signed, wrapU.
    match goal with
    | |- context [?x mod 2 ^ bits T] =>
        pose proof (Z.mod_pos_bound x (2 ^ bits T) H2) as Hm;
        set (u := x mod 2 ^ bits T) in *
    end.
    destruct (is_signed T); [|exact Hm].
    destruct (Z.ltb_spec u (2 ^ (bits T - 1))); lia.
  - (* a shorter encoding *)
    assert (Hle : 7 * (i + 1) <= bits T - 1) by lia.
    assert (Hpow : 2 ^ (7 * (i + 1)) <= 2 ^ (bits T - 1))
      by (apply Z.pow_le_mono_r; lia).
    assert (H3 : 2 ^ bits T = 2 * 2 ^ (bits T - 1)).
    { rewrite <- Z.pow_succ_r by lia. f_equal. lia. }
    assert (H4 : 2 ^ (7 * (i + 1)) = 2 * 2 ^ (7 * (i + 1) - 1)).
    { rewrite <- Z.pow_succ_r by lia. f_equal. lia. }
    assert (H5 : 0 < 2 ^ (7 * (i + 1) - 1)) by (apply Z.pow_pos_nonneg; lia).
    unfold in_range, leb_value. rewrite Hlen.
    destruct (is_signed T); [|lia].
    unfold sign_extend_from.
    rewrite testbit_top by lia.
    destruct (Z.ltb_spec (leb_payload (pre ++ [b])) (2 ^ (7 * (i + 1) - 1)));
      cbn [negb]; lia.
Qed.

(** X2.  [ReadVarInt] returns a value exactly on the spans that begin with an
    encoding of the type, and the value is the one the encoding stands
    for: the payload of the bytes for an unsigned type, the payload read
    in two's complement over all its [7 * n] bits for a signed type, at the
    last possible byte as before it.  It leaves the span behind the
    encoding and reports nothing. *)
Theorem ReadVarInt_reads_leb_value (T : IntType) (desc : string)
        (data : SpanU8) (errors : Errors) :
  In T [U32; S32; U64; S64] ->
  (forall pre b rest,
      data = pre ++ b :: rest ->
      leb_encoding T pre b = true ->
      ReadVarInt T desc data errors
      = (Some (leb_value T (pre ++ [b])), rest,
         PopContext :: PushContext data desc :: errors))
  /\ (forall v rest errors',
         ReadVarInt T desc data errors = (Some v, rest, errors') ->
         exists pre b,
           data = pre ++ b :: rest
           /\ leb_encoding T pre b = true
           /\ v = leb_value T (pre ++ [b])
           /\ errors' = PopContext :: PushContext data desc :: errors).
Proof.
  intros HT. split.
  - intros pre b rest -> He. apply ReadVarInt_of_encoding; assumption.
  - intros v rest errors' H.
    apply (ReadVarInt_success_inv T desc data errors v rest errors' HT H).
Qed.

Lemma ReadVarInt_reads_leb_value_witness :
  ReadVarInt S64 "vs64" (bytes [0xc0; 0xbb; 0x78; 0x0b]) []
  = (Some (-123456), bytes [0x0b],
     [PopContext; PushContext (bytes [0xc0; 0xbb; 0x78; 0x0b]) "vs64"]).
Proof.
  exact (proj1 (ReadVarInt_reads_leb_value S64 "vs64"
                  (bytes [0xc0; 0xbb; 0x78; 0x0b]) []
                  (or_intror (or_intror (or_intror (or_introl eq_refl)))))
               (bytes [0xc0; 0xbb]) (u8_of_Z 0x78) (bytes [0x0b])
               eq_refl eq_refl).
Defined.

(** X3.  A value [ReadVarInt] returns is a value of the type read: below
    [2 ^ bits] for an unsigned type, between [- 2 ^ (bits - 1)] and
    [2 ^ (bits - 1)] for a signed type. *)
Theorem ReadVarInt_value_in_range (T : IntType) (desc : string)
        (data : SpanU8) (errors : Errors) (v : Z) (rest : SpanU8)
        (errors' : Errors) :
  In T [U32; S32; U64; S64] ->
  ReadVarInt T desc data errors = (Some v, rest, errors') ->
  in_range T v.
Proof.
  intros HT H.
  destruct (ReadVarInt_success_inv T desc data errors v rest errors' HT H)
    as (pre & b & _ & He & -> & _).
  apply leb_value_in_range; assumption.
Qed.

Lemma ReadVarInt_value_in_range_witness : in_range S32 (-1).
Proof.
  exact (ReadVarInt_value_in_range S32 "vs32" (bytes [0x7f]) [] (-1) []
           [PopContext; PushContext (bytes [0x7f]) "vs32"]
           (or_intror (or_introl eq_refl)) eq_refl).
Defined.

(** What the loop has read when it returns [nullopt]: the span ended
    within the integer, or the last possible byte is not an extension. *)
Lemma ReadVarInt_loop_failure_inv (T : IntType) (desc : string)
      (data : SpanU8) :
  In T [U32; S32; U64; S64] ->
  forall (errors : Errors) (i result : Z) (rest : SpanU8) (errors' : Errors),
    0 <= i < kMaxBytes T ->
    ReadVarInt_loop T desc data errors i result = (None, rest, errors') ->
    (forallb continuation data = true
     /\ i + Z.of_nat (List.length data) < kMaxBytes T
     /\ rest = []
     /\ errors' = OnError [] Msg_UnableToReadU8 :: errors)
    \/ (exists pre b msg,
           data = pre ++ b :: rest
           /\ forallb continuation pre = true
           /\ i + Z.of_nat (List.length pre) + 1 = kMaxBytes T
           /\ last_byte_extends T b = false
           /\ errors' = OnError rest msg :: errors).
Proof.
  intros HT.
  induction data as [|c data IH]; intros errors i result rest errors' Hi H.
  - left. cbn [ReadVarInt_loop] in H. injection H as <- <-.
    cbn [forallb List.length]. repeat split. lia.
  - destruct (Z.eq_dec (i + 1) (kMaxBytes T)) as [E|E].
    + rewrite ReadVarInt_loop_last in H by assumption.
      destruct (last_byte_extends T c) eqn:Hc; [discriminate H|].
      injection H as <- <-. right.
      eexists [], c, _. cbn [app forallb List.length].
      repeat split; [lia | exact Hc].
    + cbn [ReadVarInt_loop] in H.
      rewrite (proj2 (Z.eqb_neq _ _) E), continuation_land in H.
      destruct (continuation c) eqn:Hc; cbn [negb] in H; [|discriminate H].
      destruct (IH errors (i + 1) _ rest errors' ltac:(lia) H)
        as [(Hall & Hlen & Hr & He)|(pre & b & msg & Hd & Hpre & Hlen & Hb & He)].
      * left. cbn [forallb List.length]. rewrite Hc, Hall, Nat2Z.inj_succ.
        repeat split; [lia | exact Hr | exact He].
      * right. exists (c :: pre), b, msg. cbn [app forallb List.length].
        rewrite Hc, Hpre, Nat2Z.inj_succ, Hd.
        repeat split; [lia | exact Hb | exact He].
Qed.

Lemma ReadVarInt_truncated_eq (T : IntType) (desc : string) (data : SpanU8)
      (errors : Errors) :
  In T [U32; S32; U64; S64] ->
  forallb continuation data = true ->
  Z.of_nat (List.length data) < kMaxBytes T ->
  ReadVarInt T desc data errors
  = (None, [],
     PopContext :: OnError [] Msg_UnableToReadU8
       :: PushContext data desc :: errors).
Proof.
  intros HT Hc Hlen.
  pose proof (kMaxBytes_bits T HT) as [Hbits Hk].
  rewrite ReadVarInt_unfold.
  rewrite <- (app_nil_r data) at 1.
  rewrite ReadVarInt_loop_continuation by (try assumption; lia).
  reflexivity.
Qed.

(** X4.  [ReadVarInt] returns [nullopt] in two cases only.  Either the span
    ends before the integer does: every byte carries the continuation bit
    and there are fewer than [kMaxBytes]; the read then reports
    "Unable to read u8" at the end of the span.  Or the last possible
    byte follows [kMaxBytes - 1] continuation bytes and does not extend the
    value as the format wants. *)
Theorem ReadVarInt_fails_iff (T : IntType) (desc : string) (data : SpanU8)
        (errors : Errors) :
  In T [U32; S32; U64; S64] ->
  (fst (fst (ReadVarInt T desc data errors)) = None
   <-> (forallb continuation data = true
        /\ Z.of_nat (List.length data) < kMaxBytes T)
       \/ (exists pre b rest,
              data = pre ++ b :: rest
              /\ forallb continuation pre = true
              /\ Z.of_nat (List.length pre) + 1 = kMaxBytes T
              /\ last_byte_extends T b = false))
  /\ (forallb continuation data = true ->
      Z.of_nat (List.length data) < kMaxBytes T ->
      ReadVarInt T desc data errors
      = (None, [],
         PopContext :: OnError [] Msg_UnableToReadU8
           :: PushContext data desc :: errors)).
Proof.
  intros HT.
  pose proof (kMaxBytes_bits T HT) as [Hbits Hk].
  split; [split|].
  - intros H. rewrite ReadVarInt_unfold in H.
    destruct (ReadVarInt_loop T desc data (PushContext data desc :: errors) 0 0)
      as [[r d] e] eqn:Hl.
    cbn [fst] in H. subst r.
    destruct (ReadVarInt_loop_failure_inv T desc data HT _ 0 0 d e
                ltac:(lia) Hl)
      as [(Hall & Hlen & _ & _)|(pre & b & msg & Hd & Hpre & Hlen & Hb & _)].
    + left. split; [exact Hall | lia].
    + right. exists pre, b, d. repeat split; [exact Hd | exact Hpre | lia | exact Hb].
  - intros [[Hall Hlen]|(pre & b & rest & -> & Hpre & Hlen & Hb)].
    + rewrite ReadVarInt_truncated_eq by assumption. reflexivity.
    + rewrite ReadVarInt_unfold.
      rewrite ReadVarInt_loop_continuation by (try assumption; lia).
      rewrite ReadVarInt_loop_last by (try assumption; lia).
      rewrite Hb. reflexivity.
  - apply ReadVarInt_truncated_eq. exact HT.
Qed.

Lemma ReadVarInt_fails_iff_witness :
  ReadVarInt U32 "vu32" (bytes [0x80; 0x80]) []
  = (None, [],
     [PopContext; OnError [] Msg_UnableToReadU8;
      PushContext (bytes [0x80; 0x80]) "vu32"]).
Proof.
  exact (proj2 (ReadVarInt_fails_iff U32 "vu32" (bytes [0x80; 0x80]) []
                  (or_introl eq_refl)) eq_refl eq_refl).
Defined.

(** X5.  [ReadVarInt] reports one error when it returns [nullopt] and none
    when it returns a value, and it closes the context it has opened
    either way. *)
Theorem ReadVarInt_reports_once (T : IntType) (desc : string) (data : SpanU8)
        (errors : Errors) :
  In T [U32; S32; U64; S64] ->
  match ReadVarInt T desc data errors with
  | (Some _, _, errors') =>
      errors' = PopContext :: PushContext data desc :: errors
  | (None, rest, errors') =>
      exists msg,
        errors' = PopContext :: OnError rest msg
                    :: PushContext data desc :: errors
  end.
Proof.
  intros HT.
  pose proof (kMaxBytes_bits T HT) as [Hbits Hk].
  destruct (ReadVarInt T desc data errors) as [[[v|] rest] errors'] eqn:H.
  - destruct (ReadVarInt_success_inv T desc data errors v rest errors' HT H)
      as (_ & _ & _ & _ & _ & He).
    exact He.
  - rewrite ReadVarInt_unfold in H.
    destruct (ReadVarInt_loop T desc data (PushContext data desc :: errors) 0 0)
      as [[r d] e] eqn:Hl.
    injection H as -> -> <-.
    destruct (ReadVarInt_loop_failure_inv T desc data HT _ 0 0 rest e
                ltac:(lia) Hl)
      as [(_ & _ & -> & ->)|(pre & b & msg & _ & _ & _ & _ & ->)].
    + eexists. reflexivity.
    + exists msg. reflexivity.
Qed.

Lemma ReadVarInt_reports_once_witness :
  exists msg,
    snd (ReadVarInt U32 "vu32" (bytes [0xff; 0xff; 0xff; 0xff; 0x7f; 0x01]) [])
    = [PopContext; OnError (bytes [0x01]) msg;
       PushContext (bytes [0xff; 0xff; 0xff; 0xff; 0x7f; 0x01]) "vu32"].
Proof.
  exact (ReadVarInt_reports_once U32 "vu32"
           (bytes [0xff; 0xff; 0xff; 0xff; 0x7f; 0x01]) []
           (or_introl eq_refl)).
Defined.

(* ================================================================== *)
(** * Counts, strings and vectors on the wire *)

Lemma subspan_app (pre rest : SpanU8) : subspan (pre ++ rest) 0 (size pre) = pre.
Proof.
  unfold subspan, size. rewrite Nat2Z.id. cbn [Z.to_nat skipn].
  rewrite firstn_app, firstn_all, Nat.sub_diag, app_nil_r. reflexivity.
Qed.

Lemma remove_prefix_app (pre rest : SpanU8) :
  remove_prefix (pre ++ rest) (size pre) = rest.
Proof.
  unfold remove_prefix, size. rewrite Nat2Z.id.
  rewrite skipn_app, skipn_all, Nat.sub_diag. reflexivity.
Qed.

Lemma size_nonneg (data : SpanU8) : 0 <= size data.
Proof. unfold size. lia. Qed.

Lemma span_take (data : SpanU8) (n : Z) :
  0 <= n <= size data ->
  exists pre rest, data = pre ++ rest /\ size pre = n.
Proof.
  intros H. exists (firstn (Z.to_nat n) data), (skipn (Z.to_nat n) data).
  split; [symmetry; apply firstn_skipn|].
  unfold size in *. rewrite length_firstn. lia.
Qed.

Lemma U32_listed : In U32 [U32; S32; U64; S64].
Proof. left. reflexivity. Qed.

Lemma leb_value_U32_nonneg (l : list u8) : 0 <= leb_value U32 l.
Proof. unfold leb_value. cbn [is_signed U32]. apply leb_payload_nonneg. Qed.

Lemma ReadCount_of_encoding (pre : list u8) (b : u8) (rest : SpanU8)
      (errors : Errors) :
  leb_encoding U32 pre b = true ->
  ReadCount (pre ++ b :: rest) errors
  = if leb_value U32 (pre ++ [b]) >? size rest then
      (None, rest,
       OnError rest
         (Msg_CountLongerThanData (leb_value U32 (pre ++ [b])) (size rest))
         :: PopContext :: PushContext (pre ++ b :: rest) "index" :: errors)
    else
      (Some (leb_value U32 (pre ++ [b])), rest,
       PopContext :: PushContext (pre ++ b :: rest) "index" :: errors).
Proof.
  intros He. unfold ReadCount, bind, ReadIndex.
  rewrite (ReadVarInt_of_encoding U32 "index" pre b rest errors U32_listed He).
  reflexivity.
Qed.

Lemma ReadCount_success_inv (data : SpanU8) (errors : Errors) (count : Z)
      (rest : SpanU8) (errors' : Errors) :
  ReadCount data errors = (Some count, rest, errors') ->
  exists pre b,
    data = pre ++ b :: rest
    /\ leb_encoding U32 pre b = true
    /\ count = leb_value U32 (pre ++ [b])
    /\ 0 <= count <= size rest
    /\ errors' = PopContext :: PushContext data "index" :: errors.
Proof.
  unfold ReadCount, bind, ReadIndex. intros H.
  destruct (ReadVarInt U32 "index" data errors) as [[[v|] d] e] eqn:Hr;
    [|discriminate H].
  destruct (ReadVarInt_success_inv U32 "index" data errors v d e U32_listed Hr)
    as (pre & b & Hd & He & Hv & Hee).
  destruct (Z.gtb_spec v (size d)) as [Hgt|Hle]; [discriminate H|].
  injection H as <- <- <-.
  exists pre, b. split; [exact Hd|]. split; [exact He|].
  split; [exact Hv|]. split; [|exact Hee].
  split; [rewrite Hv; apply leb_value_U32_nonneg | exact Hle].
Qed.

(** X6.  [ReadCount] reads an index and compares it with the bytes that
    follow: a count above their number is refused with one error reported
    behind the index, any other count is returned. *)
Theorem ReadCount_checks_count (pre : list u8) (b : u8) (rest : SpanU8)
        (errors : Errors) :
  leb_encoding U32 pre b = true ->
  ReadCount (pre ++ b :: rest) errors
  = if leb_value U32 (pre ++ [b]) >? size rest then
      (None, rest,
       OnError rest
         (Msg_CountLongerThanData (leb_value U32 (pre ++ [b])) (size rest))
         :: PopContext :: PushContext (pre ++ b :: rest) "index" :: errors)
    else
      (Some (leb_value U32 (pre ++ [b])), rest,
       PopContext :: PushContext (pre ++ b :: rest) "index" :: errors).
Proof. apply ReadCount_of_encoding. Qed.

Lemma ReadCount_checks_count_witness :
  ReadCount (bytes [0x03; 0x61; 0x62]) []
  = (None, bytes [0x61; 0x62],
     [OnError (bytes [0x61; 0x62]) (Msg_CountLongerThanData 3 2);
      PopContext; PushContext (bytes [0x03; 0x61; 0x62]) "index"]).
Proof.
  exact (ReadCount_checks_count [] (u8_of_Z 0x03) (bytes [0x61; 0x62]) []
           eq_refl).
Defined.

(** X7.  The wire format of a string: [ReadStr] returns a string exactly on a
    span made of an encoding of an index, that many bytes, and whatever
    follows; the string is those bytes and the span left is what follows
    them. *)
Theorem ReadStr_wire_format (desc : string) (data : SpanU8) (errors : Errors) :
  (forall pre b str rest,
      data = pre ++ b :: str ++ rest ->
      leb_encoding U32 pre b = true ->
      leb_value U32 (pre ++ [b]) = size str ->
      ReadStr desc data errors
      = (Some str, rest,
         PopContext :: PopContext :: PushContext data "index"
           :: PushContext data desc :: errors))
  /\ (forall str rest errors',
         ReadStr desc data errors = (Some str, rest, errors') ->
         exists pre b,
           data = pre ++ b :: str ++ rest
           /\ leb_encoding U32 pre b = true
           /\ leb_value U32 (pre ++ [b]) = size str).
Proof.
  split.
  - intros pre b str rest -> He Hv.
    unfold ReadStr, ErrorsContextGuard, bind.
    rewrite (ReadCount_of_encoding pre b (str ++ rest) _ He), Hv.
    assert (H : (size str >? size (str ++ rest)) = false).
    { rewrite size_app. pose proof (size_nonneg rest).
      destruct (Z.gtb_spec (size str) (size str + size rest)); [lia|reflexivity]. }
    rewrite H, H, subspan_app, remove_prefix_app. reflexivity.
  - intros str rest errors' H.
    unfold ReadStr, ErrorsContextGuard, bind in H.
    destruct (ReadCount data (PushContext data desc :: errors))
      as [[[len|] d] e] eqn:Hc; [|discriminate H].
    destruct (ReadCount_success_inv data _ len d e Hc)
      as (pre & b & Hd & He & Hv & Hlen & _).
    destruct (Z.gtb_spec len (size d)) as [Hgt|_]; [lia|].
    destruct (span_take d len Hlen) as (s & r & Hsr & Hs).
    subst d. rewrite <- Hs in H.
    rewrite subspan_app, remove_prefix_app in H.
    injection H as <- <- _.
    exists pre, b. split; [exact Hd|]. split; [exact He|]. lia.
Qed.

Lemma ReadStr_wire_format_witness :
  ReadStr "name" (bytes [0x02; 0x68; 0x69; 0x00]) []
  = (Some (bytes [0x68; 0x69]), bytes [0x00],
     [PopContext; PopContext;
      PushContext (bytes [0x02; 0x68; 0x69; 0x00]) "index";
      PushContext (bytes [0x02; 0x68; 0x69; 0x00]) "name"]).
Proof.
  exact (proj1 (ReadStr_wire_format "name" (bytes [0x02; 0x68; 0x69; 0x00]) [])
               [] (u8_of_Z 0x02) (bytes [0x68; 0x69]) (bytes [0x00])
               eq_refl eq_refl eq_refl).
Defined.

Lemma ReadVec_loop_length {T : Type} (read : Reader T) (n : nat) :
  forall (result : list T) (data : SpanU8) (errors : Errors) (v : list T)
         (rest : SpanU8) (errors' : Errors),
    ReadVec_loop read n result data errors = (Some v, rest, errors') ->
    List.length v = (List.length result + n)%nat.
Proof.
  induction n as [|n IH]; intros result data errors v rest errors' H.
  - cbn [ReadVec_loop] in H. unfold ret in H. injection H as <- _ _. lia.
  - cbn [ReadVec_loop] in H. unfold bind in H.
    destruct (read data errors) as [[[elt|] d] e]; [|discriminate H].
    apply IH in H. rewrite H, length_app. cbn [List.length]. lia.
Qed.

(** X8.  A vector [ReadVec] returns has as many elements as the count that
    precedes them on the wire says, and no more than there are bytes
    behind the count: a failed element makes the whole read fail. *)
Theorem ReadVec_length {T : Type} (read : Reader T) (desc : string)
        (data : SpanU8) (errors : Errors) (v : list T) (rest : SpanU8)
        (errors' : Errors) :
  ReadVec read desc data errors = (Some v, rest, errors') ->
  exists pre b elements,
    data = pre ++ b :: elements
    /\ leb_encoding U32 pre b = true
    /\ Z.of_nat (List.length v) = leb_value U32 (pre ++ [b])
    /\ Z.of_nat (List.length v) <= size elements.
Proof.
  intros H. unfold ReadVec, ErrorsContextGuard, bind in H.
  destruct (ReadCount data (PushContext data desc :: errors))
    as [[[len|] d] e] eqn:Hc; [|discriminate H].
  destruct (ReadCount_success_inv data _ len d e Hc)
    as (pre & b & Hd & He & Hv & Hlen & _).
  destruct (ReadVec_loop read (Z.to_nat len) [] d e) as [[[v'|] d'] e'] eqn:Hl;
    [|discriminate H].
  injection H as <- _ _.
  apply ReadVec_loop_length in Hl. cbn [List.length] in Hl.
  exists pre, b, d. split; [exact Hd|]. split; [exact He|].
  rewrite Hl. split; lia.
Qed.

Lemma ReadVec_length_witness :
  exists pre b elements,
    bytes [0x02; 0x05; 0x06; 0x07] = pre ++ b :: elements
    /\ leb_encoding U32 pre b = true
    /\ Z.of_nat (List.length [5; 6]) = leb_value U32 (pre ++ [b])
    /\ Z.of_nat (List.length [5; 6]) <= size elements.
Proof.
  exact (ReadVec_length ReadIndex "v" (bytes [0x02; 0x05; 0x06; 0x07]) []
           [5; 6] (bytes [0x07])
           (snd (ReadVec ReadIndex "v" (bytes [0x02; 0x05; 0x06; 0x07]) []))
           eq_refl).
Defined.

(* ================================================================== *)
(** * What the readers keep to *)

Lemma well_behaved_intro {A : Type} (m : Reader A) :
  (forall data errors r data' errors',
      m data errors = (r, data', errors') ->
      suffix data' data
      /\ (exists new, errors' = new ++ errors)
      /\ match r with
         | Some _ =>
             error_count errors' = error_count errors
             /\ context_depth errors' = context_depth errors
         | None =>
             (error_count errors < error_count errors')%nat
             /\ context_depth errors <= context_depth errors'
         end) ->
  well_behaved m.
Proof.
  intros H data errors.
  destruct (m data errors) as [[r d] e] eqn:E. cbn [fst snd].
  exact (H data errors r d e E).
Qed.

Lemma well_behaved_elim {A : Type} (m : Reader A) :
  well_behaved m ->
  forall data errors r data' errors',
    m data errors = (r, data', errors') ->
    suffix data' data
    /\ (exists new, errors' = new ++ errors)
    /\ match r with
       | Some _ =>
           error_count errors' = error_count errors
           /\ context_depth errors' = context_depth errors
       | None =>
           (error_count errors < error_count errors')%nat
           /\ context_depth errors <= context_depth errors'
       end.
Proof.
  intros H data errors r d e E. specialize (H data errors).
  rewrite E in H. exact H.
Qed.

Lemma error_count_cons (c : ErrorsCall) (errors : Errors) :
  error_count (c :: errors)
  = if is_OnError c then S (error_count errors) else error_count errors.
Proof. unfold error_count. cbn [filter]. destruct (is_OnError c); reflexivity. Qed.

Lemma grown_refl (errors : Errors) : exists new, errors = new ++ errors.
Proof. exists []. reflexivity. Qed.

Lemma grown_cons (c : ErrorsCall) (errors errors' : Errors) :
  (exists new, errors' = new ++ errors) ->
  exists new, c :: errors' = new ++ errors.
Proof. intros [new ->]. exists (c :: new). reflexivity. Qed.

Lemma grown_trans (e1 e2 e3 : Errors) :
  (exists new, e2 = new ++ e1) -> (exists new, e3 = new ++ e2) ->
  exists new, e3 = new ++ e1.
Proof.
  intros [n1 ->] [n2 ->]. exists (n2 ++ n1). apply app_assoc.
Qed.

Lemma well_behaved_ret {A : Type} (a : A) : well_behaved (ret a).
Proof.
  intros data errors. cbn. split; [apply suffix_refl|].
  split; [apply grown_refl|]. split; reflexivity.
Qed.

(** [errors.OnError(...); return nullopt;] *)
Lemma well_behaved_fail {A : Type} (msg : Message) :
  well_behaved (errors_OnError msg ;;; @nullopt A).
Proof.
  intros data errors. cbn. split; [apply suffix_refl|].
  split; [apply grown_cons, grown_refl|].
  unfold error_count; cbn; split; lia.
Qed.

Lemma well_behaved_bind {A B : Type} (m : Reader A) (k : A -> Reader B) :
  well_behaved m -> (forall a, well_behaved (k a)) -> well_behaved (bind m k).
Proof.
  intros Hm Hk. apply well_behaved_intro.
  intros data errors r d e E. unfold bind in E.
  destruct (m data errors) as [[[a|] d1] e1] eqn:Em.
  - destruct (well_behaved_elim m Hm _ _ _ _ _ Em) as (S1 & G1 & C1 & D1).
    destruct (well_behaved_elim (k a) (Hk a) _ _ _ _ _ E)
      as (S2 & G2 & H2).
    split; [exact (suffix_trans _ _ _ S2 S1)|].
    split; [exact (grown_trans _ _ _ G1 G2)|].
    destruct r; destruct H2 as [C2 D2]; split; lia.
  - injection E as <- <- <-.
    exact (well_behaved_elim m Hm _ _ _ _ _ Em).
Qed.

Lemma well_behaved_ErrorsContextGuard {A : Type} (desc : string)
      (m : Reader A) :
  well_behaved m -> well_behaved (ErrorsContextGuard desc m).
Proof.
  intros Hm. apply well_behaved_intro.
  intros data errors r d e E. unfold ErrorsContextGuard in E.
  destruct (m data (PushContext data desc :: errors)) as [[r1 d1] e1] eqn:Em.
  injection E as <- <- <-.
  destruct (well_behaved_elim m Hm _ _ _ _ _ Em) as (S1 & [new G1] & H1).
  split; [exact S1|]. split.
  - exists (PopContext :: new ++ [PushContext data desc]).
    rewrite G1. cbn [app]. rewrite <- app_assoc. reflexivity.
  - rewrite error_count_cons. cbn [is_OnError context_depth].
    rewrite error_count_cons in H1. cbn [is_OnError context_depth] in H1.
    destruct r1; destruct H1 as [C1 D1]; split; lia.
Qed.

Lemma well_behaved_WASP_TRY_READ_CONTEXT {A : Type} (m : Reader A)
      (desc : string) :
  well_behaved m -> well_behaved (WASP_TRY_READ_CONTEXT m desc).
Proof.
  intros Hm. apply well_behaved_intro.
  intros data errors r d e E.
  unfold WASP_TRY_READ_CONTEXT, bind, errors_PushContext, errors_PopContext,
    ret in E.
  destruct (m data (PushContext data desc :: errors)) as [[[a|] d1] e1] eqn:Em;
    injection E as <- <- <-;
    destruct (well_behaved_elim m Hm _ _ _ _ _ Em) as (S1 & [new G1] & H1);
    (split; [exact S1|]); rewrite error_count_cons in H1;
    cbn [is_OnError context_depth] in H1; destruct H1 as [C1 D1].
  - split.
    + exists (PopContext :: new ++ [PushContext data desc]).
      rewrite G1. cbn [app]. rewrite <- app_assoc. reflexivity.
    + rewrite error_count_cons. cbn [is_OnError context_depth]. split; lia.
  - split.
    + exists (new ++ [PushContext data desc]).
      rewrite G1. rewrite <- app_assoc. reflexivity.
    + split; lia.
Qed.

Lemma well_behaved_Read_u8 : well_behaved Read_u8.
Proof.
  intros [|b data] errors; cbn.
  - split; [apply suffix_refl|]. split; [apply grown_cons, grown_refl|].
    unfold error_count; cbn; split; lia.
  - split; [apply suffix_cons_r, suffix_refl|].
    split; [apply grown_refl|]. split; reflexivity.
Qed.

Lemma well_behaved_ReadBytes (N : Z) : well_behaved (ReadBytes N).
Proof.
  intros data errors.
  destruct (advances_ReadBytes N data errors) as [pre Hpre].
  split; [exists pre; exact Hpre|].
  unfold ReadBytes. destruct (size data <? N); cbn [fst snd].
  - split; [apply grown_cons, grown_refl|].
    unfold error_count; cbn; split; lia.
  - split; [apply grown_refl|]. split; reflexivity.
Qed.

Lemma well_behaved_ReadVarInt_loop (T : IntType) (desc : string)
      (data : SpanU8) :
  forall (i result : Z) (errors : Errors),
      (exists new,
          snd (ReadVarInt_loop T desc data errors i result) = new ++ errors)
      /\ match fst (fst (ReadVarInt_loop T desc data errors i result)) with
         | Some _ =>
             error_count (snd (ReadVarInt_loop T desc data errors i result))
             = error_count errors
             /\ context_depth
                  (snd (ReadVarInt_loop T desc data errors i result))
                = context_depth errors
         | None =>
             (error_count errors
              < error_count
                  (snd (ReadVarInt_loop T desc data errors i result)))%nat
             /\ context_depth errors
                <= context_depth
                     (snd (ReadVarInt_loop T desc data errors i result))
         end.
Proof.
  induction data as [|b data IH]; intros i result errors.
  - cbn. split; [apply grown_cons, grown_refl|].
    unfold error_count; cbn; split; lia.
  - cbn [ReadVarInt_loop].
    destruct (i + 1 =? kMaxBytes T).
    + destruct ((Z.land (u8_to_Z b) (kMask T) =? 0)
                || is_signed T && (Z.land (u8_to_Z b) (kMask T) =? kOnes T)).
      * cbn. split; [apply grown_refl|]. split; reflexivity.
      * destruct (is_signed T); cbn;
          (split; [apply grown_cons, grown_refl|]);
          unfold error_count; cbn; split; lia.
    + destruct (Z.land (u8_to_Z b) 128 =? 0).
      * cbn. split; [apply grown_refl|]. split; reflexivity.
      * apply IH.
Qed.

Lemma well_behaved_ReadVarInt (T : IntType) (desc : string) :
  well_behaved (ReadVarInt T desc).
Proof.
  unfold ReadVarInt. apply well_behaved_ErrorsContextGuard.
  intros data errors.
  split; [apply advances_ReadVarInt_loop|].
  apply well_behaved_ReadVarInt_loop.
Qed.

Lemma well_behaved_ReadCount : well_behaved ReadCount.
Proof.
  unfold ReadCount. apply well_behaved_bind; [apply well_behaved_ReadVarInt|].
  intros count data errors.
  destruct (count >? size data); cbn [fst snd].
  - split; [apply suffix_refl|]. split; [apply grown_cons, grown_refl|].
    unfold error_count; cbn; split; lia.
  - split; [apply suffix_refl|]. split; [apply grown_refl|].
    split; reflexivity.
Qed.

Lemma well_behaved_ReadStr (desc : string) : well_behaved (ReadStr desc).
Proof.
  unfold ReadStr. apply well_behaved_ErrorsContextGuard.
  apply well_behaved_bind; [apply well_behaved_ReadCount|].
  intros len data errors.
  destruct (len >? size data); cbn [fst snd].
  - split; [apply suffix_refl|]. split; [apply grown_cons, grown_refl|].
    unfold error_count; cbn; split; lia.
  - split.
    + exists (firstn (Z.to_nat len) data). unfold remove_prefix.
      symmetry. apply firstn_skipn.
    + split; [apply grown_refl|]. split; reflexivity.
Qed.

Lemma well_behaved_ReadVec_loop {T : Type} (read : Reader T) (n : nat) :
  well_behaved read -> forall result, well_behaved (ReadVec_loop read n result).
Proof.
  intros Hread. induction n as [|n IH]; intros result; cbn [ReadVec_loop].
  - apply well_behaved_ret.
  - apply well_behaved_bind; [exact Hread|]. intros elt. apply IH.
Qed.

Lemma well_behaved_ReadVec {T : Type} (read : Reader T) (desc : string) :
  well_behaved read -> well_behaved (ReadVec read desc).
Proof.
  intros Hread. unfold ReadVec. apply well_behaved_ErrorsContextGuard.
  apply well_behaved_bind; [apply well_behaved_ReadCount|]. intros len.
  apply well_behaved_ReadVec_loop. exact Hread.
Qed.

Lemma well_behaved_WASP_TRY_DECODE {A : Type} (decode : u8 -> option A)
      (in_var : u8) (name : string) :
  well_behaved (WASP_TRY_DECODE decode in_var name).
Proof.
  unfold WASP_TRY_DECODE. destruct (decode in_var).
  - apply well_behaved_ret.
  - apply well_behaved_fail.
Qed.

(** The readers of an enumeration: a byte, then its [Decode]. *)
Lemma well_behaved_decoded {A : Type} (decode : u8 -> option A)
      (desc name : string) :
  well_behaved
    (ErrorsContextGuard desc
       (WASP_TRY_READ val <- Read_u8 ;; WASP_TRY_DECODE decode val name)).
Proof.
  apply well_behaved_ErrorsContextGuard.
  apply well_behaved_bind; [apply well_behaved_Read_u8|]. intros val.
  apply well_behaved_WASP_TRY_DECODE.
Qed.

Lemma well_behaved_Read_MemArg : well_behaved Read_MemArg.
Proof.
  unfold Read_MemArg, Read_u32.
  apply well_behaved_bind;
    [apply well_behaved_WASP_TRY_READ_CONTEXT, well_behaved_ReadVarInt|].
  intros a.
  apply well_behaved_bind;
    [apply well_behaved_WASP_TRY_READ_CONTEXT, well_behaved_ReadVarInt|].
  intros o. apply well_behaved_ret.
Qed.

Ltac well_behaved_step :=
  first
    [ apply well_behaved_ret
    | apply well_behaved_fail
    | apply well_behaved_decoded
    | apply well_behaved_WASP_TRY_READ_CONTEXT
    | apply well_behaved_ReadVarInt
    | apply well_behaved_ReadCount
    | apply well_behaved_ReadStr
    | apply well_behaved_ReadVec
    | apply well_behaved_Read_u8
    | apply well_behaved_ReadBytes
    | apply well_behaved_Read_MemArg
    | apply well_behaved_ErrorsContextGuard
    | (apply well_behaved_bind; [|intro]) ].

Section WellBehaved.
Variable BlockType : Type.
Variable BlockType_Decode : u8 -> option BlockType.
Variable Opcode_Decode : u8 -> option Opcode.
Variable ValType : Type.
Variable ElemType : Type.
Variable Mutability : Type.
Variable ValType_Decode : u8 -> option ValType.
Variable ElemType_Decode : u8 -> option ElemType.
Variable ExternalKind_Decode : u8 -> option ExternalKind.
Variable Mutability_Decode : u8 -> option Mutability.

Lemma well_behaved_Read_Instr :
  well_behaved (Read_Instr BlockType_Decode Opcode_Decode).
Proof.
  unfold Read_Instr.
  apply well_behaved_bind;
    [apply well_behaved_WASP_TRY_READ_CONTEXT, well_behaved_decoded|].
  intros opcode.
  destruct opcode;
    unfold Read_BlockType, ReadIndex, Read_s32, Read_s64, Read_f32, Read_f64;
    repeat well_behaved_step.
Qed.


Lemma grew_refl (errors : Errors) : grew errors errors.
Proof. split; [apply grown_refl|]. split; lia. Qed.

Lemma grew_trans (e1 e2 e3 : Errors) : grew e1 e2 -> grew e2 e3 -> grew e1 e3.
Proof.
  intros (G1 & C1 & D1) (G2 & C2 & D2).
  split; [exact (grown_trans _ _ _ G1 G2)|]. split; lia.
Qed.

Lemma well_behaved_grew {A : Type} (m : Reader A) (data : SpanU8)
      (errors : Errors) :
  well_behaved m -> grew errors (snd (m data errors)).
Proof.
  intros H. destruct (H data errors) as (_ & G & Hr).
  split; [exact G|].
  destruct (fst (fst (m data errors))); destruct Hr; split; lia.
Qed.

(** [Increment] closes no more contexts than it opens; when it leaves the
    iterator short of the end, the iterator was short of the end, an instruction has been read
    without an error, and the span has moved forward. *)
Lemma Increment_grew (it it' : LazySequenceIterator BlockType)
      (errors errors' : Errors) :
  Increment BlockType_Decode Opcode_Decode it errors = (it', errors') ->
  grew errors errors'
  /\ (is_end it' = false ->
      is_end it = false
      /\ error_count errors' = error_count errors
      /\ context_depth errors' = context_depth errors
      /\ suffix (data_ it') (data_ it)).
Proof.
  unfold Increment. intros H.
  destruct (negb (empty it)).
  - pose proof (well_behaved_Read_Instr (data_ it) errors) as Hwb.
    pose proof (well_behaved_grew _ (data_ it) errors well_behaved_Read_Instr)
      as Hg.
    destruct (Read_Instr BlockType_Decode Opcode_Decode (data_ it) errors)
      as [[[instr|] d1] e1]; cbn [fst snd] in *;
      injection H as <- <-; (split; [exact Hg|]); cbn; intros Hend.
    + destruct Hwb as (S1 & _ & C1 & D1). repeat split; assumption.
    + discriminate Hend.
  - injection H as <- <-. split; [apply grew_refl|].
    cbn. intros Hend. discriminate Hend.
Qed.

Lemma LazyInstrs_begin_grew (data : SpanU8) (errors : Errors)
      (it : LazySequenceIterator BlockType) (errors' : Errors) :
  LazyInstrs_begin BlockType_Decode Opcode_Decode data errors = (it, errors') ->
  grew errors errors'
  /\ (is_end it = false ->
      error_count errors' = error_count errors
      /\ context_depth errors' = context_depth errors
      /\ suffix (data_ it) data).
Proof.
  unfold LazyInstrs_begin. intros H.
  destruct data as [|c data].
  - cbn in H. injection H as <- <-. split; [apply grew_refl|].
    cbn. intros Hend. discriminate Hend.
  - cbn [empty data_ negb] in H.
    destruct (Increment_grew _ _ _ _ H) as (Hg & Hend).
    split; [exact Hg|]. intros He.
    destruct (Hend He) as (_ & C & D & S1). repeat split; assumption.
Qed.

Lemma failed_after (errors e1 : Errors) (pos : SpanU8) (msg : Message) :
  grew errors e1 ->
  (exists new, OnError pos msg :: e1 = new ++ errors)
  /\ (error_count errors < error_count (OnError pos msg :: e1))%nat
  /\ context_depth errors <= context_depth (OnError pos msg :: e1).
Proof.
  intros (G & C & D). split; [apply grown_cons; exact G|].
  rewrite error_count_cons. cbn [is_OnError context_depth]. split; lia.
Qed.

Lemma well_behaved_Read_ConstExpr :
  well_behaved (Read_ConstExpr BlockType_Decode Opcode_Decode).
Proof.
  apply well_behaved_intro. intros data errors r d e E.
  unfold Read_ConstExpr in E.
  destruct (LazyInstrs_begin BlockType_Decode Opcode_Decode data errors)
    as [iter e1] eqn:Hb.
  destruct (LazyInstrs_begin_grew _ _ _ _ Hb) as (G1 & Hend1).
  destruct (is_end iter) eqn:He1.
  { injection E as <- <- <-. split; [apply suffix_refl|].
    apply failed_after. exact G1. }
  destruct (Hend1 eq_refl) as (C1 & D1 & S1).
  destruct (value_ iter) as [instr|].
  2:{ injection E as <- <- <-. split; [apply suffix_refl|].
      apply failed_after. exact G1. }
  destruct (Increment BlockType_Decode Opcode_Decode iter e1)
    as [iter2 e2] eqn:Hi.
  destruct (Increment_grew _ _ _ _ Hi) as (G2 & Hend2).
  pose proof (grew_trans _ _ _ G1 G2) as G12.
  destruct (opcode instr);
    try (injection E as <- <- <-; split; [apply suffix_refl|];
         apply failed_after; exact G12);
    (destruct (is_end iter2) eqn:He2; cbn [orb] in E;
     [injection E as <- <- <-; split; [apply suffix_refl|];
      apply failed_after; exact G12|]);
    (destruct (Hend2 eq_refl) as (_ & C2 & D2 & S2));
    (destruct (match value_ iter2 with
               | Some {| opcode := End |} => false
               | _ => true
               end);
     [injection E as <- <- <-; split; [apply suffix_refl|];
      apply failed_after; exact G12|]);
    injection E as <- <- <-;
    (split;
     [exists (firstn (Z.to_nat (size data - size (data_ iter2))) data);
      unfold remove_prefix; symmetry; apply firstn_skipn|]);
    (split; [exact (proj1 G12)|]); split; lia.
Qed.

Lemma well_behaved_Read_Limits : well_behaved Read_Limits.
Proof.
  unfold Read_Limits, Read_u32. cbv zeta.
  apply well_behaved_ErrorsContextGuard.
  apply well_behaved_bind; [repeat well_behaved_step|]. intros flags.
  apply well_behaved_bind; [repeat well_behaved_step|]. intros min.
  destruct (negb (Z.land flags 1 =? 0)); repeat well_behaved_step.
Qed.

Lemma well_behaved_Read_LocalDecl :
  well_behaved (Read_LocalDecl ValType_Decode).
Proof.
  unfold Read_LocalDecl, Read_ValType, ReadIndex. repeat well_behaved_step.
Qed.

Lemma well_behaved_Read_TableType :
  well_behaved (Read_TableType ElemType_Decode).
Proof.
  unfold Read_TableType, Read_ElemType.
  apply well_behaved_ErrorsContextGuard.
  apply well_behaved_bind; [apply well_behaved_decoded|]. intros elemtype.
  apply well_behaved_bind; [apply well_behaved_Read_Limits|]. intros limits.
  apply well_behaved_ret.
Qed.

Lemma well_behaved_Read_MemoryType : well_behaved Read_MemoryType.
Proof.
  unfold Read_MemoryType. apply well_behaved_ErrorsContextGuard.
  apply well_behaved_bind; [apply well_behaved_Read_Limits|]. intros limits.
  apply well_behaved_ret.
Qed.

Lemma well_behaved_Read_GlobalType :
  well_behaved (Read_GlobalType ValType_Decode Mutability_Decode).
Proof.
  unfold Read_GlobalType, Read_ValType, Read_Mutability.
  repeat well_behaved_step.
Qed.

Lemma well_behaved_Read_Code : well_behaved (Read_Code ValType_Decode).
Proof.
  unfold Read_Code. apply well_behaved_ErrorsContextGuard.
  apply well_behaved_bind; [apply well_behaved_ReadCount|]. intros body_size.
  apply well_behaved_bind; [apply well_behaved_ReadBytes|]. intros body.
  intros data errors.
  pose proof (well_behaved_ReadVec (Read_LocalDecl ValType_Decode)
                "local decls" well_behaved_Read_LocalDecl body errors) as H.
  destruct (ReadVec (Read_LocalDecl ValType_Decode) "local decls" body errors)
    as [[[local_decls|] body'] errors']; cbn [fst snd] in *;
    destruct H as (_ & G & H); (split; [apply suffix_refl|]);
    (split; [exact G | exact H]).
Qed.

(** X9.  Each reader listed below (the primitives, the integers, counts,
    strings and vectors, the decoded enumerations, the types, the
    instructions and constant expressions, the imports and the items of the
    sections) moves the cursor forward only and adds its calls to those the
    error sink held.  When it returns a value it has reported no error and
    leaves as many contexts open as it found; when it returns [nullopt] it
    has reported at least one error and leaves no fewer contexts open than
    it found.  The list leaves out [Read<SectionId>], [Read<TypeEntry>] and
    [Read<Section>], which are not embedded here. *)
Theorem readers_well_behaved :
  (well_behaved Read_u8
   /\ (forall N, well_behaved (ReadBytes N))
   /\ (forall T desc, well_behaved (ReadVarInt T desc))
   /\ well_behaved ReadCount
   /\ (forall desc, well_behaved (ReadStr desc))
   /\ (forall (A : Type) (read : Reader A) desc,
          well_behaved read -> well_behaved (ReadVec read desc)))
  /\ (well_behaved (Read_ValType ValType_Decode)
      /\ well_behaved (Read_BlockType BlockType_Decode)
      /\ well_behaved (Read_ElemType ElemType_Decode)
      /\ well_behaved (Read_ExternalKind ExternalKind_Decode)
      /\ well_behaved (Read_Mutability Mutability_Decode)
      /\ well_behaved (Read_Opcode Opcode_Decode))
  /\ (well_behaved Read_Limits
      /\ well_behaved (Read_LocalDecl ValType_Decode)
      /\ well_behaved (Read_FuncType ValType_Decode)
      /\ well_behaved (Read_TableType ElemType_Decode)
      /\ well_behaved Read_MemoryType
      /\ well_behaved (Read_GlobalType ValType_Decode Mutability_Decode))
  /\ (well_behaved Read_MemArg
      /\ well_behaved (Read_Instr BlockType_Decode Opcode_Decode)
      /\ well_behaved (Read_ConstExpr BlockType_Decode Opcode_Decode))
  /\ (well_behaved
        (Read_Import ValType_Decode ElemType_Decode ExternalKind_Decode
                     Mutability_Decode)
      /\ well_behaved Read_Func
      /\ well_behaved (Read_Table ElemType_Decode)
      /\ well_behaved Read_Memory
      /\ well_behaved
           (Read_Global BlockType_Decode Opcode_Decode ValType_Decode
                        Mutability_Decode)
      /\ well_behaved (Read_Export ExternalKind_Decode)
      /\ well_behaved Read_Start
      /\ well_behaved (Read_ElementSegment BlockType_Decode Opcode_Decode)
      /\ well_behaved (Read_Code ValType_Decode)
      /\ well_behaved (Read_DataSegment BlockType_Decode Opcode_Decode)).
Proof.
  split; [|split; [|split; [|split]]].
  - split; [apply well_behaved_Read_u8|].
    split; [apply well_behaved_ReadBytes|].
    split; [apply well_behaved_ReadVarInt|].
    split; [apply well_behaved_ReadCount|].
    split; [apply well_behaved_ReadStr|].
    intros A read desc. apply well_behaved_ReadVec.
  - repeat split; apply well_behaved_decoded.
  - split; [apply well_behaved_Read_Limits|].
    split; [apply well_behaved_Read_LocalDecl|].
    split; [unfold Read_FuncType, Read_ValType; repeat well_behaved_step|].
    split; [apply well_behaved_Read_TableType|].
    split; [apply well_behaved_Read_MemoryType|].
    apply well_behaved_Read_GlobalType.
  - split; [apply well_behaved_Read_MemArg|].
    split; [apply well_behaved_Read_Instr | apply well_behaved_Read_ConstExpr].
  - split.
    { unfold Read_Import, Read_ExternalKind, ReadIndex.
      apply well_behaved_ErrorsContextGuard.
      apply well_behaved_bind; [apply well_behaved_ReadStr|]. intros module.
      apply well_behaved_bind; [apply well_behaved_ReadStr|]. intros name.
      apply well_behaved_bind; [apply well_behaved_decoded|]. intros kind.
      destruct kind;
        (apply well_behaved_bind;
         [first [ apply well_behaved_ReadVarInt
                | apply well_behaved_Read_TableType
                | apply well_behaved_Read_MemoryType
                | apply well_behaved_Read_GlobalType ]
         | intro; apply well_behaved_ret]). }
    split; [unfold Read_Func, ReadIndex; repeat well_behaved_step|].
    split.
    { unfold Read_Table. apply well_behaved_ErrorsContextGuard.
      apply well_behaved_bind; [apply well_behaved_Read_TableType|].
      intro. apply well_behaved_ret. }
    split.
    { unfold Read_Memory. apply well_behaved_ErrorsContextGuard.
      apply well_behaved_bind; [apply well_behaved_Read_MemoryType|].
      intro. apply well_behaved_ret. }
    split.
    { unfold Read_Global. apply well_behaved_ErrorsContextGuard.
      apply well_behaved_bind; [apply well_behaved_Read_GlobalType|]. intro.
      apply well_behaved_bind; [apply well_behaved_Read_ConstExpr|]. intro.
      apply well_behaved_ret. }
    split.
    { unfold Read_Export, Read_ExternalKind, ReadIndex.
      repeat well_behaved_step. }
    split; [unfold Read_Start, ReadIndex; repeat well_behaved_step|].
    split.
    { unfold Read_ElementSegment, ReadIndex.
      apply well_behaved_ErrorsContextGuard.
      apply well_behaved_bind;
        [apply well_behaved_WASP_TRY_READ_CONTEXT, well_behaved_ReadVarInt|].
      intro.
      apply well_behaved_bind;
        [apply well_behaved_WASP_TRY_READ_CONTEXT, well_behaved_Read_ConstExpr|].
      intro. repeat well_behaved_step. }
    split; [apply well_behaved_Read_Code|].
    unfold Read_DataSegment, ReadIndex.
    apply well_behaved_ErrorsContextGuard.
    apply well_behaved_bind;
      [apply well_behaved_WASP_TRY_READ_CONTEXT, well_behaved_ReadVarInt|].
    intro.
    apply well_behaved_bind;
      [apply well_behaved_WASP_TRY_READ_CONTEXT, well_behaved_Read_ConstExpr|].
    intro. repeat well_behaved_step.
Qed.
End WellBehaved.

(* ================================================================== *)
(** * Contexts, instructions and the lazy sequence *)

Lemma ReadVarInt_loop_depth (T : IntType) (desc : string) (data : SpanU8) :
  forall (errors : Errors) (i result : Z),
    context_depth (snd (ReadVarInt_loop T desc data errors i result))
    = context_depth errors.
Proof.
  induction data as [|b data IH]; intros errors i result; [reflexivity|].
  cbn [ReadVarInt_loop].
  destruct (i + 1 =? kMaxBytes T).
  - destruct ((Z.land (u8_to_Z b) (kMask T) =? 0)
              || is_signed T && (Z.land (u8_to_Z b) (kMask T) =? kOnes T));
      [reflexivity|].
    destruct (is_signed T); reflexivity.
  - destruct (Z.land (u8_to_Z b) 128 =? 0); [reflexivity | apply IH].
Qed.

Lemma ReadVarInt_depth (T : IntType) (desc : string) (data : SpanU8)
      (errors : Errors) :
  context_depth (snd (ReadVarInt T desc data errors)) = context_depth errors.
Proof.
  rewrite ReadVarInt_unfold.
  pose proof (ReadVarInt_loop_depth T desc data
                (PushContext data desc :: errors) 0 0) as H.
  destruct (ReadVarInt_loop T desc data (PushContext data desc :: errors) 0 0)
    as [[r d] e].
  cbn [snd context_depth] in *. lia.
Qed.

Lemma WASP_TRY_READ_CONTEXT_ReadVarInt_depth (T : IntType) (desc ctx : string)
      (data : SpanU8) (errors : Errors) :
  context_depth (snd (WASP_TRY_READ_CONTEXT (ReadVarInt T desc) ctx data errors))
  = match fst (fst (WASP_TRY_READ_CONTEXT (ReadVarInt T desc) ctx data errors))
    with
    | Some _ => context_depth errors
    | None => context_depth errors + 1
    end.
Proof.
  unfold WASP_TRY_READ_CONTEXT, bind, errors_PushContext, errors_PopContext, ret.
  pose proof (ReadVarInt_depth T desc data (PushContext data ctx :: errors))
    as H.
  destruct (ReadVarInt T desc data (PushContext data ctx :: errors))
    as [[[v|] d] e]; cbn [fst snd context_depth] in *; lia.
Qed.

(** X10.  [Read(Tag<MemArg>)] has no guard: [WASP_TRY_READ_CONTEXT] returns
    before its [PopContext] when the read fails, so a [nullopt] leaves one
    context open on the error sink, the one of the integer that could not
    be read; a value leaves none. *)
Theorem Read_MemArg_contexts (data : SpanU8) (errors : Errors) :
  context_depth (snd (Read_MemArg data errors))
  = match fst (fst (Read_MemArg data errors)) with
    | Some _ => context_depth errors
    | None => context_depth errors + 1
    end.
Proof.
  destruct (Read_MemArg data errors) as [[r d] e] eqn:H. cbn [fst snd].
  unfold Read_MemArg, Read_u32, bind in H.
  pose proof (WASP_TRY_READ_CONTEXT_ReadVarInt_depth U32 "vu32" "align log2"
                data errors) as H1.
  destruct (WASP_TRY_READ_CONTEXT (ReadVarInt U32 "vu32") "align log2"
              data errors) as [[[a|] d1] e1]; cbn [fst snd] in H1;
    [|injection H as <- <- <-; exact H1].
  pose proof (WASP_TRY_READ_CONTEXT_ReadVarInt_depth U32 "vu32" "offset"
                d1 e1) as H2.
  destruct (WASP_TRY_READ_CONTEXT (ReadVarInt U32 "vu32") "offset" d1 e1)
    as [[[o|] d2] e2]; cbn [fst snd] in H2;
    injection H as <- <- <-; lia.
Qed.

Section InstrProofs.
Variable BlockType : Type.
Variable BlockType_Decode : u8 -> option BlockType.
Variable Opcode_Decode : u8 -> option Opcode.

Lemma opcode_of_ret (op : Opcode) (imm : Immediate BlockType) :
  forall d e i d' e',
    ret {| opcode := op; immediate := imm |} d e = (Some i, d', e') ->
    opcode i = op.
Proof. intros d e i d' e' H. injection H as <- _ _. reflexivity. Qed.

Lemma opcode_of_fail (op : Opcode) (msg : Message) :
  forall d e (i : Instr BlockType) d' e',
    (errors_OnError msg ;;; nullopt) d e = (Some i, d', e') ->
    opcode i = op.
Proof. intros d e i d' e' H. discriminate H. Qed.

Lemma opcode_of_bind {A : Type} (op : Opcode) (m : Reader A)
      (k : A -> Reader (Instr BlockType)) :
  (forall a d e i d' e', k a d e = (Some i, d', e') -> opcode i = op) ->
  forall d e i d' e', bind m k d e = (Some i, d', e') -> opcode i = op.
Proof.
  intros Hk d e i d' e' H. unfold bind in H.
  destruct (m d e) as [[[a|] d1] e1]; [|discriminate H].
  exact (Hk a _ _ _ _ _ H).
Qed.

Lemma Read_Instr_first_byte (data : SpanU8) (errors : Errors)
      (instr : Instr BlockType) (d1 : SpanU8) (e1 : Errors) :
  Read_Instr BlockType_Decode Opcode_Decode data errors = (Some instr, d1, e1) ->
  exists b tail,
    data = b :: tail
    /\ Opcode_Decode b = Some (opcode instr)
    /\ suffix d1 tail.
Proof.
  intros H.
  destruct data as [|b tail]; [discriminate H|].
  exists b, tail. split; [reflexivity|].
  unfold Read_Instr in H. unfold bind at 1 in H.
  assert (Hfirst :
    WASP_TRY_READ_CONTEXT (Read_Opcode Opcode_Decode) "opcode" (b :: tail) errors
    = match Opcode_Decode b with
      | Some op =>
          (Some op, tail,
           PopContext :: PopContext :: PushContext (b :: tail) "opcode"
             :: PushContext (b :: tail) "opcode" :: errors)
      | None =>
          (None, tail,
           PopContext :: OnError tail (Msg_Unknown "opcode" b)
             :: PushContext (b :: tail) "opcode"
             :: PushContext (b :: tail) "opcode" :: errors)
      end).
  { unfold WASP_TRY_READ_CONTEXT, Read_Opcode, ErrorsContextGuard, bind,
      errors_PushContext, errors_PopContext, Read_u8, WASP_TRY_DECODE.
    destruct (Opcode_Decode b); reflexivity. }
  rewrite Hfirst in H. clear Hfirst.
  destruct (Opcode_Decode b) as [op|]; [|discriminate H].
  match type of H with
  | ?K tail ?e0 = _ =>
      assert (Hop : forall d e i d' e',
                 K d e = (Some i, d', e') -> opcode i = op);
      [| assert (Hadv : advances K) ]
  end.
  - destruct op;
      repeat first [ apply opcode_of_ret | apply opcode_of_fail
                   | apply opcode_of_bind; intro ].
  - destruct op;
      unfold Read_BlockType, ReadIndex, Read_s32, Read_s64, Read_f32, Read_f64;
      repeat first
        [ apply advances_ret
        | apply advances_nullopt
        | apply advances_errors_OnError
        | apply advances_WASP_TRY_READ_CONTEXT
        | apply advances_ReadVarInt
        | apply advances_ReadVec
        | apply advances_Read_u8
        | apply advances_ReadBytes
        | apply advances_Read_MemArg
        | apply advances_ErrorsContextGuard
        | apply advances_WASP_TRY_DECODE
        | (apply advances_bind; [|intro]) ].
  - split.
    + rewrite (Hop _ _ _ _ _ H). reflexivity.
    + destruct (Hadv tail
                  (PopContext :: PopContext :: PushContext (b :: tail) "opcode"
                     :: PushContext (b :: tail) "opcode" :: errors))
        as [pre Hpre].
      rewrite H in Hpre. exists pre. exact Hpre.
Qed.

(** X11.  An instruction [Read(Tag<Instr>)] returns has the opcode its first
    byte decodes to, and the span left is behind that byte. *)
Theorem Read_Instr_decodes_first_byte (data : SpanU8) (errors : Errors)
        (instr : Instr BlockType) (d1 : SpanU8) (e1 : Errors) :
  Read_Instr BlockType_Decode Opcode_Decode data errors = (Some instr, d1, e1) ->
  exists b tail,
    data = b :: tail
    /\ Opcode_Decode b = Some (opcode instr)
    /\ suffix d1 tail.
Proof. apply Read_Instr_first_byte. Qed.

(** X12.  Every [Increment] of a lazy sequence of instructions ends the
    iteration or shortens the span: the iteration over a span of [n]
    bytes yields at most [n] instructions. *)
Theorem Increment_progress (it : LazySequenceIterator BlockType)
        (errors : Errors) :
  is_end (fst (Increment BlockType_Decode Opcode_Decode it errors)) = true
  \/ (List.length
        (data_ (fst (Increment BlockType_Decode Opcode_Decode it errors)))
      < List.length (data_ it))%nat.
Proof.
  unfold Increment.
  destruct (negb (empty it)); [|left; reflexivity].
  destruct (Read_Instr BlockType_Decode Opcode_Decode (data_ it) errors)
    as [[[instr|] d1] e1] eqn:H; [|left; reflexivity].
  right. cbn [fst data_].
  destruct (Read_Instr_first_byte _ _ _ _ _ H) as (b & tail & Hd & _ & Hs).
  rewrite Hd. apply suffix_length in Hs. cbn [List.length]. lia.
Qed.
End InstrProofs.

Lemma Read_Instr_decodes_first_byte_witness :
  exists b tail,
    bytes [0x41; 0x2a; 0x0b] = b :: tail
    /\ Opcode_Decode_standard b = Some I32Const
    /\ suffix (bytes [0x0b]) tail.
Proof.
  exact (Read_Instr_decodes_first_byte BlockType_standard
           BlockType_Decode_standard Opcode_Decode_standard
           (bytes [0x41; 0x2a; 0x0b]) []
           {| opcode := I32Const; immediate := Imm_s32 42 |}
           (bytes [0x0b])
           (snd (Read_Instr BlockType_Decode_standard Opcode_Decode_standard
                   (bytes [0x41; 0x2a; 0x0b]) []))
           eq_refl).
Defined.

(* ================================================================== *)
(** * The module header and the lazy sections *)

(** X13.  On a span of eight bytes or more the constructor of [LazyModule]
    completes: [magic] is the first four bytes, [version] the next four,
    the sections are what follows, and one error is reported for each of
    the two that differs from the expected bytes, behind the header. *)
Theorem LazyModule_ctor_header (m v rest : SpanU8) (errors : Errors) :
  size m = 4 -> size v = 4 ->
  LazyModule_ctor (m ++ v ++ rest) errors
  = Completed
      {| magic := Some m; version := Some v; sections := rest |}
      ((if SpanU8_eqb v encoding_Version then []
        else [OnError rest (Msg_VersionMismatch encoding_Version v)])
       ++ (if SpanU8_eqb m encoding_Magic then []
           else [OnError rest (Msg_MagicMismatch encoding_Magic m)])
       ++ errors).
Proof.
  intros Hm Hv. unfold LazyModule_ctor.
  rewrite <- Hm at 1. rewrite ReadBytes_app.
  rewrite <- Hv at 1. rewrite ReadBytes_app.
  unfold optional_ne.
  destruct (SpanU8_eqb m encoding_Magic);
    destruct (SpanU8_eqb v encoding_Version); reflexivity.
Qed.

Lemma LazyModule_ctor_header_witness :
  LazyModule_ctor
    (bytes [0x00; 0x61; 0x73; 0x6d] ++ bytes [0x02; 0x00; 0x00; 0x00]
       ++ bytes [0x01])
    []
  = Completed
      {| magic := Some (bytes [0x00; 0x61; 0x73; 0x6d]);
         version := Some (bytes [0x02; 0x00; 0x00; 0x00]);
         sections := bytes [0x01] |}
      [OnError (bytes [0x01])
         (Msg_VersionMismatch encoding_Version (bytes [0x02; 0x00; 0x00; 0x00]))].
Proof.
  exact (LazyModule_ctor_header (bytes [0x00; 0x61; 0x73; 0x6d])
           (bytes [0x02; 0x00; 0x00; 0x00]) (bytes [0x01]) []
           eq_refl eq_refl).
Defined.

(** X14.  The count of a lazy section, when one has been read, is at most the
    number of bytes of the sequence that follows it. *)
Theorem LazySection_ctor_count (data : SpanU8) (errors : Errors) (n : Z) :
  LazySection_count (fst (LazySection_ctor data errors)) = Some n ->
  0 <= n <= size (LazySection_sequence (fst (LazySection_ctor data errors)))
  /\ suffix (LazySection_sequence (fst (LazySection_ctor data errors))) data.
Proof.
  unfold LazySection_ctor.
  destruct (ReadCount data errors) as [[count d] e] eqn:H.
  cbn [fst LazySection_count LazySection_sequence]. intros ->.
  destruct (ReadCount_success_inv data errors n d e H)
    as (pre & b & Hd & _ & _ & Hn & _).
  split; [exact Hn|]. exists (pre ++ [b]). rewrite <- app_assoc. exact Hd.
Qed.

Lemma LazySection_ctor_count_witness :
  0 <= 2
  <= size (LazySection_sequence
             (fst (LazySection_ctor (bytes [0x02; 0x00; 0x01]) [])))
  /\ suffix (LazySection_sequence
               (fst (LazySection_ctor (bytes [0x02; 0x00; 0x01]) [])))
            (bytes [0x02; 0x00; 0x01]).
Proof.
  exact (LazySection_ctor_count (bytes [0x02; 0x00; 0x01]) [] 2 eq_refl).
Defined.

(* ================================================================== *)
(** * Limits, function bodies and data segments on the wire *)

Lemma WASP_TRY_READ_CONTEXT_ReadVarInt_of_encoding (T : IntType)
      (desc ctx : string) (pre : list u8) (b : u8) (rest : SpanU8)
      (errors : Errors) :
  In T [U32; S32; U64; S64] ->
  leb_encoding T pre b = true ->
  WASP_TRY_READ_CONTEXT (ReadVarInt T desc) ctx (pre ++ b :: rest) errors
  = (Some (leb_value T (pre ++ [b])), rest,
     PopContext :: PopContext :: PushContext (pre ++ b :: rest) desc
       :: PushContext (pre ++ b :: rest) ctx :: errors).
Proof.
  intros HT He.
  unfold WASP_TRY_READ_CONTEXT, bind, errors_PushContext, errors_PopContext, ret.
  rewrite (ReadVarInt_of_encoding T desc pre b rest _ HT He). reflexivity.
Qed.

Lemma land_1_even (x : Z) : (Z.land x 1 =? 0) = Z.even x.
Proof.
  change 1 with (Z.ones 1). rewrite Z.land_ones by lia.
  change (2 ^ 1) with 2. rewrite Zeven_mod. reflexivity.
Qed.

(** X15.  [Read(Tag<Limits>)] looks at the lowest bit of the flags and at no
    other: when the flags are even, whatever their other bits are, the
    limits have no maximum and the span left begins behind the minimum;
    when they are odd, the integer behind the minimum is the maximum. *)
Theorem Read_Limits_flags (fpre : list u8) (fb : u8) (mpre : list u8) (mb : u8)
        (errors : Errors) :
  leb_encoding U32 fpre fb = true ->
  leb_encoding U32 mpre mb = true ->
  (Z.even (leb_value U32 (fpre ++ [fb])) = true ->
   forall rest,
     fst (Read_Limits (fpre ++ fb :: mpre ++ mb :: rest) errors)
     = (Some {| Limits_min := leb_value U32 (mpre ++ [mb]);
                Limits_max := None |},
        rest))
  /\ (Z.even (leb_value U32 (fpre ++ [fb])) = false ->
      forall xpre xb rest,
        leb_encoding U32 xpre xb = true ->
        fst (Read_Limits (fpre ++ fb :: mpre ++ mb :: xpre ++ xb :: rest)
                         errors)
        = (Some {| Limits_min := leb_value U32 (mpre ++ [mb]);
                   Limits_max := Some (leb_value U32 (xpre ++ [xb])) |},
           rest)).
Proof.
  intros Hf Hm. split.
  - intros Heven rest.
    unfold Read_Limits, ErrorsContextGuard, Read_u32. cbv zeta. unfold bind.
    rewrite (WASP_TRY_READ_CONTEXT_ReadVarInt_of_encoding U32 "vu32" "flags"
               fpre fb _ _ U32_listed Hf).
    rewrite (WASP_TRY_READ_CONTEXT_ReadVarInt_of_encoding U32 "vu32" "min"
               mpre mb _ _ U32_listed Hm).
    rewrite land_1_even, Heven. reflexivity.
  - intros Hodd xpre xb rest Hx.
    unfold Read_Limits, ErrorsContextGuard, Read_u32. cbv zeta. unfold bind.
    rewrite (WASP_TRY_READ_CONTEXT_ReadVarInt_of_encoding U32 "vu32" "flags"
               fpre fb _ _ U32_listed Hf).
    rewrite (WASP_TRY_READ_CONTEXT_ReadVarInt_of_encoding U32 "vu32" "min"
               mpre mb _ _ U32_listed Hm).
    rewrite land_1_even, Hodd. cbn [negb].
    rewrite (WASP_TRY_READ_CONTEXT_ReadVarInt_of_encoding U32 "vu32" "max"
               xpre xb _ _ U32_listed Hx).
    reflexivity.
Qed.

Lemma Read_Limits_flags_witness :
  fst (Read_Limits (bytes [0x02; 0x07; 0x09]) [])
  = (Some {| Limits_min := 7; Limits_max := None |}, bytes [0x09]).
Proof.
  exact (proj1 (Read_Limits_flags [] (u8_of_Z 0x02) [] (u8_of_Z 0x07) []
                  eq_refl eq_refl)
               eq_refl (bytes [0x09])).
Defined.

Section ItemProofs.
Variable BlockType : Type.
Variable BlockType_Decode : u8 -> option BlockType.
Variable Opcode_Decode : u8 -> option Opcode.
Variable ValType : Type.
Variable ValType_Decode : u8 -> option ValType.

(** X16.  The wire format of a function body: a count, then that many bytes.
    [Read(Tag<Code<>>)] takes those bytes as the body whatever they hold,
    so that its [ReadBytes] never fails, reads the local declarations
    inside them, and leaves the cursor behind them whether the
    declarations could be read or not; the expression is what the
    declarations leave of the body. *)
Theorem Read_Code_frames_body (data : SpanU8) (errors : Errors) :
  (forall pre b body rest,
      data = pre ++ b :: body ++ rest ->
      leb_encoding U32 pre b = true ->
      leb_value U32 (pre ++ [b]) = size body ->
      Read_Code ValType_Decode data errors
      = match
          ReadVec (Read_LocalDecl ValType_Decode) "local decls" body
                  (PopContext :: PushContext data "index"
                     :: PushContext data "code" :: errors)
        with
        | (Some local_decls, expr, errors') =>
            (Some {| Code_local_decls := local_decls; Code_body := expr |},
             rest, PopContext :: errors')
        | (None, _, errors') => (None, rest, PopContext :: errors')
        end)
  /\ (forall code rest errors',
         Read_Code ValType_Decode data errors = (Some code, rest, errors') ->
         exists pre b body,
           data = pre ++ b :: body ++ rest
           /\ leb_encoding U32 pre b = true
           /\ leb_value U32 (pre ++ [b]) = size body
           /\ suffix (Code_body code) body).
Proof.
  split.
  - intros pre b body rest -> He Hv.
    unfold Read_Code, ErrorsContextGuard. unfold bind at 1.
    rewrite (ReadCount_of_encoding pre b (body ++ rest) _ He), Hv.
    assert (H : (size body >? size (body ++ rest)) = false).
    { rewrite size_app. pose proof (size_nonneg rest).
      destruct (Z.gtb_spec (size body) (size body + size rest));
        [lia|reflexivity]. }
    rewrite H. unfold bind. rewrite ReadBytes_app.
    destruct (ReadVec (Read_LocalDecl ValType_Decode) "local decls" body _)
      as [[[local_decls|] expr] e]; reflexivity.
  - intros code rest errors' H.
    unfold Read_Code, ErrorsContextGuard in H. unfold bind at 1 in H.
    destruct (ReadCount data (PushContext data "code" :: errors))
      as [[[n|] d] e] eqn:Hc; [|discriminate H].
    destruct (ReadCount_success_inv data _ n d e Hc)
      as (pre & b & Hd & He & Hv & Hn & _).
    destruct (span_take d n Hn) as (body & r & Hsr & Hs).
    subst d. rewrite <- Hs in H. unfold bind in H.
    rewrite ReadBytes_app in H.
    pose proof (advances_ReadVec (Read_LocalDecl ValType_Decode) "local decls")
      as Hadv.
    assert (Hld : advances (Read_LocalDecl ValType_Decode)).
    { unfold Read_LocalDecl, Read_ValType, ReadIndex.
      apply advances_ErrorsContextGuard.
      apply advances_bind;
        [apply advances_WASP_TRY_READ_CONTEXT, advances_ReadVarInt|]. intro.
      apply advances_bind; [|intro; apply advances_ret].
      apply advances_WASP_TRY_READ_CONTEXT, advances_ErrorsContextGuard.
      apply advances_bind; [apply advances_Read_u8|]. intro.
      apply advances_WASP_TRY_DECODE. }
    destruct (Hadv Hld body e) as [consumed Hcons].
    destruct (ReadVec (Read_LocalDecl ValType_Decode) "local decls" body e)
      as [[[local_decls|] expr] e2]; [|discriminate H].
    injection H as <- <- _. cbn [fst snd Code_body] in *.
    exists pre, b, body. split; [exact Hd|]. split; [exact He|].
    split; [lia|]. exists consumed. exact Hcons.
Qed.


End ItemProofs.

Lemma Read_Code_frames_body_witness :
  fst (Read_Code (fun _ : u8 => @None unit) (bytes [0x02; 0x00; 0x0b; 0x07]) [])
  = (Some {| Code_local_decls := []; Code_body := bytes [0x0b] |},
     bytes [0x07]).
Proof.
  exact (f_equal fst
           (proj1 (Read_Code_frames_body unit (fun _ : u8 => @None unit)
                     (bytes [0x02; 0x00; 0x0b; 0x07]) [])
                  [] (u8_of_Z 0x02) (bytes [0x00; 0x0b]) (bytes [0x07])
                  eq_refl eq_refl eq_refl)).
Defined.


(* ================================================================== *)
(** * Further properties of the lexer: the keywords *)

Import text.

(** What [dispatch_on_keyword] finds, [dispatch] finds on every text that
    begins with the keyword and goes on with no reserved character. *)
Lemma dispatch_on_keyword_sound (sv rest : list u8) :
  IsReserved (PeekChar rest 0) = false ->
  forall body r,
    dispatch_on_keyword body sv = Some r ->
    dispatch body (sv ++ rest) = r.
Proof.
  intros Hrest. fix IH 1. intros body r H.
  destruct body as [offset arms | call | ].
  - cbn [dispatch_on_keyword] in H. cbn [dispatch].
    assert (HB : forall arms' ro,
               (fix on_default (arms : list Arm) : option (option KeywordCall) :=
                  match arms with
                  | [] => Some None
                  | default body :: _ => dispatch_on_keyword body sv
                  | case _ _ :: arms' => on_default arms'
                  end) arms' = Some ro ->
               (fix on_default (arms : list Arm) : option KeywordCall :=
                  match arms with
                  | [] => None
                  | default body :: _ => dispatch body (sv ++ rest)
                  | case _ _ :: arms' => on_default arms'
                  end) arms' = ro).
    { induction arms' as [|[l b|b] arms' IHa]; intros ro Hd.
      - injection Hd as <-. reflexivity.
      - apply IHa. exact Hd.
      - apply IH. exact Hd. }
    destruct (nth_error sv offset) as [c|] eqn:Hn.
    + assert (Hp : PeekChar (sv ++ rest) offset = u8_to_Z c).
      { unfold PeekChar. rewrite nth_error_app1, Hn; [reflexivity|].
        apply nth_error_Some. rewrite Hn. discriminate. }
      rewrite Hp.
      assert (HA : forall arms',
                 match
                   (fix on_case (c : Z) (arms : list Arm)
                      : option (option (option KeywordCall)) :=
                      match arms with
                      | [] => None
                      | case label body :: arms' =>
                          if c =? u8_to_Z label
                          then Some (dispatch_on_keyword body sv)
                          else on_case c arms'
                      | default _ :: arms' => on_case c arms'
                      end) (u8_to_Z c) arms'
                 with
                 | Some (Some ro) =>
                     (fix on_case (arms : list Arm)
                        : option (option KeywordCall) :=
                        match arms with
                        | [] => None
                        | case label body :: arms' =>
                            if u8_to_Z c =? u8_to_Z label
                            then Some (dispatch body (sv ++ rest))
                            else on_case arms'
                        | default _ :: arms' => on_case arms'
                        end) arms' = Some ro
                 | Some None => True
                 | None =>
                     (fix on_case (arms : list Arm)
                        : option (option KeywordCall) :=
                        match arms with
                        | [] => None
                        | case label body :: arms' =>
                            if u8_to_Z c =? u8_to_Z label
                            then Some (dispatch body (sv ++ rest))
                            else on_case arms'
                        | default _ :: arms' => on_case arms'
                        end) arms' = None
                 end).
      { induction arms' as [|[l b|b] arms' IHa].
        - reflexivity.
        - destruct (u8_to_Z c =? u8_to_Z l); [|exact IHa].
          destruct (dispatch_on_keyword b sv) as [ro|] eqn:Hb; [|exact I].
          rewrite (IH b ro Hb). reflexivity.
        - exact IHa. }
      specialize (HA arms).
      destruct ((fix on_case (c : Z) (arms : list Arm)
                   : option (option (option KeywordCall)) :=
                   match arms with
                   | [] => None
                   | case label body :: arms' =>
                       if c =? u8_to_Z label
                       then Some (dispatch_on_keyword body sv)
                       else on_case c arms'
                   | default _ :: arms' => on_case c arms'
                   end) (u8_to_Z c) arms) as [[ro|]|].
      * rewrite HA. injection H as <-. reflexivity.
      * discriminate H.
      * rewrite HA. apply HB. exact H.
    + destruct ((offset =? List.length sv)%nat) eqn:Hoff;
        [|discriminate H]. cbn [andb] in H.
      destruct ((fix labels_reserved (arms : list Arm) : bool :=
                   match arms with
                   | [] => true
                   | case label _ :: arms' =>
                       IsReserved (u8_to_Z label) && labels_reserved arms'
                   | default _ :: arms' => labels_reserved arms'
                   end) arms) eqn:Hlab; [|discriminate H].
      assert (Hp : PeekChar (sv ++ rest) offset = PeekChar rest 0).
      { unfold PeekChar. apply Nat.eqb_eq in Hoff. subst offset.
        rewrite nth_error_app2 by lia. rewrite Nat.sub_diag. reflexivity. }
      rewrite Hp.
      assert (HC : forall arms',
                 (fix labels_reserved (arms : list Arm) : bool :=
                    match arms with
                    | [] => true
                    | case label _ :: arms' =>
                        IsReserved (u8_to_Z label) && labels_reserved arms'
                    | default _ :: arms' => labels_reserved arms'
                    end) arms' = true ->
                 (fix on_case (arms : list Arm)
                    : option (option KeywordCall) :=
                    match arms with
                    | [] => None
                    | case label body :: arms' =>
                        if PeekChar rest 0 =? u8_to_Z label
                        then Some (dispatch body (sv ++ rest))
                        else on_case arms'
                    | default _ :: arms' => on_case arms'
                    end) arms' = None).
      { induction arms' as [|[l b|b] arms' IHa]; intros Hl.
        - reflexivity.
        - apply andb_prop in Hl as [Hl Ha].
          destruct (Z.eqb_spec (PeekChar rest 0) (u8_to_Z l)) as [E|_].
          + rewrite E in Hrest. congruence.
          + apply IHa. exact Ha.
        - apply IHa. exact Hl. }
      rewrite (HC arms Hlab). apply HB. exact H.
  - injection H as <-. reflexivity.
  - injection H as <-. reflexivity.
Qed.

Lemma dispatch_of_keyword (sv : string) (rest : SpanU8) (r : option KeywordCall) :
  IsReserved (PeekChar rest 0) = false ->
  dispatch_on_keyword keywords (list_byte_of_string sv) = Some r ->
  dispatch keywords (list_byte_of_string sv ++ rest) = r.
Proof.
  intros Hrest H.
  exact (dispatch_on_keyword_sound (list_byte_of_string sv) rest Hrest
           keywords r H).
Qed.

Lemma map_eq_Forall {A B : Type} (f g : A -> B) (l : list A) :
  map f l = map g l -> Forall (fun x => f x = g x) l.
Proof.
  induction l as [|x l IH]; intros H; [apply Forall_nil|].
  cbn [map] in H. injection H as Hx Hl.
  apply Forall_cons; [exact Hx | exact (IH Hl)].
Qed.

(** Each call of [LexKeyword] is the one the dispatch finds for its own
    keyword, and no keyword begins with a character that [Lex] handles
    before the dispatch. *)
Lemma keywords_dispatch_themselves (call : KeywordCall) :
  In call (calls_of keywords) ->
  is_LexKeyword call = true ->
  starts_in_dispatch (list_byte_of_string (call_keyword call)) = true
  /\ dispatch_on_keyword keywords (list_byte_of_string (call_keyword call))
     = Some (Some call).
Proof.
  intros Hin Hk.
  assert (H1 : forallb
                 (fun call =>
                    negb (is_LexKeyword call)
                    || starts_in_dispatch
                         (list_byte_of_string (call_keyword call)))
                 (calls_of keywords) = true)
    by (vm_compute; reflexivity).
  assert (H2 : map (fun call =>
                      if is_LexKeyword call
                      then dispatch_on_keyword keywords
                             (list_byte_of_string (call_keyword call))
                      else Some (Some call))
                   (calls_of keywords)
               = map (fun call => Some (Some call)) (calls_of keywords))
    by (vm_compute; reflexivity).
  split.
  - pose proof (proj1 (forallb_forall _ _) H1 call Hin) as H.
    cbv beta in H. rewrite Hk in H. exact H.
  - pose proof (proj1 (Forall_forall _ _) (map_eq_Forall _ _ _ H2) call Hin)
      as H.
    cbv beta in H. rewrite Hk in H. exact H.
Qed.

Lemma starts_in_dispatch_app (sv rest : list u8) :
  starts_in_dispatch sv = true -> starts_in_dispatch (sv ++ rest) = true.
Proof. destruct sv; [discriminate | intros H; exact H]. Qed.

Lemma Lex_in_dispatch (data : SpanU8) :
  starts_in_dispatch data = true ->
  Lex data
  = match dispatch keywords data with
    | Some call => run_KeywordCall call data
    | None =>
        if IsReserved (PeekChar data 0) then LexReserved data
        else
          (mkToken (MatchGuard_loc data (SkipChar data)) T_InvalidChar,
           SkipChar data)
    end.
Proof.
  destruct data as [|c data1]; [discriminate|].
  cbn [starts_in_dispatch]. intros H. apply negb_true_iff in H.
  apply Lex_keywords. exact H.
Qed.

Lemma run_KeywordCall_LexKeyword (call : KeywordCall) (data : SpanU8) :
  is_LexKeyword call = true ->
  run_KeywordCall call data
  = LexKeyword_with data (call_keyword call) (call_type call)
                    (call_immediate call).
Proof. destruct call; intros H; try discriminate H; reflexivity. Qed.

(** X18.  Every keyword of the dispatch is lexed as its own token: followed by
    no reserved character, the keyword of each of the calls of
    [LexKeyword] in [keywords-inl.cc] gives the token of that call, with
    its type and its immediate, located at the keyword. *)
Theorem Lex_every_keyword (call : KeywordCall) (rest : SpanU8) :
  In call (calls_of keywords) ->
  is_LexKeyword call = true ->
  IsReserved (PeekChar rest 0) = false ->
  Lex (list_byte_of_string (call_keyword call) ++ rest)
  = (mkTokenImm (list_byte_of_string (call_keyword call)) (call_type call)
                (call_immediate call),
     rest).
Proof.
  intros Hin Hk Hrest.
  destruct (keywords_dispatch_themselves call Hin Hk) as [Hstart Hd].
  apply (dispatch_of_keyword _ rest _ Hrest) in Hd.
  rewrite Lex_in_dispatch by (apply starts_in_dispatch_app; exact Hstart).
  rewrite Hd, run_KeywordCall_LexKeyword by exact Hk.
  apply LexKeyword_with_match. exact Hrest.
Qed.

Lemma Lex_every_keyword_witness :
  Lex (list_byte_of_string "if" ++ list_byte_of_string " (result i32)")
  = (mkTokenImm (list_byte_of_string "if") T_BlockInstr
       (Imm_OpcodeInfo {| opcode := If; features := [] |}),
     list_byte_of_string " (result i32)").
Proof.
  exact (Lex_every_keyword (LexKeyword_tt_o "if" T_BlockInstr If [])
           (list_byte_of_string " (result i32)")
           (or_introl eq_refl) eq_refl eq_refl).
Defined.

(* ================================================================== *)
(** * Further properties of the lexer: where a token lies *)

Lemma shape_guard (orig d : SpanU8) (tok : Token) :
  suffix d orig ->
  loc tok = MatchGuard_loc orig d ->
  is_Reserved_type (type tok) = false ->
  (is_word (type tok) = true -> IsReserved (PeekChar d 0) = false) ->
  token_shape orig (tok, d).
Proof.
  intros [consumed ->] Hloc Ht Hw. rewrite MatchGuard_loc_app in Hloc.
  split; [|split]; cbn [fst snd].
  - exists []. rewrite Hloc. split; reflexivity.
  - exact Hw.
  - rewrite Ht. discriminate.
Qed.

Lemma LexReserved_loop_run (d : SpanU8) :
  exists run,
    d = run ++ LexReserved_loop d
    /\ all_reserved run = true
    /\ IsReserved (PeekChar (LexReserved_loop d) 0) = false.
Proof.
  induction d as [|c d IH].
  - exists []. cbn. repeat split.
  - cbn [LexReserved_loop]. rewrite PeekChar_cons.
    destruct (IsReserved (u8_to_Z c)) eqn:E.
    + destruct IH as (run & Hd & Hr & Hp).
      exists (c :: run). cbn [app all_reserved forallb].
      rewrite <- Hd, E. repeat split; assumption.
    + exists []. rewrite PeekChar_cons. repeat split. exact E.
Qed.

Lemma shape_LexReserved (orig d : SpanU8) :
  suffix d orig -> token_shape orig (LexReserved d).
Proof.
  intros [pre ->]. unfold LexReserved.
  destruct (LexReserved_loop_run d) as (run & Hd & Hr & Hp).
  split; [|split]; cbn [fst snd mkToken loc type].
  - exists pre. rewrite Hd at 1 2. rewrite MatchGuard_loc_app.
    split; [reflexivity | discriminate].
  - intros _. exact Hp.
  - intros _. rewrite Hd at 1. rewrite MatchGuard_loc_app. exact Hr.
Qed.

Lemma shape_LexAnnotation (data : SpanU8) :
  token_shape data (LexAnnotation data).
Proof.
  unfold LexAnnotation, ReadReservedChars.
  pose proof (ReadReservedChars_loop_spec data 0) as H.
  destruct (ReadReservedChars_loop data 0) as [count d].
  destruct H as (Hs & _ & Hp & _).
  apply shape_guard; [exact Hs | reflexivity | reflexivity | intros _; exact Hp].
Qed.

Lemma LexBlockComment_loop_loc (orig : SpanU8) :
  forall data nesting,
    loc (fst (LexBlockComment_loop orig data nesting))
    = MatchGuard_loc orig (snd (LexBlockComment_loop orig data nesting)).
Proof.
  intros data. induction data as [data IH] using span_strong_ind.
  intros nesting. destruct data as [|c data1]; [reflexivity|].
  cbn [LexBlockComment_loop].
  destruct (u8_to_Z c =? u8_to_Z ";").
  - destruct (PeekChar data1 0 =? u8_to_Z ")"); [|apply IH; cbn; lia].
    destruct data1 as [|c1 data2]; [reflexivity|].
    destruct (nesting - 1 =? 0); [reflexivity | apply IH; cbn; lia].
  - destruct (u8_to_Z c =? u8_to_Z "("); [|apply IH; cbn; lia].
    destruct (PeekChar data1 0 =? u8_to_Z ";"); [|apply IH; cbn; lia].
    destruct data1 as [|c1 data2]; [reflexivity | apply IH; cbn; lia].
Qed.

Lemma shape_LexBlockComment (data : SpanU8) :
  token_shape data (LexBlockComment data).
Proof.
  unfold LexBlockComment.
  destruct (LexBlockComment_loop_spec data data 0) as [Hs Ht].
  pose proof (LexBlockComment_loop_loc data data 0) as Hl.
  destruct (LexBlockComment_loop data data 0) as [tok d]. cbn [fst snd] in *.
  apply shape_guard; [exact Hs | exact Hl | |];
    destruct Ht as [Ht|[Ht _]]; rewrite Ht; try reflexivity; discriminate.
Qed.

Lemma LexLineComment_loop_loc (orig data : SpanU8) :
  loc (fst (LexLineComment_loop orig data))
  = MatchGuard_loc orig (snd (LexLineComment_loop orig data)).
Proof.
  induction data as [|c data IH]; [reflexivity|].
  cbn [LexLineComment_loop].
  destruct (u8_to_Z c =? 10); [reflexivity | exact IH].
Qed.

Lemma shape_LexLineComment (data : SpanU8) :
  token_shape data (LexLineComment data).
Proof.
  unfold LexLineComment.
  destruct (LexLineComment_loop_spec data data) as [Hs Ht].
  pose proof (LexLineComment_loop_loc data data) as Hl.
  destruct (LexLineComment_loop data data) as [tok d]. cbn [fst snd] in *.
  apply shape_guard; [exact Hs | exact Hl | |];
    destruct Ht as [Ht|[Ht _]]; rewrite Ht; try reflexivity; discriminate.
Qed.

Lemma LexWhitespace_loop_loc (orig data : SpanU8) :
  loc (fst (LexWhitespace_loop orig data))
  = MatchGuard_loc orig (snd (LexWhitespace_loop orig data)).
Proof.
  induction data as [|c data IH]; [reflexivity|].
  cbn [LexWhitespace_loop].
  destruct (is_one_of (PeekChar (c :: data) 0) " "
            || (PeekChar (c :: data) 0 =? 9)
            || (PeekChar (c :: data) 0 =? 13)
            || (PeekChar (c :: data) 0 =? 10)); [exact IH | reflexivity].
Qed.

Lemma shape_LexWhitespace (data : SpanU8) :
  token_shape data (LexWhitespace data).
Proof.
  unfold LexWhitespace.
  destruct (LexWhitespace_loop_spec data data) as [Hs Ht].
  pose proof (LexWhitespace_loop_loc data data) as Hl.
  destruct (LexWhitespace_loop data data) as [tok d]. cbn [fst snd] in *.
  apply shape_guard; [exact Hs | exact Hl | |]; rewrite Ht;
    [reflexivity | discriminate].
Qed.

Lemma shape_LexText (data : SpanU8) : token_shape data (LexText data).
Proof.
  unfold LexText.
  pose proof (MatchChar_spec data x22) as Hm.
  destruct (MatchChar data x22) as [m d1].
  assert (Hs1 : suffix d1 data).
  { destruct m; [rewrite Hm; apply suffix_cons | subst d1; apply suffix_refl]. }
  destruct (LexText_loop_progress d1 false 0) as [Hs2 _].
  destruct (LexText_loop d1 false 0) as [[d2 has_error] byte_size].
  cbn [fst snd] in Hs2.
  pose proof (suffix_trans _ _ _ Hs2 Hs1) as Hs.
  destruct has_error; apply shape_guard;
    try exact Hs; try reflexivity; discriminate.
Qed.

Lemma shape_LexId (c : u8) (data1 : SpanU8) :
  IsReserved (u8_to_Z c) = true ->
  token_shape (c :: data1) (LexId (c :: data1)).
Proof.
  intros Hc. unfold LexId. cbn [SkipChar tl].
  pose proof (NoTrailingReservedChars_spec data1) as H.
  destruct (NoTrailingReservedChars data1) as [none d].
  destruct H as (Hs & Hp & Hn).
  destruct none.
  - rewrite (Hn eq_refl) in *.
    split; [|split]; cbn [fst snd mkToken loc type].
    + exists []. change (c :: data1) with ([c] ++ data1) at 2.
      rewrite MatchGuard_loc_app. split; reflexivity.
    + intros _. exact Hp.
    + intros _. change (c :: data1) with ([c] ++ data1).
      rewrite MatchGuard_loc_app. cbn. rewrite Hc. reflexivity.
  - apply shape_guard;
      [apply suffix_cons_r; exact Hs | reflexivity | reflexivity
      | intros _; exact Hp].
Qed.

Lemma shape_LexKeyword_with (data : SpanU8) (sv : string) (tt_ : TokenType)
      (imm : Immediate) :
  is_Reserved_type tt_ = false ->
  token_shape data (LexKeyword_with data sv tt_ imm).
Proof.
  intros Ht. unfold LexKeyword_with.
  pose proof (MatchString_spec data sv) as Hm.
  destruct (MatchString data sv) as [[|] d1];
    [|apply shape_LexReserved, suffix_refl].
  pose proof (NoTrailingReservedChars_spec d1) as Hn.
  destruct (NoTrailingReservedChars d1) as [ok d2].
  destruct Hn as (Hs & Hp & _).
  destruct ok; [|apply shape_LexReserved, suffix_refl].
  apply shape_guard; [|reflexivity | exact Ht | intros _; exact Hp].
  eapply suffix_trans; [exact Hs | eexists; exact Hm].
Qed.

Lemma shape_LexNameEqNum (data : SpanU8) (sv : string) (tt_ : TokenType) :
  is_Reserved_type tt_ = false ->
  token_shape data (LexNameEqNum data sv tt_).
Proof.
  intros Ht. unfold LexNameEqNum.
  pose proof (MatchString_spec data sv) as Hm.
  destruct (MatchString data sv) as [[|] d1];
    [|apply shape_LexReserved, suffix_refl].
  assert (Hs1 : suffix d1 data) by (eexists; exact Hm).
  pose proof (MatchString_spec d1 "0x") as Hx.
  destruct (MatchString d1 "0x") as [[|] d2].
  - assert (Hs2 : suffix d2 data)
      by (eapply suffix_trans; [eexists; exact Hx | exact Hs1]).
    pose proof (MatchNum_with_spec IsHexDigit d2 HasUnderscores.No
                  (proj2 underscore_not_digit)) as Hnum.
    unfold MatchHexNum.
    destruct (MatchNum_with IsHexDigit d2 HasUnderscores.No) as [[num d3] hu].
    destruct num; [|apply shape_LexReserved, suffix_refl].
    destruct Hnum as [Hc _]. apply consumed_ok_suffix in Hc.
    pose proof (NoTrailingReservedChars_spec d3) as Hn.
    destruct (NoTrailingReservedChars d3) as [ok d4].
    destruct Hn as (Hs & Hp & _).
    destruct ok; [|apply shape_LexReserved, suffix_refl].
    apply shape_guard; [|reflexivity | exact Ht | intros _; exact Hp].
    eapply suffix_trans; [exact Hs|].
    eapply suffix_trans; [exact Hc | exact Hs2].
  - subst d2.
    pose proof (MatchNum_with_spec IsDigit d1 HasUnderscores.No
                  (proj1 underscore_not_digit)) as Hnum.
    unfold MatchNum.
    destruct (MatchNum_with IsDigit d1 HasUnderscores.No) as [[num d3] hu].
    destruct num; [|apply shape_LexReserved, suffix_refl].
    destruct Hnum as [Hc _]. apply consumed_ok_suffix in Hc.
    pose proof (NoTrailingReservedChars_spec d3) as Hn.
    destruct (NoTrailingReservedChars d3) as [ok d4].
    destruct Hn as (Hs & Hp & _).
    destruct ok; [|apply shape_LexReserved, suffix_refl].
    apply shape_guard; [|reflexivity | exact Ht | intros _; exact Hp].
    eapply suffix_trans; [exact Hs|].
    eapply suffix_trans; [exact Hc | exact Hs1].
Qed.

Lemma MatchSign_suffix (data : SpanU8) : suffix (snd (MatchSign data)) data.
Proof.
  pose proof (MatchSign_spec data) as H.
  destruct (MatchSign data) as [sign d]. destruct H as (pre & H & _).
  exists pre. exact H.
Qed.

Lemma MatchString_suffix (data : SpanU8) (sv : string) :
  suffix (snd (MatchString data sv)) data.
Proof.
  pose proof (MatchString_spec data sv) as H.
  destruct (MatchString data sv) as [[|] d]; cbn [snd].
  - eexists; exact H.
  - subst d. apply suffix_refl.
Qed.

Lemma shape_LexInf (data : SpanU8) : token_shape data (LexInf data).
Proof.
  unfold LexInf.
  pose proof (MatchSign_suffix data) as Hs0.
  destruct (MatchSign data) as [sign d0]. cbn [snd] in Hs0.
  pose proof (MatchString_suffix d0 "inf") as Hs1.
  destruct (MatchString d0 "inf") as [m d1]. cbn [snd] in Hs1.
  pose proof (suffix_trans _ _ _ Hs1 Hs0) as Hs01.
  destruct m; [|apply shape_LexReserved; exact Hs01].
  pose proof (NoTrailingReservedChars_spec d1) as Hn.
  destruct (NoTrailingReservedChars d1) as [ok d2].
  destruct Hn as (Hs & Hp & _).
  pose proof (suffix_trans _ _ _ Hs Hs01) as Hs2.
  destruct ok; [|apply shape_LexReserved; exact Hs2].
  apply shape_guard; [exact Hs2 | reflexivity | reflexivity | intros _; exact Hp].
Qed.

Lemma shape_LexNan (data : SpanU8) : token_shape data (LexNan data).
Proof.
  unfold LexNan.
  pose proof (MatchSign_suffix data) as Hs0.
  destruct (MatchSign data) as [sign d0]. cbn [snd] in Hs0.
  pose proof (MatchString_suffix d0 "nan") as Hs1.
  destruct (MatchString d0 "nan") as [m d1]. cbn [snd] in Hs1.
  pose proof (suffix_trans _ _ _ Hs1 Hs0) as Hs01.
  destruct m; [|apply shape_LexReserved; exact Hs01].
  pose proof (MatchChar_spec d1 ":"%byte) as Hc.
  destruct (MatchChar d1 ":") as [colon d2].
  assert (Hs2 : suffix d2 data).
  { destruct colon.
    - eapply suffix_trans; [|exact Hs01]. rewrite Hc. apply suffix_cons.
    - subst d2. exact Hs01. }
  destruct colon.
  - pose proof (MatchString_suffix d2 "0x") as Hs3.
    destruct (MatchString d2 "0x") as [hex d3]. cbn [snd] in Hs3.
    pose proof (suffix_trans _ _ _ Hs3 Hs2) as Hs23.
    assert (Hnum :
      match (if hex then MatchHexNum d3 HasUnderscores.No
             else (false, d3, HasUnderscores.No)) with
      | (_, d4, _) => suffix d4 data
      end).
    { destruct hex; [|exact Hs23].
      pose proof (MatchNum_with_spec IsHexDigit d3 HasUnderscores.No
                    (proj2 underscore_not_digit)) as Hnum.
      unfold MatchHexNum.
      destruct (MatchNum_with IsHexDigit d3 HasUnderscores.No)
        as [[num d4] hu].
      destruct num.
      - destruct Hnum as [Hc' _]. apply consumed_ok_suffix in Hc'.
        exact (suffix_trans _ _ _ Hc' Hs23).
      - subst d4. exact Hs23. }
    destruct (if hex then MatchHexNum d3 HasUnderscores.No
              else (false, d3, HasUnderscores.No)) as [[num d4] hu].
    destruct num; [|apply shape_LexReserved; exact Hnum].
    pose proof (NoTrailingReservedChars_spec d4) as Hn.
    destruct (NoTrailingReservedChars d4) as [ok d5].
    destruct Hn as (Hs & Hp & _).
    pose proof (suffix_trans _ _ _ Hs Hnum) as Hs5.
    destruct ok; [|apply shape_LexReserved; exact Hs5].
    apply shape_guard;
      [exact Hs5 | reflexivity | reflexivity | intros _; exact Hp].
  - pose proof (NoTrailingReservedChars_spec d2) as Hn.
    destruct (NoTrailingReservedChars d2) as [ok d3].
    destruct Hn as (Hs & Hp & _).
    pose proof (suffix_trans _ _ _ Hs Hs2) as Hs3.
    destruct ok; [|apply shape_LexReserved; exact Hs3].
    apply shape_guard;
      [exact Hs3 | reflexivity | reflexivity | intros _; exact Hp].
Qed.

Lemma shape_LexNumber (data : SpanU8) (tt_ : TokenType) :
  is_Reserved_type tt_ = false ->
  token_shape data (LexNumber data tt_).
Proof.
  intros Ht. unfold LexNumber.
  pose proof (MatchSign_suffix data) as Hs0.
  destruct (MatchSign data) as [sign d0]. cbn [snd] in Hs0.
  pose proof (LexNumber_body_spec IsDigit "e"%byte "E"%byte d0 tt_ HasUnderscores.No
                (proj1 underscore_not_digit) (fun c H => H)
                eq_refl eq_refl) as Hb.
  destruct (LexNumber_body IsDigit "e" "E" d0 tt_ HasUnderscores.No)
    as [[[d1 tt'] hu]|]; [|apply shape_LexReserved, suffix_refl].
  destruct Hb as (Hc & _ & Hp & Htt). apply consumed_ok_suffix in Hc.
  apply shape_guard;
    [exact (suffix_trans _ _ _ Hc Hs0) | reflexivity | | intros _; exact Hp].
  cbn [type mkTokenImm]. destruct Htt as [->| ->]; [exact Ht | reflexivity].
Qed.

Lemma shape_LexHexNumber (data : SpanU8) (tt_ : TokenType) :
  is_Reserved_type tt_ = false ->
  token_shape data (LexHexNumber data tt_).
Proof.
  intros Ht. unfold LexHexNumber.
  pose proof (MatchSign_suffix data) as Hs0.
  destruct (MatchSign data) as [sign d0]. cbn [snd] in Hs0.
  pose proof (MatchString_suffix d0 "0x") as Hs1.
  destruct (MatchString d0 "0x") as [m d1]. cbn [snd] in Hs1.
  pose proof (LexNumber_body_spec IsHexDigit "p"%byte "P"%byte d1 tt_ HasUnderscores.No
                (proj2 underscore_not_digit) IsDigit_IsHexDigit
                eq_refl eq_refl) as Hb.
  destruct (LexNumber_body IsHexDigit "p" "P" d1 tt_ HasUnderscores.No)
    as [[[d2 tt'] hu]|]; [|apply shape_LexReserved, suffix_refl].
  destruct Hb as (Hc & _ & Hp & Htt). apply consumed_ok_suffix in Hc.
  apply shape_guard; [| reflexivity | | intros _; exact Hp].
  - exact (suffix_trans _ _ _ Hc (suffix_trans _ _ _ Hs1 Hs0)).
  - cbn [type mkTokenImm]. destruct Htt as [->| ->]; [exact Ht | reflexivity].
Qed.

Lemma keywords_call_not_Reserved : all_calls call_not_Reserved keywords = true.
Proof. vm_compute. reflexivity. Qed.

Lemma shape_run_KeywordCall (call : KeywordCall) (data : SpanU8) :
  call_not_Reserved call = true ->
  token_shape data (run_KeywordCall call data).
Proof.
  unfold call_not_Reserved. intros H. apply negb_true_iff in H.
  destruct call; cbn [run_KeywordCall call_type] in *;
    first [ apply shape_LexKeyword_with; first [exact H | reflexivity]
          | apply shape_LexNameEqNum; exact H
          | apply shape_LexNan ].
Qed.

Lemma shape_skip (c : u8) (data1 : SpanU8) (tt_ : TokenType) :
  is_Reserved_type tt_ = false -> is_word tt_ = false ->
  token_shape (c :: data1)
    (mkToken (MatchGuard_loc (c :: data1) (SkipChar (c :: data1))) tt_,
     SkipChar (c :: data1)).
Proof.
  intros Ht Hw.
  apply shape_guard; [apply suffix_cons | reflexivity | exact Ht|].
  cbn [type mkToken]. rewrite Hw. discriminate.
Qed.

Lemma IsReserved_dollar (c : u8) :
  (u8_to_Z c =? u8_to_Z "$") = true -> IsReserved (u8_to_Z c) = true.
Proof. intros H. apply Z.eqb_eq in H. rewrite H. reflexivity. Qed.

Lemma Lex_token_shape (data : SpanU8) : token_shape data (Lex data).
Proof.
  destruct data as [|c data1].
  { rewrite Lex_nil. split; [|split]; cbn.
    - exists []. split; reflexivity.
    - reflexivity.
    - discriminate. }
  unfold Lex. rewrite PeekChar_cons.
  destruct (u8_to_Z c =? -1) eqn:E.
  { apply Z.eqb_eq in E. pose proof (u8_to_Z_range c). lia. }
  clear E.
  destruct (u8_to_Z c =? u8_to_Z "(").
  { destruct (MatchString (c :: data1) "(;") as [[|] d] eqn:E1;
      [apply shape_LexBlockComment|].
    apply MatchString_false in E1. subst d.
    destruct (MatchString (c :: data1) "(@") as [[|] d] eqn:E2;
      [apply shape_LexAnnotation|].
    apply MatchString_false in E2. subst d.
    apply shape_skip; reflexivity. }
  destruct (u8_to_Z c =? u8_to_Z ")"); [apply shape_skip; reflexivity|].
  destruct (u8_to_Z c =? u8_to_Z ";").
  { destruct (MatchString (c :: data1) ";;") as [[|] d] eqn:E1;
      [apply shape_LexLineComment|].
    apply MatchString_false in E1. subst d.
    apply shape_skip; reflexivity. }
  destruct ((u8_to_Z c =? u8_to_Z " ") || (u8_to_Z c =? 9)
            || (u8_to_Z c =? 13) || (u8_to_Z c =? 10));
    [apply shape_LexWhitespace|].
  destruct (u8_to_Z c =? u8_to_Z x22); [apply shape_LexText|].
  destruct ((u8_to_Z c =? u8_to_Z "+") || (u8_to_Z c =? u8_to_Z "-")).
  { destruct (PeekChar (c :: data1) 1 =? u8_to_Z "i"); [apply shape_LexInf|].
    destruct (PeekChar (c :: data1) 1 =? u8_to_Z "n"); [apply shape_LexNan|].
    destruct (PeekChar (c :: data1) 1 =? u8_to_Z "0").
    { destruct (MatchString (SkipChar (c :: data1)) "0x") as [[|] d];
        [apply shape_LexHexNumber | apply shape_LexNumber]; reflexivity. }
    destruct (is_one_of (PeekChar (c :: data1) 1) "123456789");
      [apply shape_LexNumber; reflexivity|].
    apply shape_LexReserved, suffix_refl. }
  destruct (u8_to_Z c =? u8_to_Z "0").
  { destruct (MatchString (c :: data1) "0x") as [[|] d] eqn:E1.
    - apply shape_LexHexNumber; reflexivity.
    - apply MatchString_false in E1. subst d.
      apply shape_LexNumber; reflexivity. }
  destruct (is_one_of (u8_to_Z c) "123456789");
    [apply shape_LexNumber; reflexivity|].
  destruct (u8_to_Z c =? u8_to_Z "$") eqn:Ed'.
  { apply shape_LexId, IsReserved_dollar. exact Ed'. }
  destruct (dispatch keywords (c :: data1)) as [call|] eqn:Ed.
  - apply shape_run_KeywordCall.
    apply (dispatch_all_calls call_not_Reserved (c :: data1) keywords call
             keywords_call_not_Reserved Ed).
  - destruct (IsReserved (u8_to_Z c)).
    + apply shape_LexReserved, suffix_refl.
    + apply shape_skip; reflexivity.
Qed.

(** X19.  The location of a token is the text consumed for it: the slice is the
    location followed by the span left.  Only a [Reserved] token can leave
    text out: on the failure paths of [LexInf] and [LexNan] the text
    matched before the failure is in neither. *)
Theorem Lex_token_location (data : SpanU8) (tok : Token) (rest : SpanU8) :
  Lex data = (tok, rest) ->
  exists skipped,
    data = skipped ++ loc tok ++ rest
    /\ (type tok <> T_Reserved -> skipped = []).
Proof.
  intros E. destruct (Lex_token_shape data) as [(skipped & Hd & Hs) _].
  rewrite E in Hd, Hs. cbn [fst snd] in Hd, Hs.
  exists skipped. split; [exact Hd|]. intros Ht. apply Hs.
  destruct (type tok); try reflexivity. congruence.
Qed.

Lemma Lex_token_location_witness :
  exists skipped,
    list_byte_of_string "-nan:0x1_ x"
    = skipped ++ list_byte_of_string "1_" ++ list_byte_of_string " x"
    /\ (T_Reserved <> T_Reserved -> skipped = []).
Proof.
  exact (Lex_token_location (list_byte_of_string "-nan:0x1_ x")
           (mkToken (list_byte_of_string "1_") T_Reserved)
           (list_byte_of_string " x") eq_refl).
Defined.

(** X20.  A word is followed by no reserved character: a keyword, a number, an
    identifier or a [Reserved] token ends where the run of reserved
    characters ends, so two words are never lexed out of one run. *)
Theorem Lex_word_boundary (data : SpanU8) (tok : Token) (rest : SpanU8) :
  Lex data = (tok, rest) ->
  is_word (type tok) = true ->
  IsReserved (PeekChar rest 0) = false.
Proof.
  intros E Hw. destruct (Lex_token_shape data) as (_ & H & _).
  rewrite E in H. exact (H Hw).
Qed.

Lemma Lex_word_boundary_witness :
  IsReserved (PeekChar (list_byte_of_string "(x") 0) = false.
Proof.
  exact (Lex_word_boundary (list_byte_of_string "i32.add$x(x")
           (mkToken (list_byte_of_string "i32.add$x") T_Reserved)
           (list_byte_of_string "(x") eq_refl eq_refl).
Defined.

(** X21.  The location of a [Reserved] token holds reserved characters only. *)
Theorem Lex_Reserved_run (data : SpanU8) (tok : Token) (rest : SpanU8) :
  Lex data = (tok, rest) ->
  type tok = T_Reserved ->
  all_reserved (loc tok) = true.
Proof.
  intros E Ht. destruct (Lex_token_shape data) as (_ & _ & H).
  rewrite E in H. apply H. cbn [fst]. rewrite Ht. reflexivity.
Qed.

Lemma Lex_Reserved_run_witness :
  all_reserved (list_byte_of_string "1__0") = true.
Proof.
  exact (Lex_Reserved_run (list_byte_of_string "1__0)")
           (mkToken (list_byte_of_string "1__0") T_Reserved)
           (list_byte_of_string ")") eq_refl eq_refl).
Defined.

(* ================================================================== *)
(** * [LexNoWhitespace] *)

Lemma Lex_trivia_shorter (data : SpanU8) (tok : Token) (rest : SpanU8) :
  Lex data = (tok, rest) ->
  is_trivia (type tok) = true ->
  (List.length rest < List.length data)%nat.
Proof.
  intros E Ht. destruct data as [|c data1].
  - rewrite Lex_nil in E. injection E as <- <-. discriminate Ht.
  - destruct (Lex_progress (c :: data1) tok rest ltac:(discriminate) E)
      as [H|[H|H]]; [exact H | |]; rewrite H in Ht; discriminate Ht.
Qed.

Lemma LexNoWhitespace_loop_step (fuel : nat) (data : SpanU8) :
  LexNoWhitespace_loop (S fuel) data
  = if is_trivia (type (fst (Lex data)))
    then LexNoWhitespace_loop fuel (snd (Lex data))
    else Some (Lex data).
Proof.
  cbn [LexNoWhitespace_loop]. destruct (Lex data) as [tok rest].
  cbn [fst snd]. destruct (type tok); reflexivity.
Qed.

Lemma LexNoWhitespace_loop_returns (data : SpanU8) :
  exists tok rest,
    (forall fuel,
        (List.length data < fuel)%nat ->
        LexNoWhitespace_loop fuel data = Some (tok, rest))
    /\ suffix rest data
    /\ is_trivia (type tok) = false.
Proof.
  induction data as [data IH] using span_strong_ind.
  destruct (Lex data) as [tok rest] eqn:E.
  assert (Hs : suffix rest data).
  { destruct (Lex_token_shape data) as [(skipped & Hd & _) _].
    rewrite E in Hd. cbn [fst snd] in Hd.
    exists (skipped ++ loc tok). rewrite <- app_assoc. exact Hd. }
  destruct (is_trivia (type tok)) eqn:Ht.
  - pose proof (Lex_trivia_shorter data tok rest E Ht) as Hlt.
    destruct (IH rest Hlt) as (tok' & rest' & Hf & Hs' & Ht').
    exists tok', rest'. split; [|split; [exact (suffix_trans _ _ _ Hs' Hs) | exact Ht']].
    intros [|fuel] Hfuel; [lia|].
    rewrite LexNoWhitespace_loop_step, E. cbn [fst snd]. rewrite Ht.
    apply Hf. lia.
  - exists tok, rest. split; [|split; [exact Hs | exact Ht]].
    intros [|fuel] Hfuel; [lia|].
    rewrite LexNoWhitespace_loop_step, E. cbn [fst snd]. rewrite Ht.
    reflexivity.
Qed.

(** X22.  [LexNoWhitespace] returns: its loop ends within as many turns as the
    slice has bytes, and one more.  The token it returns is no comment and
    no whitespace, and the span left is a suffix of the slice. *)
Theorem LexNoWhitespace_returns (data : SpanU8) :
  exists tok rest,
    (forall fuel,
        (List.length data < fuel)%nat ->
        LexNoWhitespace_loop fuel data = Some (tok, rest))
    /\ suffix rest data
    /\ type tok <> T_BlockComment
    /\ type tok <> T_LineComment
    /\ type tok <> T_Whitespace.
Proof.
  destruct (LexNoWhitespace_loop_returns data) as (tok & rest & Hf & Hs & Ht).
  exists tok, rest. split; [exact Hf|]. split; [exact Hs|].
  repeat split; intros E; rewrite E in Ht; discriminate Ht.
Qed.

(* ================================================================== *)
(** * The character classes *)

(** X23.  The table [kCharClasses] is the one the script of its comment
    prints: on every character [IsCharClass] accepts, from [-1] to [255],
    the four bits of the table are the four predicates of the script. *)
Theorem kCharClasses_as_generated (c : Z) :
  -1 <= c < 256 ->
  IsDigit c = script_IsDigit c
  /\ IsHexDigit c = script_IsHexDigit c
  /\ IsCharClass c CharClass.Keyword = script_IsKeyword c
  /\ IsReserved c = script_IsReserved c.
Proof.
  intros Hc.
  assert (H : forallb (fun n => as_generated (Z.of_nat n - 1)) (seq 0 257)
              = true) by (vm_compute; reflexivity).
  pose proof (proj1 (forallb_forall _ _) H (Z.to_nat (c + 1))) as Hn.
  cbv beta in Hn. replace (Z.of_nat (Z.to_nat (c + 1)) - 1) with c in Hn by lia.
  assert (Hin : In (Z.to_nat (c + 1)) (seq 0 257)) by (apply in_seq; lia).
  specialize (Hn Hin). unfold as_generated in Hn.
  apply andb_prop in Hn as [Hn H4]. apply andb_prop in Hn as [Hn H3].
  apply andb_prop in Hn as [H1 H2].
  repeat split; apply eqb_prop; assumption.
Qed.

Lemma kCharClasses_as_generated_witness :
  IsDigit 126 = script_IsDigit 126
  /\ IsHexDigit 126 = script_IsHexDigit 126
  /\ IsCharClass 126 CharClass.Keyword = script_IsKeyword 126
  /\ IsReserved 126 = script_IsReserved 126.
Proof. apply (kCharClasses_as_generated 126). lia. Defined.

(* ================================================================== *)
(** * What is lexed as what *)

Lemma is_whitespace_first (c : u8) :
  is_whitespace (u8_to_Z c) = true ->
  (u8_to_Z c =? -1) = false
  /\ (u8_to_Z c =? u8_to_Z "(") = false
  /\ (u8_to_Z c =? u8_to_Z ")") = false
  /\ (u8_to_Z c =? u8_to_Z ";") = false.
Proof.
  destruct c; vm_compute; intros H; try discriminate H;
    repeat split; reflexivity.
Qed.

Lemma LexWhitespace_loop_run (orig : SpanU8) (ws rest : list u8) :
  forallb (fun c => is_whitespace (u8_to_Z c)) ws = true ->
  is_whitespace (PeekChar rest 0) = false ->
  LexWhitespace_loop orig (ws ++ rest)
  = (mkToken (MatchGuard_loc orig rest) T_Whitespace, rest).
Proof.
  intros Hws Hrest. induction ws as [|c ws IH].
  - cbn [app]. unfold is_whitespace in Hrest.
    destruct rest as [|r rest]; cbn [LexWhitespace_loop].
    + reflexivity.
    + unfold is_one_of. cbn [list_byte_of_string existsb].
      change (list_byte_of_string " ") with [" "%byte].
      cbn [existsb]. rewrite orb_false_r, Hrest. reflexivity.
  - cbn [forallb] in Hws. apply andb_prop in Hws as [Hc Hws].
    cbn [app LexWhitespace_loop]. rewrite PeekChar_cons.
    unfold is_whitespace in Hc. unfold is_one_of.
    change (list_byte_of_string " ") with [" "%byte].
    cbn [existsb]. rewrite orb_false_r, Hc. apply IH. exact Hws.
Qed.

(** X24.  A run of blanks, tabs, carriage returns and line feeds is one
    [Whitespace] token, as long as the run. *)
Theorem Lex_whitespace_run (ws rest : list u8) :
  ws <> [] ->
  forallb (fun c => is_whitespace (u8_to_Z c)) ws = true ->
  is_whitespace (PeekChar rest 0) = false ->
  Lex (ws ++ rest) = (mkToken ws T_Whitespace, rest).
Proof.
  intros Hne Hws Hrest.
  destruct ws as [|c ws']; [congruence|].
  assert (Hc : is_whitespace (u8_to_Z c) = true).
  { cbn [forallb] in Hws. apply andb_prop in Hws as [Hc _]. exact Hc. }
  destruct (is_whitespace_first c Hc) as (H1 & H2 & H3 & H4).
  change ((c :: ws') ++ rest) with (c :: (ws' ++ rest)) at 1.
  unfold Lex. rewrite PeekChar_cons, H1, H2, H3, H4.
  unfold is_whitespace in Hc. rewrite Hc.
  change (c :: (ws' ++ rest)) with ((c :: ws') ++ rest).
  unfold LexWhitespace.
  rewrite (LexWhitespace_loop_run _ (c :: ws') rest Hws Hrest).
  rewrite MatchGuard_loc_app. reflexivity.
Qed.

Lemma Lex_whitespace_run_witness :
  Lex (list_byte_of_string "  " ++ list_byte_of_string "(module)")
  = (mkToken (list_byte_of_string "  ") T_Whitespace,
     list_byte_of_string "(module)").
Proof.
  refine (Lex_whitespace_run (list_byte_of_string "  ")
            (list_byte_of_string "(module)") _ eq_refl eq_refl).
  discriminate.
Defined.

Lemma LexLineComment_loop_run (orig : SpanU8) (body : list u8) :
  forallb (fun c => negb (u8_to_Z c =? 10)) body = true ->
  (forall rest,
      LexLineComment_loop orig (body ++ u8_of_Z 10 :: rest)
      = (mkToken (MatchGuard_loc orig rest) T_LineComment, rest))
  /\ LexLineComment_loop orig body
     = (mkToken (MatchGuard_loc orig []) T_InvalidLineComment, []).
Proof.
  intros Hb. induction body as [|c body IH].
  - split; [intros rest|]; reflexivity.
  - cbn [forallb] in Hb. apply andb_prop in Hb as [Hc Hb].
    apply negb_true_iff in Hc.
    destruct (IH Hb) as [IH1 IH2].
    split; [intros rest|]; cbn [app LexLineComment_loop]; rewrite Hc;
      [apply IH1 | exact IH2].
Qed.

(** X25.  A line comment runs from [;;] to the first line feed, which it
    includes; without a line feed it runs to the end of the slice and is
    an [InvalidLineComment]. *)
Theorem Lex_line_comment (body : list u8) :
  forallb (fun c => negb (u8_to_Z c =? 10)) body = true ->
  (forall rest,
      Lex (list_byte_of_string ";;" ++ body ++ u8_of_Z 10 :: rest)
      = (mkToken (list_byte_of_string ";;" ++ body ++ [u8_of_Z 10])
                 T_LineComment,
         rest))
  /\ Lex (list_byte_of_string ";;" ++ body)
     = (mkToken (list_byte_of_string ";;" ++ body) T_InvalidLineComment, []).
Proof.
  intros Hb.
  assert (Hb' : forallb (fun c => negb (u8_to_Z c =? 10))
                        (list_byte_of_string ";;" ++ body) = true).
  { rewrite forallb_app. apply andb_true_intro. split; [reflexivity | exact Hb]. }
  split; [intros rest|].
  - destruct (LexLineComment_loop_run
                (list_byte_of_string ";;" ++ body ++ u8_of_Z 10 :: rest)
                _ Hb') as [H1 _].
    specialize (H1 rest). rewrite <- app_assoc in H1.
    change (Lex (list_byte_of_string ";;" ++ body ++ u8_of_Z 10 :: rest))
      with (let data := list_byte_of_string ";;" ++ body ++ u8_of_Z 10 :: rest in
            let '(m, _) := MatchString data ";;" in
            if m then LexLineComment data
            else (mkToken (MatchGuard_loc data (SkipChar data)) T_InvalidChar,
                  SkipChar data)).
    cbv zeta. rewrite MatchString_app. unfold LexLineComment.
    refine (eq_trans H1 _). f_equal. f_equal.
    replace (list_byte_of_string ";;" ++ body ++ u8_of_Z 10 :: rest)
      with ((list_byte_of_string ";;" ++ body ++ [u8_of_Z 10]) ++ rest)
      by (rewrite <- !app_assoc; reflexivity).
    apply MatchGuard_loc_app.
  - destruct (LexLineComment_loop_run (list_byte_of_string ";;" ++ body)
                _ Hb') as [_ H2].
    change (Lex (list_byte_of_string ";;" ++ body))
      with (let data := list_byte_of_string ";;" ++ body in
            let '(m, _) := MatchString data ";;" in
            if m then LexLineComment data
            else (mkToken (MatchGuard_loc data (SkipChar data)) T_InvalidChar,
                  SkipChar data)).
    cbv zeta. rewrite MatchString_app. unfold LexLineComment.
    refine (eq_trans H2 _). f_equal. f_equal.
    rewrite <- (app_nil_r (list_byte_of_string ";;" ++ body)) at 1.
    apply MatchGuard_loc_app.
Qed.

Lemma Lex_line_comment_witness :
  Lex (list_byte_of_string ";;" ++ list_byte_of_string " a (; b"
         ++ u8_of_Z 10 :: list_byte_of_string "c")
  = (mkToken (list_byte_of_string ";;" ++ list_byte_of_string " a (; b"
                ++ [u8_of_Z 10])
             T_LineComment,
     list_byte_of_string "c").
Proof.
  exact (proj1 (Lex_line_comment (list_byte_of_string " a (; b") eq_refl)
               (list_byte_of_string "c")).
Defined.




Lemma MatchString_two_fails (data : SpanU8) (sv : string) (c0 c1 : byte) :
  list_byte_of_string sv = [c0; c1] ->
  PeekChar data 0 = u8_to_Z c0 ->
  (PeekChar data 1 =? u8_to_Z c1) = false ->
  MatchString data sv = (false, data).
Proof.
  intros Hsv H0 H1. unfold MatchString. rewrite Hsv.
  cbn [MatchString_loop]. unfold MatchChar at 1.
  rewrite H0, Z.eqb_refl.
  destruct data as [|c data1].
  - cbn in H0. pose proof (u8_to_Z_range c0). lia.
  - cbn [SkipChar tl]. unfold MatchChar.
    change (PeekChar data1 0) with (PeekChar (c :: data1) 1).
    rewrite H1. reflexivity.
Qed.

(** X27.  The parentheses.  [)] is an [Rpar] token and [(] an [Lpar] token when
    neither [;] nor [@] follows it.  On [(@] the token is [LparAnn], its
    location is empty and the span is left where it was: the annotation is
    lexed from the parenthesis, which is no reserved character. *)
Theorem Lex_parentheses (rest : SpanU8) :
  Lex (")"%byte :: rest) = (mkToken [")"%byte] T_Rpar, rest)
  /\ ((PeekChar rest 0 =? u8_to_Z ";") = false ->
      (PeekChar rest 0 =? u8_to_Z "@") = false ->
      Lex ("("%byte :: rest) = (mkToken ["("%byte] T_Lpar, rest))
  /\ Lex ("("%byte :: "@"%byte :: rest)
     = (mkToken [] T_LparAnn, "("%byte :: "@"%byte :: rest).
Proof.
  split; [|split].
  - change (Lex (")"%byte :: rest))
      with (mkToken (MatchGuard_loc ([")"%byte] ++ rest) rest) T_Rpar, rest).
    rewrite MatchGuard_loc_app. reflexivity.
  - intros H1 H2.
    change (Lex ("("%byte :: rest))
      with (let data := "("%byte :: rest in
            let '(m, data1) := MatchString data "(;" in
            if m then LexBlockComment data
            else
              let '(m, data2) := MatchString data1 "(@" in
              if m then LexAnnotation data
              else (mkToken (MatchGuard_loc data (SkipChar data2)) T_Lpar,
                    SkipChar data2)).
    cbv zeta.
    erewrite MatchString_two_fails; [|reflexivity | reflexivity | exact H1].
    erewrite MatchString_two_fails; [|reflexivity | reflexivity | exact H2].
    cbn [SkipChar tl].
    change ("("%byte :: rest) with (["("%byte] ++ rest).
    rewrite MatchGuard_loc_app. reflexivity.
  - change (Lex ("("%byte :: "@"%byte :: rest))
      with (mkToken (MatchGuard_loc ([] ++ "("%byte :: "@"%byte :: rest)
                                    ("("%byte :: "@"%byte :: rest))
                    T_LparAnn,
            "("%byte :: "@"%byte :: rest).
    rewrite MatchGuard_loc_app. reflexivity.
Qed.

Lemma has_underscore_cons (c : u8) (l : list u8) :
  has_underscore (c :: l) = (u8_to_Z c =? u8_to_Z "_") || has_underscore l.
Proof. reflexivity. Qed.

Lemma digit_is_not_underscore (d : u8) :
  IsDigit (u8_to_Z d) = true -> (u8_to_Z d =? u8_to_Z "_") = false.
Proof.
  intros H. destruct (Z.eqb_spec (u8_to_Z d) (u8_to_Z "_")) as [E|_];
    [|reflexivity].
  rewrite E in H. discriminate H.
Qed.

Lemma digit_is_reserved (c : Z) : IsDigit c = true -> IsReserved c = true.
Proof.
  intros H. unfold IsDigit, IsReserved, IsCharClass in *.
  assert (Hall : forallb
                   (fun t => implb (negb (Z.land t CharClass.Digit =? 0))
                                   (negb (Z.land t CharClass.Reserved =? 0)))
                   (0 :: kCharClasses) = true) by (vm_compute; reflexivity).
  assert (Hin : In (nth (Z.to_nat (c + 1)) kCharClasses 0) (0 :: kCharClasses)).
  { destruct (Nat.lt_ge_cases (Z.to_nat (c + 1)) (List.length kCharClasses)).
    - right. apply nth_In. assumption.
    - left. symmetry. apply nth_overflow. assumption. }
  pose proof (proj1 (forallb_forall _ _) Hall _ Hin) as Hi.
  cbv beta in Hi. rewrite H in Hi. exact Hi.
Qed.

(** [MatchNum] consumes a run of digits with single underscores between
    digits, up to a character that is no reserved character. *)
Lemma MatchNum_loop_run (l : list u8) (rest : SpanU8) :
  digit_run IsDigit l ->
  IsReserved (PeekChar rest 0) = false ->
  forall ok hu,
    MatchNum_loop IsDigit (l ++ rest) ok hu
    = (rest, true, if has_underscore l then HasUnderscores.Yes else hu).
Proof.
  intros Hrun Hrest.
  assert (Hend : forall hu,
             MatchNum_loop IsDigit rest true hu = (rest, true, hu)).
  { intros hu.
    assert (Hd : IsDigit (PeekChar rest 0) = false).
    { destruct (IsDigit (PeekChar rest 0)) eqn:E; [|reflexivity].
      apply digit_is_reserved in E. congruence. }
    destruct rest as [|r rest']; cbn [MatchNum_loop]; rewrite Hd; reflexivity. }
  assert (Hnu : (PeekChar rest 0 =? u8_to_Z "_") = false).
  { destruct (Z.eqb_spec (PeekChar rest 0) (u8_to_Z "_")) as [E|_];
      [|reflexivity].
    rewrite E in Hrest. discriminate Hrest. }
  induction Hrun as [d Hd | d l Hd Hrun IH | d l Hd Hrun IH]; intros ok hu.
  - cbn [app MatchNum_loop]. rewrite PeekChar_cons, Hd, Hnu.
    rewrite has_underscore_cons, (digit_is_not_underscore d Hd).
    apply Hend.
  - cbn [app MatchNum_loop]. rewrite PeekChar_cons, Hd.
    assert (Hp : (PeekChar (l ++ rest) 0 =? u8_to_Z "_") = false).
    { destruct (digit_run_head IsDigit l Hrun) as (h & t & Hl & Hh).
      rewrite Hl. cbn [app]. rewrite PeekChar_cons.
      apply digit_is_not_underscore. exact Hh. }
    rewrite Hp, (IH true hu).
    rewrite (has_underscore_cons d), (digit_is_not_underscore d Hd).
    reflexivity.
  - cbn [app MatchNum_loop]. rewrite PeekChar_cons, Hd.
    rewrite PeekChar_cons. rewrite Z.eqb_refl.
    rewrite (IH false HasUnderscores.Yes).
    rewrite (has_underscore_cons d), (has_underscore_cons "_"%byte).
    rewrite Z.eqb_refl, orb_true_r.
    destruct (has_underscore l); reflexivity.
Qed.

Lemma MatchChar_reserved_fails (d : SpanU8) (c : byte) :
  IsReserved (PeekChar d 0) = false ->
  IsReserved (u8_to_Z c) = true ->
  MatchChar d c = (false, d).
Proof.
  intros Hd Hc. unfold MatchChar.
  destruct (Z.eqb_spec (PeekChar d 0) (u8_to_Z c)) as [E|_]; [|reflexivity].
  rewrite E in Hd. congruence.
Qed.

Lemma MatchChar_digit_fails (data : SpanU8) (c : byte) :
  IsDigit (PeekChar data 0) = true ->
  IsDigit (u8_to_Z c) = false ->
  MatchChar data c = (false, data).
Proof.
  intros Hd Hc. unfold MatchChar.
  destruct (Z.eqb_spec (PeekChar data 0) (u8_to_Z c)) as [E|_]; [|reflexivity].
  rewrite E in Hd. congruence.
Qed.

Lemma LexNumber_body_digit_run (l : list u8) (rest : SpanU8) (tt_ : TokenType) :
  digit_run IsDigit l ->
  IsReserved (PeekChar rest 0) = false ->
  LexNumber_body IsDigit "e" "E" (l ++ rest) tt_ HasUnderscores.No
  = Some (rest, tt_, underscores_of l).
Proof.
  intros Hrun Hrest. unfold LexNumber_body, MatchNum_with.
  rewrite (MatchNum_loop_run l rest Hrun Hrest false HasUnderscores.No).
  rewrite (MatchChar_reserved_fails rest "." Hrest eq_refl).
  unfold MatchChar_either.
  rewrite (MatchChar_reserved_fails rest "e" Hrest eq_refl).
  rewrite (MatchChar_reserved_fails rest "E" Hrest eq_refl).
  rewrite (NoTrailingReservedChars_none rest Hrest).
  reflexivity.
Qed.

Lemma digit_run_peek (l : list u8) (rest : SpanU8) :
  digit_run IsDigit l -> IsDigit (PeekChar (l ++ rest) 0) = true.
Proof.
  intros Hrun. destruct (digit_run_head IsDigit l Hrun) as (h & t & -> & Hh).
  cbn [app]. rewrite PeekChar_cons. exact Hh.
Qed.

Lemma LexNumber_digit_run (sign : Sign.t) (l : list u8) (rest : SpanU8)
      (tt_ : TokenType) :
  digit_run IsDigit l ->
  IsReserved (PeekChar rest 0) = false ->
  LexNumber (sign_text sign ++ l ++ rest) tt_
  = (mkTokenImm (sign_text sign ++ l) tt_
       (Imm_LiteralInfo (LiteralInfo.Number sign (underscores_of l))),
     rest).
Proof.
  intros Hrun Hrest. unfold LexNumber.
  pose proof (digit_run_peek l rest Hrun) as Hpk.
  assert (Hsign : MatchSign (sign_text sign ++ l ++ rest) = (sign, l ++ rest)).
  { destruct sign; cbn [sign_text app]; unfold MatchSign.
    - rewrite (MatchChar_digit_fails (l ++ rest) "+" Hpk eq_refl).
      rewrite (MatchChar_digit_fails (l ++ rest) "-" Hpk eq_refl).
      reflexivity.
    - rewrite MatchChar_cons. reflexivity.
    - change (MatchChar ("-"%byte :: l ++ rest) "+")
        with (false, "-"%byte :: l ++ rest).
      cbv iota. rewrite MatchChar_cons. reflexivity. }
  rewrite Hsign, (LexNumber_body_digit_run l rest tt_ Hrun Hrest).
  rewrite app_assoc, MatchGuard_loc_app. reflexivity.
Qed.

Lemma digit_first (c : u8) :
  IsDigit (u8_to_Z c) = true ->
  ((u8_to_Z c =? -1) = false
   /\ (u8_to_Z c =? u8_to_Z "(") = false
   /\ (u8_to_Z c =? u8_to_Z ")") = false
   /\ (u8_to_Z c =? u8_to_Z ";") = false)
  /\ ((u8_to_Z c =? u8_to_Z " ") || (u8_to_Z c =? 9) || (u8_to_Z c =? 13)
      || (u8_to_Z c =? 10) = false
      /\ (u8_to_Z c =? u8_to_Z x22) = false
      /\ (u8_to_Z c =? u8_to_Z "+") || (u8_to_Z c =? u8_to_Z "-") = false)
  /\ ((u8_to_Z c =? u8_to_Z "i") = false
      /\ (u8_to_Z c =? u8_to_Z "n") = false)
  /\ (if u8_to_Z c =? u8_to_Z "0" then c = "0"%byte
      else is_one_of (u8_to_Z c) "123456789" = true).
Proof.
  destruct c; vm_compute; intros H; try discriminate H;
    repeat split; reflexivity.
Qed.

(** [0x] does not begin a run of decimal digits that no reserved
    character follows. *)
Lemma digit_run_not_hex (t : list u8) (rest : SpanU8) :
  digit_run IsDigit ("0"%byte :: t) ->
  IsReserved (PeekChar rest 0) = false ->
  (PeekChar (t ++ rest) 0 =? u8_to_Z "x") = false.
Proof.
  intros Hrun Hrest.
  inversion Hrun as [d Hd Heq | d l' Hd Hr Heq | d l' Hd Hr Heq]; subst.
  - cbn [app]. destruct (Z.eqb_spec (PeekChar rest 0) (u8_to_Z "x"))
      as [E|_]; [|reflexivity].
    rewrite E in Hrest. discriminate Hrest.
  - destruct (digit_run_head IsDigit t Hr) as (h' & t' & -> & Hh').
    cbn [app]. rewrite PeekChar_cons.
    destruct (Z.eqb_spec (u8_to_Z h') (u8_to_Z "x")) as [E|_];
      [|reflexivity].
    rewrite E in Hh'. discriminate Hh'.
  - reflexivity.
Qed.

(** X28.  A decimal integer: an optional sign and a run of decimal digits with
    single underscores between digits, followed by no reserved
    character.  It is lexed as one token, [Nat] without a sign and [Int]
    with one, that records the sign and whether the run has an
    underscore. *)
Theorem Lex_integer (sign : Sign.t) (l : list u8) (rest : SpanU8) :
  digit_run IsDigit l ->
  IsReserved (PeekChar rest 0) = false ->
  Lex (sign_text sign ++ l ++ rest)
  = (mkTokenImm (sign_text sign ++ l) (integer_type sign)
       (Imm_LiteralInfo (LiteralInfo.Number sign (underscores_of l))),
     rest).
Proof.
  intros Hrun Hrest.
  pose proof (LexNumber_digit_run sign l rest (integer_type sign) Hrun Hrest)
    as HN.
  destruct (digit_run_head IsDigit l Hrun) as (h & t & Hl & Hh).
  destruct (digit_first h Hh)
    as ((H1 & H2 & H3 & H4) & (H5 & H6 & H7) & (Hi & Hn) & H8).
  rewrite Hl in *.
  destruct sign; cbn [sign_text integer_type app] in *.
  - unfold Lex. rewrite PeekChar_cons, H1, H2, H3, H4, H5, H6, H7.
    destruct (u8_to_Z h =? u8_to_Z "0").
    + subst h.
      erewrite MatchString_two_fails;
        [|reflexivity | reflexivity
         | exact (digit_run_not_hex t rest Hrun Hrest)].
      exact HN.
    + rewrite H8. exact HN.
  - unfold Lex. rewrite PeekChar_cons.
    change (u8_to_Z "+" =? -1) with false.
    change (u8_to_Z "+" =? u8_to_Z "(") with false.
    change (u8_to_Z "+" =? u8_to_Z ")") with false.
    change (u8_to_Z "+" =? u8_to_Z ";") with false.
    change ((u8_to_Z "+" =? u8_to_Z " ") || (u8_to_Z "+" =? 9)
            || (u8_to_Z "+" =? 13) || (u8_to_Z "+" =? 10)) with false.
    change (u8_to_Z "+" =? u8_to_Z x22) with false.
    change ((u8_to_Z "+" =? u8_to_Z "+") || (u8_to_Z "+" =? u8_to_Z "-"))
      with true.
    cbv iota.
    change (PeekChar ("+"%byte :: h :: t ++ rest) 1) with (u8_to_Z h).
    rewrite Hi, Hn.
    destruct (u8_to_Z h =? u8_to_Z "0").
    + subst h. cbn [SkipChar tl].
      erewrite MatchString_two_fails;
        [|reflexivity | reflexivity
         | exact (digit_run_not_hex t rest Hrun Hrest)].
      exact HN.
    + rewrite H8. exact HN.
  - unfold Lex. rewrite PeekChar_cons.
    change (u8_to_Z "-" =? -1) with false.
    change (u8_to_Z "-" =? u8_to_Z "(") with false.
    change (u8_to_Z "-" =? u8_to_Z ")") with false.
    change (u8_to_Z "-" =? u8_to_Z ";") with false.
    change ((u8_to_Z "-" =? u8_to_Z " ") || (u8_to_Z "-" =? 9)
            || (u8_to_Z "-" =? 13) || (u8_to_Z "-" =? 10)) with false.
    change (u8_to_Z "-" =? u8_to_Z x22) with false.
    change ((u8_to_Z "-" =? u8_to_Z "+") || (u8_to_Z "-" =? u8_to_Z "-"))
      with true.
    cbv iota.
    change (PeekChar ("-"%byte :: h :: t ++ rest) 1) with (u8_to_Z h).
    rewrite Hi, Hn.
    destruct (u8_to_Z h =? u8_to_Z "0").
    + subst h. cbn [SkipChar tl].
      erewrite MatchString_two_fails;
        [|reflexivity | reflexivity
         | exact (digit_run_not_hex t rest Hrun Hrest)].
      exact HN.
    + rewrite H8. exact HN.
Qed.

Lemma Lex_integer_witness :
  Lex (list_byte_of_string "-" ++ list_byte_of_string "1_000"
         ++ list_byte_of_string ")")
  = (mkTokenImm (list_byte_of_string "-" ++ list_byte_of_string "1_000") T_Int
       (Imm_LiteralInfo (LiteralInfo.Number Sign.Minus HasUnderscores.Yes)),
     list_byte_of_string ")").
Proof.
  refine (Lex_integer Sign.Minus (list_byte_of_string "1_000")
            (list_byte_of_string ")") _ eq_refl).
  apply digit_run_underscore; [reflexivity|].
  apply digit_run_cons; [reflexivity|].
  apply digit_run_cons; [reflexivity|].
  apply digit_run_one. reflexivity.
Defined.

Lemma wrapU_wrapU_add (s n : Z) :
  wrapU 32 (wrapU 32 (s + 1) + n) = wrapU 32 (s + (1 + n)).
Proof.
  unfold wrapU. rewrite Zplus_mod_idemp_l. f_equal. lia.
Qed.

Lemma LexText_loop_plain (body : list u8) :
  forallb (fun c => is_plain_text (u8_to_Z c)) body = true ->
  forall (has_error : bool) (byte_size : Z),
    wrapU 32 byte_size = byte_size ->
    (forall rest,
        LexText_loop (body ++ x22 :: rest) has_error byte_size
        = (rest, has_error,
           wrapU 32 (byte_size + Z.of_nat (List.length body))))
    /\ fst (LexText_loop body has_error byte_size) = ([], true).
Proof.
  intros Hb. induction body as [|c body IH]; intros has_error byte_size Hs.
  - split; [intros rest|]; [|reflexivity].
    cbn [app List.length LexText_loop].
    change (u8_to_Z x22 =? 10) with false.
    rewrite Z.eqb_refl, Z.add_0_r, Hs. reflexivity.
  - cbn [forallb] in Hb. apply andb_prop in Hb as [Hc Hb].
    unfold is_plain_text in Hc. apply negb_true_iff in Hc.
    apply orb_false_elim in Hc as [Hc H3].
    apply orb_false_elim in Hc as [H1 H2].
    assert (Hs' : wrapU 32 (wrapU 32 (byte_size + 1)) = wrapU 32 (byte_size + 1)).
    { unfold wrapU. apply Z.mod_mod. discriminate. }
    destruct (IH Hb has_error (wrapU 32 (byte_size + 1)) Hs') as [IH1 IH2].
    split; [intros rest|]; cbn [app LexText_loop]; rewrite H1, H2, H3.
    + rewrite IH1, wrapU_wrapU_add. do 2 f_equal.
      cbn [List.length]. lia.
    + exact IH2.
Qed.

(** X29.  A quoted text without line feed, double quote or backslash is a
    [Text] token from one double quote to the next, whose [byte_size] is
    the number of characters between them, as a [u32]; without a closing
    double quote it is an [InvalidText] token that runs to the end of the
    slice. *)
Theorem Lex_text_plain (body : list u8) :
  forallb (fun c => is_plain_text (u8_to_Z c)) body = true ->
  (forall rest,
      Lex (x22 :: body ++ x22 :: rest)
      = (mkTokenImm (x22 :: body ++ [x22]) T_Text
           (Imm_Text {| text := x22 :: body ++ [x22];
                        byte_size := wrapU 32 (Z.of_nat (List.length body)) |}),
         rest))
  /\ Lex (x22 :: body) = (mkToken (x22 :: body) T_InvalidText, []).
Proof.
  intros Hb.
  destruct (LexText_loop_plain body Hb false 0 eq_refl) as [H1 H2].
  split; [intros rest|].
  - change (Lex (x22 :: body ++ x22 :: rest))
      with (LexText (x22 :: body ++ x22 :: rest)).
    unfold LexText. rewrite MatchChar_cons, (H1 rest).
    replace (x22 :: body ++ x22 :: rest)
      with ((x22 :: body ++ [x22]) ++ rest)
      by (cbn [app]; rewrite <- app_assoc; reflexivity).
    rewrite MatchGuard_loc_app. reflexivity.
  - change (Lex (x22 :: body)) with (LexText (x22 :: body)).
    unfold LexText. rewrite MatchChar_cons.
    destruct (LexText_loop body false 0) as [[d e] s].
    injection H2 as -> ->.
    rewrite <- (app_nil_r (x22 :: body)) at 1.
    rewrite MatchGuard_loc_app. reflexivity.
Qed.

Lemma Lex_text_plain_witness :
  Lex (x22 :: list_byte_of_string "memory" ++ x22 :: list_byte_of_string ")")
  = (mkTokenImm (x22 :: list_byte_of_string "memory" ++ [x22]) T_Text
       (Imm_Text {| text := x22 :: list_byte_of_string "memory" ++ [x22];
                    byte_size := 6 |}),
     list_byte_of_string ")").
Proof.
  exact (proj1 (Lex_text_plain (list_byte_of_string "memory") eq_refl)
               (list_byte_of_string ")")).
Defined.

Lemma LexBlockComment_loop_closed (orig : SpanU8) :
  forall data nesting tok d2,
    LexBlockComment_loop orig data nesting = (tok, d2) ->
    (type tok = T_BlockComment /\
     exists mid, data = mid ++ ";"%byte :: ")"%byte :: d2)
    \/ (type tok = T_InvalidBlockComment /\ d2 = []).
Proof.
  intros data. induction data as [data IH] using span_strong_ind.
  intros nesting tok d2 H. destruct data as [|c data1].
  - cbn in H. injection H as <- <-. right. split; reflexivity.
  - cbn [LexBlockComment_loop] in H.
    assert (IH1 : forall n,
               LexBlockComment_loop orig data1 n = (tok, d2) ->
               (type tok = T_BlockComment /\
                exists mid, c :: data1 = mid ++ ";"%byte :: ")"%byte :: d2)
               \/ (type tok = T_InvalidBlockComment /\ d2 = [])).
    { intros n Hn.
      destruct (IH data1 ltac:(cbn; lia) n tok d2 Hn) as [[Ht [mid Hm]]|Hi];
        [left | right; exact Hi].
      split; [exact Ht|]. exists (c :: mid). rewrite Hm. reflexivity. }
    assert (IH2 : forall c1 data2 n,
               data1 = c1 :: data2 ->
               LexBlockComment_loop orig data2 n = (tok, d2) ->
               (type tok = T_BlockComment /\
                exists mid, c :: data1 = mid ++ ";"%byte :: ")"%byte :: d2)
               \/ (type tok = T_InvalidBlockComment /\ d2 = [])).
    { intros c1 data2 n -> Hn.
      destruct (IH data2 ltac:(cbn; lia) n tok d2 Hn) as [[Ht [mid Hm]]|Hi];
        [left | right; exact Hi].
      split; [exact Ht|]. exists (c :: c1 :: mid). rewrite Hm. reflexivity. }
    destruct (u8_to_Z c =? u8_to_Z ";") eqn:Ec.
    + destruct (PeekChar data1 0 =? u8_to_Z ")") eqn:Ep; [|exact (IH1 _ H)].
      destruct data1 as [|c1 data2].
      * injection H as <- <-. right. split; reflexivity.
      * destruct (nesting - 1 =? 0); [|exact (IH2 _ _ _ eq_refl H)].
        injection H as <- <-. left. split; [reflexivity|].
        exists []. cbn [app].
        apply Z.eqb_eq, u8_to_Z_inj in Ec. rewrite PeekChar_cons in Ep.
        apply Z.eqb_eq, u8_to_Z_inj in Ep. subst. reflexivity.
    + destruct (u8_to_Z c =? u8_to_Z "("); [|exact (IH1 _ H)].
      destruct (PeekChar data1 0 =? u8_to_Z ";"); [|exact (IH1 _ H)].
      destruct data1 as [|c1 data2].
      * injection H as <- <-. right. split; reflexivity.
      * exact (IH2 _ _ _ eq_refl H).
Qed.

Lemma LexBlockComment_loop_flat (orig : SpanU8) (body rest : list u8) :
  forallb (fun c => negb ((u8_to_Z c =? u8_to_Z ";")
                          || (u8_to_Z c =? u8_to_Z "("))) body = true ->
  LexBlockComment_loop orig (body ++ ";"%byte :: ")"%byte :: rest) 1
  = (mkToken (MatchGuard_loc orig rest) T_BlockComment, rest).
Proof.
  intros Hb. induction body as [|c body IH].
  - reflexivity.
  - cbn [forallb] in Hb. apply andb_prop in Hb as [Hc Hb].
    apply negb_true_iff, orb_false_elim in Hc as [H1 H2].
    cbn [app LexBlockComment_loop]. rewrite H1, H2. exact (IH Hb).
Qed.

(** X30.  A block comment.  On a slice that begins with [(;], [Lex] returns a
    [BlockComment] token that ends with a [;)] behind the opening [(;],
    or, when the comment is not closed, an [InvalidBlockComment] token
    that runs to the end of the slice.  A comment with neither [;] nor [(]
    between [(;] and [;)] is closed by that [;)]. *)
Theorem Lex_block_comment (d : list u8) :
  (forall tok rest,
      Lex ("("%byte :: ";"%byte :: d) = (tok, rest) ->
      (type tok = T_BlockComment
       /\ exists body,
           d = body ++ ";"%byte :: ")"%byte :: rest
           /\ loc tok = "("%byte :: ";"%byte :: body ++ [";"%byte; ")"%byte])
      \/ (type tok = T_InvalidBlockComment
          /\ rest = []
          /\ loc tok = "("%byte :: ";"%byte :: d))
  /\ (forall body rest,
         d = body ++ ";"%byte :: ")"%byte :: rest ->
         forallb (fun c => negb ((u8_to_Z c =? u8_to_Z ";")
                                 || (u8_to_Z c =? u8_to_Z "("))) body = true ->
         Lex ("("%byte :: ";"%byte :: d)
         = (mkToken ("("%byte :: ";"%byte :: body ++ [";"%byte; ")"%byte])
                    T_BlockComment,
            rest)).
Proof.
  assert (HL : Lex ("("%byte :: ";"%byte :: d)
               = LexBlockComment_loop ("("%byte :: ";"%byte :: d) d 1)
    by reflexivity.
  split.
  - intros tok rest H. rewrite HL in H.
    pose proof (LexBlockComment_loop_loc ("("%byte :: ";"%byte :: d) d 1) as Hl.
    rewrite H in Hl. cbn [fst snd] in Hl.
    destruct (LexBlockComment_loop_closed _ _ _ _ _ H)
      as [[Ht [mid Hm]]|[Ht Hr]].
    + left. split; [exact Ht|]. exists mid. split; [exact Hm|].
      rewrite Hl, Hm.
      replace ("("%byte :: ";"%byte :: mid ++ ";"%byte :: ")"%byte :: rest)
        with (("("%byte :: ";"%byte :: mid ++ [";"%byte; ")"%byte]) ++ rest)
        by (cbn [app]; rewrite <- app_assoc; reflexivity).
      apply MatchGuard_loc_app.
    + right. split; [exact Ht|]. split; [exact Hr|].
      rewrite Hl, Hr.
      rewrite <- (app_nil_r ("("%byte :: ";"%byte :: d)) at 1.
      apply MatchGuard_loc_app.
  - intros body rest -> Hb. rewrite HL.
    rewrite (LexBlockComment_loop_flat _ body rest Hb).
    replace ("("%byte :: ";"%byte :: body ++ ";"%byte :: ")"%byte :: rest)
      with (("("%byte :: ";"%byte :: body ++ [";"%byte; ")"%byte]) ++ rest)
      by (cbn [app]; rewrite <- app_assoc; reflexivity).
    rewrite MatchGuard_loc_app. reflexivity.
Qed.
